(* ===== verification/_CoqProject ===== *)
-Q . S2P
Prelude.v
Errors.v
GoStrings.v
GoWords.v
GoFloat.v
Rtp.v
Rebase.v
RtpStats.v
Ports.v
GoTime.v
Config.v
Meta.v
Mux.v
Media.v
Lifecycle.v
Sdp.v
SdpRoundtrip.v
Setup.v
Bridge.v
MetaPath.v
Receive.v
Reports.v
Call.v
CallMedia.v
Manager.v
ManagerProps.v
CallRequests.v
ManagerIdle.v
Service.v
Program.v
