(* ===== verification/Prelude.v ===== *)
(** * Verification of the WhatsApp connector

    The program (Go, under src/) joins WhatsApp calls to LiveKit rooms. An RPC service
    (internal/connector) asks the call manager (internal/call) to accept, dial, connect
    or disconnect a call. For each call the manager opens a UDP socket
    (internal/media/ports.go), negotiates SDP (internal/media/sdp.go), talks to Meta's
    calls API (internal/meta), runs an ICE, DTLS and SRTP transport
    (internal/media/transport.go) and a bridge to the LiveKit room
    (internal/livekitbridge), and copies RTP in both directions. Go routines share the
    objects of a call under mutexes and signal each other by closing channels.

    ** Files

    - Prelude: machine words with their wrap-around, durations, the tactics [words] and
      [conjs], the hint base [words] and the rewriting base [unwrap].
    - Errors: Go errors, wrapping, [errors.Is] and [errors.As], the [result] type and
      the notation for early returns.
    - GoStrings, GoWords, GoTime, GoFloat: the parts of the standard library the program
      relies on: strings, strconv, hex and IPv4 texts; how words and decimal numbers
      are read back; [time.ParseDuration]; binary64.
    - Rtp: the RTP packet. Rebase: livekitbridge/rebase.go. RtpStats: media/rtpstats.go.
    - Ports: media/ports.go. Config: config/config.go. Meta: meta/client.go.
    - Mux: the packet mux at the end of media/transport.go (readLoop, endpoints).
    - Media: the inbound pump, ReadRTP, the write functions, statistics and RTCP of
      media/transport.go.
    - Lifecycle: NewTransport, Start, run, connectICE, setResult, Wait, Close and
      closeResources of media/transport.go, with every interleaving of run and Close.
      Setup: run and connectICE once more as functions, with the loops over the
      candidates, the DTLS role, the SRTP profile and the sessions; its runs are
      executions of Lifecycle.
    - Sdp: media/sdp.go, and the certificate check inside Transport.run. SdpRoundtrip:
      what it prints is read back.
    - Bridge: livekitbridge/bridge.go, against an interface (the classes [MetaWriter]
      and [MetaWriterLaws]) for the write towards Meta. MetaPath: Call.writeToMeta of
      call/manager.go, the instance of that interface on top of Media.
    - Receive: the goroutine of Call.connected that copies Meta's audio from Media to
      Bridge. Reports: Transport.RunRTCP and the diagnostics of a call (observeRTCP,
      statsAttrs, logStats, callLabel).
    - Call: the Call object of call/manager.go, its operations, and the goroutine that
      runs a call (runInbound, runOutbound, awaitEnd, fail, cleanup) as a step function.
      CallMedia: the same goroutine together with the transport of Lifecycle.
    - Manager: Accept, Dial, Connect, Disconnect, Shutdown and finish as threads of
      critical sections over the registry, the wait group, the draining flag and the
      heap of call objects. ManagerProps: the theorems about it. CallRequests: the
      HTTP requests of a call, through the retry loop of Meta. ManagerIdle: who is
      responsible for a call that is not registered.
    - Service: connector/service.go and connector/auth.go.
    - Program: cmd/whatsapp-connector/main.go: configuration, routes, and the process
      around the manager.

    ** Modelling conventions

    A Go integer is a [Z] with its wrap written out. State is passed explicitly; a
    critical section of a mutex, or a call of a library, is one step, and steps of
    different goroutines interleave freely. A channel that is only ever closed is a
    count of its closes, so that a double close (a panic) is visible; a select is a
    choice among its ready cases, made by an argument of the step. The clock, random
    bytes, the outcome of library and network calls (pion's SDP, ICE, DTLS and SRTP,
    the LiveKit SDK, net/http, SHA-256, JSON text) are arguments; hypotheses about them
    are stated in the theorem that needs them and have a witness.

    Definitions are executable, and there is no fuel that could run out: loops of the
    source are structural recursions on the list of what they consume (packets,
    attributes, actions), on the three attempts of the Meta client, or on the number of
    ports in the range, which is the bound of the loop in the source. The one loop
    without a bound of its own, the wait for the ICE agent in [connectICE], recurses on
    the agent's replies and is proved to end when its context does.

    ** What the theorems show

    - Calls (ManagerProps, CallRequests), for every reachable state: Meta receives the
      HTTP requests of each call in protocol order, retries included; after a user
      hang-up no terminate is started; a finished or dropped call holds nothing and is
      not registered; a stopped call always finishes; set-up has one outcome for all
      waiters; a Shutdown that returns nil has waited for every call it found; a
      duplicate Accept joins the existing call and disturbs nothing; Dial honours a
      shutdown. Two examples exhibit schedules in which Accept and Dial do less than
      that ([accept_registers_after_shutdown], [dial_overwrites_registry]).
    - The process (Program): a graceful stop leaves no request, call, socket or bridge
      behind (main stops the server first, which is what keeps the first of the two
      schedules away when the window is long enough); who reaches the service; a
      configuration that loads can carry calls.
    - Transport (Lifecycle, Setup, CallMedia): Close releases everything in every
      interleaving with set-up, it terminates, and a successful Wait means that media
      is up; set-up returns when its context ends, leaks nothing wherever it fails and
      succeeds exactly when the libraries do; a connected call has media, a released one
      has nothing open.
    - Media (Media, Mux, Receive): packets are conserved from the network to the room
      and never block the shared mux, the queue keeps the newest, each endpoint is a
      FIFO, closing releases every reader, and a timeout names its cause.
    - Audio (Rebase, Bridge, MetaPath): what Meta receives is one continuous RTP stream,
      in the order of the reads unless an unsubscription lets two goroutines overlap
      ([overlap_reorders]); every packet is accounted for, transient failures cost one
      packet, and the counters of the bridge and of the transport agree.
    - Reports (RtpStats, Media, Reports): the statistics on 16-bit sequence numbers
      refine an unbounded specification; the periodic RTCP packets, one per tick, cover
      the call without gap or overlap; RTCP from Meta is noted and logged in order
      without blocking.
    - Negotiation (Sdp, SdpRoundtrip): what a successful parse guarantees, that
      rejections are [ErrInvalidSDP], that an answer leaves the offered half alone, that
      the DTLS peer is pinned to the announced fingerprint, that an answer announces
      exactly the local half and that two ends running this code understand each other.
    - Edges (Meta, Config, Ports, Service): the requests and pauses of the retry loop
      and the policy of each operation, total validation of the environment with the
      priority of its errors, the port search, what is refused before the manager is
      asked.

    ** Not modelled

    How log lines are printed, HTTP serving and the cleaning of request paths, the
    participant's name, metadata, attributes and agents (passed through to LiveKit), the
    subscription in OnTrackPublished, key generation and X.509 encoding, the byte
    formats and network behaviour handled by the pion and LiveKit libraries (each call
    is a step with an outcome), and real time: timers are choices of the
    environment. Three places are coarser than the source: the closes inside
    [packetMux.Close] are one step, an operation of [meta.Client] is one step of its
    goroutine, the one at which it returns (its requests are those of [Meta]), and the
    width of the port range is computed without the wrap of int, which no range that
    [Load] accepts can reach. *)
From stdpp Require Export base list gmap strings pretty.
From Stdlib Require Export ZArith Lia.

Local Open Scope Z_scope.

(** * Machine integers

    A Go integer of width [w] is a [Z] kept in its range; every operation of
    the source that can wrap is followed by the wrap of its type. *)

Definition u8 (x : Z) : Z := x mod 256.
Definition u16 (x : Z) : Z := x mod 65536.
Definition u32 (x : Z) : Z := x mod 4294967296.
Definition u64 (x : Z) : Z := x mod 18446744073709551616.

(** Conversion of a 16-bit word to [int16]. *)
Definition i16 (x : Z) : Z :=
  let y := u16 x in if y <? 32768 then y else y - 65536.

Definition minInt64 : Z := -9223372036854775808.
Definition maxInt64 : Z := 9223372036854775807.

(** Conversion to [int64] (two's complement wrap). *)
Definition i64 (x : Z) : Z :=
  let y := u64 x in if y <? 9223372036854775808 then y else y - 18446744073709551616.

Definition is_u8 (x : Z) : Prop := 0 <= x < 256.
Definition is_u16 (x : Z) : Prop := 0 <= x < 65536.
Definition is_u32 (x : Z) : Prop := 0 <= x < 4294967296.
Definition is_u64 (x : Z) : Prop := 0 <= x < 18446744073709551616.

(** [time.Time] is a number of nanoseconds since the Unix epoch; [t.Sub(u)]
    saturates at the ends of [time.Duration] (an [int64] of nanoseconds). *)
Definition time_Sub (t u : Z) : Z := Z.max minInt64 (Z.min maxInt64 (t - u)).

Definition Millisecond : Z := 1000000.
Definition Second : Z := 1000000000.
Definition Minute : Z := 60 * Second.
Definition Hour : Z := 60 * Minute.

(** * Automation *)

(** [words] turns the wraps into quotient equations and calls [lia]. *)
Ltac words_unfold :=
  unfold is_u8, is_u16, is_u32, is_u64, i16, i64, u8, u16, u32, u64 in *;
  cbv zeta in *.

Ltac bool_to_prop :=
  repeat match goal with
  | H : context [Z.ltb ?a ?b] |- _ => destruct (Z.ltb_spec a b)
  | |- context [Z.ltb ?a ?b] => destruct (Z.ltb_spec a b)
  | H : context [Z.leb ?a ?b] |- _ => destruct (Z.leb_spec a b)
  | |- context [Z.leb ?a ?b] => destruct (Z.leb_spec a b)
  end.

(** [conjs] splits syntactic conjunctions only (it does not open ranges). *)
Ltac conjs := repeat match goal with |- _ /\ _ => split end.

Ltac words :=
  words_unfold; bool_to_prop; Z.div_mod_to_equations; lia.

Create HintDb words.
Create Rewrite HintDb unwrap.

Lemma u8_range x : is_u8 (u8 x).
Proof. words. Qed.
Lemma u16_range x : is_u16 (u16 x).
Proof. words. Qed.
Lemma u32_range x : is_u32 (u32 x).
Proof. words. Qed.
Lemma u64_range x : is_u64 (u64 x).
Proof. words. Qed.

#[export] Hint Resolve u8_range u16_range u32_range u64_range : words.

Lemma u8_small x : is_u8 x -> u8 x = x.
Proof. intros; apply Z.mod_small; auto. Qed.
Lemma u16_small x : is_u16 x -> u16 x = x.
Proof. intros; apply Z.mod_small; auto. Qed.
Lemma u32_small x : is_u32 x -> u32 x = x.
Proof. intros; apply Z.mod_small; auto. Qed.
Lemma u64_small x : is_u64 x -> u64 x = x.
Proof. intros; apply Z.mod_small; auto. Qed.

Lemma i16_range x : -32768 <= i16 x < 32768.
Proof. words. Qed.

(** [u16] and [u32] absorb an inner wrap on either side of an addition. *)
Lemma u16_add_l a b : u16 (u16 a + b) = u16 (a + b).
Proof. apply Z.add_mod_idemp_l; lia. Qed.
Lemma u16_add_r a b : u16 (a + u16 b) = u16 (a + b).
Proof. apply Z.add_mod_idemp_r; lia. Qed.
Lemma u16_sub_l a b : u16 (u16 a - b) = u16 (a - b).
Proof. apply Zminus_mod_idemp_l. Qed.
Lemma u16_sub_r a b : u16 (a - u16 b) = u16 (a - b).
Proof. apply Zminus_mod_idemp_r. Qed.
Lemma u32_add_l a b : u32 (u32 a + b) = u32 (a + b).
Proof. apply Z.add_mod_idemp_l; lia. Qed.
Lemma u32_add_r a b : u32 (a + u32 b) = u32 (a + b).
Proof. apply Z.add_mod_idemp_r; lia. Qed.
Lemma u32_sub_l a b : u32 (u32 a - b) = u32 (a - b).
Proof. apply Zminus_mod_idemp_l. Qed.
Lemma u32_sub_r a b : u32 (a - u32 b) = u32 (a - b).
Proof. apply Zminus_mod_idemp_r. Qed.
Lemma i16_u16 a : i16 (u16 a) = i16 a.
Proof. unfold i16, u16. rewrite Z.mod_mod by lia. reflexivity. Qed.

Lemma i16_sub_l a b : i16 (u16 a - b) = i16 (a - b).
Proof. rewrite <- (i16_u16 (a - b)), <- u16_sub_l, i16_u16. reflexivity. Qed.
Lemma i16_sub_r a b : i16 (a - u16 b) = i16 (a - b).
Proof. rewrite <- (i16_u16 (a - b)), <- u16_sub_r, i16_u16. reflexivity. Qed.

(** Rewriting base that removes inner wraps. *)
#[export] Hint Rewrite u16_add_l u16_add_r u16_sub_l u16_sub_r
  u32_add_l u32_add_r u32_sub_l u32_sub_r i16_u16 i16_sub_l i16_sub_r : unwrap.

(** Disjoint high and low halves: [or] is addition. *)
Lemma lor_high_low a b n : 0 <= n -> 0 <= b < 2 ^ n -> Z.lor (a * 2 ^ n) b = a * 2 ^ n + b.
Proof.
  intros Hn Hb.
  assert (Hl : Z.land (a * 2 ^ n) b = 0).
  { apply Z.bits_inj'. intros i Hi. rewrite Z.land_spec, Z.bits_0.
    destruct (Z.lt_ge_cases i n).
    - rewrite Z.mul_pow2_bits_low by lia. reflexivity.
    - rewrite <- (Z.mod_small b (2 ^ n)) by lia.
      rewrite Z.mod_pow2_bits_high by lia. apply andb_false_r. }
  rewrite <- Z.lxor_lor by exact Hl. symmetry. apply Z.add_nocarry_lxor. exact Hl.
Qed.
