(* ===== verification/Errors.v ===== *)
(** Go errors: sentinel values, wrapping ([fmt.Errorf] with [%w]), the error
    types the program inspects with [errors.As], and [errors.Is]. *)
From S2P Require Import Prelude.

(** Package-level error variables compared by identity. The two [ErrNotReady]
    variables (packages media and livekitbridge) have the same text and are
    different values. *)
Inductive sentinel :=
  | EOF                       (* io.EOF *)
  | ErrClosedPipe             (* io.ErrClosedPipe *)
  | NetErrClosed              (* net.ErrClosed *)
  | Canceled                  (* context.Canceled *)
  | DeadlineExceeded          (* context.DeadlineExceeded *)
  | OsErrDeadlineExceeded     (* os.ErrDeadlineExceeded *)
  | ErrInvalidSDP             (* media.ErrInvalidSDP *)
  | ErrNoInboundRTP           (* media.ErrNoInboundRTP *)
  | MediaErrNotReady          (* media.ErrNotReady *)
  | BridgeErrNotReady.        (* livekitbridge.ErrNotReady *)

#[export] Instance sentinel_eq_dec : EqDecision sentinel.
Proof. solve_decision. Defined.

Inductive error :=
  | Sentinel (s : sentinel)
  | NewError (msg : string)                        (* errors.New, fmt.Errorf without %w *)
  | Wrapf (pre : string) (e : error) (post : string) (* fmt.Errorf with one %w *)
  | HttpStatusError (code : Z) (msg : string)      (* *meta.httpStatusError *)
  | OpError (op : string) (e : error).             (* *net.OpError *)

#[export] Instance error_eq_dec : EqDecision error.
Proof. solve_decision. Defined.

Definition sentinel_text (s : sentinel) : string :=
  match s with
  | EOF => "EOF"
  | ErrClosedPipe => "io: read/write on closed pipe"
  | NetErrClosed => "use of closed network connection"
  | Canceled => "context canceled"
  | DeadlineExceeded => "context deadline exceeded"
  | OsErrDeadlineExceeded => "i/o timeout"
  | ErrInvalidSDP => "invalid Meta DTLS-SRTP SDP"
  | ErrNoInboundRTP => "no inbound RTP received"
  | MediaErrNotReady | BridgeErrNotReady => "meta media path not ready"
  end.

(** The [Error] method. *)
Fixpoint Error (e : error) : string :=
  match e with
  | Sentinel s => sentinel_text s
  | NewError m => m
  | Wrapf pre e post => pre +:+ Error e +:+ post
  | HttpStatusError code m => "Meta calls API returned HTTP " +:+ pretty code +:+ ": " +:+ m
  | OpError op e => op +:+ ": " +:+ Error e
  end.

(** [errors.Is] against a sentinel: walk the chain of wrapped errors. *)
Fixpoint errors_Is (e : error) (s : sentinel) : bool :=
  match e with
  | Sentinel s' => bool_decide (s' = s)
  | Wrapf _ e _ | OpError _ e => errors_Is e s
  | NewError _ | HttpStatusError _ _ => false
  end.

(** [errors.As] with a target of type [*httpStatusError]. *)
Fixpoint errors_As_status (e : error) : option (Z * string) :=
  match e with
  | HttpStatusError code m => Some (code, m)
  | Wrapf _ e _ | OpError _ e => errors_As_status e
  | Sentinel _ | NewError _ => None
  end.

(** [errors.As] with a target of type [*net.OpError]: its operation. *)
Fixpoint errors_As_op (e : error) : option string :=
  match e with
  | OpError op _ => Some op
  | Wrapf _ e _ => errors_As_op e
  | Sentinel _ | NewError _ | HttpStatusError _ _ => None
  end.

(** Values or errors: a Go pair (T, error) where the value counts only when the
    error is nil. *)
Abbreviation result A := (error + A)%type.

Declare Scope go_scope.
Delimit Scope go_scope with go.

(** [if err != nil { return err }] after a fallible call. *)
Notation "'let?' x := a 'in' b" :=
  (match a with inl e => inl e | inr x => b end)
  (at level 10, x pattern, a at level 100, b at level 200) : go_scope.

(** Early return of an error when a test holds. *)
Notation "'guard' c 'else' e 'in' b" :=
  (if c then b else inl e)
  (at level 10, c at level 100, e at level 100, b at level 200) : go_scope.

Lemma errors_Is_wrap pre e post s : errors_Is (Wrapf pre e post) s = errors_Is e s.
Proof. reflexivity. Qed.
