(* ===== verification/GoStrings.v ===== *)
(** The parts of the Go standard library's text packages that the connector
    calls: strings, strconv.Atoi and Itoa, encoding/hex and IPv4 addresses of
    net/netip. A Go string is a sequence of bytes ([String.string]). *)
From S2P Require Import Prelude.
From Stdlib Require Import Ascii.

Local Open Scope Z_scope.

Definition code (c : ascii) : Z := Z.of_N (N_of_ascii c).
Definition chr (n : Z) : ascii := ascii_of_N (Z.to_N n).

Definition bytes (s : string) : list ascii := String.list_ascii_of_string s.
Definition of_bytes (l : list ascii) : string := String.string_of_list_ascii l.

(** [len(s)] *)
Definition len (s : string) : Z := Z.of_nat (String.length s).

Definition between (a : Z) (c : ascii) (b : Z) : bool := (a <=? code c) && (code c <=? b).

Definition isASCII (s : string) : bool := forallb (fun c => code c <? 128) (bytes s).

(** ** Case *)

Definition lower (c : ascii) : ascii := if between 65 c 90 then chr (code c + 32) else c.
Definition upper (c : ascii) : ascii := if between 97 c 122 then chr (code c - 32) else c.

Definition mapBytes (f : ascii -> ascii) (s : string) : string := of_bytes (map f (bytes s)).

(** [strings.ToLower] and [strings.ToUpper] take the byte-wise path on ASCII
    strings and [strings.Map] with the Unicode tables otherwise; the tables are
    the argument [uni]. *)
Definition ToLower (uni : string -> string) (s : string) : string :=
  if isASCII s then mapBytes lower s else uni s.
Definition ToUpper (uni : string -> string) (s : string) : string :=
  if isASCII s then mapBytes upper s else uni s.

(** [strings.EqualFold s t] for an ASCII [t]: besides the two cases of a letter,
    the only runes that fold to ASCII are U+017F (to s) and U+212A (to k). *)
Fixpoint foldEq (s t : list ascii) : bool :=
  match t with
  | [] => match s with [] => true | _ => false end
  | c :: t' =>
      match s with
      | [] => false
      | a :: s1 =>
          if Ascii.eqb (lower a) (lower c) then foldEq s1 t'
          else match s1 with
          | b :: s2 =>
              if (code a =? 0xC5) && (code b =? 0xBF) && (code (lower c) =? 115)
              then foldEq s2 t'
              else match s2 with
              | d :: s3 =>
                  if (code a =? 0xE2) && (code b =? 0x84) && (code d =? 0xAA)
                     && (code (lower c) =? 107)
                  then foldEq s3 t' else false
              | [] => false
              end
          | [] => false
          end
      end
  end.
Definition EqualFold (s t : string) : bool := foldEq (bytes s) (bytes t).

(** ** White space *)

Definition asciiSpace (c : ascii) : bool := between 9 c 13 || (code c =? 32).

(** The two- and three-byte encodings of [unicode.IsSpace]. *)
Definition space2 (a b : ascii) : bool :=
  (code a =? 0xC2) && ((code b =? 0x85) || (code b =? 0xA0)).
Definition space3 (a b c : ascii) : bool :=
  ((code a =? 0xE1) && (code b =? 0x9A) && (code c =? 0x80)) ||
  ((code a =? 0xE2) && (code b =? 0x80) &&
     (between 0x80 c 0x8A || (code c =? 0xA8) || (code c =? 0xA9) || (code c =? 0xAF))) ||
  ((code a =? 0xE2) && (code b =? 0x81) && (code c =? 0x9F)) ||
  ((code a =? 0xE3) && (code b =? 0x80) && (code c =? 0x80)).

Fixpoint trimLeft (l : list ascii) : list ascii :=
  match l with
  | [] => []
  | a :: l1 =>
      if asciiSpace a then trimLeft l1
      else match l1 with
      | [] => l
      | b :: l2 =>
          if space2 a b then trimLeft l2
          else match l2 with
          | [] => l
          | c :: l3 => if space3 a b c then trimLeft l3 else l
          end
      end
  end.

(** The same on the reversed bytes, for the end of the string. *)
Fixpoint trimRightRev (l : list ascii) : list ascii :=
  match l with
  | [] => []
  | a :: l1 =>
      if asciiSpace a then trimRightRev l1
      else match l1 with
      | [] => l
      | b :: l2 =>
          if space2 b a then trimRightRev l2
          else match l2 with
          | [] => l
          | c :: l3 => if space3 c b a then trimRightRev l3 else l
          end
      end
  end.

Definition TrimSpace (s : string) : string :=
  of_bytes (rev (trimRightRev (rev (trimLeft (bytes s))))).

(** [strings.Fields]: the maximal runs of non-space runes. [cur] is the run being
    read, reversed. *)
Definition flush (cur : list ascii) (rest : list string) : list string :=
  match cur with [] => rest | _ => of_bytes (rev cur) :: rest end.

Fixpoint fieldsAux (cur : list ascii) (l : list ascii) : list string :=
  match l with
  | [] => flush cur []
  | a :: l1 =>
      if asciiSpace a then flush cur (fieldsAux [] l1)
      else match l1 with
      | [] => flush (a :: cur) []
      | b :: l2 =>
          if space2 a b then flush cur (fieldsAux [] l2)
          else match l2 with
          | [] => fieldsAux (a :: cur) l1
          | c :: l3 => if space3 a b c then flush cur (fieldsAux [] l3)
                       else fieldsAux (a :: cur) l1
          end
      end
  end.
Definition Fields (s : string) : list string := fieldsAux [] (bytes s).

(** ** Prefixes, suffixes, replacement, joining *)

Definition HasPrefix (s p : string) : bool := String.prefix p s.

Definition dropBytes (n : nat) (s : string) : string := of_bytes (drop n (bytes s)).
Definition takeBytes (n : nat) (s : string) : string := of_bytes (take n (bytes s)).

Definition TrimPrefix (s p : string) : string :=
  if HasPrefix s p then dropBytes (String.length p) s else s.

Fixpoint dropWhile {A} (f : A -> bool) (l : list A) : list A :=
  match l with [] => [] | a :: l' => if f a then dropWhile f l' else l end.

(** [strings.TrimRight s c] for a cutset of one byte. *)
Definition TrimRight (s : string) (c : ascii) : string :=
  of_bytes (rev (dropWhile (Ascii.eqb c) (rev (bytes s)))).

(** [strings.ReplaceAll s a b] for a one-byte [a]. *)
Definition ReplaceByte (s : string) (a : ascii) (b : string) : string :=
  of_bytes (concat (map (fun c => if Ascii.eqb c a then bytes b else [c]) (bytes s))).

Definition Join (l : list string) (sep : string) : string := String.concat sep l.

(** ** Decimal numbers *)

Definition isDigit (c : ascii) : bool := between 48 c 57.
Definition digitVal (c : ascii) : Z := code c - 48.

Fixpoint digitsVal (acc : Z) (l : list ascii) : option Z :=
  match l with
  | [] => Some acc
  | c :: l' => if isDigit c then digitsVal (acc * 10 + digitVal c) l' else None
  end.

Definition inInt64 (x : Z) : bool := (minInt64 <=? x) && (x <=? maxInt64).

(** [strconv.Atoi]: [None] is a syntax or range error. *)
Definition Atoi (s : string) : option Z :=
  let num (neg : bool) (l : list ascii) : option Z :=
    match l with
    | [] => None
    | _ => match digitsVal 0 l with
           | Some v => let v := if neg then - v else v in
                       if inInt64 v then Some v else None
           | None => None
           end
    end in
  match bytes s with
  | c :: l => if code c =? 45 then num true l
              else if code c =? 43 then num false l
              else num false (c :: l)
  | [] => None
  end.

(** [strconv.Itoa] and [%d]. *)
Definition Itoa (x : Z) : string := pretty x.

(** ** Hexadecimal *)

Definition fromHexChar (c : ascii) : option Z :=
  if between 48 c 57 then Some (code c - 48)
  else if between 97 c 102 then Some (code c - 97 + 10)
  else if between 65 c 70 then Some (code c - 65 + 10)
  else None.

Fixpoint hexDecode (l : list ascii) : option (list Z) :=
  match l with
  | [] => Some []
  | [_] => None
  | a :: b :: l' =>
      match fromHexChar a, fromHexChar b, hexDecode l' with
      | Some x, Some y, Some r => Some (x * 16 + y :: r)
      | _, _, _ => None
      end
  end.
(** [hex.DecodeString] ([None] is an error). *)
Definition hex_DecodeString (s : string) : option (list Z) := hexDecode (bytes s).

Definition hexLower (d : Z) : ascii := if d <? 10 then chr (48 + d) else chr (87 + d).
Definition hexUpper (d : Z) : ascii := if d <? 10 then chr (48 + d) else chr (55 + d).

Definition hex_EncodeToString (l : list Z) : string :=
  of_bytes (concat (map (fun b => [hexLower (b / 16); hexLower (b mod 16)]) l)).

(** [fmt.Sprintf("%02X", b)] for a byte. *)
Definition fmt02X (b : Z) : string := of_bytes [hexUpper (b / 16); hexUpper (b mod 16)].

(** ** IPv4 addresses *)

(** An IPv4 [netip.Addr]. *)
Record Addr4 := mkAddr4 { a0 : Z; a1 : Z; a2 : Z; a3 : Z }.

#[export] Instance Addr4_eq_dec : EqDecision Addr4.
Proof. solve_decision. Defined.

Definition Addr4_String (a : Addr4) : string :=
  Itoa (a0 a) +:+ "." +:+ Itoa (a1 a) +:+ "." +:+ Itoa (a2 a) +:+ "." +:+ Itoa (a3 a).

(** The loop of netip's IPv4 parser: [fields] are the finished octets (reversed),
    [val] and [digLen] describe the octet being read. *)
Fixpoint parseIPv4 (fields : list Z) (val : Z) (digLen : nat) (l : list ascii)
  : option (list Z) :=
  match l with
  | [] => match digLen with O => None | _ => Some (rev (val :: fields)) end
  | c :: l' =>
      if isDigit c then
        if (digLen =? 1)%nat && (val =? 0) then None
        else let val := val * 10 + digitVal c in
             if 255 <? val then None else parseIPv4 fields val (S digLen) l'
      else if code c =? 46 then
        match digLen with
        | O => None
        | _ => if (length fields =? 3)%nat then None else parseIPv4 (val :: fields) 0 0 l'
        end
      else None
  end.

(** [netip.ParseAddr] followed by [Is4]: the program accepts only addresses for
    which the error is nil and [Is4] holds. The IPv4 parser runs when the first of
    the bytes '.', ':' and '%' is '.'; any other outcome is an error or an IPv6
    address, and the IPv4 parser rejects those texts. *)
Definition ParseAddr4 (s : string) : option Addr4 :=
  match parseIPv4 [] 0 0 (bytes s) with
  | Some [a; b; c; d] => Some (mkAddr4 a b c d)
  | _ => None
  end.

(** * Lemmas *)

Lemma bytes_app s t : bytes (s +:+ t) = bytes s ++ bytes t.
Proof. induction s; simpl; f_equal; auto. Qed.
Lemma of_bytes_bytes s : of_bytes (bytes s) = s.
Proof. apply String.string_of_list_ascii_of_string. Qed.
Lemma bytes_of_bytes l : bytes (of_bytes l) = l.
Proof. apply String.list_ascii_of_string_of_list_ascii. Qed.
Lemma bytes_inj s t : bytes s = bytes t -> s = t.
Proof. intros H. rewrite <- (of_bytes_bytes s), <- (of_bytes_bytes t), H. reflexivity. Qed.
Lemma of_bytes_app l k : of_bytes (l ++ k) = of_bytes l +:+ of_bytes k.
Proof. apply bytes_inj. rewrite bytes_app, !bytes_of_bytes. reflexivity. Qed.

Lemma code_range c : 0 <= code c < 256.
Proof. unfold code. pose proof (N_ascii_bounded c). lia. Qed.

Lemma chr_code c : chr (code c) = c.
Proof. unfold chr, code. rewrite N2Z.id. apply ascii_N_embedding. Qed.

Lemma code_chr n : 0 <= n < 256 -> code (chr n) = n.
Proof. intros H. unfold code, chr. rewrite N_ascii_embedding by lia. lia. Qed.

(** Facts about the values of a byte or of an octet, by enumeration. *)
Lemma forall_below (P : Z -> Prop) (n : nat) :
  Forall P (map Z.of_nat (seq 0 n)) -> forall z, 0 <= z < Z.of_nat n -> P z.
Proof.
  intros H z Hz. rewrite Forall_forall in H. apply H.
  apply list_elem_of_fmap. exists (Z.to_nat z). split; [lia|]. apply elem_of_seq. lia.
Qed.

Lemma digit_chr c : isDigit c = true -> 0 <= digitVal c < 10 /\ c = chr (48 + digitVal c).
Proof.
  unfold isDigit, between, digitVal. intros [?%Z.leb_le ?%Z.leb_le]%andb_true_iff.
  split; [lia|]. replace (48 + (code c - 48)) with (code c) by lia. by rewrite chr_code.
Qed.

(** Appending a digit to a decimal number below 26. *)
Lemma Itoa_snoc v d :
  1 <= v < 26 -> 0 <= d < 10 -> bytes (Itoa (v * 10 + d)) = bytes (Itoa v) ++ [chr (48 + d)].
Proof.
  intros Hv Hd. revert d Hd. cut (forall d, 0 <= d < Z.of_nat 10 ->
    bytes (Itoa (v * 10 + d)) = bytes (Itoa v) ++ [chr (48 + d)]); [intros H d Hd; apply H; lia|].
  revert Hv. cut (0 <= v < Z.of_nat 26 -> 1 <= v -> forall d, 0 <= d < Z.of_nat 10 ->
    bytes (Itoa (v * 10 + d)) = bytes (Itoa v) ++ [chr (48 + d)]); [intros H ?; apply H; lia|].
  revert v. refine (forall_below _ 26 _).
  repeat constructor; intros H; try lia; apply forall_below; repeat constructor.
Qed.

Lemma Itoa_digit d : 0 <= d < 10 -> bytes (Itoa d) = [chr (48 + d)].
Proof. revert d. refine (forall_below _ 10 _). repeat constructor. Qed.

(** The text of finished octets, each followed by a point. *)
Definition octets_text (fields : list Z) : list ascii :=
  concat (map (fun v => bytes (Itoa v) ++ [chr 46]) fields).

(** The number read so far agrees with its number of digits: no leading zero. *)
Definition octet_started (val : Z) (digLen : nat) : Prop :=
  match digLen with O => val = 0 | 1%nat => True | _ => 1 <= val end.

Definition octet_text (val : Z) (digLen : nat) : list ascii :=
  match digLen with O => [] | _ => bytes (Itoa val) end.

Lemma octet_text_digit val digLen c :
  is_u8 val -> octet_started val digLen -> isDigit c = true ->
  (digLen =? 1)%nat && (val =? 0) = false -> val * 10 + digitVal c <= 255 ->
  octet_started (val * 10 + digitVal c) (S digLen) /\
  octet_text (val * 10 + digitVal c) (S digLen) = octet_text val digLen ++ [c].
Proof.
  intros Hv Hs [Hd Ec]%digit_chr Hz Hle. unfold is_u8 in Hv.
  destruct digLen as [|digLen].
  { simpl in Hs. subst val. split; [exact I|].
    unfold octet_text. rewrite Itoa_digit by lia. rewrite Ec at 2. reflexivity. }
  assert (1 <= val).
  { destruct digLen; [|exact Hs]. apply Z.eqb_neq in Hz. lia. }
  split; [simpl; lia|]. unfold octet_text. rewrite Itoa_snoc by lia.
  rewrite Ec at 2. reflexivity.
Qed.

(** What the IPv4 parser accepts is what printing the octets gives back. *)
Lemma parseIPv4_print l : forall fields val digLen out,
  is_u8 val -> octet_started val digLen ->
  parseIPv4 fields val digLen l = Some out ->
  exists rest last, out = rev fields ++ rest ++ [last] /\ Forall is_u8 (rest ++ [last]) /\
    octet_text val digLen ++ l = octets_text rest ++ bytes (Itoa last).
Proof.
  induction l as [|c l IH]; intros fields val digLen out Hv Hs H; simpl in H.
  - destruct digLen; [done|]. simplify_eq. exists [], val. simpl.
    split; [reflexivity|]. split; [by apply Forall_singleton|]. by rewrite app_nil_r.
  - destruct (isDigit c) eqn:Ed.
    + destruct (_ && _) eqn:Elz in H; [done|].
      destruct (Z.ltb_spec 255 (val * 10 + digitVal c)) as [|Hle]; [done|].
      destruct (octet_text_digit val digLen c) as [Hs' Ht]; auto.
      pose proof (digit_chr c Ed) as [Hd _].
      apply IH in H as (rest & last & E1 & E2 & E3); auto; [|unfold is_u8 in *; lia].
      exists rest, last. split; [exact E1|]. split; [exact E2|].
      rewrite <- E3, Ht, <- app_assoc. reflexivity.
    + destruct (Z.eqb_spec (code c) 46) as [Ec|]; [|done].
      destruct digLen as [|digLen]; [done|]. destruct (_ =? 3)%nat; [done|].
      apply IH in H as (rest & last & E1 & E2 & E3); [|unfold is_u8; lia|reflexivity].
      exists (val :: rest), last. split; [simpl in *; by rewrite E1, <- app_assoc|].
      split; [by constructor|]. simpl in E3. rewrite E3. unfold octets_text. simpl.
      rewrite <- !app_assoc. f_equal. simpl. by rewrite <- (chr_code c), Ec.
Qed.

Definition addr4_ok (a : Addr4) : Prop :=
  is_u8 (a0 a) /\ is_u8 (a1 a) /\ is_u8 (a2 a) /\ is_u8 (a3 a).

Lemma ParseAddr4_print s a : ParseAddr4 s = Some a -> addr4_ok a /\ Addr4_String a = s.
Proof.
  unfold ParseAddr4. destruct (parseIPv4 [] 0 0 (bytes s)) as [out|] eqn:E; [|done].
  apply parseIPv4_print in E as (rest & last & E1 & E2 & E3);
    [|unfold is_u8; lia|reflexivity]. simpl in E1, E3.
  destruct rest as [|x [|y [|z [|]]]]; simpl in E1; subst out; intros; simplify_eq.
  - rewrite !Forall_app, !Forall_cons in E2. split; [unfold addr4_ok; simpl; tauto|].
    apply bytes_inj. rewrite E3. unfold Addr4_String, octets_text. simpl.
    rewrite !bytes_app, <- !app_assoc. reflexivity.
  - match goal with H : context [?r ++ [last]] |- _ => destruct r; simplify_eq end.
Qed.

Lemma parseIPv4_octet v :
  0 <= v < Z.of_nat 256 -> forall fields l,
  parseIPv4 fields 0 0 (bytes (Itoa v) ++ l) =
  parseIPv4 fields v (length (bytes (Itoa v))) l.
Proof.
  revert v. refine (forall_below _ 256 _). repeat constructor; intros; vm_compute; reflexivity.
Qed.

Lemma Itoa_nonempty v : 0 <= v < Z.of_nat 256 -> exists k, length (bytes (Itoa v)) = S k.
Proof.
  revert v. refine (forall_below _ 256 _). repeat constructor; eexists; vm_compute; reflexivity.
Qed.

Lemma parseIPv4_point fields v k l :
  parseIPv4 fields v (S k) (bytes "." ++ l) =
  if (length fields =? 3)%nat then None else parseIPv4 (v :: fields) 0 0 l.
Proof. reflexivity. Qed.

Lemma ParseAddr4_String a : addr4_ok a -> ParseAddr4 (Addr4_String a) = Some a.
Proof.
  destruct a as [x y z w]. unfold addr4_ok, is_u8, ParseAddr4, Addr4_String. simpl.
  intros (Hx & Hy & Hz & Hw). rewrite !bytes_app.
  destruct (Itoa_nonempty x) as [? Ex], (Itoa_nonempty y) as [? Ey],
    (Itoa_nonempty z) as [? Ez], (Itoa_nonempty w) as [? Ew]; try lia.
  rewrite parseIPv4_octet, Ex, parseIPv4_point by lia. simpl length. simpl Nat.eqb.
  rewrite parseIPv4_octet, Ey, parseIPv4_point by lia. simpl length. simpl Nat.eqb.
  rewrite parseIPv4_octet, Ez, parseIPv4_point by lia. simpl length. simpl Nat.eqb.
  rewrite <- (app_nil_r (bytes (Itoa w))), parseIPv4_octet, Ew by lia. reflexivity.
Qed.
