(* ===== verification/GoWords.v ===== *)
(** Words and decimal numbers in texts: how [strings.Fields] reads back words joined
    by spaces and [strconv.Atoi] reads back what [strconv.Itoa] prints. *)
From S2P Require Import Prelude GoStrings.
From Stdlib Require Import Ascii.

Local Open Scope Z_scope.

(** * Words *)

(** A visible ASCII character. *)
Definition visible (c : ascii) : bool := between 33 c 126.
Definition word (s : string) : Prop := s <> "" /\ Forall (fun c => visible c = true) (bytes s).

#[export] Instance word_dec s : Decision (word s).
Proof. unfold word. apply _. Defined.

Lemma visible_plain c : visible c = true ->
  asciiSpace c = false /\ (forall b, space2 c b = false) /\ (forall b d, space3 c b d = false).
Proof.
  unfold visible, between. intros [?%Z.leb_le ?%Z.leb_le]%andb_true_iff.
  assert (Hne : forall k, (k < 33 \/ 126 < k) -> (code c =? k) = false)
    by (intros; apply Z.eqb_neq; lia).
  unfold asciiSpace, space2, space3, between. rewrite !Hne by lia.
  conjs; try done. rewrite orb_false_r. apply andb_false_iff. right. apply Z.leb_gt. lia.
Qed.

Lemma fieldsAux_visible w : forall cur l,
  Forall (fun c => visible c = true) w -> fieldsAux cur (w ++ l) = fieldsAux (rev w ++ cur) l.
Proof.
  induction w as [|a w IH]; intros cur l; [done|]. intros [Ha Hw]%Forall_cons.
  destruct (visible_plain a Ha) as (E1 & E2 & E3). simpl. rewrite E1.
  rewrite <- app_assoc. simpl. rewrite <- IH by done.
  destruct (w ++ l) as [|b [|c k]]; [done|by rewrite E2|by rewrite E2, E3].
Qed.

Lemma flush_word w rest : w <> [] -> flush (rev w) rest = of_bytes w :: rest.
Proof.
  intros Hw. unfold flush. destruct (rev w) eqn:E; [|by rewrite <- E, rev_involutive].
  by apply (f_equal (@rev _)) in E; rewrite rev_involutive in E.
Qed.

Lemma Fields_word w : word w -> Fields w = [w].
Proof.
  intros [Hne Hv]. unfold Fields. rewrite <- (app_nil_r (bytes w)), fieldsAux_visible by done.
  rewrite app_nil_r. simpl. rewrite flush_word; [by rewrite of_bytes_bytes|].
  intros E. apply Hne, bytes_inj, E.
Qed.

Lemma Fields_cons w s : word w -> Fields (w +:+ " " +:+ s) = w :: Fields s.
Proof.
  intros [Hne Hv]. unfold Fields. rewrite !bytes_app, fieldsAux_visible by done.
  rewrite app_nil_r. simpl. rewrite flush_word; [by rewrite of_bytes_bytes|].
  intros E. apply Hne, bytes_inj, E.
Qed.

(** [Fields] undoes joining by single spaces. *)
Lemma Fields_Join ws : Forall word ws -> Fields (Join ws " ") = ws.
Proof.
  unfold Join. induction 1 as [|w ws Hw Hws IH]; [done|].
  destruct ws as [|w' ws]; [by apply Fields_word|].
  change (String.concat " " (w :: w' :: ws)) with (w +:+ " " +:+ String.concat " " (w' :: ws)).
  by rewrite Fields_cons, IH.
Qed.

(** * Decimal numbers *)

Lemma pretty_N_char_digit x :
  (x < 10)%N -> isDigit (pretty_N_char x) = true /\ digitVal (pretty_N_char x) = Z.of_N x.
Proof.
  intros H. assert (x = 0 \/ x = 1 \/ x = 2 \/ x = 3 \/ x = 4 \/ x = 5 \/ x = 6 \/ x = 7 \/ x = 8
    \/ x = 9)%N as E by lia. by destruct_or! E; subst x.
Qed.

Lemma digitsVal_pretty_go x : forall s,
  exists ds, bytes (pretty_N_go x s) = ds ++ bytes s /\ Forall (fun c => isDigit c = true) ds /\
    (x <> 0%N -> ds <> []) /\
    forall acc l, digitsVal acc (ds ++ l) = digitsVal (acc * 10 ^ Z.of_nat (length ds) + Z.of_N x) l.
Proof.
  induction (N.lt_wf_0 x) as [x _ IH]. intros s.
  destruct (decide (x = 0)%N) as [->|Hx].
  - exists []. rewrite pretty_N_go_0. conjs; try done. intros. simpl. f_equal. lia.
  - rewrite pretty_N_go_step by lia.
    destruct (IH (x / 10)%N ltac:(apply N.div_lt; lia) (String (pretty_N_char (x mod 10)) s))
      as (ds & E & Hd & _ & Hv).
    destruct (pretty_N_char_digit (x mod 10)) as [Hc Hcv]; [apply N.mod_lt; lia|].
    exists (ds ++ [pretty_N_char (x mod 10)]). conjs.
    + rewrite E. simpl. by rewrite <- app_assoc.
    + apply Forall_app. split; [done|]. by apply Forall_singleton.
    + intros _ ?%(f_equal length). rewrite length_app in *. simpl in *. lia.
    + intros acc l. rewrite <- app_assoc, Hv. simpl. rewrite Hc, Hcv. f_equal.
      rewrite length_app. simpl. rewrite Nat2Z.inj_add, Z.pow_add_r by lia.
      pose proof (N.div_mod x 10). lia.
Qed.

Lemma Itoa_digits v : 0 <= v ->
  Itoa v <> "" /\ Forall (fun c => isDigit c = true) (bytes (Itoa v)) /\
  digitsVal 0 (bytes (Itoa v)) = Some v.
Proof.
  intros Hv. destruct v as [|p|p]; [by repeat constructor| |lia].
  destruct (digitsVal_pretty_go (Npos p) "") as (ds & E & Hd & Hne & Hval).
  change (Itoa (Zpos p)) with (pretty_N_go (Npos p) "").
  rewrite app_nil_r in E. rewrite E. conjs; [|done|].
  - intros E0. rewrite E0 in E. by apply (Hne ltac:(done)).
  - specialize (Hval 0 []). rewrite app_nil_r in Hval. rewrite Hval. done.
Qed.

Lemma isDigit_visible c : isDigit c = true -> visible c = true.
Proof.
  unfold isDigit, visible, between. intros [?%Z.leb_le ?%Z.leb_le]%andb_true_iff.
  apply andb_true_iff. split; apply Z.leb_le; lia.
Qed.

Lemma Itoa_word v : 0 <= v -> word (Itoa v).
Proof.
  intros (? & Hd & _)%Itoa_digits. split; [done|].
  eapply Forall_impl; [exact Hd|]. intros c. apply isDigit_visible.
Qed.

(** [strconv.Atoi] reads back [strconv.Itoa]. *)
Lemma Atoi_Itoa v : 0 <= v <= maxInt64 -> Atoi (Itoa v) = Some v.
Proof.
  intros Hv. destruct (Itoa_digits v) as (Hne & Hd & Hval); [lia|].
  unfold Atoi. destruct (bytes (Itoa v)) as [|c l] eqn:E.
  { exfalso. apply Hne, bytes_inj. exact E. }
  apply Forall_cons in Hd as [Hc _]. unfold isDigit, between in Hc.
  apply andb_true_iff in Hc as [H1%Z.leb_le H2%Z.leb_le].
  assert ((code c =? 45) = false) as -> by (apply Z.eqb_neq; lia).
  assert ((code c =? 43) = false) as -> by (apply Z.eqb_neq; lia).
  rewrite Hval. unfold inInt64. destruct (Z.leb_spec minInt64 v), (Z.leb_spec v maxInt64);
    [done|unfold minInt64 in *; lia..].
Qed.

Lemma word_app s t : word s -> Forall (fun c => visible c = true) (bytes t) -> word (s +:+ t).
Proof.
  intros [Hne Hs] Ht. split; [|by rewrite bytes_app, Forall_app].
  intros E. apply Hne. destruct s; done.
Qed.

Lemma Addr4_String_word a : addr4_ok a -> word (Addr4_String a).
Proof.
  intros (H0 & H1 & H2 & H3). unfold is_u8 in *. unfold Addr4_String.
  apply word_app; [apply Itoa_word; lia|]. rewrite !bytes_app, !Forall_app.
  conjs; try (apply Itoa_word; lia); by repeat constructor.
Qed.
