(* ===== verification/GoFloat.v ===== *)
(** Go's float64: IEEE 754 binary64 with rounding to nearest even, as the
    executable specification of the Standard Library ([SpecFloat]) defines it.
    Operations are rounded one by one (no fused multiply-add). *)
From S2P Require Import Prelude.
From Stdlib Require Export SpecFloat.

Local Open Scope Z_scope.

Abbreviation float64 := spec_float.

Definition fadd : float64 -> float64 -> float64 := SFadd 53 1024.
Definition fsub : float64 -> float64 -> float64 := SFsub 53 1024.
Definition fmul : float64 -> float64 -> float64 := SFmul 53 1024.
Definition fdiv : float64 -> float64 -> float64 := SFdiv 53 1024.
Definition fabs : float64 -> float64 := SFabs.
Definition fzero : float64 := S754_zero false.

(** Conversion of an integer to float64. *)
Definition of_int (x : Z) : float64 := binary_normalize 53 1024 x 0 false.

(** The value truncated toward zero ([None] for NaN and infinities). *)
Definition ftrunc (f : float64) : option Z :=
  match f with
  | S754_zero _ => Some 0
  | S754_finite s m e =>
      let v := if 0 <=? e then Z.pos m * 2 ^ e else Z.pos m / 2 ^ (- e) in
      Some (if s then - v else v)
  | _ => None
  end.

(** Conversion of a float64 to an unsigned integer type of [2 ^ w] values: the
    truncated value when the type can hold it; otherwise Go leaves the result to
    the implementation, the argument [oob]. *)
Definition to_uint (oob : float64 -> Z) (w : Z) (f : float64) : Z :=
  match ftrunc f with
  | Some v => if (0 <=? v) && (v <? 2 ^ w) then v else oob f mod 2 ^ w
  | None => oob f mod 2 ^ w
  end.

(** [time.Duration.Seconds]. *)
Definition Seconds (d : Z) : float64 :=
  fadd (of_int (Z.quot d Second)) (fdiv (of_int (Z.rem d Second)) (of_int 1000000000)).

Lemma to_uint_range oob w f : 0 <= w -> 0 <= to_uint oob w f < 2 ^ w.
Proof.
  intros Hw. assert (0 < 2 ^ w) by (apply Z.pow_pos_nonneg; lia).
  unfold to_uint. destruct (ftrunc f) as [v|]; [|apply Z.mod_pos_bound; lia].
  destruct (Z.leb_spec 0 v), (Z.ltb_spec v (2 ^ w)); simpl;
    try (apply Z.mod_pos_bound; lia); lia.
Qed.
