(* ===== verification/Rtp.v ===== *)
(** RTP packets: the header and payload fields of [rtp.Packet]
    (github.com/pion/rtp) that the connector reads or writes. *)
From S2P Require Import Prelude.

Local Open Scope Z_scope.

Record Packet := mkPacket {
  PayloadType : Z;              (* uint8 *)
  SequenceNumber : Z;           (* uint16 *)
  Timestamp : Z;                (* uint32 *)
  SSRC : Z;                     (* uint32 *)
  Extension : bool;
  ExtensionProfile : Z;         (* uint16 *)
  Extensions : list (Z * list Z);
  Payload : list Z              (* bytes *)
}.

(** The header fields are in the range of their Go types. *)
Definition packet_ok (p : Packet) : Prop :=
  is_u8 (PayloadType p) /\ is_u16 (SequenceNumber p) /\
  is_u32 (Timestamp p) /\ is_u32 (SSRC p).

(** A packet as the unit tests build it. *)
Definition pkt (ssrc seq ts : Z) : Packet :=
  mkPacket 100 seq ts ssrc false 0 [] [].
