(* ===== verification/Rebase.v ===== *)
(** The RTP rebaser (internal/livekitbridge/rebase.go). *)
From S2P Require Import Prelude Rtp.

Local Open Scope Z_scope.

Definition opusFrameTicks : Z := 960.
Definition maxSeqJump : Z := 3000.
Definition maxRebaseFrames : Z := 500.

(** [type rtpRebaser struct]: the mutex serialises [rewrite], so each call is
    one atomic state transition; the clock is an argument of [rewrite]. *)
Record rtpRebaser := mkRebaser {
  started : bool;
  outSSRC : Z;
  srcSSRC : Z;
  seqOff : Z;
  tsOff : Z;
  lastInSeq : Z;
  lastOutSeq : Z;
  lastOutTS : Z;
  lastAt : Z;
  keepExtensions : bool
}.

(** The zero value of the struct. *)
Definition zeroRebaser (keep : bool) : rtpRebaser :=
  mkRebaser false 0 0 0 0 0 0 0 0 keep.

Definition seqNewer (a b : Z) : bool := 0 <? i16 (a - b).

Definition absInt16 (v : Z) : Z := if v <? 0 then - v else v.

(** [p.SSRC != r.srcSSRC || absInt16(int16(p.SequenceNumber-r.lastInSeq)) > maxSeqJump] *)
Definition sourceChanged (r : rtpRebaser) (p : Packet) : bool :=
  negb (SSRC p =? srcSSRC r) ||
  (maxSeqJump <? absInt16 (i16 (SequenceNumber p - lastInSeq r))).

(** The number of frames of wall-clock time since the last packet, clamped. *)
Definition rebaseFrames (r : rtpRebaser) (now : Z) : Z :=
  let frames := Z.quot (time_Sub now (lastAt r)) (20 * Millisecond) in
  let frames := if frames <? 1 then 1 else frames in
  if maxRebaseFrames <? frames then maxRebaseFrames else frames.

(** The first half of [rewrite]: first packet, source change, or neither. *)
Definition rebase (r : rtpRebaser) (p : Packet) (now : Z) : rtpRebaser :=
  if negb (started r) then
    mkRebaser true (Z.lxor (SSRC p) 0x6d2b79f5) (SSRC p) (seqOff r) (tsOff r)
      (SequenceNumber p) (SequenceNumber p) (Timestamp p) now (keepExtensions r)
  else if sourceChanged r p then
    let frames := rebaseFrames r now in
    let nextSeq := u16 (lastOutSeq r + 1) in
    let nextTS := u32 (lastOutTS r + u32 (u32 frames * opusFrameTicks)) in
    mkRebaser true (outSSRC r) (SSRC p)
      (u16 (nextSeq - SequenceNumber p)) (u32 (nextTS - Timestamp p))
      (SequenceNumber p) (u16 (nextSeq - 1)) (u32 (nextTS - opusFrameTicks))
      now (keepExtensions r)
  else
    mkRebaser true (outSSRC r) (srcSSRC r) (seqOff r) (tsOff r)
      (lastInSeq r) (lastOutSeq r) (lastOutTS r) now (keepExtensions r).

Definition rewrite (r : rtpRebaser) (p : Packet) (pt now : Z) : rtpRebaser * Packet :=
  let r := rebase r p now in
  let outSeq := u16 (SequenceNumber p + seqOff r) in
  let outTS := u32 (Timestamp p + tsOff r) in
  let inSeq := if seqNewer (SequenceNumber p) (lastInSeq r)
               then SequenceNumber p else lastInSeq r in
  let '(oSeq, oTS) := if seqNewer outSeq (lastOutSeq r)
                      then (outSeq, outTS) else (lastOutSeq r, lastOutTS r) in
  let r' := mkRebaser (started r) (outSSRC r) (srcSSRC r) (seqOff r) (tsOff r)
              inSeq oSeq oTS (lastAt r) (keepExtensions r) in
  (r', if keepExtensions r
       then mkPacket pt outSeq outTS (outSSRC r)
              (Extension p) (ExtensionProfile p) (Extensions p) (Payload p)
       else mkPacket pt outSeq outTS (outSSRC r) false 0 [] (Payload p)).

(** A stream of packets with their arrival times through one rebaser. *)
Fixpoint rewriteAll (r : rtpRebaser) (pt : Z) (ps : list (Packet * Z))
  : rtpRebaser * list Packet :=
  match ps with
  | [] => (r, [])
  | (p, now) :: ps =>
      let '(r1, q) := rewrite r p pt now in
      let '(r2, qs) := rewriteAll r1 pt ps in
      (r2, q :: qs)
  end.

(** * Invariant *)

(** The fields are words of their types, and the highest output sequence number
    is the highest input sequence number of the current source, shifted. *)
Definition rebaser_ok (r : rtpRebaser) : Prop :=
  if started r then
    is_u16 (lastInSeq r) /\ is_u16 (lastOutSeq r) /\ is_u16 (seqOff r) /\
    is_u32 (lastOutTS r) /\ is_u32 (tsOff r) /\
    lastOutSeq r = u16 (lastInSeq r + seqOff r)
  else seqOff r = 0 /\ tsOff r = 0.

(** A packet that neither starts the rebaser nor changes the source. *)
Definition sameSource (r : rtpRebaser) (p : Packet) : bool :=
  started r && negb (sourceChanged r p).

(** Every packet of the stream, at its turn, is of the current source. *)
Fixpoint continuous (r : rtpRebaser) (pt : Z) (ps : list (Packet * Z)) : bool :=
  match ps with
  | [] => true
  | (p, now) :: ps =>
      sameSource r p && continuous (fst (rewrite r p pt now)) pt ps
  end.

(** The packet [p] with a constant shift of sequence number and timestamp. *)
Definition shifted (so to ssrc pt : Z) (keep : bool) (p : Packet) : Packet :=
  mkPacket pt (u16 (SequenceNumber p + so)) (u32 (Timestamp p + to)) ssrc
    (if keep then Extension p else false)
    (if keep then ExtensionProfile p else 0)
    (if keep then Extensions p else []) (Payload p).

Definition out_seq (r : rtpRebaser) (p : Packet) (pt now : Z) : Z :=
  SequenceNumber (snd (rewrite r p pt now)).
Definition out_ts (r : rtpRebaser) (p : Packet) (pt now : Z) : Z :=
  Timestamp (snd (rewrite r p pt now)).

(** * Lemmas *)

Lemma rewrite_packet r p pt now :
  snd (rewrite r p pt now) =
  shifted (seqOff (rebase r p now)) (tsOff (rebase r p now))
    (outSSRC (rebase r p now)) pt (keepExtensions r) p.
Proof.
  unfold rewrite, shifted.
  replace (keepExtensions (rebase r p now)) with (keepExtensions r)
    by (unfold rebase; repeat case_match; reflexivity).
  repeat case_match; reflexivity.
Qed.

Lemma rewrite_offsets r p pt now :
  let r' := fst (rewrite r p pt now) in
  seqOff r' = seqOff (rebase r p now) /\ tsOff r' = tsOff (rebase r p now) /\
  outSSRC r' = outSSRC (rebase r p now) /\ srcSSRC r' = srcSSRC (rebase r p now) /\
  started r' = true /\ lastAt r' = now /\ keepExtensions r' = keepExtensions r.
Proof.
  unfold rewrite, rebase; repeat case_match; simplify_eq/=; auto 10.
Qed.

Lemma rebase_same r p now :
  sameSource r p = true ->
  let r' := rebase r p now in
  seqOff r' = seqOff r /\ tsOff r' = tsOff r /\ outSSRC r' = outSSRC r /\
  srcSSRC r' = srcSSRC r /\ lastInSeq r' = lastInSeq r /\
  lastOutSeq r' = lastOutSeq r /\ lastOutTS r' = lastOutTS r.
Proof.
  unfold sameSource, rebase. intros [-> ->%negb_true_iff]%andb_true_iff. simpl. auto 10.
Qed.

Lemma rebaseFrames_range r now : 1 <= rebaseFrames r now <= maxRebaseFrames.
Proof. unfold rebaseFrames, maxRebaseFrames. cbv zeta. bool_to_prop; lia. Qed.

(** The test on the output agrees with the test on the input: the shift of both
    arguments cancels. *)
Lemma seqNewer_shift a b o : seqNewer (u16 (a + o)) (u16 (b + o)) = seqNewer a b.
Proof.
  unfold seqNewer. autorewrite with unwrap. do 2 f_equal. lia.
Qed.

Lemma seqNewer_irrefl a : seqNewer a a = false.
Proof. unfold seqNewer. rewrite Z.sub_diag. reflexivity. Qed.

Lemma seqNewer_succ a : is_u16 a -> seqNewer a (u16 (a - 1)) = true.
Proof. intros. unfold seqNewer. autorewrite with unwrap. replace (a - (a - 1)) with 1 by lia. reflexivity. Qed.

(** The last step of [rewrite]: the highest sequence numbers seen so far. *)
Lemma rewrite_tracks r p pt now :
  let r1 := rebase r p now in
  let r' := fst (rewrite r p pt now) in
  let out := u16 (SequenceNumber p + seqOff r1) in
  lastInSeq r' = (if seqNewer (SequenceNumber p) (lastInSeq r1)
                  then SequenceNumber p else lastInSeq r1) /\
  lastOutSeq r' = (if seqNewer out (lastOutSeq r1) then out else lastOutSeq r1) /\
  lastOutTS r' = (if seqNewer out (lastOutSeq r1)
                  then u32 (Timestamp p + tsOff r1) else lastOutTS r1).
Proof. unfold rewrite; repeat case_match; simplify_eq/=; auto. Qed.

(** After a source change the packet itself becomes the highest one, at the
    position that follows the previous highest one. *)
Lemma rewrite_restart r p pt now :
  started r = true -> sourceChanged r p = true ->
  packet_ok p ->
  let r' := fst (rewrite r p pt now) in
  lastInSeq r' = SequenceNumber p /\
  lastOutSeq r' = u16 (lastOutSeq r + 1) /\
  lastOutTS r' = u32 (lastOutTS r + rebaseFrames r now * opusFrameTicks) /\
  u16 (SequenceNumber p + seqOff r') = u16 (lastOutSeq r + 1) /\
  u32 (Timestamp p + tsOff r') = u32 (lastOutTS r + rebaseFrames r now * opusFrameTicks).
Proof.
  intros Hst Hsc (_ & Hseq & Hts & _) r'.
  destruct (rewrite_tracks r p pt now) as (Hin & Hout & Hots).
  destruct (rewrite_offsets r p pt now) as (Hso & Hto & _).
  fold r' in Hin, Hout, Hots, Hso, Hto.
  rewrite Hso, Hto, Hin, Hout, Hots. unfold rebase. rewrite Hst, Hsc. simpl.
  rewrite seqNewer_irrefl. autorewrite with unwrap.
  replace (SequenceNumber p + (lastOutSeq r + 1 - SequenceNumber p))
    with (lastOutSeq r + 1) by lia.
  rewrite <- (u16_sub_l (lastOutSeq r + 1)), seqNewer_succ by auto with words.
  replace (u32 (Timestamp p + (lastOutTS r + _ - Timestamp p)))
    with (u32 (lastOutTS r + rebaseFrames r now * opusFrameTicks)); [auto|].
  f_equal. pose proof (rebaseFrames_range r now). unfold maxRebaseFrames in *.
  rewrite (u32_small (rebaseFrames _ _)) by (unfold is_u32; lia).
  rewrite (u32_small (_ * _)) by (unfold is_u32, opusFrameTicks; lia). lia.
Qed.

Lemma if_range (P : Z -> Prop) a b (c : bool) :
  P a -> P b -> P (if c then a else b).
Proof. destruct c; auto. Qed.

Lemma rebaser_ok_rewrite r p pt now :
  rebaser_ok r -> packet_ok p -> rebaser_ok (fst (rewrite r p pt now)).
Proof.
  intros Hr Hp.
  destruct (rewrite_offsets r p pt now) as (Hso & Hto & _ & _ & Hst' & _).
  destruct (rewrite_tracks r p pt now) as (Hin & Hout & Hots).
  unfold rebaser_ok. rewrite Hst'.
  destruct (started r) eqn:Est, (sourceChanged r p) eqn:Esc.
  2: { (* same source *)
    destruct (rebase_same r p now) as (E1 & E2 & _ & _ & E3 & E4 & E5);
      [by unfold sameSource; rewrite Est, Esc|].
    unfold rebaser_ok in Hr. rewrite Est in Hr.
    destruct Hr as (? & ? & ? & ? & ? & Hoff), Hp as (_ & ? & ? & _).
    rewrite Hin, Hout, Hots, Hso, Hto, E1, E2, E3, E4, E5, Hoff, seqNewer_shift.
    conjs; [apply if_range|apply if_range| |apply if_range| |by case (seqNewer (SequenceNumber p) (lastInSeq r))];
      auto with words. }
  1: { (* restart *)
    destruct (rewrite_restart r p pt now) as (E1 & E2 & E3 & E4 & E5); auto.
    rewrite E1, E2, E3, E4, Hso, Hto. unfold rebase. rewrite Est, Esc. simpl.
    destruct Hp as (_ & ? & ? & _). conjs; auto with words. }
  all: rewrite Hin, Hout, Hots, Hso, Hto; unfold rebase, rebaser_ok in *;
    rewrite Est in Hr |- *; simpl; destruct Hr as [-> ->], Hp as (_ & ? & ? & _);
    rewrite !Z.add_0_r, !u16_small, !u32_small, seqNewer_irrefl by auto;
    conjs; auto; words.
Qed.

Lemma continuous_cons r pt p now ps :
  continuous r pt ((p, now) :: ps) = true ->
  sameSource r p = true /\ continuous (fst (rewrite r p pt now)) pt ps = true.
Proof. intros H; apply andb_true_iff in H; exact H. Qed.

Lemma rewriteAll_cons r pt p now ps :
  rewriteAll r pt ((p, now) :: ps) =
  (fst (rewriteAll (fst (rewrite r p pt now)) pt ps),
   snd (rewrite r p pt now) :: snd (rewriteAll (fst (rewrite r p pt now)) pt ps)).
Proof.
  simpl. destruct (rewrite r p pt now) as [r1 q]; simpl.
  destruct (rewriteAll r1 pt ps); reflexivity.
Qed.

Lemma rewriteAll_shifted pt ps : forall r,
  continuous r pt ps = true ->
  snd (rewriteAll r pt ps) =
  map (fun x => shifted (seqOff r) (tsOff r) (outSSRC r) pt (keepExtensions r) (fst x)) ps.
Proof.
  induction ps as [|[p now] ps IH]; intros r Hc; [done|].
  apply continuous_cons in Hc as [Hs Hc].
  destruct (rewrite_offsets r p pt now) as (E1 & E2 & E3 & _ & _ & _ & E6).
  destruct (rebase_same r p now Hs) as (F1 & F2 & F3 & _).
  rewrite rewriteAll_cons, rewrite_packet, F1, F2, F3. simpl. f_equal.
  rewrite (IH _ Hc), E1, E2, E3, E6, F1, F2, F3. reflexivity.
Qed.

Lemma rewriteAll_ok_gen pt ps : forall r,
  rebaser_ok r -> Forall (fun x => packet_ok (fst x)) ps ->
  rebaser_ok (fst (rewriteAll r pt ps)) /\
  (started r = true -> Forall (fun q => SSRC q = outSSRC r) (snd (rewriteAll r pt ps))).
Proof.
  induction ps as [|[p now] ps IH]; intros r Hr Hps; [simpl; auto|].
  inversion_clear Hps as [|?? Hp Hps']. rewrite rewriteAll_cons.
  destruct (IH (fst (rewrite r p pt now))) as [IH1 IH2]; auto using rebaser_ok_rewrite.
  destruct (rewrite_offsets r p pt now) as (_ & _ & E & _ & Est & _).
  split; [exact IH1|]. intros Hst. specialize (IH2 Est). rewrite E in IH2.
  assert (HE : outSSRC (rebase r p now) = outSSRC r)
    by (unfold rebase; rewrite Hst; simpl; case_match; reflexivity).
  rewrite HE in IH2. simpl. constructor; [|exact IH2].
  rewrite rewrite_packet, HE. reflexivity.
Qed.

(** * Properties *)

(** C34. Within one source the rebaser is a constant shift: every output packet is
    its input with the sequence number and the timestamp moved by the offsets held
    when the stream began, so the distance between any two packets (a gap left by
    loss, a reordering, a duplicate) is the same on both sides. *)
Theorem rewriteAll_preserves_spacing r pt ps :
  continuous r pt ps = true ->
  snd (rewriteAll r pt ps) =
    map (fun x => shifted (seqOff r) (tsOff r) (outSSRC r) pt (keepExtensions r) (fst x)) ps /\
  forall i j pi pj qi qj,
    fst <$> ps !! i = Some pi -> fst <$> ps !! j = Some pj ->
    snd (rewriteAll r pt ps) !! i = Some qi -> snd (rewriteAll r pt ps) !! j = Some qj ->
    u16 (SequenceNumber qj - SequenceNumber qi) = u16 (SequenceNumber pj - SequenceNumber pi) /\
    u32 (Timestamp qj - Timestamp qi) = u32 (Timestamp pj - Timestamp pi) /\
    seqNewer (SequenceNumber qj) (SequenceNumber qi) =
    seqNewer (SequenceNumber pj) (SequenceNumber pi).
Proof.
  intros Hc. rewrite (rewriteAll_shifted pt ps r Hc). split; [done|].
  intros i j pi pj qi qj Hi Hj. rewrite !list_lookup_fmap.
  destruct (ps !! i), (ps !! j); simplify_eq/=. intros ? ?; simplify_eq/=.
  rewrite seqNewer_shift. conjs; [| |done]; autorewrite with unwrap; f_equal; lia.
Qed.

Lemma rewriteAll_preserves_spacing_witness :
  let r := fst (rewrite (zeroRebaser false) (pkt 7 65534 960) 111 0) in
  let ps := [(pkt 7 65535 1920, 1); (pkt 7 1 3840, 2); (pkt 7 0 2880, 3); (pkt 7 1 3840, 4)] in
  continuous r 111 ps = true /\
  map SequenceNumber (snd (rewriteAll r 111 ps)) = [65535; 1; 0; 1].
Proof.
  split; [vm_compute; reflexivity|].
  match goal with |- map _ (snd (rewriteAll ?r ?pt ?ps)) = _ =>
    destruct (rewriteAll_preserves_spacing r pt ps) as [E _];
      [vm_compute; reflexivity | rewrite E; vm_compute; reflexivity] end.
Defined.

(** C8. When the source changes (a new SSRC, or a jump of more than 3000) the
    output continues: the packet gets the sequence number after the highest one
    emitted, and a timestamp between 1 and 500 frames of 960 ticks after the one
    that went with it; the new source then is the current one. *)
Theorem rewrite_continues_after_restart r p pt now :
  started r = true -> sourceChanged r p = true -> packet_ok p ->
  out_seq r p pt now = u16 (lastOutSeq r + 1) /\
  (exists frames, 1 <= frames <= maxRebaseFrames /\
     out_ts r p pt now = u32 (lastOutTS r + frames * opusFrameTicks)) /\
  srcSSRC (fst (rewrite r p pt now)) = SSRC p /\
  sameSource (fst (rewrite r p pt now)) p = true.
Proof.
  intros Hst Hsc Hp.
  destruct (rewrite_restart r p pt now Hst Hsc Hp) as (E1 & E2 & E3 & E4 & E5).
  destruct (rewrite_offsets r p pt now) as (F1 & F2 & _ & F4 & F5 & _).
  assert (Hsrc : srcSSRC (rebase r p now) = SSRC p)
    by (unfold rebase; rewrite Hst, Hsc; reflexivity).
  unfold out_seq, out_ts. rewrite rewrite_packet. simpl. rewrite <- F1, <- F2. conjs.
  - exact E4.
  - exists (rebaseFrames r now). split; [apply rebaseFrames_range | exact E5].
  - rewrite F4. exact Hsrc.
  - unfold sameSource, sourceChanged. rewrite F5, F4, Hsrc, E1, Z.eqb_refl, Z.sub_diag.
    reflexivity.
Qed.

Lemma rewrite_continues_after_restart_witness :
  let r := fst (rewrite (zeroRebaser false) (pkt 7 12 6920) 111 0) in
  out_seq r (pkt 99 40000 123456) 111 120000000 = 13 /\
  sameSource (fst (rewrite r (pkt 99 40000 123456) 111 120000000)) (pkt 99 40000 123456) = true.
Proof.
  intros r.
  destruct (rewrite_continues_after_restart r (pkt 99 40000 123456) 111 120000000)
    as (H1 & _ & _ & H4); [reflexivity | reflexivity | vm_compute; intuition congruence |].
  split; [rewrite H1; reflexivity | exact H4].
Defined.

(** The rebaser invariant holds from the zero value on, for every stream: the
    fields stay in the range of their types and the highest output sequence number
    is the highest input one of the current source, shifted. All packets of the
    stream leave with one SSRC, the one derived from the first packet. *)
Theorem rewriteAll_invariant keep pt p now ps :
  packet_ok p -> Forall (fun x => packet_ok (fst x)) ps ->
  let '(r, qs) := rewriteAll (zeroRebaser keep) pt ((p, now) :: ps) in
  rebaser_ok r /\ Forall (fun q => SSRC q = Z.lxor (SSRC p) 0x6d2b79f5) qs.
Proof.
  intros Hp Hps. set (r1 := fst (rewrite (zeroRebaser keep) p pt now)).
  assert (Hr1 : rebaser_ok r1) by (apply rebaser_ok_rewrite; [split; reflexivity | exact Hp]).
  destruct (rewrite_offsets (zeroRebaser keep) p pt now) as (_ & _ & E & _ & Est & _).
  destruct (rewriteAll_ok_gen pt ps r1 Hr1 Hps) as [H1 H2].
  rewrite rewriteAll_cons. fold r1. split; [exact H1|].
  fold r1 in E, Est. specialize (H2 Est). rewrite E in H2. constructor; [|exact H2].
  rewrite rewrite_packet. reflexivity.
Qed.

Lemma rewriteAll_invariant_witness :
  let '(r, qs) := rewriteAll (zeroRebaser true) 111 [(pkt 7 1 960, 0); (pkt 8 9 5, 1)] in
  rebaser_ok r /\ Forall (fun q => SSRC q = Z.lxor 7 0x6d2b79f5) qs.
Proof.
  apply (rewriteAll_invariant true 111 (pkt 7 1 960) 0 [(pkt 8 9 5, 1)]);
    [vm_compute; intuition congruence | repeat constructor; vm_compute; congruence].
Defined.

(** C35. No packet leaves far from the output timeline: after the first packet, the
    emitted sequence number is within 3000 (serial arithmetic on 16 bits) of the
    highest one emitted before, whatever the sender does. *)
Theorem rewrite_output_jump_bounded r p pt now :
  rebaser_ok r -> started r = true -> packet_ok p ->
  absInt16 (i16 (out_seq r p pt now - lastOutSeq r)) <= maxSeqJump.
Proof.
  intros Hr Hst Hp. destruct (sourceChanged r p) eqn:Hsc.
  - destruct (rewrite_restart r p pt now Hst Hsc Hp) as (_ & _ & _ & E & _).
    destruct (rewrite_offsets r p pt now) as (F1 & _).
    unfold out_seq. rewrite rewrite_packet. simpl. rewrite <- F1, E.
    autorewrite with unwrap. replace (lastOutSeq r + 1 - lastOutSeq r) with 1 by lia.
    vm_compute; congruence.
  - destruct (rebase_same r p now) as (E & _); [by unfold sameSource; rewrite Hst, Hsc|].
    unfold out_seq. rewrite rewrite_packet. simpl. rewrite E.
    unfold rebaser_ok in Hr. rewrite Hst in Hr. destruct Hr as (_ & _ & _ & _ & _ & ->).
    autorewrite with unwrap.
    replace (SequenceNumber p + seqOff r - (lastInSeq r + seqOff r))
      with (SequenceNumber p - lastInSeq r) by lia.
    apply orb_false_iff in Hsc as [_ H]. apply Z.ltb_ge in H. exact H.
Qed.

Lemma rewrite_output_jump_bounded_witness :
  let r := fst (rewrite (zeroRebaser false) (pkt 7 100 1000) 111 0) in
  absInt16 (i16 (out_seq r (pkt 7 30000 9999999) 111 20000000 - lastOutSeq r)) <= maxSeqJump.
Proof.
  apply rewrite_output_jump_bounded;
    vm_compute; intuition congruence.
Defined.
