(* ===== verification/RtpStats.v ===== *)
(** Reception and transmission statistics (internal/media/rtpstats.go). *)
From S2P Require Import Prelude Rtp GoFloat.

Local Open Scope Z_scope.

Definition opusClockRate : Z := 48000.

(** [type rxStats struct]; times are nanoseconds, the mutex makes every method
    one atomic transition. *)
Record rxStats := mkRx {
  rx_started : bool;
  ssrc : Z;
  baseSeq : Z;
  maxSeq : Z;
  cycles : Z;
  received : Z;
  reorder : Z;
  expectedPrior : Z;
  receivedPrior : Z;
  epoch : Z;
  haveTransit : bool;
  transit : float64;
  jitter : float64;
  lastSR : Z;
  lastSRAt : Z
}.

Definition zeroRx : rxStats :=
  mkRx false 0 0 0 0 0 0 0 0 0 false fzero fzero 0 0.

(** The sequence-number part of [update]: new source, advance, or reordering. *)
Definition noteSequence (s : rxStats) (p : Packet) (at_ : Z) : rxStats :=
  if negb (rx_started s) || negb (SSRC p =? ssrc s) then
    mkRx true (SSRC p) (SequenceNumber p) (SequenceNumber p) 0
      0 0 0 0 at_ false fzero fzero (lastSR s) (lastSRAt s)
  else if u16 (SequenceNumber p - maxSeq s) <? 0x8000 then
    mkRx true (ssrc s) (baseSeq s) (SequenceNumber p)
      (if SequenceNumber p <? maxSeq s then u32 (cycles s + 65536) else cycles s)
      (received s) (reorder s) (expectedPrior s) (receivedPrior s)
      (epoch s) (haveTransit s) (transit s) (jitter s) (lastSR s) (lastSRAt s)
  else
    mkRx true (ssrc s) (baseSeq s) (maxSeq s) (cycles s)
      (received s) (u64 (reorder s + 1)) (expectedPrior s) (receivedPrior s)
      (epoch s) (haveTransit s) (transit s) (jitter s) (lastSR s) (lastSRAt s).

Definition update (s : rxStats) (p : Packet) (at_ : Z) : rxStats :=
  let s := noteSequence s p at_ in
  let arrival := fmul (Seconds (time_Sub at_ (epoch s))) (of_int opusClockRate) in
  let tr := fsub arrival (of_int (Timestamp p)) in
  let j := if haveTransit s
           then fadd (jitter s)
                  (fdiv (fsub (fabs (fsub tr (transit s))) (jitter s)) (of_int 16))
           else jitter s in
  mkRx (rx_started s) (ssrc s) (baseSeq s) (maxSeq s) (cycles s)
    (u32 (received s + 1)) (reorder s) (expectedPrior s) (receivedPrior s)
    (epoch s) true tr j (lastSR s) (lastSRAt s).

Definition noteSenderReport (s : rxStats) (ntp at_ : Z) : rxStats :=
  mkRx (rx_started s) (ssrc s) (baseSeq s) (maxSeq s) (cycles s)
    (received s) (reorder s) (expectedPrior s) (receivedPrior s)
    (epoch s) (haveTransit s) (transit s) (jitter s) (u32 (Z.shiftr ntp 16)) at_.

Record rxSnapshot := mkSnapshot {
  Received : Z; Lost : Z; Reordered : Z; JitterMs : float64
}.

Definition snapshot (s : rxStats) : rxSnapshot :=
  if negb (rx_started s) then mkSnapshot 0 0 0 fzero
  else
    let expected := u32 (u32 (u32 (cycles s + maxSeq s) - baseSeq s) + 1) in
    mkSnapshot (received s) (expected - received s) (reorder s)
      (fmul (fdiv (jitter s) (of_int opusClockRate)) (of_int 1000)).

(** [rtcp.ReceptionReport]. *)
Record ReceptionReport := mkRR {
  rr_SSRC : Z; FractionLost : Z; TotalLost : Z; LastSequenceNumber : Z;
  Jitter : Z; LastSenderReport : Z; Delay : Z
}.

Section Conversions.
(** Out-of-range float conversions are left to the implementation. *)
Variable oob : float64 -> Z.

Definition report (s : rxStats) (now : Z) : rxStats * option ReceptionReport :=
  if negb (rx_started s) then (s, None)
  else
    let extMax := u32 (cycles s + maxSeq s) in
    let expected := u32 (u32 (extMax - baseSeq s) + 1) in
    let lost := expected - received s in
    let expInterval := u32 (expected - expectedPrior s) in
    let recInterval := u32 (received s - receivedPrior s) in
    let s' := mkRx (rx_started s) (ssrc s) (baseSeq s) (maxSeq s) (cycles s)
                (received s) (reorder s) expected (received s)
                (epoch s) (haveTransit s) (transit s) (jitter s) (lastSR s) (lastSRAt s) in
    let lostInterval := expInterval - recInterval in
    let fraction :=
      if (0 <? expInterval) && (0 <? lostInterval)
      then u8 (Z.quot (Z.shiftl lostInterval 8) expInterval) else 0 in
    let lost := if lost <? 0 then 0 else lost in
    let lost := if 0xffffff <? lost then 0xffffff else lost in
    let dlsr := if negb (lastSR s =? 0)
                then to_uint oob 32 (fmul (Seconds (time_Sub now (lastSRAt s))) (of_int 65536))
                else 0 in
    (s', Some (mkRR (ssrc s) fraction (u32 lost) extMax
                 (to_uint oob 32 (jitter s)) (lastSR s) dlsr)).

(** [type txStats struct] *)
Record txStats := mkTx {
  tx_ssrc : Z; packets : Z; octets : Z; lastTS : Z; tx_lastAt : Z; hasSent : bool
}.

Definition zeroTx : txStats := mkTx 0 0 0 0 0 false.

Definition sent (s : txStats) (p : Packet) (at_ : Z) : txStats :=
  mkTx (SSRC p) (u32 (packets s + 1))
    (u32 (octets s + u32 (Z.of_nat (length (Payload p))))) (Timestamp p) at_ true.

Definition ntpEpochOffset : Z := 2208988800.

(** [t.Unix()] and [t.Nanosecond()]. *)
Definition Unix (t : Z) : Z := t / Second.
Definition Nanosecond (t : Z) : Z := t mod Second.

Definition ntpTime (t : Z) : Z :=
  let sec := u64 (u64 (Unix t) + ntpEpochOffset) in
  let frac := u64 (u64 (Nanosecond t) * 2 ^ 32) / 1000000000 in
  Z.lor (u64 (Z.shiftl sec 32)) frac.

(** [rtcp.SenderReport]; the reception blocks are added by the caller. *)
Record SenderReport := mkSR {
  sr_SSRC : Z; NTPTime : Z; RTPTime : Z; PacketCount : Z; OctetCount : Z;
  sr_Reports : list ReceptionReport
}.

Definition senderReport (s : txStats) (now : Z) : option SenderReport :=
  if negb (hasSent s) then None
  else
    let elapsed := Seconds (time_Sub now (tx_lastAt s)) in
    Some (mkSR (tx_ssrc s) (ntpTime now)
            (u32 (lastTS s + to_uint oob 32 (fmul elapsed (of_int opusClockRate))))
            (packets s) (octets s) []).
End Conversions.

(** * Specification: unbounded packet positions

    The sender numbers its packets 0, 1, 2, ... without bound and transmits the
    position modulo 65536. The specification counts with the positions. *)

Record rxSpec := mkSpec {
  first : Z;       (* position of the first packet of the source *)
  highest : Z;     (* highest position seen *)
  count : Z;       (* packets received *)
  late : Z;        (* packets that arrived below the highest position *)
  expPrior : Z;    (* expected count at the last report *)
  recPrior : Z     (* received count at the last report *)
}.

Definition spec_start (n : Z) : rxSpec := mkSpec n n 1 0 0 0.

Definition spec_update (a : rxSpec) (n : Z) : rxSpec :=
  mkSpec (first a) (Z.max (highest a) n) (count a + 1)
    (if n <? highest a then late a + 1 else late a) (expPrior a) (recPrior a).

Definition spec_expected (a : rxSpec) : Z := highest a - first a + 1.

Definition spec_report (a : rxSpec) : rxSpec :=
  mkSpec (first a) (highest a) (count a) (late a) (spec_expected a) (count a).

(** The next packet is less than half the sequence space away from the highest. *)
Definition in_window (a : rxSpec) (n : Z) : bool :=
  (-32768 <=? n - highest a) && (n - highest a <? 32768).

(** What happens to the statistics of one source. *)
Inductive rx_event :=
  | RxPacket (n ts at_ : Z)             (* a packet of the source, at position n *)
  | RxSenderReport (ntp at_ : Z)
  | RxReport (now : Z).

Definition packet_at (src n ts : Z) : Packet := mkPacket 111 (u16 n) ts src false 0 [] [].

Definition rx_step (oob : float64 -> Z) (src : Z) (s : rxStats) (e : rx_event) : rxStats :=
  match e with
  | RxPacket n ts at_ => update s (packet_at src n ts) at_
  | RxSenderReport ntp at_ => noteSenderReport s ntp at_
  | RxReport now => fst (report oob s now)
  end.

Definition spec_step (a : rxSpec) (e : rx_event) : rxSpec :=
  match e with
  | RxPacket n _ _ => spec_update a n
  | RxSenderReport _ _ => a
  | RxReport _ => spec_report a
  end.

Definition event_ok (a : rxSpec) (e : rx_event) : bool :=
  match e with RxPacket n _ _ => in_window a n | _ => true end.

Fixpoint events_ok (a : rxSpec) (es : list rx_event) : bool :=
  match es with
  | [] => true
  | e :: es => event_ok a e && events_ok (spec_step a e) es
  end.

(** The machine state represents the specification state modulo its word sizes. *)
Record refines (src : Z) (s : rxStats) (a : rxSpec) : Prop := mkRefines {
  rf_started : rx_started s = true;
  rf_ssrc : ssrc s = src;
  rf_first : is_u16 (first a);
  rf_highest : first a <= highest a;
  rf_base : baseSeq s = first a;
  rf_max : maxSeq s = u16 (highest a);
  rf_cycles : cycles s = u32 (highest a - u16 (highest a));
  rf_received : received s = u32 (count a);
  rf_reorder : reorder s = u64 (late a);
  rf_expPrior : expectedPrior s = u32 (expPrior a);
  rf_recPrior : receivedPrior s = u32 (recPrior a);
  rf_priors : 0 <= expPrior a <= spec_expected a /\ 0 <= recPrior a <= count a;
  rf_progress : expPrior a < spec_expected a -> recPrior a < count a
}.

(** * Lemmas *)

(** The jitter part of [update] leaves the counters alone. *)
Lemma update_counters s p at_ :
  let s1 := noteSequence s p at_ in let s' := update s p at_ in
  rx_started s' = rx_started s1 /\ ssrc s' = ssrc s1 /\ baseSeq s' = baseSeq s1 /\
  maxSeq s' = maxSeq s1 /\ cycles s' = cycles s1 /\ received s' = u32 (received s1 + 1) /\
  reorder s' = reorder s1 /\ expectedPrior s' = expectedPrior s1 /\
  receivedPrior s' = receivedPrior s1.
Proof. simpl. auto 10. Qed.

(** Extended sequence numbers: the wrap test adds a cycle exactly when the
    position crosses a multiple of 65536. *)
Lemma advance_cycles h n :
  h <= n < h + 32768 ->
  (if u16 n <? u16 h then u32 (u32 (h - u16 h) + 65536) else u32 (h - u16 h)) =
  u32 (n - u16 n).
Proof.
  intros H. destruct (Z.ltb_spec (u16 n) (u16 h)).
  - rewrite u32_add_l. f_equal. words.
  - f_equal. words.
Qed.

Lemma window_test h n :
  -32768 <= n - h < 32768 -> (u16 (u16 n - u16 h) <? 0x8000) = negb (n <? h).
Proof.
  intros H. autorewrite with unwrap.
  destruct (Z.ltb_spec n h), (Z.ltb_spec (u16 (n - h)) 0x8000); simpl; words.
Qed.

Lemma refines_start s p at_ :
  packet_ok p -> rx_started s = false \/ SSRC p <> ssrc s ->
  refines (SSRC p) (update s p at_) (spec_start (SequenceNumber p)).
Proof.
  intros (_ & Hseq & _ & _) Hnew.
  destruct (update_counters s p at_) as (E1 & E2 & E3 & E4 & E5 & E6 & E7 & E8 & E9).
  assert (Hb : negb (rx_started s) || negb (SSRC p =? ssrc s) = true).
  { destruct Hnew as [->|Hne]; [done|]. apply Z.eqb_neq in Hne. rewrite Hne. apply orb_true_r. }
  unfold noteSequence in *. rewrite Hb in *. simpl in *.
  split; simpl; auto; unfold spec_expected; simpl; try lia; words.
Qed.

Lemma refines_update src s a n ts at_ :
  refines src s a -> in_window a n = true ->
  refines src (update s (packet_at src n ts) at_) (spec_update a n).
Proof.
  intros [H1 H2 H3 H4 H5 H6 H7 H8 H9 H10 H11 H12 H13] Hw.
  apply andb_true_iff in Hw as [Hlo%Z.leb_le Hhi%Z.ltb_lt].
  destruct (update_counters s (packet_at src n ts) at_)
    as (E1 & E2 & E3 & E4 & E5 & E6 & E7 & E8 & E9).
  unfold spec_expected in *.
  unfold noteSequence in *. rewrite H1, H2 in *. simpl in *. rewrite Z.eqb_refl in *. simpl in *.
  rewrite H6, window_test in * by lia. unfold spec_update.
  destruct (Z.ltb_spec n (highest a)) as [Hlt|Hge]; simpl in *.
  - rewrite Z.max_l by lia.
    split; simpl; unfold spec_expected; simpl; try congruence; try lia;
      rewrite ?E6, ?E7, ?H8, ?H9; words.
  - rewrite Z.max_r by lia. rewrite H7, advance_cycles in E5 by lia.
    split; simpl; unfold spec_expected; simpl; try congruence; try lia.
    rewrite E6, H8. apply u32_add_l.
Qed.

Lemma refines_noteSenderReport src s a ntp at_ :
  refines src s a -> refines src (noteSenderReport s ntp at_) a.
Proof. intros []. split; simpl; auto. Qed.

(** The expected count of the machine is the one of the specification. *)
Lemma refines_expected src s a :
  refines src s a ->
  u32 (cycles s + maxSeq s) = u32 (highest a) /\
  u32 (u32 (u32 (cycles s + maxSeq s) - baseSeq s) + 1) = u32 (spec_expected a).
Proof.
  intros [_ _ _ _ H5 H6 H7 _ _ _ _ _ _]. 
  assert (E : u32 (cycles s + maxSeq s) = u32 (highest a)).
  { rewrite H6, H7, u32_add_l. f_equal. lia. }
  rewrite E, H5. autorewrite with unwrap. auto.
Qed.

Lemma refines_report oob src s a now :
  refines src s a -> refines src (fst (report oob s now)) (spec_report a).
Proof.
  intros H. pose proof (refines_expected src s a H) as [_ He].
  destruct H as [H1 H2 H3 H4 H5 H6 H7 H8 H9 H10 H11 H12 H13].
  unfold report. rewrite H1. simpl. rewrite He.
  split; simpl; auto; unfold spec_expected in *; simpl; lia.
Qed.

Lemma refines_run oob src es : forall s a,
  refines src s a -> events_ok a es = true ->
  refines src (fold_left (rx_step oob src) es s) (fold_left spec_step es a).
Proof.
  induction es as [|e es IH]; intros s a Hr Hok; simpl in *; [done|].
  apply andb_true_iff in Hok as [He Hes]. apply IH; [|exact Hes].
  destruct e; simpl in *;
    auto using refines_update, refines_noteSenderReport, refines_report.
Qed.

(** * Properties *)

(** C10. The statistics of one source refine the unbounded specification: starting
    from a packet that begins a source and then along any sequence of packets less
    than half the sequence space away from the highest one, sender reports and
    reports, the counters, the extended highest sequence number, the late count
    and the interval baselines are those of the specification modulo their width. *)
Theorem rxStats_refines_spec oob s p at_ es :
  packet_ok p -> rx_started s = false \/ SSRC p <> ssrc s ->
  events_ok (spec_start (SequenceNumber p)) es = true ->
  refines (SSRC p) (fold_left (rx_step oob (SSRC p)) es (update s p at_))
    (fold_left spec_step es (spec_start (SequenceNumber p))).
Proof. intros Hp Hnew Hok. apply refines_run; auto using refines_start. Qed.

Lemma rxStats_refines_spec_witness :
  let es := [RxPacket 65535 960 20000000; RxPacket 65537 2880 60000000; RxReport 70000000;
             RxPacket 65536 1920 80000000; RxPacket 65538 3840 90000000] in
  refines 5 (fold_left (rx_step (fun _ => 0) 5) es (update zeroRx (pkt 5 65534 0) 0))
    (mkSpec 65534 65538 5 1 4 3).
Proof.
  intros es. apply (rxStats_refines_spec (fun _ => 0) zeroRx (pkt 5 65534 0) 0 es);
    [vm_compute; intuition congruence | left; reflexivity | vm_compute; reflexivity].
Defined.

Lemma interval_fraction_bound e r :
  0 < r -> 0 < e -> 0 < e - r -> 0 <= Z.quot (Z.shiftl (e - r) 8) e <= 255.
Proof.
  intros Hr He Hl. rewrite Z.shiftl_mul_pow2 by lia. change (2 ^ 8) with 256.
  rewrite Z.quot_div_nonneg by lia.
  split; [apply Z.div_pos; lia|].
  cut ((e - r) * 256 / e < 256); [lia|]. apply Z.div_lt_upper_bound; lia.
Qed.

(** A report is exact: in a state that refines the specification, with fewer
    than 2^32 packets expected, the total lost is expected minus received clamped
    to 24 bits, the highest sequence number is the position modulo 2^32, and the
    fraction lost is 256 * lost / expected of the interval since the last report,
    which always fits the 8-bit field (the conversion to uint8 never truncates). *)
Theorem report_exact oob src s a now :
  refines src s a -> spec_expected a < 2 ^ 32 -> count a < 2 ^ 32 ->
  exists rr, snd (report oob s now) = Some rr /\
    rr_SSRC rr = src /\
    TotalLost rr = Z.max 0 (Z.min 0xffffff (spec_expected a - count a)) /\
    LastSequenceNumber rr = highest a mod 2 ^ 32 /\
    let e := spec_expected a - expPrior a in let r := count a - recPrior a in
    FractionLost rr = (if r <? e then (e - r) * 256 / e else 0) /\
    0 <= FractionLost rr <= 255.
Proof.
  intros H He Hc. change (2 ^ 32) with 4294967296 in *.
  destruct (refines_expected src s a H) as [Hm Hx].
  destruct H as [H1 H2 H3 H4 H5 H6 H7 H8 H9 H10 H11 [H12 H12'] H13].
  unfold report. rewrite H1. simpl. eexists; split; [reflexivity|]. simpl.
  rewrite Hx, Hm, H8, H10, H11. autorewrite with unwrap.
  assert (0 <= spec_expected a) by (unfold spec_expected; lia).
  rewrite !(u32_small (spec_expected a)), !(u32_small (count a)) by (unfold is_u32; lia).
  rewrite !(u32_small (spec_expected a - _)), !(u32_small (count a - _)) by (unfold is_u32; lia).
  split; [exact H2|]. split; [|split; [reflexivity|split]].
  - bool_to_prop; rewrite u32_small by (unfold is_u32; lia); lia.
  - destruct (Z.ltb_spec (count a - recPrior a) (spec_expected a - expPrior a)) as [Hlt|Hge].
    + rewrite (proj2 (Z.ltb_lt 0 (spec_expected a - expPrior a))) by lia.
      rewrite (proj2 (Z.ltb_lt 0 (_ - _ - _))) by lia. simpl.
      rewrite u8_small.
      2: { assert (0 < count a - recPrior a) by lia.
           pose proof (interval_fraction_bound (spec_expected a - expPrior a)
             (count a - recPrior a)). unfold is_u8. lia. }
      rewrite Z.shiftl_mul_pow2, Z.quot_div_nonneg by lia. reflexivity.
    + rewrite andb_false_intro2; [done|]. apply Z.ltb_ge. lia.
  - case_match; [|lia]. pose proof (u8_range (Z.quot (Z.shiftl (spec_expected a - expPrior a -
      (count a - recPrior a)) 8) (spec_expected a - expPrior a))). unfold is_u8 in *. lia.
Qed.

Lemma report_exact_witness :
  let s := fold_left (fun s n => update s (packet_at 5 n 0) 0) [2; 3; 6; 7; 8; 9; 10]
             (update zeroRx (pkt 5 1 0) 0) in
  exists rr, snd (report (fun _ => 0) s 0) = Some rr /\
    TotalLost rr = 2 /\ LastSequenceNumber rr = 10 /\ FractionLost rr = 51.
Proof.
  intros s.
  destruct (report_exact (fun _ => 0) 5 s (mkSpec 1 10 8 0 0 0) 0)
    as (rr & E & _ & E2 & E3 & E4 & _).
  - split; try (vm_compute; reflexivity); vm_compute; intuition congruence.
  - vm_compute; reflexivity.
  - vm_compute; reflexivity.
  - exists rr. rewrite E2, E3, E4. vm_compute. auto.
Defined.

(** The NTP conversion is the exact one: the 64-bit timestamp is the number of
    units of 2^-32 seconds since 1900, rounded down, modulo 2^64 (so the seconds
    wrap at the end of an NTP era and the fraction never carries into them). *)
Theorem ntpTime_exact t :
  ntpTime t = ((t + ntpEpochOffset * Second) * 2 ^ 32 / Second) mod 2 ^ 64.
Proof.
  unfold ntpTime, Unix, Nanosecond.
  pose proof (Z.mod_pos_bound t Second ltac:(reflexivity)) as Hr.
  set (q := t / Second). set (r := t mod Second) in *.
  assert (Et : t = q * Second + r) by (unfold q, r, Second; Z.div_mod_to_equations; lia).
  rewrite (u64_small r), (u64_small (r * 2 ^ 32)) by (unfold is_u64, Second in *; lia).
  rewrite Z.shiftl_mul_pow2 by lia.
  assert (Ehi : u64 (u64 (u64 q + ntpEpochOffset) * 2 ^ 32) =
                ((q + ntpEpochOffset) mod 2 ^ 32) * 2 ^ 32).
  { unfold u64, ntpEpochOffset. change (2 ^ 32) with 4294967296.
    Z.div_mod_to_equations. lia. }
  assert (Hf : 0 <= r * 2 ^ 32 / 1000000000 < 2 ^ 32).
  { split; [apply Z.div_pos; lia|]. apply Z.div_lt_upper_bound; unfold Second in *; lia. }
  rewrite Ehi, lor_high_low by lia.
  rewrite Et at 1.
  replace ((q * Second + r + ntpEpochOffset * Second) * 2 ^ 32)
    with (r * 2 ^ 32 + ((q + ntpEpochOffset) * 2 ^ 32) * Second) by lia.
  rewrite Z.div_add by (unfold Second; lia). unfold Second.
  set (f := r * 2 ^ 32 / 1000000000) in *. change (2 ^ 32) with 4294967296 in *.
  change (2 ^ 64) with 18446744073709551616. Z.div_mod_to_equations. lia.
Qed.

Definition payload_bytes (p : Packet) : Z := Z.of_nat (length (Payload p)).

Lemma sent_all_counts ps : forall s,
  packets (fold_left (fun s x => sent s (fst x) (snd x)) ps s) =
    (match ps with [] => packets s | _ => u32 (packets s + Z.of_nat (length ps)) end) /\
  octets (fold_left (fun s x => sent s (fst x) (snd x)) ps s) =
    (match ps with [] => octets s
     | _ => u32 (octets s + Z.of_nat (sum_list_with (fun x => length (Payload (fst x))) ps)) end).
Proof.
  induction ps as [|[p at_] ps IH]; intros s; [done|].
  cbn [fold_left fst snd]. destruct (IH (sent s p at_)) as [-> ->].
  destruct ps as [|x ps]; cbn [sent packets octets length sum_list_with fst];
    autorewrite with unwrap; split; try f_equal; lia.
Qed.

(** Sender reports count what was sent: none is produced before the first
    packet; after a non-empty list of packets the report carries the SSRC of the
    last one, the number of packets and the number of payload bytes modulo 2^32,
    and the exact NTP time. *)
Theorem senderReport_counts oob ps p at_ now :
  senderReport oob zeroTx now = None /\
  exists sr,
    senderReport oob (fold_left (fun s x => sent s (fst x) (snd x)) (ps ++ [(p, at_)]) zeroTx) now
      = Some sr /\
    sr_SSRC sr = SSRC p /\ NTPTime sr = ntpTime now /\
    PacketCount sr = u32 (Z.of_nat (length ps) + 1) /\
    OctetCount sr = u32 (Z.of_nat (sum_list_with (fun x => length (Payload (fst x))) ps)
                         + payload_bytes p).
Proof.
  split; [reflexivity|]. rewrite fold_left_app. cbn [fold_left fst snd].
  destruct (sent_all_counts ps zeroTx) as [E1 E2].
  eexists; split; [reflexivity|]. cbn [sr_SSRC NTPTime PacketCount OctetCount sent packets octets].
  rewrite E1, E2. unfold payload_bytes. conjs; try reflexivity.
  all: destruct ps; cbn [zeroTx packets octets length sum_list_with];
    autorewrite with unwrap; f_equal; lia.
Qed.
