(* ===== verification/Ports.v ===== *)
(** The UDP media port allocator (internal/media/ports.go). The operating system
    is the argument [listen]: the socket it returns for a port, or nothing. *)
From S2P Require Import Prelude Errors GoStrings.

Local Open Scope Z_scope.

(** [type PortAllocator struct]; [next] is an atomic uint32. *)
Record PortAllocator := mkPorts { Min : Z; Max : Z; next : Z }.

Section Listen.
Context {conn : Type}.
(** [net.ListenUDP("udp4", 0.0.0.0:port)]. *)
Variable listen : Z -> option conn.

(** The [for] loop, from index [i], with [fuel] ports left to try. *)
Fixpoint tryPorts (p : PortAllocator) (start n i : Z) (fuel : nat) : option (Z * conn) :=
  match fuel with
  | O => None
  | S fuel =>
      let port := Min p + Z.rem (start + i) n in
      match listen port with
      | Some c => Some (port, c)
      | None => tryPorts p start n (i + 1) fuel
      end
  end.

(** The first index of the round: [int(p.next.Add(1)-1) % n]. *)
Definition startIndex (p : PortAllocator) : Z :=
  Z.rem (u32 (u32 (next p + 1) - 1)) (Max p - Min p + 1).

Definition Listen (p : PortAllocator) : PortAllocator * result (Z * conn) :=
  let n := Max p - Min p + 1 in
  if n <=? 0 then (p, inl (NewError "invalid port range"))
  else
    let p' := mkPorts (Min p) (Max p) (u32 (next p + 1)) in
    match tryPorts p (startIndex p) n 0 (Z.to_nat n) with
    | Some r => (p', inr r)
    | None => (p', inl (NewError ("no free UDP media port in " +:+ Itoa (Min p) +:+ "-"
                                  +:+ Itoa (Max p))))
    end.

(** * Lemmas *)

Definition portAt (p : PortAllocator) (start i : Z) : Z :=
  Min p + (start + i) mod (Max p - Min p + 1).

Lemma tryPorts_spec p start fuel : forall i,
  0 <= start -> 0 <= i -> Min p <= Max p ->
  match tryPorts p start (Max p - Min p + 1) i fuel with
  | Some (port, c) =>
      exists j, i <= j < i + Z.of_nat fuel /\ port = portAt p start j /\
        listen port = Some c /\ forall k, i <= k < j -> listen (portAt p start k) = None
  | None => forall k, i <= k < i + Z.of_nat fuel -> listen (portAt p start k) = None
  end.
Proof.
  induction fuel as [|fuel IH]; intros i Hs Hi Hr; simpl; [lia|].
  rewrite Z.rem_mod_nonneg by lia. fold (portAt p start i).
  destruct (listen (portAt p start i)) as [c|] eqn:E.
  - exists i. conjs; auto; lia.
  - specialize (IH (i + 1) Hs ltac:(lia) Hr).
    destruct (tryPorts p start _ (i + 1) fuel) as [[port c]|].
    + destruct IH as (j & Hj & Hp & Hc & Hk). exists j. conjs; auto; try lia.
      intros k Hk'. destruct (decide (k = i)) as [->|]; [exact E|]. apply Hk; lia.
    + intros k Hk. destruct (decide (k = i)) as [->|]; [exact E|]. apply IH; lia.
Qed.

Lemma startIndex_range p :
  Min p <= Max p -> 0 <= startIndex p <= Max p - Min p.
Proof.
  intros H. unfold startIndex. pose proof (u32_range (u32 (next p + 1) - 1)).
  unfold is_u32 in *. rewrite Z.rem_mod_nonneg by lia.
  pose proof (Z.mod_pos_bound (u32 (u32 (next p + 1) - 1)) (Max p - Min p + 1)). lia.
Qed.

(** One round visits every port of the range. *)
Lemma portAt_onto p start port :
  Min p <= port <= Max p ->
  exists j, 0 <= j < Max p - Min p + 1 /\ portAt p start j = port.
Proof.
  intros H. exists ((port - Min p - start) mod (Max p - Min p + 1)).
  split; [apply Z.mod_pos_bound; lia|].
  unfold portAt. rewrite Zplus_mod_idemp_r.
  replace (start + (port - Min p - start)) with (port - Min p) by lia.
  rewrite Z.mod_small by lia. lia.
Qed.

Lemma portAt_range p start j : Min p <= Max p -> Min p <= portAt p start j <= Max p.
Proof.
  intros H. unfold portAt. pose proof (Z.mod_pos_bound (start + j) (Max p - Min p + 1)). lia.
Qed.

Lemma Listen_in_range p port c : snd (Listen p) = inr (port, c) -> Min p <= port <= Max p.
Proof.
  unfold Listen. destruct (Z.leb_spec (Max p - Min p + 1) 0) as [Hn|Hn]; simpl; [done|].
  pose proof (startIndex_range p ltac:(lia)) as Hs.
  pose proof (tryPorts_spec p (startIndex p) (Z.to_nat (Max p - Min p + 1)) 0
                ltac:(lia) ltac:(lia) ltac:(lia)) as H.
  destruct (tryPorts _ _ _ _ _) as [[q d]|]; simpl; intros; simplify_eq.
  destruct H as (j & _ & -> & _). apply portAt_range; lia.
Qed.

(** * Properties *)

(** C38. [Listen] finds a port whenever the range has a free one: it returns a
    socket on a free port inside [Min, Max], the first free one in cyclic order
    from the rotating start; it fails exactly when the range is empty or every
    port of it is taken. *)
Theorem Listen_complete p :
  match snd (Listen p) with
  | inr (port, c) =>
      Min p <= port <= Max p /\ listen port = Some c /\
      exists j, 0 <= j <= Max p - Min p /\ port = portAt p (startIndex p) j /\
        forall k, 0 <= k < j -> listen (portAt p (startIndex p) k) = None
  | inl _ => forall port, Min p <= port <= Max p -> listen port = None
  end.
Proof.
  unfold Listen. destruct (Z.leb_spec (Max p - Min p + 1) 0) as [Hn|Hn]; simpl; [lia|].
  pose proof (startIndex_range p ltac:(lia)) as Hs.
  pose proof (tryPorts_spec p (startIndex p) (Z.to_nat (Max p - Min p + 1)) 0
                ltac:(lia) ltac:(lia) ltac:(lia)) as H.
  destruct (tryPorts _ _ _ _ _) as [[port c]|]; simpl.
  - destruct H as (j & Hj & -> & Hc & Hk). split; [apply portAt_range; lia|].
    split; [exact Hc|]. exists j. split; [lia|]. auto.
  - intros port Hp. destruct (portAt_onto p (startIndex p) port Hp) as (j & Hj & <-).
    apply H. lia.
Qed.
End Listen.

(** The allocator rotates: while the 32-bit counter does not wrap, the start
    of the next call is the port after the start of this one (cyclically), so
    ports released early are not reused at once. *)
Theorem Listen_rotates {conn} (listen : Z -> option conn) p :
  Min p <= Max p -> is_u32 (next p) -> next p < 4294967295 ->
  let p' := fst (Listen listen p) in
  Min p' = Min p /\ Max p' = Max p /\ next p' = next p + 1 /\
  startIndex p' = (startIndex p + 1) mod (Max p - Min p + 1).
Proof.
  intros Hr Hu Hlt p'.
  assert (Ep' : p' = mkPorts (Min p) (Max p) (next p + 1)).
  { unfold p', Listen. rewrite (proj2 (Z.leb_gt _ _)) by lia.
    rewrite (u32_small (next p + 1)) by (unfold is_u32 in *; lia).
    destruct (tryPorts _ _ _ _ _ _); reflexivity. }
  rewrite Ep'. conjs; try reflexivity. unfold startIndex. simpl.
  autorewrite with unwrap.
  replace (next p + 1 + 1 - 1) with (next p + 1) by lia.
  replace (next p + 1 - 1) with (next p) by lia.
  rewrite !u32_small by (unfold is_u32 in *; lia). unfold is_u32 in *.
  rewrite !Z.rem_mod_nonneg by lia. rewrite Zplus_mod_idemp_l. reflexivity.
Qed.

Lemma Listen_rotates_witness :
  let p := mkPorts 40000 40002 2 in
  startIndex (fst (Listen (fun _ => Some tt) p)) = 0.
Proof.
  intros p. destruct (Listen_rotates (fun _ => Some tt) p) as (_ & _ & _ & E);
    [vm_compute; congruence | vm_compute; intuition congruence | reflexivity |].
  rewrite E. reflexivity.
Defined.
