(* ===== verification/GoTime.v ===== *)
(** [time.ParseDuration] of the Go standard library. *)
From S2P Require Import Prelude GoStrings GoFloat.
From Stdlib Require Import Ascii.

Local Open Scope Z_scope.

Definition two63 : Z := 9223372036854775808.

(** [leadingInt]: the digits at the front as an integer; [None] is an overflow. *)
Fixpoint leadingInt (x : Z) (l : list ascii) : option (Z * list ascii) :=
  match l with
  | [] => Some (x, [])
  | c :: l' =>
      if negb (isDigit c) then Some (x, l)
      else if two63 / 10 <? x then None
      else let x := x * 10 + digitVal c in
           if two63 <? x then None else leadingInt x l'
  end.

(** [leadingFraction]: the digits after the point, with their scale; digits that
    no longer fit are skipped. *)
Fixpoint leadingFraction (x : Z) (scale : float64) (overflow : bool) (l : list ascii)
  : Z * float64 * list ascii :=
  match l with
  | [] => (x, scale, [])
  | c :: l' =>
      if negb (isDigit c) then (x, scale, l)
      else if overflow then leadingFraction x scale true l'
      else if (two63 - 1) / 10 <? x then leadingFraction x scale true l'
      else let y := x * 10 + digitVal c in
           if two63 <? y then leadingFraction x scale true l'
           else leadingFraction y (fmul scale (of_int 10)) false l'
  end.

(** [unitMap]; the two spellings of the micro sign are U+00B5 and U+03BC. *)
Definition unitMap (u : list ascii) : option Z :=
  let named (s : string) := bool_decide (u = bytes s) in
  if named "ns" then Some 1
  else if named "us" then Some 1000
  else if bool_decide (u = [chr 0xC2; chr 0xB5; chr 115]) then Some 1000
  else if bool_decide (u = [chr 0xCE; chr 0xBC; chr 115]) then Some 1000
  else if named "ms" then Some Millisecond
  else if named "s" then Some Second
  else if named "m" then Some Minute
  else if named "h" then Some Hour
  else None.

(** The bytes up to the next digit or point. *)
Fixpoint spanUnit (l : list ascii) : list ascii * list ascii :=
  match l with
  | [] => ([], [])
  | c :: l' => if (code c =? 46) || isDigit c then ([], l)
               else let '(u, r) := spanUnit l' in (c :: u, r)
  end.

(** One round of the loop: a number with its unit, in nanoseconds, and the rest. *)
Definition durationTerm (oob : float64 -> Z) (l : list ascii) : option (Z * list ascii) :=
  match l with
  | [] => None
  | c :: _ =>
      if negb ((code c =? 46) || isDigit c) then None
      else match leadingInt 0 l with
      | None => None
      | Some (v, l1) =>
          let pre := negb (length l1 =? length l)%nat in
          let '(f, scale, l2, post) :=
            match l1 with
            | c1 :: l1' =>
                if code c1 =? 46
                then let '(f, scale, l2) := leadingFraction 0 (of_int 1) false l1' in
                     (f, scale, l2, negb (length l2 =? length l1')%nat)
                else (0, of_int 1, l1, false)
            | [] => (0, of_int 1, l1, false)
            end in
          if negb pre && negb post then None
          else
            let '(u, l3) := spanUnit l2 in
            match u with
            | [] => None
            | _ =>
                match unitMap u with
                | None => None
                | Some unit =>
                    if two63 / unit <? v then None
                    else
                      let v := v * unit in
                      if 0 <? f then
                        let v := u64 (v + to_uint oob 64
                                   (fmul (of_int f) (fdiv (of_int unit) scale))) in
                        if two63 <? v then None else Some (v, l3)
                      else Some (v, l3)
                end
            end
      end
  end.

(** The loop over the terms; every term consumes at least one byte, so the length
    of the text is enough fuel. *)
Fixpoint durationTerms (oob : float64 -> Z) (fuel : nat) (d : Z) (l : list ascii) : option Z :=
  match l with
  | [] => Some d
  | _ =>
      match fuel with
      | O => None
      | S fuel =>
          match durationTerm oob l with
          | None => None
          | Some (v, l') =>
              let d := u64 (d + v) in
              if two63 <? d then None else durationTerms oob fuel d l'
          end
      end
  end.

(** [time.ParseDuration]: nanoseconds, or an error. *)
Definition ParseDuration (oob : float64 -> Z) (s : string) : option Z :=
  let '(neg, l) :=
    match bytes s with
    | c :: l' => if (code c =? 45) || (code c =? 43) then (code c =? 45, l') else (false, c :: l')
    | [] => (false, [])
    end in
  if bool_decide (l = bytes "0") then Some 0
  else match l with
  | [] => None
  | _ =>
      match durationTerms oob (length l) 0 l with
      | None => None
      | Some d => if neg then Some (- d)
                  else if two63 - 1 <? d then None else Some d
      end
  end.

(** ** [time.Duration.String] *)

(** [prec] decimal digits of [v], without trailing zeros, after a point; nothing
    when they are all zero. *)
Definition fracText (v : Z) (prec : nat) : string :=
  let digits := map (fun i => chr (48 + v / 10 ^ Z.of_nat (prec - 1 - i) mod 10)) (seq 0 prec) in
  match rev (dropWhile (Ascii.eqb (chr 48)) (rev digits)) with
  | [] => ""
  | l => of_bytes (chr 46 :: l)
  end.

Definition Microsecond : Z := 1000.

Definition DurationString (d : Z) : string :=
  let u := Z.abs d in
  let body :=
    if u =? 0 then "0s"
    else if u <? Microsecond then Itoa u +:+ "ns"
    else if u <? Millisecond then
      Itoa (u / 1000) +:+ fracText u 3 +:+ of_bytes [chr 0xC2; chr 0xB5] +:+ "s"
    else if u <? Second then Itoa (u / 1000000) +:+ fracText u 6 +:+ "ms"
    else
      let s := u / Second in
      let sec := Itoa (s mod 60) +:+ fracText u 9 +:+ "s" in
      let m := s / 60 in
      if 0 <? m then
        let h := m / 60 in
        (if 0 <? h then Itoa h +:+ "h" else "") +:+ Itoa (m mod 60) +:+ "m" +:+ sec
      else sec in
  (if d <? 0 then "-" else "") +:+ body.

(** * Lemmas *)

Lemma durationTerms_range oob fuel : forall d l r,
  0 <= d <= two63 -> durationTerms oob fuel d l = Some r -> 0 <= r <= two63.
Proof.
  induction fuel as [|fuel IH]; intros d [|c l] r Hd H; cbn [durationTerms] in H; simplify_eq; auto.
  destruct (durationTerm oob (c :: l)) as [[v l']|]; [|done].
  destruct (Z.ltb_spec two63 (u64 (d + v))); [done|].
  apply IH in H; auto. pose proof (u64_range (d + v)). unfold is_u64 in *. lia.
Qed.

(** The result is a [time.Duration], an int64. *)
Lemma ParseDuration_range oob s v :
  ParseDuration oob s = Some v -> minInt64 <= v <= maxInt64.
Proof.
  unfold ParseDuration.
  destruct (match bytes s with [] => _ | _ => _ end) as [neg l].
  case_bool_decide; [intros; simplify_eq; unfold minInt64, maxInt64; lia|].
  destruct l as [|c l]; [done|].
  destruct (durationTerms _ _ _ _) as [d|] eqn:E; [|done].
  apply durationTerms_range in E; [|unfold two63; lia].
  unfold minInt64, maxInt64, two63 in *.
  destruct neg; [intros; simplify_eq; lia|].
  destruct (Z.ltb_spec (9223372036854775808 - 1) d); [done|]. intros; simplify_eq; lia.
Qed.
