(* ===== verification/Config.v ===== *)
(** Configuration from the environment (internal/config/config.go). The
    environment is the argument [getenv] (the empty string when unset); out of
    range float conversions inside [time.ParseDuration] are the argument [oob]. *)
From S2P Require Import Prelude Errors GoStrings GoFloat GoTime.

Local Open Scope Z_scope.

Record Config := mkConfig {
  HTTPAddr : string; LiveKitURL : string; LiveKitAPIKey : string; LiveKitSecret : string;
  PublicIP : Addr4; PortMin : Z; PortMax : Z;
  SetupTimeout : Z; MediaTimeout : Z; MaxCallDuration : Z;
  RTCPInterval : Z; StatsInterval : Z; ShutdownWindow : Z
}.

Section Load.
Variable getenv : string -> string.
Variable oob : float64 -> Z.

Definition env (k d : string) : string :=
  if bool_decide (getenv k <> "") then getenv k else d.

Definition envInt (k : string) (d : Z) : Z :=
  match Atoi (getenv k) with
  | Some v => if negb (v =? 0) then v else d
  | None => d
  end.

Definition envDuration (k : string) (d : Z) : Z :=
  match ParseDuration oob (getenv k) with
  | Some v => if 0 <? v then v else d
  | None => d
  end.

Definition isOff (v : string) : bool :=
  bool_decide (v = "0") || bool_decide (v = "off") || bool_decide (v = "false").

Definition envDurationOrOff (k : string) (d : Z) : Z :=
  if isOff (getenv k) then 0 else envDuration k d.

Definition Load : result Config :=
  match ParseAddr4 (getenv "PUBLIC_IP") with
  | None => inl (NewError "PUBLIC_IP must be a valid IPv4 address")
  | Some ip =>
      let c := mkConfig
        (env "HTTP_ADDR" "127.0.0.1:8090")
        (env "LIVEKIT_URL" "ws://127.0.0.1:7880")
        (getenv "LIVEKIT_API_KEY") (getenv "LIVEKIT_API_SECRET") ip
        (envInt "MEDIA_PORT_MIN" 40000) (envInt "MEDIA_PORT_MAX" 49999)
        (envDuration "SETUP_TIMEOUT" (30 * Second))
        (envDuration "MEDIA_TIMEOUT" (20 * Second))
        (envDuration "MAX_CALL_DURATION" (2 * Hour))
        (envDurationOrOff "RTCP_INTERVAL" (2 * Second))
        (envDurationOrOff "STATS_INTERVAL" (15 * Second))
        (envDuration "SHUTDOWN_TIMEOUT" (15 * Second)) in
      if bool_decide (LiveKitAPIKey c = "") || bool_decide (LiveKitSecret c = "")
      then inl (NewError "LIVEKIT_API_KEY and LIVEKIT_API_SECRET are required")
      else if (PortMin c <? 1024) || (65535 <? PortMax c) || (PortMax c <? PortMin c)
      then inl (NewError ("invalid media port range " +:+ Itoa (PortMin c) +:+ "-"
                          +:+ Itoa (PortMax c)))
      else inr c
  end.
End Load.

(** * Lemmas *)

(** A duration that the program can use: a positive int64. *)
Definition positive_duration (d : Z) : Prop := 0 < d <= maxInt64.

Lemma envDuration_positive getenv oob k d :
  positive_duration d -> positive_duration (envDuration getenv oob k d).
Proof.
  intros Hd. unfold envDuration.
  destruct (ParseDuration oob (getenv k)) as [v|] eqn:E; [|done].
  destruct (Z.ltb_spec 0 v); [|done].
  apply ParseDuration_range in E. unfold positive_duration. lia.
Qed.

Lemma envDurationOrOff_spec getenv oob k d :
  positive_duration d ->
  if isOff (getenv k) then envDurationOrOff getenv oob k d = 0
  else positive_duration (envDurationOrOff getenv oob k d).
Proof.
  intros Hd. unfold envDurationOrOff.
  destruct (isOff (getenv k)); auto using envDuration_positive.
Qed.

(** * Properties *)

Record config_ok (getenv : string -> string) (c : Config) : Prop := {
  cok_key : LiveKitAPIKey c = getenv "LIVEKIT_API_KEY" /\ LiveKitAPIKey c <> "";
  cok_secret : LiveKitSecret c = getenv "LIVEKIT_API_SECRET" /\ LiveKitSecret c <> "";
  cok_ip : addr4_ok (PublicIP c) /\ Addr4_String (PublicIP c) = getenv "PUBLIC_IP";
  cok_ports : 1024 <= PortMin c /\ PortMin c <= PortMax c /\ PortMax c <= 65535;
  cok_setup : positive_duration (SetupTimeout c);
  cok_media : positive_duration (MediaTimeout c);
  cok_max : positive_duration (MaxCallDuration c);
  cok_shutdown : positive_duration (ShutdownWindow c);
  cok_rtcp : if isOff (getenv "RTCP_INTERVAL") then RTCPInterval c = 0
             else positive_duration (RTCPInterval c);
  cok_stats : if isOff (getenv "STATS_INTERVAL") then StatsInterval c = 0
              else positive_duration (StatsInterval c);
  cok_addrs : HTTPAddr c <> "" /\ LiveKitURL c <> ""
}.

Lemma env_nonempty getenv k d : d <> "" -> env getenv k d <> "".
Proof. intros Hd. unfold env. by case_bool_decide. Qed.

(** A configuration that [Load] accepts is one the program can rely on. *)
Lemma Load_valid getenv oob c : Load getenv oob = inr c -> config_ok getenv c.
Proof.
  unfold Load. destruct (ParseAddr4 (getenv "PUBLIC_IP")) as [ip|] eqn:Eip; [|done]. simpl.
  case_bool_decide as Hk; [done|]. case_bool_decide as Hs; [done|]. simpl.
  destruct (_ || _ || _) eqn:Hp; [done|]. intros; simplify_eq.
  apply orb_false_iff in Hp as [[H1%Z.ltb_ge H2%Z.ltb_ge]%orb_false_iff H3%Z.ltb_ge].
  assert (Hd : forall d, d ∈ [30 * Second; 20 * Second; 2 * Hour; 2 * Second; 15 * Second] ->
            positive_duration d).
  { intros d Hd. unfold positive_duration, maxInt64.
    repeat (apply elem_of_cons in Hd as [->|Hd]; [vm_compute; intuition congruence|]).
    by apply elem_of_nil in Hd. }
  split; simpl; auto using env_nonempty;
    try (apply envDuration_positive || apply envDurationOrOff_spec;
         apply Hd; repeat constructor).
  by apply ParseAddr4_print.
Qed.

(** [v] is the positive duration the variable [k] holds, or the default [d] when it
    holds none. *)
Definition duration_from (getenv : string -> string) (oob : float64 -> Z) (k : string) (d v : Z) : Prop :=
  (ParseDuration oob (getenv k) = Some v /\ 0 < v) \/
  ((forall v', ParseDuration oob (getenv k) = Some v' -> v' <= 0) /\ v = d).

Lemma envDuration_from getenv oob k d : duration_from getenv oob k d (envDuration getenv oob k d).
Proof.
  unfold duration_from, envDuration. destruct (ParseDuration oob (getenv k)) as [v|].
  - destruct (Z.ltb_spec 0 v); [by left|]. right. split; [|done]. intros; by simplify_eq.
  - right. by split.
Qed.

(** C37. Whatever the environment holds, [Load] either returns a configuration on
    which the rest of the program can rely (credentials present, the public address
    an IPv4 address that prints as the text it was read from, a media port range
    inside 1024..65535, every timeout a positive int64, so the call-duration cap is
    always armed, and the two reporting intervals zero exactly when switched off),
    with each timeout taken from its own variable or its default, or it returns the
    first of three errors that applies: the address, then the credentials, then the
    port range. *)
Theorem Load_spec getenv oob :
  let bad_ip := ParseAddr4 (getenv "PUBLIC_IP") = None in
  let no_key := getenv "LIVEKIT_API_KEY" = "" \/ getenv "LIVEKIT_API_SECRET" = "" in
  let lo := envInt getenv "MEDIA_PORT_MIN" 40000 in
  let hi := envInt getenv "MEDIA_PORT_MAX" 49999 in
  let range := 1024 <= lo /\ lo <= hi /\ hi <= 65535 in
  match Load getenv oob with
  | inr c =>
      ~ bad_ip /\ ~ no_key /\ range /\ config_ok getenv c /\ PortMin c = lo /\ PortMax c = hi /\
      duration_from getenv oob "SETUP_TIMEOUT" (30 * Second) (SetupTimeout c) /\
      duration_from getenv oob "MEDIA_TIMEOUT" (20 * Second) (MediaTimeout c) /\
      duration_from getenv oob "MAX_CALL_DURATION" (2 * Hour) (MaxCallDuration c) /\
      duration_from getenv oob "SHUTDOWN_TIMEOUT" (15 * Second) (ShutdownWindow c)
  | inl e =>
      (bad_ip /\ e = NewError "PUBLIC_IP must be a valid IPv4 address") \/
      (~ bad_ip /\ no_key /\ e = NewError "LIVEKIT_API_KEY and LIVEKIT_API_SECRET are required") \/
      (~ bad_ip /\ ~ no_key /\ ~ range /\
       e = NewError ("invalid media port range " +:+ Itoa lo +:+ "-" +:+ Itoa hi))
  end.
Proof.
  intros bad_ip no_key lo hi range. pose proof (Load_valid getenv oob) as Hvalid.
  unfold Load in *. destruct (ParseAddr4 (getenv "PUBLIC_IP")) as [ip|] eqn:Eip; [|left; by split].
  assert (Hip : ~ bad_ip) by (unfold bad_ip; congruence). simpl in *. fold lo hi in Hvalid |- *.
  destruct (bool_decide_reflect (getenv "LIVEKIT_API_KEY" = "")) as [Ek|Ek]; [right; left; unfold no_key; auto|].
  destruct (bool_decide_reflect (getenv "LIVEKIT_API_SECRET" = "")) as [Es|Es]; [right; left; unfold no_key; auto|].
  assert (Hk : ~ no_key) by (unfold no_key; tauto). simpl in *.
  destruct (_ || _ || _) eqn:Hp.
  - right; right. conjs; auto. unfold range.
    apply orb_true_iff in Hp as [[H%Z.ltb_lt|H%Z.ltb_lt]%orb_true_iff|H%Z.ltb_lt]; lia.
  - apply orb_false_iff in Hp as [[H1%Z.ltb_ge H2%Z.ltb_ge]%orb_false_iff H3%Z.ltb_ge].
    conjs; auto using envDuration_from. unfold range. lia.
Qed.
