(* ===== verification/Meta.v ===== *)
(** The Meta calls API client (internal/meta/client.go): request construction,
    response handling and the retry policy. The network, the clock and the URL and
    JSON readers of the standard library are arguments (see [Net]). *)
From S2P Require Import Prelude Errors GoStrings.
From Stdlib Require Import Ascii.

Local Open Scope Z_scope.

(** ** Retry policy *)

Definition maxAttempts : nat := 3.

Inductive retryPolicy := retryNever | retryUnprocessed | retryAny.

#[export] Instance retryPolicy_eq_dec : EqDecision retryPolicy.
Proof. solve_decision. Defined.

Definition StatusTooManyRequests : Z := 429.
Definition StatusServiceUnavailable : Z := 503.

Definition retryable (policy : retryPolicy) (err : option error) : bool :=
  match err with
  | None => false
  | Some err =>
      if bool_decide (policy = retryNever) then false
      else match errors_As_status err with
      | Some (code, _) =>
          if (code =? StatusTooManyRequests) || (code =? StatusServiceUnavailable) then true
          else bool_decide (policy = retryAny) && (500 <=? code)
      | None =>
          if errors_Is err Canceled then false
          else if bool_decide (errors_As_op err = Some "dial") then true
          else bool_decide (policy = retryAny)
      end
  end.

(** ** Requests *)

Record session := mkSession { SDPType : string; SDP : string }.

Record callRequest := mkCallRequest {
  MessagingProduct : string; CallID : string; To : string; Action : string;
  Session : option session; Opaque : string
}.

Set Warnings "-register-all".

(** The JSON value of a request body: the fields of an object in order. *)
Inductive json := JStr (s : string) | JObj (fields : list (string * json)).

(** [json.Marshal] of a callRequest: empty [omitempty] fields are left out. *)
Definition omitempty (k v : string) : list (string * json) :=
  if bool_decide (v = "") then [] else [(k, JStr v)].

Definition marshal (b : callRequest) : json :=
  JObj ([("messaging_product", JStr (MessagingProduct b))]
        ++ omitempty "call_id" (CallID b) ++ omitempty "to" (To b)
        ++ [("action", JStr (Action b))]
        ++ match Session b with
           | None => []
           | Some s => [("session", JObj [("sdp_type", JStr (SDPType s)); ("sdp", JStr (SDP s))])]
           end
        ++ omitempty "biz_opaque_callback_data" (Opaque b)).

Record Request := mkRequest {
  Method : string; URL : string; Authorization : string; ContentType : string; Body : json
}.

Record Response := mkResponse { StatusCode : Z; RespBody : string }.

(** What the client takes from outside: [urlError] is the verdict of
    [http.NewRequestWithContext] on a URL; [decodeCalls] the ids of the "calls"
    array of a JSON text ([None] when it does not decode); [exchange n] the outcome
    of the n-th HTTP exchange of a call; [timerFirst n] whether the n-th back-off
    ends before the context does. *)
Record Net := mkNet {
  urlError : string -> option error;
  decodeCalls : string -> option (list string);
  exchange : nat -> Request -> error + Response;
  timerFirst : nat -> bool
}.

Record Client := mkClient { BaseURL : string; Backoff : option (Z -> Z) }.

Definition New : Client := mkClient "https://graph.facebook.com" None.

Definition backoff (c : Client) (n : Z) : Z :=
  match Backoff c with Some f => f n | None => n * 400 * Millisecond end.

(** The first [n] bytes ([io.LimitReader], string slices). *)
Fixpoint takeZ (n : Z) (l : list ascii) : list ascii :=
  match l with [] => [] | c :: l' => if n <=? 0 then [] else c :: takeZ (n - 1) l' end.
Definition limit (n : Z) (s : string) : string := of_bytes (takeZ n (bytes s)).

Definition sanitize (s : string) : string :=
  let s := if 512 <? len s then limit 512 s else s in
  ReplaceByte (ReplaceByte s (chr 10) " ") (chr 13) " ".

Section Call.
Variable c : Client.
Variable net : Net.

(** The request of [callOnce], or the error that prevents sending it. *)
Definition buildRequest (version phoneID token : string) (body : callRequest) : error + Request :=
  let version := TrimPrefix (TrimSpace version) "v" in
  if bool_decide (version = "") then inl (NewError "WhatsApp API version is required")
  else
    let u := TrimRight (BaseURL c) (chr 47) +:+ "/v" +:+ version +:+ "/" +:+ phoneID +:+ "/calls" in
    match urlError net u with
    | Some e => inl e
    | None => inr (mkRequest "POST" u ("Bearer " +:+ token) "application/json" (marshal body))
    end.

(** The treatment of a response by [callOnce]. *)
Definition readResponse (body : callRequest) (resp : Response) : result string :=
  if (200 <=? StatusCode resp) && (StatusCode resp <? 300) then
    if bool_decide (Action body = "connect") && bool_decide (CallID body = "") then
      match decodeCalls net (limit 1048576 (RespBody resp)) with
      | Some (id :: _) =>
          if bool_decide (id = "") then inl (NewError "Meta calls API returned no call id")
          else inr id
      | _ => inl (NewError "Meta calls API returned no call id")
      end
    else inr ""
  else inl (HttpStatusError (StatusCode resp) (sanitize (limit 4096 (RespBody resp)))).

(** [callOnce], the [n]-th attempt: the request it sends, if any, and its result. *)
Definition callOnce (n : nat) (version phoneID token : string) (body : callRequest)
  : option Request * result string :=
  match buildRequest version phoneID token body with
  | inl e => (None, inl e)
  | inr req =>
      (Some req, match exchange net n req with
                 | inl e => inl e
                 | inr resp => readResponse body resp
                 end)
  end.

Definition err_of {A} (r : result A) : option error :=
  match r with inl e => Some e | inr _ => None end.

(** What a call does, in order: requests sent and back-off pauses entered. *)
Inductive meta_event := Sent (r : Request) | Paused (d : Z).

(** The retry loop from attempt number [attempt]; [left] attempts remain. *)
Fixpoint callFrom (policy : retryPolicy) (version phoneID token : string) (body : callRequest)
  (left attempt : nat) : list meta_event * result string :=
  match left with
  | O => ([], inr "")
  | S left' =>
      let '(req, out) := callOnce attempt version phoneID token body in
      let sent := match req with Some r => [Sent r] | None => [] end in
      if bool_decide (err_of out = None) || (attempt =? maxAttempts)%nat
         || negb (retryable policy (err_of out))
      then (sent, out)
      else
        let pause := Paused (backoff c (Z.of_nat attempt)) in
        if timerFirst net attempt
        then let '(evs, out) := callFrom policy version phoneID token body left' (S attempt) in
             (sent ++ pause :: evs, out)
        else (sent ++ [pause], out)
  end.

Definition call (policy : retryPolicy) (version phoneID token : string) (body : callRequest)
  : list meta_event * result string :=
  callFrom policy version phoneID token body maxAttempts 1.

Definition PreAccept (version phoneID token callID sdp : string) : list meta_event * result string :=
  call retryUnprocessed version phoneID token
    (mkCallRequest "whatsapp" callID "" "pre_accept" (Some (mkSession "answer" sdp)) "").
Definition Accept (version phoneID token callID sdp : string) : list meta_event * result string :=
  call retryUnprocessed version phoneID token
    (mkCallRequest "whatsapp" callID "" "accept" (Some (mkSession "answer" sdp)) "").
Definition Terminate (version phoneID token callID : string) : list meta_event * result string :=
  call retryAny version phoneID token
    (mkCallRequest "whatsapp" callID "" "terminate" None "").

Definition Dial (version phoneID token to opaque sdp : string) : list meta_event * result string :=
  let to := TrimPrefix (TrimSpace to) "+" in
  if bool_decide (to = "") then ([], inl (NewError "WhatsApp destination is required"))
  else call retryNever version phoneID token
         (mkCallRequest "whatsapp" "" to "connect" (Some (mkSession "offer" sdp)) opaque).
End Call.

(** * Lemmas *)

(** The requests and the pauses of a call. *)
Definition requests (evs : list meta_event) : list Request :=
  omap (fun e => match e with Sent r => Some r | Paused _ => None end) evs.
Definition pauses (evs : list meta_event) : list Z :=
  omap (fun e => match e with Paused d => Some d | Sent _ => None end) evs.

Lemma requests_app l k : requests (l ++ k) = requests l ++ requests k.
Proof. apply omap_app. Qed.

Section CallLemmas.
Variables (c : Client) (net : Net) (policy : retryPolicy).
Variables (version phoneID token : string) (body : callRequest).

Abbreviation once n := (callOnce c net n version phoneID token body).
Abbreviation failed n := (err_of (snd (once n))).

(** What attempts [lo..k] put on the wire. *)
Definition sent_upto (lo k : nat) : list Request :=
  omap (fun n => fst (once n)) (seq lo (S k - lo)).

(** The event of one attempt on the wire, and whether the loop ends with attempt [n]
    without looking at the clock. *)
Definition wire (n : nat) : list meta_event :=
  match fst (once n) with Some r => [Sent r] | None => [] end.
Definition final (n : nat) : bool :=
  bool_decide (failed n = None) || (n =? maxAttempts)%nat || negb (retryable policy (failed n)).

(** A run of the loop that ends at attempt [k]. *)
Record run_ends (lo k : nat) (evs : list meta_event) (out : result string) : Prop := {
  re_range : (lo <= k <= maxAttempts)%nat;
  re_result : out = snd (once k);
  re_events : evs = concat (map (fun n => wire n ++ [Paused (backoff c (Z.of_nat n))]) (seq lo (k - lo))) ++
    wire k ++ (if final k then [] else [Paused (backoff c (Z.of_nat k))]);
  re_requests : requests evs = sent_upto lo k;
  re_retried : forall n, (lo <= n < k)%nat ->
    retryable policy (failed n) = true /\ timerFirst net n = true;
  re_stop : failed k = None \/ k = maxAttempts \/ retryable policy (failed k) = false \/
    timerFirst net k = false
}.

Lemma sent_upto_step lo k :
  (lo <= k)%nat ->
  sent_upto lo k = match fst (once lo) with Some r => [r] | None => [] end ++ sent_upto (S lo) k.
Proof.
  intros H. unfold sent_upto. replace (S k - lo)%nat with (S (S k - S lo)) by lia. simpl.
  destruct (fst (once lo)); reflexivity.
Qed.

Lemma sent_upto_self lo :
  sent_upto lo lo = match fst (once lo) with Some r => [r] | None => [] end.
Proof.
  rewrite sent_upto_step by lia. unfold sent_upto.
  replace (S lo - S lo)%nat with O by lia. apply app_nil_r.
Qed.

Lemma callFrom_ends : forall left attempt,
  (1 <= attempt <= maxAttempts)%nat -> (attempt + left = S maxAttempts)%nat ->
  exists k, run_ends attempt k
    (fst (callFrom c net policy version phoneID token body left attempt))
    (snd (callFrom c net policy version phoneID token body left attempt)).
Proof.
  induction left as [|left IH]; intros attempt Ha Hl; [lia|].
  cbn [callFrom].
  assert (Hq : forall t, requests (match fst (once attempt) with Some r => [Sent r] | None => [] end ++ t)
             = match fst (once attempt) with Some r => [r] | None => [] end ++ requests t)
    by (intros t; rewrite requests_app; by destruct (fst (once attempt))).
  destruct (once attempt) as [req out] eqn:Eo. cbn [fst snd] in Hq.
  destruct (bool_decide (err_of out = None) || (attempt =? maxAttempts)%nat
            || negb (retryable policy (err_of out))) eqn:Estop.
  { exists attempt. split; cbn [fst snd]; try lia; [by rewrite Eo| | |].
    - rewrite Nat.sub_diag. unfold wire, final. rewrite Eo. cbn [fst snd]. rewrite Estop. simpl.
      by rewrite app_nil_r.
    - rewrite sent_upto_self, Eo. rewrite <- (app_nil_r (match req with Some _ => _ | _ => _ end)).
      rewrite Hq. apply app_nil_r.
    - rewrite Eo. simpl.
      apply orb_true_iff in Estop as [[H%bool_decide_eq_true|H%Nat.eqb_eq]%orb_true_iff|H%negb_true_iff];
        auto. }
  pose proof Estop as Estop'.
  apply orb_false_iff in Estop as [[_ Hne%Nat.eqb_neq]%orb_false_iff Hr%negb_false_iff].
  destruct (timerFirst net attempt) eqn:Et.
  - destruct (IH (S attempt)) as [k [H1 H2 He H3 H4 H5]]; [lia|lia|].
    destruct (callFrom c net policy version phoneID token body left (S attempt)) as [evs out'].
    cbn [fst snd] in *. exists k. split; cbn [fst snd]; try lia; auto.
    + replace (k - attempt)%nat with (S (k - S attempt)) by lia. cbn [seq map concat].
      rewrite He. unfold wire at 3. rewrite Eo. cbn [fst]. rewrite <- !app_assoc. reflexivity.
    + rewrite Hq. cbn [requests omap list_omap]. fold (requests evs).
      rewrite H3, (sent_upto_step attempt) by lia. by rewrite Eo.
    + intros n Hn. destruct (decide (n = attempt)) as [->|]; [rewrite Eo; auto|].
      apply H4. lia.
  - exists attempt. split; cbn [fst snd]; try lia; auto; [by rewrite Eo| |].
    { rewrite Nat.sub_diag. unfold wire, final. rewrite Eo. cbn [fst snd]. by rewrite Estop'. }
    rewrite Hq, sent_upto_self, Eo. apply app_nil_r.
Qed.

(** Every attempt sends the same request, or none. *)
Lemma callOnce_request n :
  fst (once n) = match buildRequest c net version phoneID token body with
                 | inl _ => None | inr r => Some r end.
Proof. unfold callOnce. by destruct (buildRequest _ _ _ _ _ _). Qed.

Lemma sent_upto_replicate lo k :
  sent_upto lo k = match buildRequest c net version phoneID token body with
                   | inl _ => [] | inr r => replicate (S k - lo) r end.
Proof.
  unfold sent_upto. generalize (S k - lo)%nat as m. intros m. revert lo.
  induction m as [|m IH]; intros lo; [by destruct (buildRequest _ _ _ _ _ _)|].
  cbn [seq omap list_omap]. rewrite callOnce_request.
  specialize (IH (S lo)). destruct (buildRequest _ _ _ _ _ _); simpl; by rewrite IH.
Qed.
End CallLemmas.

Lemma retryNever_not_retryable e : retryable retryNever e = false.
Proof. destruct e; reflexivity. Qed.

(** The failures after which nothing was processed: the API said it is overloaded,
    or the connection was never made. *)
Definition unprocessed (e : error) : Prop :=
  match errors_As_status e with
  | Some (code, _) => code = StatusTooManyRequests \/ code = StatusServiceUnavailable
  | None => errors_As_op e = Some "dial" /\ errors_Is e Canceled = false
  end.

Lemma retryUnprocessed_spec err :
  retryable retryUnprocessed err = true -> exists e, err = Some e /\ unprocessed e.
Proof.
  destruct err as [e|]; simpl; [|done]. intros H. exists e. split; [done|].
  unfold unprocessed. destruct (errors_As_status e) as [[code m]|].
  - destruct (_ || _) eqn:E in H; [|done].
    apply orb_true_iff in E as [->%Z.eqb_eq| ->%Z.eqb_eq]; auto.
  - destruct (errors_Is e Canceled); [done|]. by case_bool_decide.
Qed.

(** The failures after which even [terminate] is not repeated. *)
Lemma retryAny_spec e :
  retryable retryAny (Some e) = false ->
  errors_Is e Canceled = true \/
  exists code m, errors_As_status e = Some (code, m) /\ code < 500 /\ code <> 429.
Proof.
  simpl. destruct (errors_As_status e) as [[code m]|].
  - destruct (_ || _) eqn:E; [done|]. apply orb_false_iff in E as [E1%Z.eqb_neq E2%Z.eqb_neq].
    simpl. intros H%Z.leb_gt. right. exists code, m. auto.
  - destruct (errors_Is e Canceled); [auto|]. by case_bool_decide.
Qed.

(** * Properties *)

(** C9. The retry loop implements its policy: a call makes between one and three
    attempts, each sending the same request (or none when the request cannot be
    built); between two attempts it makes exactly one pause, of the configured length
    for that attempt or of 400 ms times its number; it repeats only failures the
    policy allows and only when the pause ended before the context; it returns the
    result of its last attempt, at once when that is a success, the third, or a
    failure that is not to be repeated, and otherwise out of the pause that the end of
    the context cut short. *)
Theorem call_follows_policy c net policy version phoneID token body :
  let once n := callOnce c net n version phoneID token body in
  let sent := match buildRequest c net version phoneID token body with
              | inl _ => [] | inr r => [Sent r] end in
  let pause n := Paused (match Backoff c with
                         | Some f => f (Z.of_nat n)
                         | None => Z.of_nat n * 400 * Millisecond end) in
  let '(evs, out) := call c net policy version phoneID token body in
  exists k, (1 <= k <= maxAttempts)%nat /\ out = snd (once k) /\
    (forall n, (1 <= n < k)%nat ->
       retryable policy (err_of (snd (once n))) = true /\ timerFirst net n = true) /\
    ((evs = concat (map (fun n => sent ++ [pause n]) (seq 1 (k - 1))) ++ sent /\
      (err_of (snd (once k)) = None \/ k = maxAttempts \/
       retryable policy (err_of (snd (once k))) = false)) \/
     (evs = concat (map (fun n => sent ++ [pause n]) (seq 1 k)) /\ (k < maxAttempts)%nat /\
      retryable policy (err_of (snd (once k))) = true /\ timerFirst net k = false)).
Proof.
  intros once sent pause. unfold call.
  destruct (callFrom_ends c net policy version phoneID token body maxAttempts 1)
    as [k [H1 H2 He H3 H4 H5]]; [unfold maxAttempts; lia|reflexivity|].
  destruct (callFrom c net policy version phoneID token body maxAttempts 1) as [evs out].
  assert (Hw : forall n, wire c net version phoneID token body n = sent).
  { intros n. unfold wire. rewrite callOnce_request. unfold sent. by destruct (buildRequest _ _ _ _ _ _). }
  exists k. cbn [fst snd] in *. split; [lia|]. split; [exact H2|]. split; [exact H4|].
  assert (Hm : forall l, map (fun n => wire c net version phoneID token body n ++
      [Paused (backoff c (Z.of_nat n))]) l = map (fun n => sent ++ [pause n]) l).
  { intros l. apply map_ext. intros n. by rewrite Hw. }
  rewrite Hm, Hw in He. destruct (final c net policy version phoneID token body k) eqn:Ef; unfold final in Ef.
  - left. rewrite app_nil_r in He. split; [done|].
    apply orb_true_iff in Ef as [[?%bool_decide_eq_true|?%Nat.eqb_eq]%orb_true_iff|?%negb_true_iff]; auto.
  - right. apply orb_false_iff in Ef as [[Hs%bool_decide_eq_false Hk%Nat.eqb_neq]%orb_false_iff Hr%negb_false_iff].
    split; [|split; [lia|split; [done|]]].
    + rewrite He. replace k with (S (k - 1)) at 3 by lia. rewrite seq_S, map_app, concat_app. simpl.
      rewrite app_nil_r. replace (S (k - 1)) with k by lia. reflexivity.
    + destruct H5 as [?|[?|[?|?]]]; [done|lia|congruence|done].
Qed.

(** C28. An outbound call is never placed twice: whatever the network answers,
    [Dial] sends at most one request and never pauses to retry. *)
Theorem Dial_sends_once c net version phoneID token to opaque sdp :
  let '(evs, _) := Dial c net version phoneID token to opaque sdp in
  (length (requests evs) <= 1)%nat /\ pauses evs = [].
Proof.
  unfold Dial. case_bool_decide; [simpl; auto|]. unfold call, maxAttempts. cbn [callFrom].
  destruct (callOnce _ _ _ _ _ _ _) as [[r|] out]; cbn [fst snd];
    rewrite retryNever_not_retryable, orb_true_r; simpl; auto.
Qed.

(** C29. [PreAccept] and [Accept] are repeated only when the request was not
    processed: when more than one request went out, every attempt but the last
    ended in HTTP 429, HTTP 503 or a failure to connect. *)
Theorem accept_repeats_only_unprocessed c net version phoneID token callID sdp action :
  action = PreAccept c net \/ action = Accept c net ->
  exists k body, requests (fst (action version phoneID token callID sdp)) =
      match buildRequest c net version phoneID token body with
      | inl _ => [] | inr r => replicate k r end /\
    forall n, (1 <= n < k)%nat -> exists e,
      snd (callOnce c net n version phoneID token body) = inl e /\ unprocessed e.
Proof.
  intros Ha.
  assert (Hc : exists body, action version phoneID token callID sdp =
                 call c net retryUnprocessed version phoneID token body)
    by (destruct Ha as [-> | ->]; eexists; reflexivity).
  destruct Hc as [body ->].
  destruct (callFrom_ends c net retryUnprocessed version phoneID token body maxAttempts 1)
    as [k [H1 _ _ H3 H4 _]]; [unfold maxAttempts; lia|reflexivity|].
  exists k, body. unfold call. rewrite H3, sent_upto_replicate.
  replace (S k - 1)%nat with k by lia. split; [done|]. intros n Hn.
  destruct (H4 n Hn) as [Hr _]. apply retryUnprocessed_spec in Hr as (e & He & Hu).
  exists e. split; [|exact Hu]. unfold err_of in He. case_match; simplify_eq. reflexivity.
Qed.

(** C39. [Terminate] does not give up early: when its back-offs run to their end and it
    fails, either no request could be built, and none was sent, or the same request
    was sent three times, or its last attempt ended in a cancellation or in a status
    below 500 other than 429, which a repetition would not change. *)
Theorem Terminate_persists c net version phoneID token callID e :
  (forall n, timerFirst net n = true) ->
  snd (Terminate c net version phoneID token callID) = inl e ->
  let sent := requests (fst (Terminate c net version phoneID token callID)) in
  match buildRequest c net version phoneID token (mkCallRequest "whatsapp" callID "" "terminate" None "") with
  | inl e' => sent = [] /\ e = e'
  | inr r =>
      sent = replicate maxAttempts r \/
      ((exists k, (1 <= k < maxAttempts)%nat /\ sent = replicate k r) /\
       (errors_Is e Canceled = true \/
        exists code m, errors_As_status e = Some (code, m) /\ code < 500 /\ code <> 429))
  end.
Proof.
  intros Ht He. unfold Terminate, call in *.
  set (body := mkCallRequest "whatsapp" callID "" "terminate" None "") in *.
  destruct (callFrom_ends c net retryAny version phoneID token body maxAttempts 1)
    as [k [H1 H2 _ H3 _ H5]]; [unfold maxAttempts; lia|reflexivity|].
  cbv zeta. rewrite H3, sent_upto_replicate. replace (S k - 1)%nat with k by lia.
  rewrite He in H2. destruct (buildRequest c net version phoneID token body) as [e'|r] eqn:Eb.
  { split; [done|]. unfold callOnce in H2. rewrite Eb in H2. simpl in H2. congruence. }
  rewrite <- H2 in H5. simpl in H5. destruct (decide (k = maxAttempts)) as [->|Hk]; [by left|]. right.
  split; [exists k; split; [lia|done]|].
  destruct H5 as [H5|[?|[H5|H5]]]; [done|done| |congruence]. by apply retryAny_spec.
Qed.

(** A network on which every exchange gives the same status. *)
Definition constNet (status : Z) : Net :=
  mkNet (fun _ => None) (fun _ => Some ["wacid.1"]) (fun _ _ => inr (mkResponse status "x"))
    (fun _ => true).

Lemma accept_repeats_only_unprocessed_witness :
  exists k body, requests (fst (Accept New (constNet 503) "v23.0" "1" "tok" "call" "sdp")) =
      match buildRequest New (constNet 503) "v23.0" "1" "tok" body with
      | inl _ => [] | inr r => replicate k r end /\
    forall n, (1 <= n < k)%nat -> exists e,
      snd (callOnce New (constNet 503) n "v23.0" "1" "tok" body) = inl e /\ unprocessed e.
Proof.
  apply (accept_repeats_only_unprocessed New (constNet 503) "v23.0" "1" "tok" "call" "sdp"
           (Accept New (constNet 503))). right. reflexivity.
Defined.

Lemma Terminate_persists_witness :
  let r := Terminate New (constNet 500) "23.0" "1" "tok" "call" in
  snd r = inl (HttpStatusError 500 "x") /\
  (exists q, requests (fst r) = replicate maxAttempts q \/
     ((exists k, (1 <= k < maxAttempts)%nat /\ requests (fst r) = replicate k q) /\
      (errors_Is (HttpStatusError 500 "x") Canceled = true \/
       exists code m, errors_As_status (HttpStatusError 500 "x") = Some (code, m) /\ code < 500 /\ code <> 429))).
Proof.
  intros r. assert (E : snd r = inl (HttpStatusError 500 "x")) by (vm_compute; reflexivity).
  split; [exact E|]. eexists.
  exact (Terminate_persists New (constNet 500) "23.0" "1" "tok" "call" (HttpStatusError 500 "x")
    (fun _ => eq_refl) E).
Defined.

(** ** Text of error messages *)

Lemma length_bytes s : length (bytes s) = String.length s.
Proof. induction s; simpl; auto. Qed.

Lemma bytes_ReplaceByte_space s a :
  bytes (ReplaceByte s a " ") = map (fun c => if Ascii.eqb c a then chr 32 else c) (bytes s).
Proof.
  unfold ReplaceByte. rewrite bytes_of_bytes.
  induction (bytes s) as [|b l IH]; [done|]. cbn [map concat]. rewrite IH. by destruct (Ascii.eqb b a).
Qed.

Lemma takeZ_length n l : 0 <= n -> Z.of_nat (length (takeZ n l)) <= n.
Proof.
  revert n. induction l as [|a l IH]; intros n Hn; simpl; [lia|].
  destruct (Z.leb_spec n 0); simpl; [lia|]. specialize (IH (n - 1)). lia.
Qed.

Definition clean (a : ascii) : ascii :=
  let b := if Ascii.eqb a (chr 10) then chr 32 else a in
  if Ascii.eqb b (chr 13) then chr 32 else b.

Lemma no_break a : code (clean a) <> 10 /\ code (clean a) <> 13.
Proof.
  destruct (Z.eq_dec (code a) 10) as [E|N10]; [rewrite <- (chr_code a), E; by split|].
  destruct (Z.eq_dec (code a) 13) as [E|N13]; [rewrite <- (chr_code a), E; by split|].
  unfold clean. cbv zeta.
  destruct (Ascii.eqb_spec a (chr 10)) as [->|]; [done|].
  destruct (Ascii.eqb_spec a (chr 13)) as [->|]; [done|]. auto.
Qed.

Lemma no_break_id a : code a <> 10 /\ code a <> 13 -> clean a = a.
Proof.
  intros [H1 H2]. unfold clean. cbv zeta.
  destruct (Ascii.eqb_spec a (chr 10)) as [->|]; [done|].
  destruct (Ascii.eqb_spec a (chr 13)) as [->|]; done.
Qed.

Lemma map_id_Forall {A} (f : A -> A) l : Forall (fun a => f a = a) l -> map f l = l.
Proof. induction 1 as [|a l Ha _ IH]; simpl; [done|]. by rewrite Ha, IH. Qed.

(** Error texts taken from a response are safe to log: [sanitize] keeps at most
    512 bytes and leaves no line break; a short text without line breaks is
    unchanged. *)
Theorem sanitize_safe s :
  len (sanitize s) <= 512 /\
  Forall (fun a => code a <> 10 /\ code a <> 13) (bytes (sanitize s)) /\
  (len s <= 512 -> Forall (fun a => code a <> 10 /\ code a <> 13) (bytes s) -> sanitize s = s).
Proof.
  unfold sanitize. set (t := if 512 <? len s then limit 512 s else s).
  rewrite !bytes_ReplaceByte_space, map_map. conjs.
  - unfold len. rewrite <- !length_bytes, !bytes_ReplaceByte_space, !length_map.
    unfold t. destruct (Z.ltb_spec 512 (len s)) as [|Hle].
    + unfold limit. rewrite bytes_of_bytes. pose proof (takeZ_length 512 (bytes s)). lia.
    + unfold len in Hle. rewrite <- length_bytes in Hle. exact Hle.
  - apply Forall_fmap, Forall_true. intros a. apply no_break.
  - intros Hle Hf. unfold t. rewrite (proj2 (Z.ltb_ge _ _) Hle).
    apply bytes_inj. rewrite !bytes_ReplaceByte_space, map_map.
    apply map_id_Forall. eapply Forall_impl; [exact Hf|]. intros a. apply no_break_id.
Qed.

(** ** Reading a body back *)

(** The value of a field of an object. *)
Fixpoint field (k : string) (l : list (string * json)) : option json :=
  match l with
  | [] => None
  | (k', v) :: l => if bool_decide (k = k') then Some v else field k l
  end.

Definition strField (k : string) (l : list (string * json)) : string :=
  match field k l with Some (JStr s) => s | _ => "" end.

(** A reader of request bodies: absent fields are empty. *)
Definition unmarshal (j : json) : option callRequest :=
  match j with
  | JObj l =>
      Some (mkCallRequest (strField "messaging_product" l) (strField "call_id" l)
              (strField "to" l) (strField "action" l)
              (match field "session" l with
               | Some (JObj s) => Some (mkSession (strField "sdp_type" s) (strField "sdp" s))
               | _ => None
               end) (strField "biz_opaque_callback_data" l))
  | JStr _ => None
  end.

(** Leaving out empty fields loses nothing: reading back the JSON body of any
    request gives the request. *)
Theorem marshal_roundtrip b : unmarshal (marshal b) = Some b.
Proof.
  destruct b as [mp id to act [[ty sdp]|] op]; unfold marshal, omitempty;
    repeat case_bool_decide; simplify_eq/=; reflexivity.
Qed.

(** A blank API version never reaches the network, yet [Terminate] takes the local
    error for a transient one: it pauses twice before giving up. *)
Lemma Terminate_retries_local_error net phoneID token callID :
  (forall n, timerFirst net n = true) ->
  Terminate New net " " phoneID token callID =
  ([Paused (400 * Millisecond); Paused (800 * Millisecond)],
   inl (NewError "WhatsApp API version is required")).
Proof. intros H. unfold Terminate, call, maxAttempts. cbn. by rewrite !H. Qed.
