(* ===== verification/Mux.v ===== *)
(** The packet multiplexer over one ICE connection (internal/media/transport.go,
    [packetMux] and [endpoint]): DTLS, SRTP and SRTCP packets share a socket and
    are handed to three endpoints with bounded queues. The reader goroutine, the
    readers of the endpoints and the closers interleave; a run is a sequence of
    their atomic actions. *)
From S2P Require Import Prelude Errors.

Local Open Scope Z_scope.

Inductive kind := KDtls | KSrtp | KSrtcp.

#[export] Instance kind_eq_dec : EqDecision kind.
Proof. solve_decision. Defined.

(** Which endpoint a datagram belongs to (the first bytes, RFC 7983 style);
    [None] is dropped. *)
Definition demux (b : list Z) : option kind :=
  match b with
  | [] => None
  | b0 :: rest =>
      if (20 <=? b0) && (b0 <=? 63) then Some KDtls
      else if (128 <=? b0) && (b0 <=? 191) then
        match rest with
        | b1 :: _ => if (192 <=? b1) && (b1 <=? 223) then Some KSrtcp else Some KSrtp
        | [] => Some KSrtp
        end
      else None
  end.

(** [type endpoint struct]: the queue of capacity 128 and the closed channel. *)
Record endpoint := mkEndpoint { queue : list (list Z); ep_closed : bool }.

Definition newEndpoint : endpoint := mkEndpoint [] false.
Definition queueSize : nat := 128.

(** Where the reader goroutine is: before [conn.Read], at the [select] that hands
    over a packet, or returned. *)
Inductive reader := Reading | Sending (k : kind) (p : list Z) | Returned.

(** [type packetMux struct] with its reader. [conn_open] is the state of the
    underlying connection. *)
Record packetMux := mkMux {
  conn_open : bool;
  mux_closed : bool;
  dtls : endpoint; srtp : endpoint; srtcp : endpoint;
  rd : reader
}.

Definition newPacketMux : packetMux :=
  mkMux true false newEndpoint newEndpoint newEndpoint Reading.

Definition ep (m : packetMux) (k : kind) : endpoint :=
  match k with KDtls => dtls m | KSrtp => srtp m | KSrtcp => srtcp m end.

Definition set_ep (m : packetMux) (k : kind) (e : endpoint) : packetMux :=
  match k with
  | KDtls => mkMux (conn_open m) (mux_closed m) e (srtp m) (srtcp m) (rd m)
  | KSrtp => mkMux (conn_open m) (mux_closed m) (dtls m) e (srtcp m) (rd m)
  | KSrtcp => mkMux (conn_open m) (mux_closed m) (dtls m) (srtp m) e (rd m)
  end.

Definition set_rd (m : packetMux) (r : reader) : packetMux :=
  mkMux (conn_open m) (mux_closed m) (dtls m) (srtp m) (srtcp m) r.

Definition close_ep (e : endpoint) : endpoint := mkEndpoint (queue e) true.

(** [endpoint.Close] *)
Definition closeEndpoint (m : packetMux) (k : kind) : packetMux :=
  set_ep m k (close_ep (ep m k)).

(** [packetMux.Close]: the closed channel, the connection and the endpoints; a
    second call does nothing. *)
Definition closeMux (m : packetMux) : packetMux :=
  if mux_closed m then m
  else mkMux false true (close_ep (dtls m)) (close_ep (srtp m)) (close_ep (srtcp m)) (rd m).

(** The part of [readLoop] after a successful read of the datagram [b]. *)
Definition gotDatagram (m : packetMux) (b : list Z) : packetMux :=
  match demux b with
  | None => m
  | Some k => set_rd m (Sending k b)
  end.

(** The actions of the goroutines around one mux. The reader's [select] has three
    cases; each is an action that is possible when its channel is ready. *)
Inductive action :=
  | Datagram (b : list Z)      (* conn.Read returns a datagram *)
  | ReadError                  (* conn.Read fails: close and return *)
  | HandOver                   (* case ep.packets <- p *)
  | SkipClosed                 (* case <-ep.closed *)
  | StopClosed                 (* case <-m.closed *)
  | ReadFrom (k : kind)        (* case p := <-e.packets of endpoint.ReadFrom *)
  | ReadEOF (k : kind)         (* case <-e.closed of endpoint.ReadFrom *)
  | CloseEp (k : kind)
  | CloseMux.

(** One action; [None] when it is not possible. The second component is what
    [ReadFrom] returned, if it was that. *)
Definition act (m : packetMux) (a : action) : option (packetMux * option (kind * list Z)) :=
  match a with
  | Datagram b =>
      match rd m with
      | Reading => if conn_open m then Some (gotDatagram m b, None) else None
      | _ => None
      end
  | ReadError =>
      match rd m with
      | Reading => Some (set_rd (closeMux m) Returned, None)
      | _ => None
      end
  | HandOver =>
      match rd m with
      | Sending k p =>
          let e := ep m k in
          if (length (queue e) <? queueSize)%nat
          then Some (set_rd (set_ep m k (mkEndpoint (queue e ++ [p]) (ep_closed e))) Reading, None)
          else None
      | _ => None
      end
  | SkipClosed =>
      match rd m with
      | Sending k _ => if ep_closed (ep m k) then Some (set_rd m Reading, None) else None
      | _ => None
      end
  | StopClosed =>
      match rd m with
      | Sending _ _ => if mux_closed m then Some (set_rd m Returned, None) else None
      | _ => None
      end
  | ReadFrom k =>
      match queue (ep m k) with
      | p :: q => Some (set_ep m k (mkEndpoint q (ep_closed (ep m k))), Some (k, p))
      | [] => None
      end
  | ReadEOF k => if ep_closed (ep m k) then Some (m, None) else None
  | CloseEp k => Some (closeEndpoint m k, None)
  | CloseMux => Some (closeMux m, None)
  end.

(** [endpoint.WriteTo]: whether the bytes go to the connection. *)
Definition writeTo (m : packetMux) (k : kind) (write : list Z -> result Z) (b : list Z) : result Z :=
  if ep_closed (ep m k) then inl (Sentinel EOF) else write b.

(** [copy(b, p.b)] into a buffer of [n] bytes. *)
Definition copyInto (n : nat) (p : list Z) : list Z := take n p.

(** * Runs *)

(** A run with what came in from the connection and what the endpoints handed out. *)
Record history := mkHist { arrived : list (list Z); handed : list (kind * list Z) }.

Definition log (h : history) (a : action) (out : option (kind * list Z)) : history :=
  mkHist (arrived h ++ match a with Datagram b => [b] | _ => [] end)
         (handed h ++ match out with Some x => [x] | None => [] end).

Fixpoint exec (m : packetMux) (h : history) (acts : list action) : option (packetMux * history) :=
  match acts with
  | [] => Some (m, h)
  | a :: acts =>
      match act m a with
      | Some (m', out) => exec m' (log h a out) acts
      | None => None
      end
  end.

Definition start : history := mkHist [] [].

(** The datagrams of one kind, in order. *)
Definition of_kind (k : kind) (l : list (list Z)) : list (list Z) :=
  filter (fun b => demux b = Some k) l.
Definition handed_to (k : kind) (h : history) : list (list Z) :=
  omap (fun x => if decide (x.1 = k) then Some x.2 else None) (handed h).

Definition held (m : packetMux) (k : kind) : list (list Z) :=
  match rd m with
  | Sending k' p => if decide (k' = k) then [p] else []
  | _ => []
  end.

(** Everything of kind [k] that was read, is queued or is being handed over. *)
Definition accounted (m : packetMux) (h : history) (k : kind) : list (list Z) :=
  handed_to k h ++ queue (ep m k) ++ held m k.

Definition bounded (m : packetMux) : Prop :=
  forall k, (length (queue (ep m k)) <= queueSize)%nat.
Definition closed_ok (m : packetMux) : Prop :=
  mux_closed m = true -> conn_open m = false /\ forall k, ep_closed (ep m k) = true.
Definition held_ok (m : packetMux) : Prop :=
  forall k p, rd m = Sending k p -> demux p = Some k.

Record mux_inv (m : packetMux) (h : history) : Prop := {
  mi_sub : forall k, accounted m h k `sublist_of` of_kind k (arrived h);
  mi_all : forall k, ep_closed (ep m k) = false -> mux_closed m = false ->
             accounted m h k = of_kind k (arrived h);
  mi_bound : bounded m;
  mi_closed : closed_ok m;
  mi_kind : held_ok m
}.

Lemma ep_set_ep m k e k' : ep (set_ep m k e) k' = if decide (k = k') then e else ep m k'.
Proof. destruct k, k'; reflexivity. Qed.
Lemma ep_set_rd m r k : ep (set_rd m r) k = ep m k.
Proof. destruct k; reflexivity. Qed.
Lemma rd_set_ep m k e : rd (set_ep m k e) = rd m.
Proof. destruct k; reflexivity. Qed.
Lemma closed_set_ep m k e : mux_closed (set_ep m k e) = mux_closed m.
Proof. destruct k; reflexivity. Qed.
Lemma conn_set_ep m k e : conn_open (set_ep m k e) = conn_open m.
Proof. destruct k; reflexivity. Qed.

Lemma set_rd_flags m r :
  rd (set_rd m r) = r /\ mux_closed (set_rd m r) = mux_closed m /\
  conn_open (set_rd m r) = conn_open m.
Proof. auto. Qed.
Definition rd_set_rd m r := proj1 (set_rd_flags m r).
Definition closed_set_rd m r := proj1 (proj2 (set_rd_flags m r)).
Definition conn_set_rd m r := proj2 (proj2 (set_rd_flags m r)).

Create Rewrite HintDb mux.
#[local] Hint Rewrite ep_set_ep ep_set_rd rd_set_ep closed_set_ep conn_set_ep
  rd_set_rd closed_set_rd conn_set_rd : mux.

Lemma of_kind_snoc k l b :
  of_kind k (l ++ [b]) = of_kind k l ++ (if decide (demux b = Some k) then [b] else []).
Proof. unfold of_kind. rewrite filter_app. f_equal. Qed.

Lemma handed_to_snoc k h k' p a :
  handed_to k (log h a (Some (k', p))) = handed_to k h ++ (if decide (k' = k) then [p] else []).
Proof. unfold handed_to, log. simpl. rewrite omap_app. simpl. by case_decide. Qed.

Lemma handed_to_none k h a : handed_to k (log h a None) = handed_to k h.
Proof. unfold handed_to, log. simpl. by rewrite app_nil_r. Qed.

(** Closing keeps the queues. *)
Lemma closeMux_ep m k : queue (ep (closeMux m) k) = queue (ep m k).
Proof. unfold closeMux. destruct (mux_closed m), k; reflexivity. Qed.
Lemma closeMux_closed m k :
  mux_closed (closeMux m) = true /\
  (ep_closed (ep (closeMux m) k) = false -> ep_closed (ep m k) = false).
Proof. unfold closeMux. destruct (mux_closed m) eqn:E, k; simpl; split; auto; discriminate. Qed.
Lemma closeMux_all m :
  (mux_closed m = true -> conn_open m = false /\ forall k, ep_closed (ep m k) = true) ->
  conn_open (closeMux m) = false /\ forall k, ep_closed (ep (closeMux m) k) = true.
Proof. unfold closeMux. destruct (mux_closed m); [auto|]. intros _. split; [done|]. by intros []. Qed.
Lemma closeMux_rd m : rd (closeMux m) = rd m.
Proof. unfold closeMux. by destruct (mux_closed m). Qed.

(** How one action changes what is accounted for: a datagram is added at the end,
    the two closing cases of the reader drop the packet being handed over, nothing
    else changes it. *)
Lemma act_accounted m h a m' out k :
  act m a = Some (m', out) ->
  match a with
  | Datagram b => accounted m' (log h a out) k =
                  accounted m h k ++ (if decide (demux b = Some k) then [b] else [])
  | SkipClosed | StopClosed => accounted m h k = accounted m' (log h a out) k ++ held m k
  | _ => accounted m' (log h a out) k = accounted m h k
  end.
Proof.
  unfold accounted, held. destruct a as [b| | | | |k'|k'|k'|]; cbn [act]; intros Hact;
    cbv iota in Hact.
  - destruct (rd m) eqn:Er; try done. destruct (conn_open m); simplify_eq.
    rewrite handed_to_none. unfold gotDatagram.
    destruct (demux b) as [k1|]; [|rewrite Er; case_decide; [done|]; by rewrite !app_nil_r].
    autorewrite with mux. simpl.
    destruct (decide (k1 = k)), (decide (Some k1 = Some k)); try congruence;
      by rewrite ?app_nil_r, ?app_assoc.
  - destruct (rd m) eqn:Er; try done. simplify_eq.
    rewrite handed_to_none, ep_set_rd, closeMux_ep. reflexivity.
  - destruct (rd m) as [|k1 p1|] eqn:Er; try done. case_match; simplify_eq.
    rewrite handed_to_none. autorewrite with mux. simpl.
    case_decide; subst; simpl; [by rewrite app_nil_r|reflexivity].
  - destruct (rd m) as [|k1 p1|] eqn:Er; try done. case_match; simplify_eq.
    rewrite handed_to_none. autorewrite with mux. simpl. by rewrite app_nil_r, app_assoc.
  - destruct (rd m) as [|k1 p1|] eqn:Er; try done. case_match; simplify_eq.
    rewrite handed_to_none. autorewrite with mux. simpl. by rewrite app_nil_r, app_assoc.
  - assert (Hq : exists p q, queue (ep m k') = p :: q /\ out = Some (k', p) /\
                  m' = set_ep m k' (mkEndpoint q (ep_closed (ep m k')))).
    { destruct (rd m), (queue (ep m k')); simplify_eq; eauto. }
    destruct Hq as (p & q & Eq & -> & ->). rewrite handed_to_snoc. autorewrite with mux.
    case_decide; subst; simpl; [by rewrite Eq, <- app_assoc|by rewrite app_nil_r].
  - assert (m' = m /\ out = None) as [-> ->]
      by (destruct (rd m), (ep_closed (ep m k')); simplify_eq; auto).
    by rewrite handed_to_none.
  - assert (m' = closeEndpoint m k' /\ out = None) as [-> ->]
      by (destruct (rd m); simplify_eq; auto).
    rewrite handed_to_none. unfold closeEndpoint. autorewrite with mux.
    by case_decide; subst.
  - assert (m' = closeMux m /\ out = None) as [-> ->] by (destruct (rd m); simplify_eq; auto).
    by rewrite handed_to_none, closeMux_ep, closeMux_rd.
Qed.

(** Closed flags are never reset, and a dropped packet's endpoint is closed. *)
Lemma act_flags m a m' out :
  act m a = Some (m', out) ->
  (mux_closed m' = false -> mux_closed m = false) /\
  (forall k, ep_closed (ep m' k) = false -> ep_closed (ep m k) = false) /\
  (a = SkipClosed -> forall k, held m k <> [] -> ep_closed (ep m' k) = true) /\
  (a = StopClosed -> mux_closed m' = true).
Proof.
  destruct a as [b| | | | |k'|k'|k'|]; cbn [act]; intros Hact; cbv iota in Hact; unfold held.
  all: destruct (rd m) as [|k1 p1|] eqn:Er; try done.
  all: repeat match type of Hact with
       | context [if ?c then _ else _] => destruct c eqn:?
       | context [match queue ?e with _ => _ end] => destruct (queue e) eqn:?
       end; simplify_eq.
  all: unfold gotDatagram, closeEndpoint;
    try (destruct (demux b)); autorewrite with mux; conjs; try done.
  all: try (intros k; autorewrite with mux; try case_decide; subst; done).
  all: try (by intros _; apply closeMux_closed).
  all: try (intros k; rewrite ?ep_set_rd; apply closeMux_closed).
  all: try (intros _ k; autorewrite with mux; case_decide; subst; done).
  all: try (simpl; intros H; exfalso; pose proof (closeMux_closed m KDtls) as [? _]; congruence).
  all: try (intros H; exfalso; pose proof (closeMux_closed m KDtls) as [? _]; congruence).
Qed.

(** The three well-formedness conditions, for the building blocks of [act]. *)
Lemma wf_set_rd m r :
  bounded m -> closed_ok m -> (forall k p, r = Sending k p -> demux p = Some k) ->
  bounded (set_rd m r) /\ closed_ok (set_rd m r) /\ held_ok (set_rd m r).
Proof.
  intros Hb Hc Hr. unfold bounded, closed_ok, held_ok. autorewrite with mux.
  conjs; auto; intros; rewrite ?ep_set_rd; auto.
Qed.

Lemma wf_set_ep m k e :
  bounded m -> closed_ok m -> held_ok m ->
  (length (queue e) <= queueSize)%nat ->
  (ep_closed (ep m k) = true -> ep_closed e = true) ->
  bounded (set_ep m k e) /\ closed_ok (set_ep m k e) /\ held_ok (set_ep m k e).
Proof.
  intros Hb Hc Hk He Hce. unfold bounded, closed_ok, held_ok. autorewrite with mux.
  conjs; auto.
  - intros k'. autorewrite with mux. by case_decide.
  - intros H. destruct (Hc H) as [H1 H2]. split; auto.
    intros k'. autorewrite with mux. case_decide; auto.
Qed.

Lemma wf_closeMux m :
  bounded m -> closed_ok m -> held_ok m ->
  bounded (closeMux m) /\ closed_ok (closeMux m) /\ held_ok (closeMux m).
Proof.
  intros Hb Hc Hk. unfold bounded, closed_ok, held_ok. rewrite closeMux_rd. conjs; auto.
  - intros k. rewrite closeMux_ep. auto.
  - intros _. by apply closeMux_all.
Qed.

Lemma act_wf m a m' out :
  act m a = Some (m', out) -> bounded m -> closed_ok m -> held_ok m ->
  bounded m' /\ closed_ok m' /\ held_ok m'.
Proof.
  intros Hact Hb Hc Hk.
  destruct a as [b| | | | |k'|k'|k'|]; cbn [act] in Hact; cbv iota in Hact.
  - destruct (rd m) eqn:Er; try done. destruct (conn_open m); simplify_eq.
    unfold gotDatagram. destruct (demux b) eqn:Ed; [|auto].
    apply wf_set_rd; auto. intros; by simplify_eq.
  - destruct (rd m) eqn:Er; simplify_eq. destruct (wf_closeMux m) as (? & ? & ?); auto.
    by apply wf_set_rd.
  - destruct (rd m) as [|k1 p1|] eqn:Er; try done. cbv zeta in Hact.
    destruct (Nat.ltb_spec (length (queue (ep m k1))) queueSize); simplify_eq.
    destruct (wf_set_ep m k1 (mkEndpoint (queue (ep m k1) ++ [p1]) (ep_closed (ep m k1))))
      as (? & ? & ?); auto; [simpl; rewrite length_app; simpl; lia|].
    by apply wf_set_rd.
  - destruct (rd m); try done. case_match; simplify_eq. by apply wf_set_rd.
  - destruct (rd m); try done. case_match; simplify_eq. by apply wf_set_rd.
  - destruct (queue (ep m k')) as [|p q] eqn:Eq; simplify_eq. apply wf_set_ep; auto.
    specialize (Hb k'). rewrite Eq in Hb. simpl in *. lia.
  - case_match; simplify_eq. auto.
  - simplify_eq. apply wf_set_ep; auto. apply Hb.
  - simplify_eq. by apply wf_closeMux.
Qed.

Lemma mux_inv_act m h a m' out :
  act m a = Some (m', out) -> mux_inv m h -> mux_inv m' (log h a out).
Proof.
  intros Hact [Hsub Hall Hb Hc Hk].
  destruct (act_wf m a m' out Hact Hb Hc Hk) as (Hb' & Hc' & Hk').
  destruct (act_flags m a m' out Hact) as (F1 & F2 & F3 & F4).
  pose proof (fun k => act_accounted m h a m' out k Hact) as Hacc.
  split; auto; intros k; specialize (Hacc k).
  - destruct a; simpl arrived in *; rewrite ?app_nil_r, ?of_kind_snoc; rewrite ?Hacc; auto.
    1: by apply sublist_app.
    all: etransitivity; [|apply Hsub]; rewrite Hacc; by apply sublist_inserts_r.
  - intros He Hm. specialize (Hall k (F2 k He) (F1 Hm)).
    destruct a; simpl arrived in *; rewrite ?app_nil_r, ?of_kind_snoc; rewrite ?Hacc, ?Hall; auto.
    + rewrite Hacc in Hall. destruct (held m k) eqn:E; [by rewrite app_nil_r in Hall|].
      rewrite (F3 eq_refl k) in He; [done|]. by rewrite E.
    + by rewrite F4 in Hm.
Qed.

Lemma mux_inv_exec acts : forall m h m' h',
  exec m h acts = Some (m', h') -> mux_inv m h -> mux_inv m' h'.
Proof.
  induction acts as [|a acts IH]; simpl; intros m h m' h' H Hi; [by simplify_eq|].
  destruct (act m a) as [[m1 out]|] eqn:E; [|done]. eauto using mux_inv_act.
Qed.

Lemma mux_inv_new : mux_inv newPacketMux start.
Proof.
  split; unfold bounded, closed_ok, held_ok; try done.
  - by intros [].
  - by intros [].
  - intros []; simpl; lia.
Qed.

(** * Properties *)

(** C31. Each endpoint is a faithful FIFO of its share of the traffic: in every
    reachable state the packets read from an endpoint, then those in its queue, then
    the one being handed over are a subsequence, in order, of the datagrams of that
    kind that arrived; none is missing while the endpoint and the mux are open, and
    no queue exceeds 128 packets. *)
Theorem mux_fifo acts m h k :
  exec newPacketMux start acts = Some (m, h) ->
  handed_to k h ++ queue (ep m k) ++ held m k `sublist_of` of_kind k (arrived h) /\
  (ep_closed (ep m k) = false -> mux_closed m = false ->
   handed_to k h ++ queue (ep m k) ++ held m k = of_kind k (arrived h)) /\
  (length (queue (ep m k)) <= queueSize)%nat.
Proof.
  intros H. destruct (mux_inv_exec _ _ _ _ _ H mux_inv_new) as [H1 H2 H3 _ _].
  split; [apply H1|]. split; [apply H2|apply H3].
Qed.

Lemma mux_fifo_witness :
  let acts := [Datagram [22; 1]; HandOver; Datagram [128; 200]; HandOver; Datagram [3];
               Datagram [128; 111]; HandOver; ReadFrom KSrtp; Datagram [144]] in
  exists m h, exec newPacketMux start acts = Some (m, h) /\
    handed_to KSrtp h ++ queue (ep m KSrtp) ++ held m KSrtp = [[128; 111]; [144]].
Proof.
  intros acts. destruct (exec newPacketMux start acts) as [[m h]|] eqn:E; [|vm_compute in E; congruence].
  exists m, h. split; [reflexivity|].
  destruct (mux_fifo acts m h KSrtp E) as (_ & H & _).
  vm_compute in E. injection E as <- <-. rewrite H; reflexivity.
Defined.

(** The actions of the reader goroutine. *)
Definition reader_action (a : action) : bool :=
  match a with Datagram _ | ReadError | HandOver | SkipClosed | StopClosed => true | _ => false end.

(** C32. Closing releases everyone: in a reachable state of a closed mux no datagram
    is read any more, a reader goroutine that has not returned can return by its
    next action, every blocked [ReadFrom] can return EOF, and writes fail. *)
Theorem mux_close_releases acts m h :
  exec newPacketMux start acts = Some (m, h) -> mux_closed m = true ->
  (forall b, act m (Datagram b) = None) /\
  (rd m <> Returned -> exists a m', reader_action a = true /\ act m a = Some (m', None) /\
     rd m' = Returned) /\
  (forall k, act m (ReadEOF k) = Some (m, None)) /\
  (forall k write b, writeTo m k write b = inl (Sentinel EOF)).
Proof.
  intros H Hcl. destruct (mux_inv_exec _ _ _ _ _ H mux_inv_new) as [_ _ _ Hc _].
  destruct (Hc Hcl) as [Hconn Hep]. conjs.
  - intros b. simpl. rewrite Hconn. by destruct (rd m).
  - intros Hrd. destruct (rd m) as [|k p|] eqn:Er; [| |done].
    + exists ReadError. simpl. rewrite Er. eauto.
    + exists StopClosed. simpl. rewrite Er, Hcl. eauto.
  - intros k. simpl. by rewrite Hep.
  - intros k write b. unfold writeTo. by rewrite Hep.
Qed.

Lemma mux_close_releases_witness :
  let acts := [Datagram [128; 1]; CloseMux] in
  exists m h, exec newPacketMux start acts = Some (m, h) /\
    act m (ReadEOF KDtls) = Some (m, None).
Proof.
  intros acts. destruct (exec newPacketMux start acts) as [[m h]|] eqn:E; [|vm_compute in E; congruence].
  exists m, h. split; [reflexivity|].
  destruct (mux_close_releases acts m h E) as (_ & _ & Hr & _); [|apply Hr].
  vm_compute in E. injection E as <- <-. reflexivity.
Defined.

(** The actions that can unblock a reader stuck on endpoint [k]. *)
Definition unblocks (k : kind) (a : action) : bool :=
  match a with
  | ReadFrom k' | CloseEp k' => bool_decide (k' = k)
  | CloseMux => true
  | _ => false
  end.

(** Why every stream must be consumed: when the queue of an open endpoint is
    full and the reader holds a packet for it, no sequence of actions that neither
    reads nor closes that endpoint nor closes the mux lets another datagram in, for
    any of the three endpoints. *)
Theorem full_endpoint_stalls_mux m h k p acts m' h' :
  rd m = Sending k p -> length (queue (ep m k)) = queueSize ->
  ep_closed (ep m k) = false -> mux_closed m = false ->
  forallb (fun a => negb (unblocks k a)) acts = true ->
  exec m h acts = Some (m', h') -> rd m' = Sending k p /\ arrived h' = arrived h.
Proof.
  revert m h. induction acts as [|a acts IH]; intros m h Hrd Hq He Hm Hu Hx; simpl in *;
    [by simplify_eq|].
  apply andb_true_iff in Hu as [Hn Hu]. apply negb_true_iff in Hn.
  destruct (act m a) as [[m1 out]|] eqn:Ea; [|done].
  assert (Hst : rd m1 = Sending k p /\ queue (ep m1 k) = queue (ep m k) /\
            ep_closed (ep m1 k) = false /\ mux_closed m1 = false /\
            arrived (log h a out) = arrived h).
  { destruct a as [b| | | | |k'|k'|k'|]; simpl in Ea, Hn; rewrite ?Hrd in Ea; try done.
    - rewrite Hq in Ea. by rewrite Nat.ltb_irrefl in Ea.
    - by rewrite He in Ea.
    - by rewrite Hm in Ea.
    - destruct (queue (ep m k')); [done|]. simplify_eq. autorewrite with mux.
      apply bool_decide_eq_false in Hn. rewrite decide_False by done.
      simpl. rewrite app_nil_r. auto.
    - case_match; simplify_eq. simpl. rewrite app_nil_r. auto.
    - simplify_eq. unfold closeEndpoint. autorewrite with mux.
      apply bool_decide_eq_false in Hn. rewrite decide_False by done.
      simpl. rewrite app_nil_r. auto. }
  destruct Hst as (H1 & H2 & H3 & H4 & H5). rewrite <- H5.
  apply (IH m1 (log h a out)); auto. by rewrite H2.
Qed.

Definition stuckMux : packetMux :=
  mkMux true false newEndpoint (mkEndpoint (replicate queueSize [128]) false) newEndpoint
    (Sending KSrtp [129]).

Lemma full_endpoint_stalls_mux_witness :
  exists m' h', exec stuckMux start [CloseEp KDtls; ReadEOF KDtls] = Some (m', h') /\
    rd m' = Sending KSrtp [129] /\ arrived h' = [].
Proof.
  destruct (exec stuckMux start [CloseEp KDtls; ReadEOF KDtls]) as [[m' h']|] eqn:E;
    [|vm_compute in E; congruence].
  exists m', h'. split; [reflexivity|].
  apply (full_endpoint_stalls_mux stuckMux start KSrtp [129] [CloseEp KDtls; ReadEOF KDtls]);
    [reflexivity..| exact E].
Defined.
