(* ===== verification/Media.v ===== *)
(** The media data path of a transport (internal/media/transport.go): the inbound
    RTP pump with its bounded queue, [ReadRTP], the write path, RTCP reception and
    the periodic RTCP reports. The SRTP library (sessions, streams) and the RTP and
    RTCP codecs are arguments. *)
From S2P Require Import Prelude Errors GoStrings GoFloat GoTime Rtp RtpStats.

Local Open Scope Z_scope.

(** * Inbound RTP *)

Definition rtpQueueSize : nat := 256.

(** The inbound part of [type Transport struct]. *)
Record inbound := mkInbound {
  rtpIn : list Packet;        (* the buffered channel, oldest first *)
  rxDropped : Z;              (* atomic uint64 *)
  sawRTP : bool;
  rx : rxStats
}.

Definition push (st : inbound) (p : Packet) : inbound :=
  mkInbound (rtpIn st ++ [p]) (rxDropped st) (sawRTP st) (rx st).
Definition drop1 (st : inbound) (q : list Packet) : inbound :=
  mkInbound q (u64 (rxDropped st + 1)) (sawRTP st) (rx st).
Definition hasRoom (st : inbound) : bool := (length (rtpIn st) <? rtpQueueSize)%nat.

(** Where a [readStream] goroutine is: at [r.Read], at its three non-blocking
    selects with the packet it holds, or returned. *)
Inductive stream := Reading | TrySend (p : Packet) | Evict (p : Packet) | Resend (p : Packet) | Ended.

(** A datagram was read: [None] when [p.Unmarshal] fails. *)
Definition gotPacket (st : inbound) (p : option Packet) (at_ : Z) : inbound * stream :=
  match p with
  | None => (st, Reading)
  | Some p => (mkInbound (rtpIn st) (rxDropped st) true (update (rx st) p at_), TrySend p)
  end.

(** One select of [readStream]: with a default case it never waits, so what it
    does is determined by the queue. *)
Definition streamStep (st : inbound) (s : stream) : inbound * stream :=
  match s with
  | TrySend p => if hasRoom st then (push st p, Reading) else (st, Evict p)
  | Evict p => match rtpIn st with
               | _ :: q => (drop1 st q, Resend p)
               | [] => (st, Resend p)
               end
  | Resend p => if hasRoom st then (push st p, Reading) else (drop1 st (rtpIn st), Reading)
  | _ => (st, s)
  end.

(** Delivering one packet with nothing interleaved: the selects until the next read. *)
Definition enqueue (st : inbound) (p : Packet) (at_ : Z) : inbound :=
  let '(st, s) := gotPacket st (Some p) at_ in
  let '(st, s) := streamStep st s in
  let '(st, s) := streamStep st s in
  fst (streamStep st s).

(** The goroutines of the pump: one [stream] per accepted SSRC. *)
Record pump := mkPump { inb : inbound; streams : list stream }.

Inductive pump_action :=
  | AcceptStream                              (* acceptLoop starts a reader *)
  | Arrive (i : nat) (p : option Packet) (at_ : Z)
  | Select (i : nat)
  | StreamError (i : nat)                     (* r.Read fails: the reader returns *)
  | Consume.                                  (* ReadRTP takes a packet *)

(** One action of the pump; the packet that [Consume] returns. *)
Definition pumpStep (m : pump) (a : pump_action) : option (pump * option Packet) :=
  match a with
  | AcceptStream => Some (mkPump (inb m) (streams m ++ [Reading]), None)
  | Arrive i p at_ =>
      match streams m !! i with
      | Some Reading =>
          let '(st, s) := gotPacket (inb m) p at_ in
          Some (mkPump st (<[i := s]> (streams m)), None)
      | _ => None
      end
  | Select i =>
      match streams m !! i with
      | Some s =>
          let '(st, s') := streamStep (inb m) s in
          Some (mkPump st (<[i := s']> (streams m)), None)
      | None => None
      end
  | StreamError i =>
      match streams m !! i with
      | Some Reading => Some (mkPump (inb m) (<[i := Ended]> (streams m)), None)
      | _ => None
      end
  | Consume =>
      match rtpIn (inb m) with
      | p :: q => Some (mkPump (mkInbound q (rxDropped (inb m)) (sawRTP (inb m)) (rx (inb m)))
                          (streams m), Some p)
      | [] => None
      end
  end.

(** ** ReadRTP *)

(** What [ReadRTP] sees around it: the result of [Wait], whether the SRTP session
    exists, the media timeout and whether its timer has fired, the error of the
    accept loop once it ended, the error of the context once it is done. *)
Record readEnv := mkReadEnv {
  waitErr : option error;
  haveSRTP : bool;
  mediaTimeout : Z;
  timerFired : bool;
  pumpErr : option error;
  ctxErr : option error
}.

(** The case taken by the final select. *)
Inductive readCase := CasePacket | CaseExpired | CasePumpDone | CaseCtx.

(** [None] when the chosen case is not ready. *)
Definition ReadRTP (e : readEnv) (st : inbound) (c : readCase) : option (inbound * result Packet) :=
  match waitErr e with
  | Some err => Some (st, inl err)
  | None =>
      if negb (haveSRTP e) then Some (st, inl (Sentinel EOF))
      else match c with
      | CasePacket =>
          match rtpIn st with
          | p :: q => Some (mkInbound q (rxDropped st) (sawRTP st) (rx st), inr p)
          | [] => None
          end
      | CaseExpired =>
          if (0 <? mediaTimeout e) && timerFired e then
            if sawRTP st
            then Some (st, inl (Wrapf "inbound RTP stopped: " (Sentinel OsErrDeadlineExceeded) ""))
            else Some (st, inl (Wrapf "" (Sentinel ErrNoInboundRTP)
                                  (" within " +:+ DurationString (mediaTimeout e))))
          else None
      | CasePumpDone =>
          match pumpErr e with
          | Some err => Some (st, inl (Wrapf "inbound RTP stopped: " err ""))
          | None => None
          end
      | CaseCtx =>
          match ctxErr e with Some err => Some (st, inl err) | None => None end
      end
  end.

(** * Outbound RTP *)

(** The outbound part of the transport: counters and whether the write stream has
    been opened. *)
Record outbound := mkOutbound { tx : txStats; writeOpen : bool }.

(** The SRTP session and the RTP codec. *)
Record srtpOps := mkSrtpOps {
  OpenWriteStream : option error;
  MarshalRTP : Packet -> result (list Z);
  WriteSRTP : list Z -> option error
}.

Definition writeRTP (ops : srtpOps) (srtp : bool) (st : outbound) (p : Packet) (now : Z)
  : outbound * option error :=
  if negb srtp then (st, Some (Sentinel EOF))
  else match (if writeOpen st then None else OpenWriteStream ops) with
  | Some e => (st, Some e)
  | None =>
      let st := mkOutbound (tx st) true in
      match MarshalRTP ops p with
      | inl e => (st, Some e)
      | inr b =>
          match WriteSRTP ops b with
          | Some e => (st, Some e)
          | None => (mkOutbound (sent (tx st) p now) true, None)
          end
      end
  end.

(** [TryWriteRTP]: [ready] is the state of the ready channel, [terr] is [t.err]. *)
Definition TryWriteRTP (ops : srtpOps) (ready : bool) (terr : option error) (srtp : bool)
  (st : outbound) (p : Packet) (now : Z) : outbound * option error :=
  if negb ready then (st, Some (Sentinel MediaErrNotReady))
  else match terr with
  | Some e => (st, Some e)
  | None => writeRTP ops srtp st p now
  end.

Definition WriteRTP (ops : srtpOps) (waitErr : option error) (srtp : bool)
  (st : outbound) (p : Packet) (now : Z) : outbound * option error :=
  match waitErr with
  | Some e => (st, Some e)
  | None => writeRTP ops srtp st p now
  end.

(** [type Stats struct] and [Transport.Stats]. *)
Record Stats := mkStats {
  RxPackets : Z; RxLost : Z; RxReordered : Z; RxDropped : Z; RxJitterMs : float64; TxPackets : Z
}.
Definition transportStats (i : inbound) (o : outbound) : Stats :=
  let s := snapshot (rx i) in
  mkStats (Received s) (Lost s) (Reordered s) (rxDropped i) (JitterMs s) (packets (tx o)).

(** * RTCP *)

Inductive rtcpPacket :=
  | SenderReportPkt (sr : SenderReport)
  | ReceiverReportPkt (src : Z) (blocks : list ReceptionReport)
  | SourceDescription (src : Z) (cname : string)
  | OtherRtcp.

Definition rtcpReportsSize : nat := 32.

(** The loop body of [drainSRTCP] on a parsed compound packet: note the NTP time of
    each sender report, then offer the packets to the diagnostics channel without
    waiting. *)
Definition noteReports (s : rxStats) (pkts : list rtcpPacket) (now : Z) : rxStats :=
  fold_left (fun s p => match p with
                        | SenderReportPkt sr => noteSenderReport s (NTPTime sr) now
                        | _ => s
                        end) pkts s.
Definition recvRTCP (s : rxStats) (reports : list (list rtcpPacket)) (pkts : list rtcpPacket) (now : Z)
  : rxStats * list (list rtcpPacket) :=
  (noteReports s pkts now,
   if (length reports <? rtcpReportsSize)%nat then reports ++ [pkts] else reports).

Section Rtcp.
Variable oob : float64 -> Z.

(** [buildRTCP]: the new reception state and the compound packet. *)
Definition buildRTCP (s : rxStats) (t : txStats) (rtcpSSRC now : Z) : rxStats * list rtcpPacket :=
  let '(s', rr) := report oob s now in
  let blocks := match rr with Some b => [b] | None => [] end in
  match senderReport oob t now with
  | Some sr =>
      (s', [SenderReportPkt (mkSR (sr_SSRC sr) (NTPTime sr) (RTPTime sr) (PacketCount sr)
                               (OctetCount sr) blocks);
            SourceDescription (sr_SSRC sr) "whatsapp-connector"])
  | None =>
      (s', [ReceiverReportPkt rtcpSSRC blocks; SourceDescription rtcpSSRC "whatsapp-connector"])
  end.

(** The SRTCP session and the RTCP codec. *)
Record srtcpOps := mkSrtcpOps {
  MarshalRTCP : list rtcpPacket -> result (list Z);
  OpenRTCPStream : option error;
  WriteSRTCP : list Z -> option error
}.

(** [sendRTCP]; [out] is whether the write stream is open. *)
Definition sendRTCP (ops : srtcpOps) (srtcp : bool) (s : rxStats) (t : txStats) (rtcpSSRC : Z)
  (out : bool) (now : Z) : rxStats * bool * option error :=
  let '(s', pkts) := buildRTCP s t rtcpSSRC now in
  match MarshalRTCP ops pkts with
  | inl e => (s', out, Some e)
  | inr raw =>
      if negb srtcp then (s', out, Some (Sentinel EOF))
      else match (if out then None else OpenRTCPStream ops) with
      | Some e => (s', false, Some e)
      | None => (s', true, WriteSRTCP ops raw)
      end
  end.
End Rtcp.

(** * Specification of the pump *)

(** What happened to the packets: accepted by a reader, returned by [ReadRTP],
    thrown away. *)
Record phist := mkPhist { accepted : list Packet; delivered : list Packet; lost : list Packet }.

Definition lostBy (st : inbound) (s : stream) : list Packet :=
  match s with
  | Evict _ => match rtpIn st with p :: _ => [p] | [] => [] end
  | Resend p => if hasRoom st then [] else [p]
  | _ => []
  end.

Definition inflight (s : stream) : list Packet :=
  match s with TrySend p | Evict p | Resend p => [p] | _ => [] end.

Definition plog (m : pump) (h : phist) (a : pump_action) (out : option Packet) : phist :=
  mkPhist (accepted h ++ match a with Arrive _ (Some p) _ => [p] | _ => [] end)
    (delivered h ++ match out with Some p => [p] | None => [] end)
    (lost h ++ match a with
               | Select i => match streams m !! i with Some s => lostBy (inb m) s | None => [] end
               | _ => []
               end).

Fixpoint pumpRun (m : pump) (h : phist) (acts : list pump_action) : option (pump * phist) :=
  match acts with
  | [] => Some (m, h)
  | a :: acts =>
      match pumpStep m a with
      | Some (m', out) => pumpRun m' (plog m h a out) acts
      | None => None
      end
  end.

Definition newInbound : inbound := mkInbound [] 0 false zeroRx.
Definition newPump : pump := mkPump newInbound [].
Definition pstart : phist := mkPhist [] [] [].

Record pump_inv (m : pump) (h : phist) : Prop := {
  pi_conserved : accepted h ≡ₚ
    delivered h ++ rtpIn (inb m) ++ lost h ++ concat (map inflight (streams m));
  pi_dropped : rxDropped (inb m) = u64 (Z.of_nat (length (lost h)));
  pi_bound : (length (rtpIn (inb m)) <= rtpQueueSize)%nat;
  pi_saw : sawRTP (inb m) = negb (bool_decide (accepted h = []))
}.

(** * Lemmas *)

Lemma inflight_insert (l : list stream) i s s' :
  l !! i = Some s ->
  concat (map inflight (<[i := s']> l)) ++ inflight s ≡ₚ concat (map inflight l) ++ inflight s'.
Proof.
  intros H. rewrite insert_take_drop by eauto using lookup_lt_Some.
  rewrite <- (take_drop_middle l i s H) at 3.
  rewrite !map_app, !concat_app. simpl. solve_Permutation.
Qed.

Lemma streamStep_moves st s st' s' :
  streamStep st s = (st', s') ->
  rtpIn st ++ inflight s ≡ₚ rtpIn st' ++ lostBy st s ++ inflight s' /\
  sawRTP st' = sawRTP st /\
  (length (rtpIn st) <= rtpQueueSize -> length (rtpIn st') <= rtpQueueSize)%nat /\
  (forall n, rxDropped st = u64 n ->
     rxDropped st' = u64 (n + Z.of_nat (length (lostBy st s)))).
Proof.
  unfold streamStep, lostBy, hasRoom. destruct st as [q d sw r]. simpl. intros H.
  assert (Hn : forall n, d = u64 n -> u64 (d + 1) = u64 (n + 1)).
  { intros n ->. unfold u64. apply Z.add_mod_idemp_l. lia. }
  destruct s; simplify_eq;
    try (destruct (Nat.ltb_spec (length q) rtpQueueSize) as [Hlt|Hge]);
    try (destruct q as [|p1 q]; [|simpl in *]); simplify_eq; simpl; conjs; auto.
  all: try solve_Permutation.
  all: rewrite ?length_app; simpl; try lia.
  all: try (intros ? ->; f_equal; lia).
Qed.

Lemma pump_inv_new : pump_inv newPump pstart.
Proof. split; simpl; auto; lia. Qed.

Lemma snoc_not_nil {A} (l : list A) x : bool_decide (l ++ [x] = []) = false.
Proof. apply bool_decide_eq_false. by destruct l. Qed.

(** The packet count of a reader that goes from [s] to [s'] at index [i]. *)
Lemma inflight_update (l : list stream) i s s' (extra : list Packet) :
  l !! i = Some s -> inflight s' ≡ₚ inflight s ++ extra ->
  concat (map inflight (<[i := s']> l)) ≡ₚ concat (map inflight l) ++ extra.
Proof.
  intros H Hs. apply (Permutation_app_inv_r (inflight s)).
  rewrite (inflight_insert l i s s' H), Hs. solve_Permutation.
Qed.

Lemma pump_inv_step m h a m' out :
  pumpStep m a = Some (m', out) -> pump_inv m h -> pump_inv m' (plog m h a out).
Proof.
  intros Hs [Hc Hd Hb Hw]. destruct a as [|i p at_|i|i|]; simpl in Hs.
  - simplify_eq. split; simpl; rewrite ?app_nil_r; auto.
    rewrite map_app, concat_app. simpl. by rewrite app_nil_r.
  - destruct (streams m !! i) as [[]|] eqn:Ei; try done. simpl in Hs.
    destruct p as [p|]; simplify_eq/=; split; simpl; rewrite ?app_nil_r; auto.
    + rewrite (inflight_update _ i Reading (TrySend p) [p] Ei) by done.
      rewrite Hc. solve_Permutation.
    + by rewrite snoc_not_nil.
    + by rewrite list_insert_id.
  - destruct (streams m !! i) as [s|] eqn:Ei; [|done].
    destruct (streamStep (inb m) s) as [st s'] eqn:Es. simplify_eq.
    destruct (streamStep_moves _ _ _ _ Es) as (Hm & Hs & Hl & Hdr).
    split; simpl; rewrite ?Ei, ?app_nil_r, ?length_app, ?Nat2Z.inj_add, ?Hs; auto.
    rewrite Hc. pose proof (inflight_insert _ i s s' Ei) as Hi.
    apply (Permutation_app_inv_r (inflight s)).
    transitivity (delivered h ++ lost h ++ (rtpIn (inb m) ++ inflight s)
                  ++ concat (map inflight (streams m))); [solve_Permutation|].
    rewrite Hm. transitivity (delivered h ++ rtpIn st ++ (lost h ++ lostBy (inb m) s)
      ++ (concat (map inflight (streams m)) ++ inflight s')); [solve_Permutation|].
    rewrite <- Hi. solve_Permutation.
  - destruct (streams m !! i) as [[]|] eqn:Ei; try done. simplify_eq.
    split; simpl; rewrite ?app_nil_r; auto.
    rewrite (inflight_update _ i Reading Ended [] Ei) by done. by rewrite app_nil_r.
  - destruct (rtpIn (inb m)) as [|p q] eqn:Eq; [done|]. simplify_eq.
    split; simpl in *; rewrite ?app_nil_r; auto; [|lia].
    rewrite Hc. solve_Permutation.
Qed.

Lemma pump_inv_run acts : forall m h m' h',
  pumpRun m h acts = Some (m', h') -> pump_inv m h -> pump_inv m' h'.
Proof.
  induction acts as [|a acts IH]; simpl; intros m h m' h' H Hi; [by simplify_eq|].
  destruct (pumpStep m a) as [[m1 out]|] eqn:E; [|done]. eauto using pump_inv_step.
Qed.

(** The last [n] elements. *)
Definition lastn {A} (n : nat) (l : list A) : list A := drop (length l - n) l.

Lemma enqueue_queue st p at_ :
  (length (rtpIn st) <= rtpQueueSize)%nat ->
  rtpIn (enqueue st p at_) = lastn rtpQueueSize (rtpIn st ++ [p]).
Proof.
  intros H. unfold enqueue, lastn, gotPacket. rewrite length_app. cbn [length].
  remember (mkInbound (rtpIn st) (rxDropped st) true (update (rx st) p at_)) as st1 eqn:E1.
  assert (E2 : rtpIn st = rtpIn st1) by (by rewrite E1). rewrite E2 in *. clear E1 E2.
  unfold streamStep, hasRoom.
  destruct (Nat.ltb_spec (length (rtpIn st1)) rtpQueueSize) as [Hlt|Hge].
  - by replace (length (rtpIn st1) + 1 - rtpQueueSize)%nat with O by lia.
  - destruct (rtpIn st1) as [|q l] eqn:E; [unfold rtpQueueSize in *; simpl in *; lia|].
    cbn [drop1 rtpIn]. cbn [length] in *.
    destruct (Nat.ltb_spec (length l) rtpQueueSize); [|lia].
    by replace (S (length l) + 1 - rtpQueueSize)%nat with 1%nat by lia.
Qed.

Lemma lastn_snoc {A} n (l k : list A) : lastn n (lastn n l ++ k) = lastn n (l ++ k).
Proof.
  unfold lastn. rewrite !length_app, length_drop.
  destruct (Nat.le_gt_cases (length l) n).
  - by replace (length l - n)%nat with O by lia; rewrite drop_0, Nat.sub_0_r.
  - replace (length l - (length l - n) + length k - n)%nat with (length k) by lia.
    replace (length l + length k - n)%nat with (length l - n + length k)%nat by lia.
    rewrite <- drop_drop. rewrite (drop_app_le l) by lia. done.
Qed.

Lemma length_lastn {A} n (l : list A) : (length (lastn n l) <= n)%nat.
Proof. unfold lastn. rewrite length_drop. lia. Qed.

Lemma enqueue_all ps : forall st,
  (length (rtpIn st) <= rtpQueueSize)%nat ->
  rtpIn (fold_left (fun st x => enqueue st (fst x) (snd x)) ps st) =
  lastn rtpQueueSize (rtpIn st ++ map fst ps).
Proof.
  induction ps as [|[p at_] ps IH]; intros st H; simpl.
  - rewrite app_nil_r. unfold lastn. by replace (_ - _)%nat with O by lia.
  - rewrite IH, enqueue_queue by (rewrite ?enqueue_queue; auto using length_lastn).
    rewrite lastn_snoc. by rewrite <- app_assoc.
Qed.

(** How many selects a reader still makes before it reads again. *)
Definition rank (s : stream) : nat :=
  match s with TrySend _ => 3 | Evict _ => 2 | Resend _ => 1 | _ => 0 end.

Lemma streamStep_rank st s : (rank (snd (streamStep st s)) <= rank s - 1)%nat.
Proof. destruct s; simpl; repeat case_match; simpl; lia. Qed.

#[export] Instance pump_action_select_dec a i : Decision (a = Select i).
Proof. destruct a; try (by right). destruct (decide (i0 = i)); [left|right]; congruence. Defined.

(** One action of the pump seen by the reader at index [i]. *)
Lemma pumpStep_stream m a m1 out i s :
  streams m !! i = Some s ->
  match a with Arrive j _ _ | StreamError j => negb (j =? i)%nat | _ => true end = true ->
  pumpStep m a = Some (m1, out) ->
  exists s1, streams m1 !! i = Some s1 /\
    (rank s1 <= rank s - (if decide (a = Select i) then 1 else 0))%nat.
Proof.
  intros Hs Ha E. pose proof (lookup_lt_Some _ _ _ Hs) as Hlt.
  destruct a as [|j p at_|j|j|]; simpl in E.
  - simplify_eq. exists s. simpl. rewrite lookup_app_l by done. split; [done|lia].
  - apply negb_true_iff, Nat.eqb_neq in Ha.
    destruct (streams m !! j) as [[]|]; try done. destruct (gotPacket _ _ _). simplify_eq.
    exists s. simpl. rewrite list_lookup_insert_ne by done. split; [done|lia].
  - destruct (streams m !! j) as [sj|] eqn:Ej; [|done].
    destruct (streamStep (inb m) sj) as [st s'] eqn:Es. simplify_eq. simpl.
    destruct (decide (j = i)) as [->|Hne].
    + rewrite Hs in Ej. simplify_eq. exists s'. rewrite list_lookup_insert_eq by done.
      split; [done|]. pose proof (streamStep_rank (inb m) sj) as Hr. rewrite Es in Hr.
      case_decide; [exact Hr|congruence].
    + exists s. rewrite list_lookup_insert_ne by done. split; [done|].
      rewrite decide_False by congruence. lia.
  - apply negb_true_iff, Nat.eqb_neq in Ha.
    destruct (streams m !! j) as [[]|]; try done. simplify_eq.
    exists s. simpl. rewrite list_lookup_insert_ne by done. split; [done|lia].
  - destruct (rtpIn (inb m)); [done|]. simplify_eq. exists s. split; [done|]. simpl. lia.
Qed.

(** * Properties *)

(** No inbound packet is lost silently, whatever the interleaving of the stream
    readers and the consumer: every packet accepted from the network is, exactly
    once, among those returned by [ReadRTP], in the queue, held by a reader, or
    thrown away, the drop counter is the number thrown away modulo 2^64, and the
    queue never exceeds 256 packets. *)
Theorem pump_conserves_packets acts m h :
  pumpRun newPump pstart acts = Some (m, h) ->
  accepted h ≡ₚ delivered h ++ rtpIn (inb m) ++ lost h ++ concat (map inflight (streams m)) /\
  rxDropped (inb m) = u64 (Z.of_nat (length (lost h))) /\
  (length (rtpIn (inb m)) <= rtpQueueSize)%nat.
Proof.
  intros H. destruct (pump_inv_run _ _ _ _ _ H pump_inv_new) as [H1 H2 H3 _]. auto.
Qed.

Lemma pump_conserves_packets_witness :
  let acts := [AcceptStream; AcceptStream; Arrive 0 (Some (pkt 1 1 0)) 0; Arrive 1 (Some (pkt 2 9 0)) 1;
               Select 1; Select 0; Consume; Arrive 0 None 2] in
  exists m h, pumpRun newPump pstart acts = Some (m, h) /\
    accepted h ≡ₚ delivered h ++ rtpIn (inb m) ++ lost h ++ concat (map inflight (streams m)).
Proof.
  intros acts. destruct (pumpRun newPump pstart acts) as [[m h]|] eqn:E; [|vm_compute in E; congruence].
  exists m, h. split; [reflexivity|]. apply (pump_conserves_packets acts m h E).
Defined.

(** C24. A reader that falls behind keeps the newest audio: delivering packets with
    nobody consuming leaves exactly the last 256 of the old queue followed by the
    new packets, in order. *)
Theorem pump_keeps_newest st ps :
  (length (rtpIn st) <= rtpQueueSize)%nat ->
  rtpIn (fold_left (fun st x => enqueue st (fst x) (snd x)) ps st) =
  drop (length (rtpIn st) + length ps - rtpQueueSize) (rtpIn st ++ map fst ps).
Proof.
  intros H. rewrite enqueue_all by done. unfold lastn. by rewrite length_app, length_map.
Qed.

Lemma pump_keeps_newest_witness :
  let ps := map (fun i => (pkt 7 (Z.of_nat i) 0, 0)) (seq 0 300) in
  rtpIn (fold_left (fun st x => enqueue st (fst x) (snd x)) ps newInbound) =
  drop (0 + 300 - rtpQueueSize) (map fst ps).
Proof.
  intros ps. apply (pump_keeps_newest newInbound ps). vm_compute. repeat constructor.
Defined.

(** C30. A stream reader never blocks: each of its selects is possible in every
    state, and after at most three of them, with any actions of other goroutines in
    between, it is back at its read. *)
Theorem pump_never_blocks m h acts m' h' i s s' :
  streams m !! i = Some s ->
  forallb (fun a => match a with Arrive j _ _ | StreamError j => negb (j =? i)%nat | _ => true end)
    acts = true ->
  pumpRun m h acts = Some (m', h') -> streams m' !! i = Some s' ->
  (rank s' <= rank s - length (filter (fun a => a = Select i) acts))%nat /\
  pumpStep m' (Select i) <> None.
Proof.
  intros Hs Ha Hr Hs'. split; [|simpl; rewrite Hs'; by destruct (streamStep _ _)].
  revert m h s Hs Ha Hr. induction acts as [|a acts IH]; intros m h s Hs Ha Hr; cbn [pumpRun] in Hr.
  { simplify_eq. simpl. lia. }
  cbn [forallb] in Ha. apply andb_true_iff in Ha as [Ha Hacts].
  destruct (pumpStep m a) as [[m1 out]|] eqn:E; [|done].
  assert (H1 : exists s1, streams m1 !! i = Some s1 /\
            (rank s1 <= rank s - (if decide (a = Select i) then 1 else 0))%nat).
  { apply (pumpStep_stream m a m1 out); auto. }
  destruct H1 as (s1 & Hs1 & Hrk). specialize (IH m1 _ s1 Hs1 Hacts Hr).
  rewrite filter_cons. case_decide; simpl; lia.
Qed.

Lemma pump_never_blocks_witness :
  let m := mkPump newInbound [TrySend (pkt 7 1 0)] in
  exists m' h', pumpRun m pstart [Select 0; AcceptStream; Select 0; Select 0] = Some (m', h') /\
    pumpStep m' (Select 0) <> None.
Proof.
  intros m.
  destruct (pumpRun m pstart [Select 0; AcceptStream; Select 0; Select 0]) as [[m' h']|] eqn:E;
    [|vm_compute in E; congruence].
  exists m', h'. split; [reflexivity|].
  apply (pump_never_blocks m pstart [Select 0; AcceptStream; Select 0; Select 0] m' h' 0
           (TrySend (pkt 7 1 0)) Reading); [reflexivity | reflexivity | exact E |].
  vm_compute in E. injection E as <- <-. reflexivity.
Defined.

(** C36. A timed-out [ReadRTP] tells the two causes apart: in every reachable state
    of the pump the error is "no inbound RTP" exactly when no packet was ever
    accepted, and a deadline error otherwise; with the timeout disabled the case
    never fires. *)
Theorem ReadRTP_timeout_cause acts m h e st r :
  pumpRun newPump pstart acts = Some (m, h) ->
  waitErr e = None -> haveSRTP e = true ->
  ReadRTP e (inb m) CaseExpired = Some (st, r) ->
  0 < mediaTimeout e /\ st = inb m /\
  exists err, r = inl err /\
    errors_Is err ErrNoInboundRTP = bool_decide (accepted h = []) /\
    errors_Is err OsErrDeadlineExceeded = negb (bool_decide (accepted h = [])).
Proof.
  intros H Hw Hs Hr. destruct (pump_inv_run _ _ _ _ _ H pump_inv_new) as [_ _ _ Hsaw].
  unfold ReadRTP in Hr. rewrite Hw, Hs in Hr. simpl in Hr.
  destruct (Z.ltb_spec 0 (mediaTimeout e)) as [Ht|]; [|done].
  destruct (timerFired e); [|done]. simpl in Hr. rewrite Hsaw in Hr.
  destruct (bool_decide (accepted h = [])); simplify_eq/=; eauto 10.
Qed.

Definition expiredEnv : readEnv := mkReadEnv None true Second true None None.

Lemma ReadRTP_timeout_cause_witness :
  exists st err, ReadRTP expiredEnv (inb newPump) CaseExpired = Some (st, inl err) /\
    errors_Is err ErrNoInboundRTP = true.
Proof.
  destruct (ReadRTP expiredEnv (inb newPump) CaseExpired) as [[st r]|] eqn:E;
    [|vm_compute in E; congruence].
  destruct (ReadRTP_timeout_cause [] newPump pstart expiredEnv st r)
    as (_ & _ & err & -> & H & _); [reflexivity.. | exact E |].
  exists st, err. split; [reflexivity | exact H].
Defined.

(** ** The write path *)

Lemma writeRTP_counts ops srtp st p now :
  tx (fst (writeRTP ops srtp st p now)) =
  match snd (writeRTP ops srtp st p now) with
  | None => sent (tx st) p now
  | Some _ => tx st
  end.
Proof. unfold writeRTP. repeat case_match; simplify_eq/=; reflexivity. Qed.

Lemma TryWriteRTP_counts ops ready terr srtp st p now :
  tx (fst (TryWriteRTP ops ready terr srtp st p now)) =
  match snd (TryWriteRTP ops ready terr srtp st p now) with
  | None => sent (tx st) p now
  | Some _ => tx st
  end.
Proof.
  unfold TryWriteRTP. destruct ready; simpl; [|done]. destruct terr; [done|].
  apply writeRTP_counts.
Qed.

(** One call of [TryWriteRTP] with the state of the transport at that moment. *)
Record attempt := mkAttempt {
  at_ops : srtpOps; at_ready : bool; at_err : option error; at_srtp : bool;
  at_pkt : Packet; at_now : Z
}.
Definition tryWrite (st : outbound) (a : attempt) : outbound * option error :=
  TryWriteRTP (at_ops a) (at_ready a) (at_err a) (at_srtp a) st (at_pkt a) (at_now a).

Fixpoint tryWrites (st : outbound) (l : list attempt) : outbound * list (option error) :=
  match l with
  | [] => (st, [])
  | a :: l => let '(st1, e) := tryWrite st a in
              let '(st2, es) := tryWrites st1 l in (st2, e :: es)
  end.

(** The packets of the attempts that returned no error. *)
Definition successes (l : list attempt) (es : list (option error)) : list (Packet * Z) :=
  omap (fun x => match snd x with
                 | None => Some (at_pkt (fst x), at_now (fst x)) | Some _ => None end) (zip l es).

(** The sender statistics count exactly what was sent: over any sequence of
    non-blocking writes, with the transport in any state at each of them, the
    counters are those of the packets whose write returned no error; a write before
    the media path is ready returns ErrNotReady and changes nothing. *)
Theorem tryWrites_counts_sent st l :
  let '(st', es) := tryWrites st l in
  tx st' = fold_left (fun s x => sent s (fst x) (snd x)) (successes l es) (tx st) /\
  forall ops terr srtp p now,
    TryWriteRTP ops false terr srtp st p now = (st, Some (Sentinel MediaErrNotReady)).
Proof.
  destruct (tryWrites st l) as [st' es] eqn:E. split; [|done].
  revert st st' es E. induction l as [|a l IH]; intros st st' es E; simpl in E; [by simplify_eq|].
  unfold tryWrite in E.
  pose proof (TryWriteRTP_counts (at_ops a) (at_ready a) (at_err a) (at_srtp a) st (at_pkt a) (at_now a)) as H.
  destruct (TryWriteRTP _ _ _ _ _ _ _) as [st1 e]. destruct (tryWrites st1 l) as [st2 es2] eqn:E2.
  simplify_eq. apply IH in E2. rewrite E2. cbn [fst snd] in H. rewrite H.
  unfold successes. simpl. by destruct e.
Qed.

(** ** RTCP reports *)

Definition head_ssrc (p : rtcpPacket) : Z :=
  match p with
  | SenderReportPkt sr => sr_SSRC sr
  | ReceiverReportPkt s _ | SourceDescription s _ => s
  | OtherRtcp => 0
  end.
Definition head_blocks (p : rtcpPacket) : list ReceptionReport :=
  match p with SenderReportPkt sr => sr_Reports sr | ReceiverReportPkt _ b => b | _ => [] end.
Definition is_sender_report (p : rtcpPacket) : bool :=
  match p with SenderReportPkt _ => true | _ => false end.

(** The compound RTCP packet is well formed: a report followed by a source
    description with the CNAME of the same SSRC; the report is a sender report
    exactly when audio has been sent, and it carries one reception block, about
    Meta's current source, exactly when audio has been received. *)
Theorem buildRTCP_compound oob s t rtcpSSRC now :
  exists hd, snd (buildRTCP oob s t rtcpSSRC now) =
      [hd; SourceDescription (head_ssrc hd) "whatsapp-connector"] /\
    is_sender_report hd = hasSent t /\
    head_ssrc hd = (if hasSent t then tx_ssrc t else rtcpSSRC) /\
    map rr_SSRC (head_blocks hd) = (if rx_started s then [ssrc s] else []) /\
    fst (buildRTCP oob s t rtcpSSRC now) = fst (report oob s now).
Proof.
  unfold buildRTCP, senderReport, report.
  destruct (rx_started s), (hasSent t); cbn [negb fst snd]; cbv zeta;
    (match goal with |- exists _, ?h :: _ = _ /\ _ => exists h end); simpl; auto.
Qed.
