(* ===== verification/Lifecycle.v ===== *)
(** Life cycle of a transport (internal/media/transport.go: [NewTransport], [Start],
    [run], [connectICE], [setResult], [Wait], [Close], [closeResources]): the set-up
    goroutine and [Close] interleave, and every resource acquired on the way must be
    released. The ICE, DTLS and SRTP libraries appear through the outcome of each of
    their calls. *)
From S2P Require Import Prelude Errors.

(** What a transport acquires: the UDP socket, the ICE agent and its UDP mux, the
    packet mux, the DTLS connection, the two SRTP sessions. *)
Inductive rsrc := Raw | IceAgent | IceMux | PktMux | Dtls | Srtp | Srtcp.

#[export] Instance rsrc_eq_dec : EqDecision rsrc.
Proof. solve_decision. Defined.

Inductive res := Absent | Live | Shut.

#[export] Instance res_eq_dec : EqDecision res.
Proof. solve_decision. Defined.

Definition upd {A} (f : rsrc -> A) (r : rsrc) (x : A) : rsrc -> A :=
  fun r' => if decide (r = r') then x else f r'.

(** Closing a resource: a second close does nothing, a nil one is not closed. *)
Definition shut (x : res) : res := match x with Absent => Absent | _ => Shut end.

(** The shared state. [fields] are the pointers of the struct ([true] when not nil),
    [state] is what became of the objects; [readyCloses] counts the closes of the
    ready channel (a second one would panic). *)
Record transport := mkTransport {
  ctxDone : bool;
  startDone : bool;             (* startOnce *)
  closed : bool;
  readyCloses : nat;
  terr : option error;
  pumping : bool;
  fields : rsrc -> bool;
  state : rsrc -> res
}.

(** [NewTransport] on an open socket. *)
Definition NewTransport : transport :=
  mkTransport false false false 0 None false
    (fun r => bool_decide (r = Raw)) (fun r => if decide (r = Raw) then Live else Absent).

Definition set_state (t : transport) (f : rsrc -> res) : transport :=
  mkTransport (ctxDone t) (startDone t) (closed t) (readyCloses t) (terr t) (pumping t) (fields t) f.
Definition set_fields (t : transport) (f : rsrc -> bool) : transport :=
  mkTransport (ctxDone t) (startDone t) (closed t) (readyCloses t) (terr t) (pumping t) f (state t).

Definition create (t : transport) (r : rsrc) : transport := set_state t (upd (state t) r Live).
Definition close1 (t : transport) (r : rsrc) : transport :=
  set_state t (upd (state t) r (shut (state t r))).
Definition publish (t : transport) (r : rsrc) : transport :=
  set_fields t (upd (fields t) r true).

Definition closeReady (t : transport) : transport :=
  mkTransport (ctxDone t) (startDone t) (closed t) (S (readyCloses t)) (terr t) (pumping t)
    (fields t) (state t).

(** [closeResources]: the six session resources that are not nil. *)
Definition closeResources (t : transport) : transport :=
  set_state t (fun r => if fields t r && negb (bool_decide (r = Raw)) then shut (state t r)
                        else state t r).

(** The local variables of [run] handed to [setResult]. *)
Record locals := mkLocals { dc : bool; sr : bool; sc : bool; mux : bool; lerr : option error }.

(** Where the goroutine of [run] is. *)
Inductive run_pc :=
  | NotStarted
  | NewUDPMux | NewAgent | PublishICE | Gather | AwaitGathered | AddRemote | AwaitRemote | DialICE
                                                      (* connectICE *)
  | NewPacketMux | PublishMux
  | NewDTLS | Handshake | Profile | NewSRTP | NewSRTCP
  | SetResult (l : locals)
  | StartPump (l : locals)
  | CloseReady
  | RunDone.

(** [setResult]: publish the sessions and the error, or close them when the
    transport was closed meanwhile. *)
Definition setResult (t : transport) (l : locals) : transport :=
  if closed t then
    let t := if sr l then close1 t Srtp else t in
    let t := if sc l then close1 t Srtcp else t in
    let t := if dc l then close1 t Dtls else t in
    if mux l then close1 t PktMux else t
  else
    mkTransport (ctxDone t) (startDone t) (closed t) (readyCloses t) (lerr l) (pumping t)
      (upd (upd (upd (fields t) Dtls (dc l)) Srtp (sr l)) Srtcp (sc l)) (state t).

Definition startPump (t : transport) : transport :=
  mkTransport (ctxDone t) (startDone t) (closed t) (readyCloses t) (terr t) true (fields t) (state t).

(** [connectICE]: the mux and the agent are published unless the transport was closed
    meanwhile. Then candidates are gathered, the remote ones parsed and added (one
    step for the loop, which touches no field of the transport), the agent is polled
    until it has them, and the connection is dialled; [o] is the error of the library
    call or of the ended context there, if any, which [run] hands to [setResult]. *)
Definition connectICE (t : transport) (pc : run_pc) (o : option error) : transport * run_pc :=
  match pc with
  | NewUDPMux => (create t IceMux, NewAgent)
  | NewAgent =>
      match o with
      | Some e => (close1 t IceMux, SetResult (mkLocals false false false false (Some e)))
      | None => (create t IceAgent, PublishICE)
      end
  | PublishICE =>
      if closed t
      then (close1 (close1 t IceAgent) IceMux,
            SetResult (mkLocals false false false false (Some (Sentinel Canceled))))
      else (publish (publish t IceAgent) IceMux, Gather)
  | Gather =>
      match o with
      | Some e => (t, SetResult (mkLocals false false false false (Some e)))
      | None => (t, AwaitGathered)
      end
  | AwaitGathered =>
      match o with
      | Some e => (t, SetResult (mkLocals false false false false (Some e)))
      | None => (t, AddRemote)
      end
  | AddRemote =>
      match o with
      | Some e => (t, SetResult (mkLocals false false false false (Some e)))
      | None => (t, AwaitRemote)
      end
  | AwaitRemote =>
      match o with
      | Some e => (t, SetResult (mkLocals false false false false (Some e)))
      | None => (t, DialICE)
      end
  | DialICE =>
      match o with
      | Some e => (t, SetResult (mkLocals false false false false (Some e)))
      | None => (t, NewPacketMux)
      end
  | _ => (t, pc)
  end.

(** One step of [run]; [o] is the error of the library call made there, if any. *)
Definition runStep (t : transport) (pc : run_pc) (o : option error) : transport * run_pc :=
  match pc with
  | NotStarted | RunDone => (t, pc)
  | NewUDPMux | NewAgent | PublishICE | Gather | AwaitGathered | AddRemote | AwaitRemote | DialICE =>
      connectICE t pc o
  | NewPacketMux => (create t PktMux, PublishMux)
  | PublishMux =>
      if closed t then (close1 t PktMux, CloseReady) else (publish t PktMux, NewDTLS)
  | NewDTLS =>
      match o with
      | Some e => (t, SetResult (mkLocals false false false true (Some e)))
      | None => (create t Dtls, Handshake)
      end
  | Handshake =>
      match o with
      | Some e => (t, SetResult (mkLocals true false false true (Some e)))
      | None => (t, Profile)
      end
  | Profile =>
      match o with
      | Some e => (t, SetResult (mkLocals true false false true (Some e)))
      | None => (t, NewSRTP)
      end
  | NewSRTP =>
      match o with
      | Some e => (t, SetResult (mkLocals true false false true (Some e)))
      | None => (create t Srtp, NewSRTCP)
      end
  | NewSRTCP =>
      match o with
      | Some e => (t, SetResult (mkLocals true true false true (Some e)))
      | None => (create t Srtcp, SetResult (mkLocals true true true true None))
      end
  | SetResult l => (setResult t l, StartPump l)
  | StartPump l =>
      (if bool_decide (lerr l = None) && sr l then startPump t else t, CloseReady)
  | CloseReady => (closeReady t, RunDone)
  end.

(** Where [Close] is. *)
Inductive close_pc :=
  | NotClosing | CancelCtx | SetClosed | CloseRes1 | StartOnce | AwaitReady | CloseRes2 | CloseRaw
  | CloseDone.

Definition setCtxDone (t : transport) : transport :=
  mkTransport true (startDone t) (closed t) (readyCloses t) (terr t) (pumping t) (fields t) (state t).
Definition setClosed (t : transport) : transport :=
  mkTransport (ctxDone t) (startDone t) true (readyCloses t) (terr t) (pumping t) (fields t) (state t).
Definition setStarted (t : transport) : transport :=
  mkTransport (ctxDone t) true (closed t) (readyCloses t) (terr t) (pumping t) (fields t) (state t).

(** One step of [Close]; [None] while it waits for the ready channel. *)
Definition closeStep (t : transport) (pc : close_pc) : option (transport * close_pc) :=
  match pc with
  | NotClosing | CloseDone => None
  | CancelCtx => Some (setCtxDone t, SetClosed)
  | SetClosed => Some (setClosed t, CloseRes1)
  | CloseRes1 => Some (closeResources t, StartOnce)
  | StartOnce => Some (if startDone t then t else closeReady (setStarted t), AwaitReady)
  | AwaitReady => if (0 <? readyCloses t)%nat then Some (t, CloseRes2) else None
  | CloseRes2 => Some (closeResources t, CloseRaw)
  | CloseRaw => Some (close1 t Raw, CloseDone)
  end.

(** The transport with its two goroutines. *)
Record system := mkSystem { tr : transport; rpc : run_pc; cpc : close_pc }.

Inductive action :=
  | DoStart                        (* Start (or Wait, which calls it) *)
  | DoRun (o : option error)
  | DoClose                        (* Close is called *)
  | DoCloseStep
  | ParentCancel.                  (* the parent context ends *)

Definition step (s : system) (a : action) : option system :=
  match a with
  | DoStart =>
      if startDone (tr s) then Some s
      else Some (mkSystem (setStarted (tr s)) NewUDPMux (cpc s))
  | DoRun o =>
      match rpc s with
      | NotStarted | RunDone => None
      | pc => let '(t, pc') := runStep (tr s) pc o in Some (mkSystem t pc' (cpc s))
      end
  | DoClose =>
      match cpc s with
      | NotClosing => Some (mkSystem (tr s) (rpc s) CancelCtx)
      | _ => Some s
      end
  | DoCloseStep =>
      match closeStep (tr s) (cpc s) with
      | Some (t, pc) => Some (mkSystem t (rpc s) pc)
      | None => None
      end
  | ParentCancel => Some (mkSystem (setCtxDone (tr s)) (rpc s) (cpc s))
  end.

Definition initial : system := mkSystem NewTransport NotStarted NotClosing.

Inductive reachable : system -> Prop :=
  | reach_init : reachable initial
  | reach_step s a s' : reachable s -> step s a = Some s' -> reachable s'.

Fixpoint steps (s : system) (acts : list action) : option system :=
  match acts with
  | [] => Some s
  | a :: acts => match step s a with Some s' => steps s' acts | None => None end
  end.

(** [Wait] after its call of [Start]: [None] while both cases of the select block.
    When both are ready, [pickCtx] says which one the runtime takes; [ctxErr] is the
    error of the ended context. *)
Definition Wait (t : transport) (pickCtx : bool) (ctxErr : error) : option (option error) :=
  if (0 <? readyCloses t)%nat && negb (ctxDone t && pickCtx) then Some (terr t)
  else if ctxDone t then Some (Some ctxErr) else None.

(** * Invariant *)

(** How far [Close] has come. *)
Definition close_rank (pc : close_pc) : nat :=
  match pc with
  | NotClosing => 0 | CancelCtx => 1 | SetClosed => 2 | CloseRes1 => 3 | StartOnce => 4
  | AwaitReady => 5 | CloseRes2 => 6 | CloseRaw => 7 | CloseDone => 8
  end.

(** Objects that only the local variables of [run] hold at that point. *)
Definition owned (pc : run_pc) (r : rsrc) : bool :=
  match pc, r with
  | NewAgent, IceMux | PublishICE, IceMux | PublishICE, IceAgent | PublishMux, PktMux
  | Handshake, Dtls | Profile, Dtls | NewSRTP, Dtls | NewSRTCP, Dtls | NewSRTCP, Srtp => true
  | SetResult l, Dtls => dc l
  | SetResult l, Srtp => sr l
  | SetResult l, Srtcp => sc l
  | _, _ => false
  end.

(** The goroutine of [run] exists and has not returned. *)
Definition running (pc : run_pc) : bool :=
  match pc with NotStarted | RunDone => false | _ => true end.

(** [setResult] has been executed (or skipped because the transport was closed). *)
Definition decided (pc : run_pc) : bool :=
  match pc with StartPump _ | CloseReady | RunDone => true | _ => false end.

Definition media_up (t : transport) : Prop :=
  fields t Dtls = true /\ fields t Srtp = true /\ fields t Srtcp = true.

Record inv (s : system) : Prop := {
  i_live : forall r, state (tr s) r = Live ->
    r = Raw \/ fields (tr s) r = true \/ owned (rpc s) r = true;
  i_result : forall l, rpc s = SetResult l -> lerr l = None ->
    dc l = true /\ sr l = true /\ sc l = true;
  i_running : running (rpc s) = true -> startDone (tr s) = true /\ readyCloses (tr s) = 0;
  i_done : rpc s = RunDone -> startDone (tr s) = true /\ readyCloses (tr s) = 1;
  i_idle : rpc s = NotStarted ->
    readyCloses (tr s) = if startDone (tr s) then 1 else 0;
  i_once : rpc s = NotStarted -> startDone (tr s) = true -> 5 <= close_rank (cpc s);
  i_closed : closed (tr s) = (3 <=? close_rank (cpc s));
  i_started : 5 <= close_rank (cpc s) -> startDone (tr s) = true;
  i_ready : 6 <= close_rank (cpc s) -> readyCloses (tr s) = 1;
  i_shut : 7 <= close_rank (cpc s) -> forall r, r <> Raw -> state (tr s) r <> Live;
  i_raw : close_rank (cpc s) = 8 -> state (tr s) Raw <> Live;
  i_unset : decided (rpc s) = false ->
    fields (tr s) Dtls = false /\ fields (tr s) Srtp = false /\ fields (tr s) Srtcp = false;
  i_up : decided (rpc s) = true -> closed (tr s) = false -> terr (tr s) = None -> media_up (tr s)
}.

Lemma upd_eq {A} (f : rsrc -> A) r x : upd f r x r = x.
Proof. unfold upd. by rewrite decide_True. Qed.
Lemma upd_ne {A} (f : rsrc -> A) r r' x : r <> r' -> upd f r x r' = f r'.
Proof. intros. unfold upd. by rewrite decide_False. Qed.

Lemma shut_not_live x : shut x <> Live.
Proof. by destruct x. Qed.

(** Case analysis on the resource a lookup is at. *)
Ltac res_cases :=
  repeat match goal with
  | H : context [decide (?a = ?b)] |- _ => destruct (decide (a = b)); subst
  | |- context [decide (?a = ?b)] => destruct (decide (a = b)); subst
  end.

Lemma life_inv_initial : inv initial.
Proof. split; simpl; try done; try lia. intros r Hr. destruct (decide (r = Raw)); [by left|done]. Qed.

Lemma inv_start s : inv s -> forall s', step s DoStart = Some s' -> inv s'.
Proof.
  intros Hinv s' Hs. simpl in Hs.
  destruct (startDone (tr s)) eqn:Est; simplify_eq; [exact Hinv|].
  destruct Hinv as [H1 H2 H3 H4 H5 H6 H7 H8 H9 H10 H11 H12 H13].
  assert (Hidle : rpc s = NotStarted).
  { destruct (rpc s) eqn:E; auto; try (destruct H3; [done|congruence]).
    destruct H4; [done|congruence]. }
  assert (close_rank (cpc s) < 5)
    by (destruct (decide (5 <= close_rank (cpc s))); [rewrite H8 in Est; [done|lia]|lia]).
  specialize (H5 Hidle). rewrite Est in H5.
  split; simpl; try done; auto; try lia; [|by rewrite Hidle in H12; auto].
  intros r Hr. destruct (H1 r Hr) as [?|[?|Ho]]; auto.
  rewrite Hidle in Ho. destruct r; done.
Qed.

(** What a step of [run] must establish, given that the goroutine is running: the
    other conditions concern [Close] past its wait, which is not reached then. *)
Lemma inv_run_intro t pc c t' pc' :
  inv (mkSystem t pc c) -> running pc = true ->
  closed t' = closed t -> startDone t' = startDone t ->
  (if running pc' then readyCloses t' = readyCloses t
   else pc' = RunDone /\ readyCloses t' = S (readyCloses t)) ->
  (forall r, state t' r = Live -> r = Raw \/ fields t' r = true \/ owned pc' r = true) ->
  (forall l, pc' = SetResult l -> lerr l = None -> dc l = true /\ sr l = true /\ sc l = true) ->
  (decided pc' = false ->
     fields t' Dtls = false /\ fields t' Srtp = false /\ fields t' Srtcp = false) ->
  (decided pc' = true -> closed t = false -> terr t' = None -> media_up t') ->
  inv (mkSystem t' pc' c).
Proof.
  intros [H1 H2 H3 H4 H5 H6 H7 H8 H9 H10 H11 H12 H13] Hrun Hcl Hst Hrc Hlive Hres Hun Hup; simpl in *.
  destruct (H3 Hrun) as [Hs0 Hr0].
  assert (close_rank c < 6)
    by (destruct (decide (6 <= close_rank c)); [rewrite H9 in Hr0; [done|lia]|lia]).
  split; simpl; rewrite ?Hcl, ?Hst; auto; try lia.
  - intros Hr'. rewrite Hr' in Hrc. split; [done|lia].
  - intros ->. simpl in Hrc. split; [done|]. lia.
  - intros ->. simpl in Hrc. by destruct Hrc.
  - intros ->. simpl in Hrc. by destruct Hrc.
Qed.

Lemma setResult_flags t l :
  closed (setResult t l) = closed t /\ startDone (setResult t l) = startDone t /\
  readyCloses (setResult t l) = readyCloses t.
Proof. unfold setResult. destruct l as [[] [] [] [] e]; simpl; destruct (closed t) eqn:E; auto. Qed.

(** After [setResult] nothing is held by local variables only. *)
Lemma setResult_live t l :
  fields t Dtls = false /\ fields t Srtp = false /\ fields t Srtcp = false ->
  (forall r, state t r = Live -> r = Raw \/ fields t r = true \/ owned (SetResult l) r = true) ->
  forall r, state (setResult t l) r = Live -> r = Raw \/ fields (setResult t l) r = true.
Proof.
  intros (F1 & F2 & F3) Hlive r Hr.
  assert (Hc : closed t = true -> state t r = Live /\ fields (setResult t l) r = fields t r /\
            owned (SetResult l) r = false).
  { intros Hc. unfold setResult in *. rewrite Hc in *.
    destruct l as [[] [] [] [] e]; simpl in *; unfold upd in *; res_cases;
      try (by apply shut_not_live in Hr); try congruence; by destruct r. }
  destruct (closed t) eqn:E.
  - destruct (Hc eq_refl) as (H1 & H2 & H3). destruct (Hlive r H1) as [?|[?|?]]; auto; [|congruence].
    right. congruence.
  - unfold setResult in *. rewrite E in *. simpl in *.
    destruct (Hlive r Hr) as [?|[Hf|Ho]]; auto; right.
    + unfold upd. res_cases; congruence.
    + destruct r; done.
Qed.

Lemma inv_run s o s' : inv s -> step s (DoRun o) = Some s' -> inv s'.
Proof.
  intros Hinv Hs. destruct s as [t pc c]. unfold step in Hs. cbn [rpc tr cpc] in Hs.
  assert (Hrun : running pc = true) by (destruct pc; done).
  assert (Hlive := i_live _ Hinv). assert (Hres := i_result _ Hinv).
  assert (Hup := i_up _ Hinv). assert (Hun := i_unset _ Hinv). simpl in Hlive, Hres, Hup, Hun.
  assert (Hs' : exists t' pc', runStep t pc o = (t', pc') /\ s' = mkSystem t' pc' c).
  { destruct pc; try done; destruct (runStep t _ o) as [t' pc'] eqn:E; simplify_eq; eauto. }
  clear Hs. destruct Hs' as (t' & pc' & Hstep & ->).
  destruct pc; try done; simpl in Hstep.
  16: { simplify_eq. destruct (setResult_flags t l) as (E1 & E2 & E3).
    eapply inv_run_intro; [exact Hinv | done | exact E1 | exact E2 | simpl; auto | | done | done |].
    - intros r Hr. destruct (setResult_live t l) with (r := r); auto.
    - intros _ Hc. unfold setResult. rewrite Hc. simpl. intros Hl.
      destruct (Hres l eq_refl Hl) as (-> & -> & ->). by repeat split. }
  all: repeat case_match; simplify_eq;
    (eapply inv_run_intro; [exact Hinv | reflexivity | reflexivity | reflexivity | ..]);
    try done; simpl; auto; try (intros; simplify_eq/=; done).
  all: try (intros r Hr; specialize (Hlive r); destruct r;
    repeat (rewrite upd_eq in * || rewrite upd_ne in * by done);
    try (by apply shut_not_live in Hr); simpl in *; intuition congruence).
  intros _ Hc. congruence.
Qed.

Lemma closeResources_live t r :
  state (closeResources t) r = Live -> state t r = Live /\ (r = Raw \/ fields t r = false).
Proof.
  simpl. destruct (fields t r) eqn:E; simpl; [|auto]. case_bool_decide; simpl; [auto|].
  intros H'. by apply shut_not_live in H'.
Qed.

Lemma inv_close s s' : inv s -> step s DoCloseStep = Some s' -> inv s'.
Proof.
  intros Hinv Hs. simpl in Hs. destruct (closeStep (tr s) (cpc s)) as [[t pc]|] eqn:E; [|done].
  simplify_eq. destruct Hinv as [H1 H2 H3 H4 H5 H6 H7 H8 H9 H10 H11 H12 H13].
  destruct (cpc s) eqn:Ec; simpl in *; simplify_eq/=; try done.
  - split; simpl; auto; lia.
  - split; simpl; auto; try lia; try (intros; congruence).
  - split; simpl; auto; try lia. intros r Hr; apply (closeResources_live (tr s)) in Hr; destruct Hr; auto.
  - (* startOnce *)
    destruct (startDone (tr s)) eqn:Est; simplify_eq; [split; simpl; rewrite ?Est; auto; intros; try lia; congruence|].
    assert (Hidle : rpc s = NotStarted).
    { destruct (rpc s) eqn:E'; auto; try (destruct H3; [done|congruence]).
      destruct H4; [done|congruence]. }
    split; simpl; auto; try lia; rewrite ?Hidle; try done; intros; rewrite H5 by done; done.
  - (* the wait is over *)
    destruct (Nat.ltb_spec 0 (readyCloses (tr s))); simplify_eq.
    split; simpl; auto; try lia. intros _.
    destruct (running (rpc s)) eqn:Er; [destruct (H3 eq_refl); lia|].
    destruct (rpc s) eqn:E'; try done; [|by destruct H4].
    rewrite H5 by done. rewrite H8 by lia. done.
  - (* the second closeResources *)
    assert (Hr : running (rpc s) = false).
    { destruct (running (rpc s)); [|done]. destruct H3 as [_ H3]; [done|]. rewrite H9 in H3; lia. }
    split; simpl; auto; try lia.
    + intros r Hl; apply (closeResources_live (tr s)) in Hl; destruct Hl; auto.
    + intros _ r Hne Hl; apply (closeResources_live (tr s)) in Hl. destruct Hl as [Hl [?|Hf]]; [done|].
      destruct (H1 r Hl) as [?|[?|Ho]]; [done|congruence|]. destruct (rpc s), r; done.
  - split; simpl; auto; try lia.
    + intros r Hr. destruct (decide (Raw = r)) as [<-|Hne]; [by left|].
      rewrite upd_ne in Hr by done. auto.
    + intros _ r Hne. rewrite upd_ne by done. apply H10; [lia|done].
    + intros _. rewrite upd_eq. apply shut_not_live.
Qed.

Lemma life_inv_step s a s' : inv s -> step s a = Some s' -> inv s'.
Proof.
  intros Hinv Hs. destruct a; eauto using inv_start, inv_run, inv_close.
  - simpl in Hs. destruct (cpc s) eqn:E; simplify_eq; auto.
    destruct Hinv as [H1 H2 H3 H4 H5 H6 H7 H8 H9 H10 H11 H12 H13]. rewrite E in *. simpl in *.
    split; simpl; auto; lia.
  - simpl in Hs. simplify_eq. destruct Hinv. split; simpl; auto.
Qed.

Lemma life_inv_reachable s : reachable s -> inv s.
Proof. induction 1; eauto using life_inv_initial, life_inv_step. Qed.


(** The inbound pump is started before the ready channel is closed. *)
Definition pump_inv (s : system) : Prop :=
  match rpc s with
  | StartPump l =>
      closed (tr s) = false -> terr (tr s) = lerr l /\ (lerr l = None -> sr l = true)
  | CloseReady | RunDone =>
      closed (tr s) = false -> terr (tr s) = None -> pumping (tr s) = true
  | _ => True
  end.

Lemma pump_inv_close s s' : pump_inv s -> step s DoCloseStep = Some s' -> pump_inv s'.
Proof.
  unfold pump_inv. intros Hp Hs. simpl in Hs.
  destruct (closeStep (tr s) (cpc s)) as [[t pc]|] eqn:E; [|done]. simplify_eq. simpl.
  destruct (cpc s); simpl in E; simplify_eq; try done;
    try (destruct (startDone (tr s))); try (destruct (0 <? _)%nat); simplify_eq; try exact Hp;
    destruct (rpc s); done.
Qed.

Lemma pump_inv_reachable s : reachable s -> pump_inv s.
Proof.
  induction 1 as [|s a s' Hr IH Hs]; [done|]. pose proof (life_inv_reachable s Hr) as Hinv.
  destruct a; eauto using pump_inv_close; simpl in Hs.
  - destruct (startDone (tr s)); by simplify_eq.
  - destruct s as [t pc c]; unfold pump_inv in *; simpl in IH.
    destruct pc as [| | | | | | | | | | | | | | | |l|l| |]; simpl in Hs;
      try (destruct o; simplify_eq; done).
    all: destruct (closed t) eqn:Ec; simplify_eq; simpl; try done; try congruence.
    + destruct (setResult_flags t l) as (-> & _ & _). congruence.
    + intros _. unfold setResult. rewrite Ec. simpl.
      split; [done|]. intros Hl. by destruct (i_result _ Hinv l eq_refl Hl) as (_ & ? & _).
    + intros Hc. exfalso. destruct (_ && _); simpl in Hc; congruence.
    + destruct (IH eq_refl) as [E1 E2]. destruct (decide (lerr l = None)) as [E|E].
      * rewrite bool_decide_true, (E2 E) by done. done.
      * rewrite bool_decide_false by done. simpl. congruence.
  - destruct (cpc s); by simplify_eq.
  - by simplify_eq.
Qed.

(** Progress measure of [run] and [Close]. *)
Definition run_left (t : transport) (pc : run_pc) : nat :=
  match pc with
  | NotStarted => if startDone t then 0 else 21
  | NewUDPMux => 19 | NewAgent => 18 | PublishICE => 17 | Gather => 16 | AwaitGathered => 15
  | AddRemote => 14 | AwaitRemote => 13 | DialICE => 12
  | NewPacketMux => 11 | PublishMux => 10 | NewDTLS => 9 | Handshake => 8 | Profile => 7
  | NewSRTP => 6 | NewSRTCP => 5 | SetResult _ => 4 | StartPump _ => 3 | CloseReady => 2
  | RunDone => 0
  end.

Definition work (s : system) : nat := run_left (tr s) (rpc s) + (8 - close_rank (cpc s)).

Lemma run_left_step t pc o t' pc' :
  running pc = true -> runStep t pc o = (t', pc') -> run_left t' pc' < run_left t pc.
Proof. destruct pc; simpl; intros; repeat case_match; simplify_eq/=; try done; lia. Qed.

Lemma work_close s s' : step s DoCloseStep = Some s' -> work s' < work s.
Proof.
  intros Hs. simpl in Hs. destruct (closeStep (tr s) (cpc s)) as [[t pc]|] eqn:E; [|done].
  simplify_eq. unfold work. simpl.
  destruct (cpc s); simpl in E; simplify_eq/=; try done.
  1-3,5-6: try (destruct (0 <? _)%nat; simplify_eq/=; try done);
    destruct (rpc s); simpl; try lia; case_match; lia.
  all: destruct (startDone (tr s)) eqn:Es; simplify_eq; destruct (rpc s); simpl; rewrite ?Es; try lia.
Qed.

Lemma work_run s o s' : step s (DoRun o) = Some s' -> work s' < work s.
Proof.
  intros Hs. destruct s as [t pc c]. unfold step in Hs. cbn [rpc tr cpc] in Hs.
  assert (Hrun : running pc = true) by (destruct pc; done).
  assert (Hs' : exists t' pc', runStep t pc o = (t', pc') /\ s' = mkSystem t' pc' c).
  { destruct pc; try done; destruct (runStep t _ o) as [t' pc'] eqn:E; simplify_eq; eauto. }
  destruct Hs' as (t' & pc' & E & ->). apply run_left_step in E; [|done]. unfold work. simpl. lia.
Qed.

Lemma work_run_enabled s o : running (rpc s) = true -> step s (DoRun o) <> None.
Proof.
  destruct s as [t pc c]. unfold step. cbn [rpc tr cpc]. intros Hr.
  destruct (runStep t pc o) as [t' pc'] eqn:E. destruct pc; try done; by rewrite E.
Qed.

Lemma life_reachable_steps s acts s' : reachable s -> steps s acts = Some s' -> reachable s'.
Proof.
  revert s. induction acts as [|a acts IH]; simpl; intros s Hr Hs; [by simplify_eq|].
  destruct (step s a) eqn:E; [|done]. eapply IH; [|exact Hs]. eapply reach_step; eauto.
Qed.

(** * Properties *)

(** When [Close] has returned nothing is open. *)
Lemma closed_nothing_live (s : system) :
  reachable s -> cpc s = CloseDone -> running (rpc s) = false /\ forall r, state (tr s) r <> Live.
Proof.
  intros Hinv%life_inv_reachable Hc. pose proof (i_ready _ Hinv) as Hr. pose proof (i_shut _ Hinv) as Hs.
  pose proof (i_raw _ Hinv) as Hraw. rewrite Hc in Hr, Hs, Hraw; simpl in Hr, Hs, Hraw. split.
  - destruct (running (rpc s)) eqn:E; [|done]. destruct (i_running _ Hinv E). lia.
  - intros r. destruct (decide (r = Raw)) as [->|]; [auto|apply Hs; [lia|done]].
Qed.

(** C5. When [Close] has returned, in whatever order it and the set-up goroutine were
    interleaved and whichever call of set-up failed, the goroutine of [run] has
    returned or never started, the ready channel is closed exactly once (a second
    close would panic), and no socket, ICE agent, mux, DTLS connection or SRTP
    session is left open. *)
Theorem Close_releases_everything (s : system) :
  reachable s -> cpc s = CloseDone ->
  running (rpc s) = false /\ readyCloses (tr s) = 1 /\ forall r, state (tr s) r <> Live.
Proof.
  intros Hr Hc. destruct (closed_nothing_live s Hr Hc). conjs; auto.
  pose proof (i_ready _ (life_inv_reachable s Hr)) as Hrd. rewrite Hc in Hrd. simpl in Hrd. auto with lia.
Qed.

(** [Close] arrives between the DTLS handshake and the creation of the SRTP session. *)
Definition close_during_handshake : list action :=
  DoStart :: replicate 12 (DoRun None) ++ DoClose :: replicate 4 DoCloseStep ++
  replicate 6 (DoRun None) ++ replicate 3 DoCloseStep.

Definition run_of (acts : list action) : system := default initial (steps initial acts).

Lemma run_of_reachable acts : reachable (run_of acts).
Proof.
  unfold run_of. destruct (steps initial acts) eqn:E; simpl; [|constructor].
  eapply life_reachable_steps; [constructor|exact E].
Qed.

Lemma Close_releases_everything_witness :
  cpc (run_of close_during_handshake) = CloseDone /\
  readyCloses (tr (run_of close_during_handshake)) = 1.
Proof.
  split; [vm_compute; reflexivity|].
  apply (Close_releases_everything (run_of close_during_handshake) (run_of_reachable _)).
  vm_compute; reflexivity.
Defined.

(** C25. [Close] terminates, provided the library calls of set-up return: while it has
    not returned either it can take a step itself, or the set-up goroutine can,
    whatever the outcome of the library call it is at; and each step of either
    strictly decreases a bounded amount of work, which no other action increases. *)
Theorem Close_terminates (s : system) :
  reachable s -> 0 < close_rank (cpc s) < 8 ->
  (step s DoCloseStep <> None \/ forall o, step s (DoRun o) <> None) /\
  (forall s', step s DoCloseStep = Some s' -> work s' < work s) /\
  (forall o s', step s (DoRun o) = Some s' -> work s' < work s) /\
  (forall a s', step s a = Some s' -> work s' <= work s) /\ work s <= 29.
Proof.
  intros Hinv%life_inv_reachable Hc. conjs; eauto using work_close, work_run.
  - destruct (cpc s) eqn:E; simpl in Hc; try lia; try (left; simpl; rewrite E; done).
    destruct (running (rpc s)) eqn:Er; [right; intros; by apply work_run_enabled|].
    left. simpl. rewrite E. simpl.
    pose proof (i_started _ Hinv) as Hst. rewrite E in Hst. simpl in Hst.
    assert (readyCloses (tr s) = 1) as ->; [|done].
    destruct (rpc s) eqn:Ep; try done; [|by apply (i_done _ Hinv)].
    rewrite (i_idle _ Hinv) by done. rewrite Hst by lia. done.
  - intros a s' Hs. destruct a.
    + simpl in Hs. destruct (startDone (tr s)) eqn:E; simplify_eq; [lia|]. unfold work; simpl.
      destruct (rpc s) eqn:Ep; simpl; try (destruct (i_running _ Hinv); rewrite ?Ep; [done|congruence]).
      * rewrite E. lia.
      * destruct (i_done _ Hinv); [done|congruence].
    + apply work_run in Hs. lia.
    + simpl in Hs. destruct (cpc s); simplify_eq/=; lia.
    + apply work_close in Hs. lia.
    + simpl in Hs. simplify_eq. unfold work. simpl. destruct (rpc s); simpl; lia.
  - unfold work. destruct (rpc s); simpl; try lia. case_match; lia.
Qed.

Lemma Close_terminates_witness :
  let s := run_of (take 18 close_during_handshake) in
  close_rank (cpc s) = 5 /\ step s DoCloseStep = None /\
  (step s DoCloseStep <> None \/ forall o, step s (DoRun o) <> None).
Proof.
  split; [vm_compute; reflexivity|]. split; [vm_compute; reflexivity|].
  apply (Close_terminates (run_of (take 18 close_during_handshake)) (run_of_reachable _)).
  vm_compute; lia.
Defined.

(** A successful [Wait] on a transport that is not closed: set-up has returned, without
    an error. *)
Lemma Wait_success_done (s : system) (pickCtx : bool) (ctxErr : error) :
  reachable s -> closed (tr s) = false -> Wait (tr s) pickCtx ctxErr = Some None ->
  rpc s = RunDone /\ terr (tr s) = None.
Proof.
  intros Hinv%life_inv_reachable Hc Hw. unfold Wait in Hw.
  destruct (Nat.ltb_spec 0 (readyCloses (tr s))) as [Hrc|]; simpl in Hw; [|by case_match].
  split; [|destruct (negb _); [congruence|by case_match]].
  destruct (running (rpc s)) eqn:Er; [destruct (i_running _ Hinv Er); lia|].
  destruct (rpc s) eqn:Ep; try done. exfalso.
  pose proof (i_idle _ Hinv Ep) as Hi. pose proof (i_once _ Hinv Ep) as Ho.
  pose proof (i_closed _ Hinv) as Hcl. rewrite Hc in Hcl. symmetry in Hcl.
  apply Nat.leb_gt in Hcl. destruct (startDone (tr s)); [specialize (Ho eq_refl)|]; lia.
Qed.

(** After a set-up without error the sessions are published and the pump runs. *)
Lemma set_up_media (s : system) :
  reachable s -> closed (tr s) = false -> rpc s = RunDone -> terr (tr s) = None ->
  media_up (tr s) /\ pumping (tr s) = true.
Proof.
  intros Hr Hc Hd He. pose proof (life_inv_reachable s Hr) as Hinv. pose proof (pump_inv_reachable s Hr) as Hp.
  split; [apply (i_up _ Hinv); auto; by rewrite Hd|].
  unfold pump_inv in Hp. rewrite Hd in Hp. auto.
Qed.

(** When [Wait] reports success on a transport that is not closed, the DTLS
    connection and both SRTP sessions are published for the readers and writers and
    the pump that keeps the shared mux drained is running. *)
Theorem Wait_success_media_up (s : system) (pickCtx : bool) (ctxErr : error) :
  reachable s -> closed (tr s) = false -> Wait (tr s) pickCtx ctxErr = Some None ->
  media_up (tr s) /\ pumping (tr s) = true.
Proof.
  intros Hr Hc Hw. destruct (Wait_success_done s pickCtx ctxErr Hr Hc Hw). by apply set_up_media.
Qed.

Definition clean_set_up : list action := DoStart :: replicate 18 (DoRun None).

Lemma Wait_success_media_up_witness :
  Wait (tr (run_of clean_set_up)) false (Sentinel Canceled) = Some None /\
  media_up (tr (run_of clean_set_up)).
Proof.
  split; [vm_compute; reflexivity|].
  apply (Wait_success_media_up (run_of clean_set_up) false (Sentinel Canceled) (run_of_reachable _));
    vm_compute; reflexivity.
Defined.

(** The hypothesis that the transport is open is needed: [Close] of a transport that
    was never started closes the ready channel with no error recorded, and a [Wait]
    that takes the ready case returns nil with no session. *)
Lemma Wait_nil_after_Close :
  let s := run_of (DoClose :: replicate 7 DoCloseStep) in
  cpc s = CloseDone /\ Wait (tr s) false (Sentinel Canceled) = Some None /\
  fields (tr s) Srtp = false.
Proof. vm_compute. auto. Qed.
