(* ===== verification/Sdp.v ===== *)
(** SDP negotiation (internal/media/sdp.go) and the check of the DTLS peer
    (the [verify] closure of transport.go): parsing Meta's offer and building the
    answer, building an offer and applying Meta's answer. pion's SDP and ICE
    candidate parsers, the hash and the source of randomness are parameters. *)
From S2P Require Import Prelude Errors GoStrings.
From Stdlib Require Import Ascii.

Local Open Scope Z_scope.
Local Open Scope go_scope.

(** * Data *)

(** [pion/sdp]: the parts of a description the program reads. *)
Record Attribute := mkAttribute { Key : string; Value : string }.
Record MediaDescription := mkMedia {
  MediaName_Media : string;
  MediaName_Protos : list string;
  MediaName_Formats : list string;
  Attributes : list Attribute
}.
Record SessionDescription := mkSession {
  SessionAttributes : list Attribute;
  MediaDescriptions : list MediaDescription
}.

(** [pion/ice]: what the program asks a parsed candidate. *)
Inductive NetworkType := UDP4 | UDP6 | TCP4 | TCP6.
#[export] Instance NetworkType_eq_dec : EqDecision NetworkType.
Proof. solve_decision. Defined.

Record candidate := mkCandidate {
  c_Component : Z;
  c_NetworkType : NetworkType;
  c_Address : string;
  c_Port : Z;
  c_Foundation : string;
  c_Priority : Z;
  c_Type : Z;
  c_Marshal : string
}.
Definition ComponentRTP : Z := 1.

(** [netip.Addr]: an IPv4 address, or any other value with its text. *)
Inductive Addr := V4 (a : Addr4) | NotV4 (text : string).
Definition Is4 (a : Addr) : bool := match a with V4 _ => true | NotV4 _ => false end.
Definition Addr_String (a : Addr) : string :=
  match a with V4 a => Addr4_String a | NotV4 t => t end.

Record AddrPort := mkAddrPort { ap_Addr : Addr; ap_Port : Z }.
Definition AddrPortFrom (a : Addr) (port : Z) : AddrPort := mkAddrPort a port.

Record Certificate := mkCertificate { cert_raw : list Z; Fingerprint : string }.

Record ICECandidate := mkICECandidate {
  Raw : string;
  Address : AddrPort;
  Foundation : string;
  Priority : Z;
  CandType : Z
}.

Record Negotiation := mkNegotiation {
  RemoteFingerprint : string;
  RemoteSetup : string;
  LocalSetup : string;
  IsClient : bool;
  Cert : option Certificate;
  RemoteUfrag : string;
  RemotePwd : string;
  LocalUfrag : string;
  LocalPwd : string;
  RemoteCandidates : list ICECandidate;
  Local : AddrPort;
  PayloadType : Z;
  Answer : string
}.

Definition set_answer (n : Negotiation) (a : string) : Negotiation :=
  mkNegotiation (RemoteFingerprint n) (RemoteSetup n) (LocalSetup n) (IsClient n) (Cert n)
    (RemoteUfrag n) (RemotePwd n) (LocalUfrag n) (LocalPwd n) (RemoteCandidates n) (Local n)
    (PayloadType n) a.
Definition set_role (n : Negotiation) (setup : string) (client : bool) : Negotiation :=
  mkNegotiation (RemoteFingerprint n) (RemoteSetup n) setup client (Cert n)
    (RemoteUfrag n) (RemotePwd n) (LocalUfrag n) (LocalPwd n) (RemoteCandidates n) (Local n)
    (PayloadType n) (Answer n).

(** [fmt.Errorf("%w: ...", ErrInvalidSDP)] *)
Definition invalid (msg : string) : error := Wrapf "" (Sentinel ErrInvalidSDP) (": " +:+ msg).

(** * Attributes *)

Fixpoint findAttr (l : list Attribute) (key : string) : option string :=
  match l with
  | [] => None
  | a :: l => if String.eqb (Key a) key then Some (Value a) else findAttr l key
  end.
Definition attr (m : MediaDescription) (key : string) : option string := findAttr (Attributes m) key.
Definition sattr (s : SessionDescription) (key : string) : option string :=
  findAttr (SessionAttributes s) key.

(** The media-level attribute, or else the session-level one. *)
Definition attrOr (m : MediaDescription) (s : SessionDescription) (key : string) : option string :=
  match attr m key with Some v => Some v | None => sattr s key end.

(** The media section the program negotiates: audio over DTLS-SRTP. *)
Definition compatible (m : MediaDescription) : bool :=
  String.eqb (MediaName_Media m) "audio" &&
  EqualFold (Join (MediaName_Protos m) "/") "UDP/TLS/RTP/SAVPF".

Fixpoint offeredFormatIn (l : list string) (format : string) : bool :=
  match l with [] => false | f :: l => if String.eqb f format then true else offeredFormatIn l format end.
Definition offeredFormat (m : MediaDescription) (format : string) : bool :=
  offeredFormatIn (MediaName_Formats m) format.

(** The payload type one rtpmap attribute gives, if it is an offered Opus. *)
Definition opusAttr (m : MediaDescription) (a : Attribute) : option Z :=
  if negb (String.eqb (Key a) "rtpmap") then None
  else match Fields (Value a) with
  | [f0; f1] =>
      if negb (EqualFold f1 "opus/48000/2") then None
      else match Atoi f0 with
      | Some v => if (0 <=? v) && (v <=? 127) && offeredFormat m f0 then Some (u8 v) else None
      | None => None
      end
  | _ => None
  end.

Fixpoint opusPayloadIn (m : MediaDescription) (l : list Attribute) : result Z :=
  match l with
  | [] => inl (invalid "opus/48000/2 missing")
  | a :: l => match opusAttr m a with Some v => inr v | None => opusPayloadIn m l end
  end.
Definition opusPayload (m : MediaDescription) : result Z := opusPayloadIn m (Attributes m).

(** [credential]: [n] random bytes in hexadecimal; [r] is what the random source
    gives, an error or its bytes. *)
Definition credential (n : nat) (r : error + (nat -> Z)) : result string :=
  match r with
  | inl e => inl e
  | inr b => inr (hex_EncodeToString (map (fun i => u8 (b i)) (seq 0 n)))
  end.

(** * Messages *)

Definition crlf : string := String (chr 13) (String (chr 10) "").
Definition sdpLines (l : list string) : string := String.concat "" (map (fun x => x +:+ crlf) l).

(** [buildAnswer]; [now] is the reading of the clock in nanoseconds. *)
Definition buildAnswer (now : Z) (n : Negotiation) (cert : Certificate) : string :=
  let sid := u64 now in
  let ip := Addr_String (ap_Addr (Local n)) in
  let port := Itoa (ap_Port (Local n)) in
  let pt := Itoa (PayloadType n) in
  sdpLines [
    "v=0";
    "o=- " +:+ Itoa sid +:+ " 2 IN IP4 " +:+ ip;
    "s=-";
    "t=0 0";
    "a=group:BUNDLE 0";
    "a=msid-semantic: WMS";
    "m=audio " +:+ port +:+ " UDP/TLS/RTP/SAVPF " +:+ pt;
    "c=IN IP4 " +:+ ip;
    "a=mid:0";
    "a=sendrecv";
    "a=rtcp-mux";
    "a=rtpmap:" +:+ pt +:+ " opus/48000/2";
    "a=fmtp:" +:+ pt +:+ " minptime=10;useinbandfec=1";
    "a=ice-ufrag:" +:+ LocalUfrag n;
    "a=ice-pwd:" +:+ LocalPwd n;
    "a=candidate:1 1 udp 2130706431 " +:+ ip +:+ " " +:+ port +:+ " typ host";
    "a=end-of-candidates";
    "a=fingerprint:sha-256 " +:+ Fingerprint cert;
    "a=setup:" +:+ LocalSetup n ].

Definition buildOffer (now : Z) (n : Negotiation) (cert : Certificate) : string :=
  let sid := u64 now in
  let ip := Addr_String (ap_Addr (Local n)) in
  let port := Itoa (ap_Port (Local n)) in
  sdpLines [
    "v=0";
    "o=- " +:+ Itoa sid +:+ " 2 IN IP4 " +:+ ip;
    "s=-";
    "t=0 0";
    "a=group:BUNDLE 0";
    "a=msid-semantic: WMS";
    "m=audio " +:+ port +:+ " UDP/TLS/RTP/SAVPF 111";
    "c=IN IP4 " +:+ ip;
    "a=mid:0";
    "a=sendrecv";
    "a=rtcp-mux";
    "a=rtpmap:111 opus/48000/2";
    "a=fmtp:111 minptime=10;useinbandfec=1";
    "a=ice-ufrag:" +:+ LocalUfrag n;
    "a=ice-pwd:" +:+ LocalPwd n;
    "a=candidate:1 1 udp 2130706431 " +:+ ip +:+ " " +:+ port +:+ " typ host";
    "a=end-of-candidates";
    "a=fingerprint:sha-256 " +:+ Fingerprint cert;
    "a=setup:actpass" ].

(** [NewOffer]; [port] is an [int], [r1] and [r2] the two readings of the random
    source. *)
Definition NewOffer (now : Z) (r1 r2 : error + (nat -> Z))
    (cert : option Certificate) (publicIP : Addr) (port : Z) : result Negotiation :=
  match cert with
  | None => inl (invalid "invalid local transport")
  | Some c =>
      if negb (Is4 publicIP) || (port <? 1) || (65535 <? port)
      then inl (invalid "invalid local transport")
      else
        let? lu := credential 8 r1 in
        let? lp := credential 24 r2 in
        let n := mkNegotiation "" "" "actpass" false (Some c) "" "" lu lp []
                   (AddrPortFrom publicIP (u16 port)) 111 "" in
        inr (set_answer n (buildOffer now n c))
  end.

(** The certificate's fingerprint text: the bytes of the digest, upper case, with
    colons. *)
Definition fingerprintText (d : list Z) : string := Join (map fmt02X d) ":".

(** * Hexadecimal and letter case *)

Lemma fromHexChar_lower c : fromHexChar (lower c) = fromHexChar c.
Proof. destruct c as [[] [] [] [] [] [] [] []]; reflexivity. Qed.
Lemma fromHexChar_upper c : fromHexChar (upper c) = fromHexChar c.
Proof. destruct c as [[] [] [] [] [] [] [] []]; reflexivity. Qed.
Lemma fromHexChar_ascii c : fromHexChar c <> None -> code c < 128.
Proof. destruct c as [[] [] [] [] [] [] [] []]; intros H; solve [reflexivity | exfalso; apply H; reflexivity]. Qed.
Lemma lower_upper c : lower (upper c) = lower c.
Proof. destruct c as [[] [] [] [] [] [] [] []]; reflexivity. Qed.
Lemma colon_lower c : Ascii.eqb (lower c) (chr 58) = Ascii.eqb c (chr 58).
Proof. destruct c as [[] [] [] [] [] [] [] []]; reflexivity. Qed.
Lemma colon_upper c : Ascii.eqb (upper c) (chr 58) = Ascii.eqb c (chr 58).
Proof. destruct c as [[] [] [] [] [] [] [] []]; reflexivity. Qed.

Lemma list_ind2 {A} (P : list A -> Prop) :
  P [] -> (forall a, P [a]) -> (forall a b l, P l -> P (a :: b :: l)) -> forall l, P l.
Proof.
  intros H0 H1 H2. fix IH 1. intros [|a [|b l]]; [exact H0|apply H1|apply H2, IH].
Qed.

Lemma hexDecode_map f l :
  (forall c, fromHexChar (f c) = fromHexChar c) -> hexDecode (map f l) = hexDecode l.
Proof.
  intros Hf. induction l as [| |a b l IH] using list_ind2; simpl; auto. by rewrite !Hf, IH.
Qed.

Lemma hexDecode_ascii l d : hexDecode l = Some d -> Forall (fun c => code c < 128) l.
Proof.
  revert d. induction l as [| |a b l IH] using list_ind2; simpl; intros d H; try done.
  destruct (fromHexChar a) eqn:Ea; [|done]. destruct (fromHexChar b) eqn:Eb; [|done].
  destruct (hexDecode l) eqn:El; [|done].
  constructor; [apply fromHexChar_ascii; congruence|].
  constructor; [apply fromHexChar_ascii; congruence|]. by eapply IH.
Qed.

(** Removing the colons. *)
Definition strip (l : list ascii) : list ascii := filter (fun c => Ascii.eqb c (chr 58) = false) l.

Lemma bytes_strip s : bytes (ReplaceByte s (chr 58) "") = strip (bytes s).
Proof.
  unfold ReplaceByte. rewrite bytes_of_bytes. induction (bytes s) as [|c l IH]; [done|].
  unfold strip in *. rewrite filter_cons. simpl in *. rewrite IH. by destruct (Ascii.eqb c (chr 58)).
Qed.

Lemma strip_map f l :
  (forall c, Ascii.eqb (f c) (chr 58) = Ascii.eqb c (chr 58)) -> strip (map f l) = map f (strip l).
Proof.
  intros Hf. unfold strip. induction l as [|c l IH]; [done|]. simpl.
  rewrite !filter_cons, Hf, IH. by destruct (Ascii.eqb c (chr 58)).
Qed.

Lemma strip_ascii l : Forall (fun c => code c < 128) (strip l) -> Forall (fun c => code c < 128) l.
Proof.
  unfold strip. induction l as [|c l IH]; [done|]. rewrite filter_cons.
  destruct (Ascii.eqb_spec c (chr 58)) as [->|]; simpl.
  - intros H. constructor; [done|auto].
  - intros [? ?]%Forall_cons. auto.
Qed.

Lemma ToUpper_hex uni f d :
  hex_DecodeString (ReplaceByte f (chr 58) "") = Some d ->
  ToUpper uni f = mapBytes upper f /\
  hex_DecodeString (ReplaceByte (ToUpper uni f) (chr 58) "") = Some d.
Proof.
  unfold hex_DecodeString. rewrite !bytes_strip. intros Hd.
  assert (Ha : isASCII f = true).
  { unfold isASCII. apply forallb_forall. intros c Hc. apply Z.ltb_lt.
    apply hexDecode_ascii, strip_ascii in Hd. rewrite Forall_forall in Hd.
    apply Hd. by apply list_elem_of_In. }
  unfold ToUpper. rewrite Ha. split; [done|]. unfold mapBytes. rewrite bytes_of_bytes.
  rewrite strip_map by apply colon_upper. rewrite hexDecode_map by apply fromHexChar_upper. done.
Qed.

Lemma hex_digit_facts d : 0 <= d < Z.of_nat 16 ->
  fromHexChar (hexUpper d) = Some d /\ Ascii.eqb (hexUpper d) (chr 58) = false /\
  code (lower (hexUpper d)) <> 115 /\ code (lower (hexUpper d)) <> 107.
Proof. revert d. refine (forall_below _ 16 _). repeat constructor; done. Qed.

Lemma hex_digit_lower d : 0 <= d < Z.of_nat 16 -> fromHexChar (hexLower d) = Some d.
Proof. revert d. refine (forall_below _ 16 _). repeat constructor; done. Qed.

Lemma hex_encode_decode l : Forall is_u8 l -> hex_DecodeString (hex_EncodeToString l) = Some l.
Proof.
  unfold hex_DecodeString, hex_EncodeToString. rewrite bytes_of_bytes.
  induction 1 as [|b l Hb _ IH]; [done|]. simpl. unfold is_u8 in Hb.
  rewrite !hex_digit_lower by (Z.div_mod_to_equations; lia). rewrite IH.
  do 2 f_equal. Z.div_mod_to_equations; lia.
Qed.

Lemma bytes_fingerprint_cons b d :
  bytes (fingerprintText (b :: d)) =
  [hexUpper (b / 16); hexUpper (b mod 16)] ++
  match d with [] => [] | _ => chr 58 :: bytes (fingerprintText d) end.
Proof.
  destruct d as [|b' d]; [done|]. unfold fingerprintText, Join. simpl map.
  change (String.concat ":" (fmt02X b :: fmt02X b' :: map fmt02X d)) with
    (fmt02X b +:+ ":" +:+ String.concat ":" (fmt02X b' :: map fmt02X d)).
  rewrite !bytes_app. unfold fmt02X at 1. rewrite bytes_of_bytes. reflexivity.
Qed.

Lemma strip_app a b : strip (a ++ b) = strip a ++ strip b.
Proof. apply filter_app. Qed.

Lemma strip_hex2 b : is_u8 b ->
  strip [hexUpper (b / 16); hexUpper (b mod 16)] = [hexUpper (b / 16); hexUpper (b mod 16)].
Proof.
  intros Hb. unfold is_u8 in Hb. unfold strip.
  destruct (hex_digit_facts (b / 16)) as (_ & E1 & _); [Z.div_mod_to_equations; lia|].
  destruct (hex_digit_facts (b mod 16)) as (_ & E2 & _); [Z.div_mod_to_equations; lia|].
  rewrite !filter_cons, E1, E2. done.
Qed.

(** The canonical text of a digest decodes to the digest. *)
Lemma fingerprint_decode d :
  Forall is_u8 d -> hexDecode (strip (bytes (fingerprintText d))) = Some d.
Proof.
  induction 1 as [|b d Hb _ IH]; [done|]. rewrite bytes_fingerprint_cons, strip_app, strip_hex2 by done.
  assert (E : hexDecode (strip match d with [] => [] | _ => chr 58 :: bytes (fingerprintText d) end)
              = Some d).
  { destruct d; [done|]. exact IH. }
  unfold is_u8 in Hb. simpl.
  destruct (hex_digit_facts (b / 16)) as (-> & _); [Z.div_mod_to_equations; lia|].
  destruct (hex_digit_facts (b mod 16)) as (-> & _); [Z.div_mod_to_equations; lia|].
  rewrite E. do 2 f_equal. Z.div_mod_to_equations; lia.
Qed.

Lemma fingerprint_plain d :
  Forall is_u8 d ->
  Forall (fun c => code (lower c) <> 115 /\ code (lower c) <> 107) (bytes (fingerprintText d)).
Proof.
  induction 1 as [|b d Hb _ IH]; [done|]. rewrite bytes_fingerprint_cons. unfold is_u8 in Hb.
  repeat (apply Forall_cons; split).
  1,2: apply hex_digit_facts; Z.div_mod_to_equations; lia.
  destruct d; [constructor|]. by constructor.
Qed.

(** Folding against a text without the letters s and k is equality up to case. *)
Lemma foldEq_plain t : forall s,
  Forall (fun c => code (lower c) <> 115 /\ code (lower c) <> 107) t ->
  foldEq s t = true <-> map lower s = map lower t.
Proof.
  induction t as [|c t IH]; intros s Ht; simpl; [by destruct s|].
  apply Forall_cons in Ht as [[H1 H2] Ht]. destruct s as [|a s]; [done|]. simpl.
  destruct (Ascii.eqb_spec (lower a) (lower c)) as [E|E].
  - rewrite E, IH by done. split; [intros; by f_equal|by intros [=]].
  - apply Z.eqb_neq in H1, H2. rewrite H1, H2.
    split; [|by intros [=]]. destruct s as [|? [|]]; rewrite ?andb_false_r; done.
Qed.

Lemma opusPayload_ok m pt : opusPayload m = inr pt -> 0 <= pt <= 127.
Proof.
  unfold opusPayload. induction (Attributes m) as [|a l IH]; [done|].
  simpl. destruct (opusAttr m a) as [v|] eqn:E; [|exact IH]. intros; simplify_eq.
  unfold opusAttr in E. destruct (negb _); [done|].
  destruct (Fields (Value a)) as [|f0 [|f1 []]]; try done. destruct (negb _); [done|].
  destruct (Atoi f0) as [v|]; [|done].
  destruct (Z.leb_spec 0 v), (Z.leb_spec v 127); simpl in E; try done.
  destruct (offeredFormat m f0); [|done]. simplify_eq. words.
Qed.

(** * Parsing *)

Section Negotiate.
(** [session.Unmarshal] of pion/sdp. *)
Context (Unmarshal : string -> result SessionDescription).
(** [ice.UnmarshalCandidate] of pion/ice ([None]: an error, whose text is unused). *)
Context (UnmarshalCandidate : string -> option candidate).
(** The Unicode tables of [strings.ToLower] and [strings.ToUpper]. *)
Context (uniLower uniUpper : string -> string).

(** What one attribute adds to the candidates: nothing, or an entry whose text has
    not been seen. *)
Definition candidateOf (a : Attribute) : option ICECandidate :=
  if negb (String.eqb (Key a) "candidate") then None
  else match UnmarshalCandidate (Value a) with
  | None => None
  | Some c =>
      if negb (c_Component c =? ComponentRTP) || negb (bool_decide (c_NetworkType c = UDP4))
      then None
      else match ParseAddr4 (c_Address c) with
      | None => None
      | Some ip =>
          if (c_Port c <? 1) || (65535 <? c_Port c) then None
          else Some (mkICECandidate (c_Marshal c) (AddrPortFrom (V4 ip) (u16 (c_Port c)))
                       (c_Foundation c) (c_Priority c) (c_Type c))
      end
  end.

(** The loop of [remoteCandidates]; [seen] is its map of texts, [out] the list built. *)
Fixpoint candidatesLoop (seen : gset string) (out : list ICECandidate) (l : list Attribute)
  : list ICECandidate :=
  match l with
  | [] => out
  | a :: l =>
      match candidateOf a with
      | None => candidatesLoop seen out l
      | Some c =>
          if bool_decide (Raw c ∈ seen) then candidatesLoop seen out l
          else candidatesLoop ({[Raw c]} ∪ seen) (out ++ [c]) l
      end
  end.

Definition remoteCandidates (m : MediaDescription) : result (list ICECandidate) :=
  match candidatesLoop ∅ [] (Attributes m) with
  | [] => inl (NewError "supported component-1 UDP candidate missing")
  | out => inr out
  end.

(** [compatibleAudio] *)
Definition compatibleAudio (raw : string) : result (MediaDescription * SessionDescription) :=
  match Unmarshal raw with
  | inl e => inl (invalid (Error e))
  | inr session =>
      match List.find compatible (MediaDescriptions session) with
      | Some m => inr (m, session)
      | None => inl (invalid "compatible audio media missing")
      end
  end.

(** The checks on the fingerprint attribute; the result is its second field. *)
Definition parseFingerprint (m : MediaDescription) (s : SessionDescription) : result string :=
  match attrOr m s "fingerprint" with
  | None => inl (invalid "fingerprint missing")
  | Some fp =>
      match Fields fp with
      | [f0; f1] =>
          if negb (EqualFold f0 "sha-256") then inl (invalid "SHA-256 fingerprint required")
          else match hex_DecodeString (ReplaceByte f1 (chr 58) "") with
          | Some decoded =>
              if (length decoded =? 32)%nat then inr f1 else inl (invalid "malformed fingerprint")
          | None => inl (invalid "malformed fingerprint")
          end
      | _ => inl (invalid "SHA-256 fingerprint required")
      end
  end.

Definition parseSetup (m : MediaDescription) (s : SessionDescription) : result string :=
  match attrOr m s "setup" with
  | None => inl (invalid "setup missing")
  | Some setup =>
      match attr m "rtcp-mux" with
      | None => inl (invalid "rtcp-mux required")
      | Some _ => inr setup
      end
  end.

(** A required, non-empty ICE attribute. *)
Definition required (v : option string) (msg : string) : result string :=
  match v with
  | Some x => if String.eqb x "" then inl (invalid msg) else inr x
  | None => inl (invalid msg)
  end.

(** The codec and the candidates. *)
Definition parseMedia (m : MediaDescription) : result (Z * list ICECandidate) :=
  let? pt := opusPayload m in
  match remoteCandidates m with
  | inl e => inl (invalid (Error e))
  | inr cands => inr (pt, cands)
  end.

(** The DTLS role that answers an offer's setup attribute. *)
Definition answerRole (setup : string) : option (string * bool) :=
  if String.eqb setup "actpass" || String.eqb setup "active" then Some ("passive", false)
  else if String.eqb setup "passive" then Some ("active", true)
  else None.

(** [ParseOfferAndAnswer]; the certificate pointer is not nil (the manager creates
    it at start-up). *)
Definition ParseOfferAndAnswer (now : Z) (r1 r2 : error + (nat -> Z))
    (raw : string) (cert : Certificate) (publicIP : Addr) (port : Z) : result Negotiation :=
  match Unmarshal raw with
  | inl e => inl (invalid (Error e))
  | inr offer =>
      match List.find compatible (MediaDescriptions offer) with
      | None => inl (invalid "compatible audio media missing")
      | Some m =>
          let? f1 := parseFingerprint m offer in
          let? setup := parseSetup m offer in
          let? ufrag := required (attrOr m offer "ice-ufrag") "ICE ufrag missing" in
          let? pwd := required (attrOr m offer "ice-pwd") "ICE password missing" in
          let? (pt, cands) := parseMedia m in
          let? lu := credential 8 r1 in
          let? lp := credential 24 r2 in
          let remoteSetup := ToLower uniLower setup in
          match answerRole remoteSetup with
          | None => inl (invalid "unsupported setup role")
          | Some (localSetup, client) =>
              let n := mkNegotiation (ToUpper uniUpper f1) remoteSetup localSetup client (Some cert)
                         ufrag pwd lu lp cands (AddrPortFrom publicIP (u16 port)) pt "" in
              inr (set_answer n (buildAnswer now n cert))
          end
      end
  end.

(** What [ApplyAnswer] reads from the answer before it touches the negotiation. *)
Record remoteHalf := mkRemote {
  rh_fingerprint : string; rh_setup : string; rh_ufrag : string; rh_pwd : string;
  rh_cands : list ICECandidate; rh_pt : Z
}.

Definition readAnswer (raw : string) : result remoteHalf :=
  let? (m, session) := compatibleAudio raw in
  let? f1 := parseFingerprint m session in
  let? setup := parseSetup m session in
  let? (ufrag, pwd) :=
    (match attrOr m session "ice-ufrag", attrOr m session "ice-pwd" with
     | Some u, Some p =>
         if String.eqb u "" || String.eqb p "" then inl (invalid "ICE credentials missing")
         else inr (u, p)
     | _, _ => inl (invalid "ICE credentials missing")
     end : result (string * string)) in
  let? (pt, cands) := parseMedia m in
  inr (mkRemote f1 setup ufrag pwd cands pt).

(** [ApplyAnswer]: the negotiation is shared with the caller and is updated in
    place, also when the role check fails. *)
Definition ApplyAnswer (raw : string) (n : Negotiation) : Negotiation * option error :=
  if bool_decide (Cert n = None) || String.eqb (LocalUfrag n) "" || String.eqb (LocalPwd n) ""
  then (n, Some (invalid "outbound offer state missing"))
  else match readAnswer raw with
  | inl e => (n, Some e)
  | inr r =>
      let n := mkNegotiation (ToUpper uniUpper (rh_fingerprint r)) (ToLower uniLower (rh_setup r))
                 (LocalSetup n) (IsClient n) (Cert n) (rh_ufrag r) (rh_pwd r) (LocalUfrag n)
                 (LocalPwd n) (rh_cands r) (Local n) (rh_pt r) (Answer n) in
      if String.eqb (RemoteSetup n) "active" then (set_role n "passive" false, None)
      else if String.eqb (RemoteSetup n) "passive" then (set_role n "active" true, None)
      else (n, Some (invalid "answer setup must be active or passive"))
  end.

(** * What a successful parse gives *)

Definition candidate_ok (c : ICECandidate) : Prop :=
  exists ip, ap_Addr (Address c) = V4 ip /\ addr4_ok ip /\ 1 <= ap_Port (Address c) <= 65535.

(** A remote half that a transport can be started from. *)
Record remote_ok (n : Negotiation) : Prop := {
  ok_fingerprint : exists d, hex_DecodeString (ReplaceByte (RemoteFingerprint n) (chr 58) "") = Some d
                             /\ length d = 32%nat;
  ok_credentials : RemoteUfrag n <> "" /\ RemotePwd n <> "";
  ok_payload : 0 <= PayloadType n <= 127;
  ok_candidates : RemoteCandidates n <> [] /\ NoDup (map Raw (RemoteCandidates n)) /\
                  Forall candidate_ok (RemoteCandidates n);
  ok_role : (LocalSetup n = "passive" /\ IsClient n = false /\
               (RemoteSetup n = "active" \/ RemoteSetup n = "actpass")) \/
            (LocalSetup n = "active" /\ IsClient n = true /\ RemoteSetup n = "passive")
}.

Lemma candidateOf_ok a c : candidateOf a = Some c -> candidate_ok c.
Proof.
  unfold candidateOf. destruct (negb _); [done|]. destruct (UnmarshalCandidate _) as [k|]; [|done].
  destruct (_ || _); [done|]. destruct (ParseAddr4 (c_Address k)) as [ip|] eqn:Eip; [|done].
  destruct (Z.ltb_spec (c_Port k) 1), (Z.ltb_spec 65535 (c_Port k)); simpl; try done.
  intros; simplify_eq. exists ip. simpl. split; [done|].
  split; [by apply ParseAddr4_print in Eip as []|]. words.
Qed.

(** The loop keeps the texts distinct and recorded in [seen]. *)
Lemma candidatesLoop_ok l : forall seen out,
  (forall c, c ∈ out -> Raw c ∈ seen) -> NoDup (map Raw out) -> Forall candidate_ok out ->
  NoDup (map Raw (candidatesLoop seen out l)) /\ Forall candidate_ok (candidatesLoop seen out l).
Proof.
  induction l as [|a l IH]; intros seen out Hseen Hnd Hok; simpl; [done|].
  destruct (candidateOf a) as [c|] eqn:Ec; [|by apply IH].
  case_bool_decide as Hin; [by apply IH|]. apply IH.
  - intros k. rewrite elem_of_app, list_elem_of_singleton. intros [?%Hseen| ->]; clear IH; set_solver.
  - rewrite map_app. apply NoDup_app. split; [done|]. split; [|apply NoDup_singleton].
    intros x. rewrite !list_elem_of_fmap. intros (k & -> & Hk%Hseen). intros (k' & E & Hk').
    apply list_elem_of_singleton in Hk'. subst k'. congruence.
  - apply Forall_app. split; [done|]. apply Forall_singleton. eauto using candidateOf_ok.
Qed.

Lemma remoteCandidates_ok m cands :
  remoteCandidates m = inr cands ->
  cands <> [] /\ NoDup (map Raw cands) /\ Forall candidate_ok cands.
Proof.
  unfold remoteCandidates. intros H.
  destruct (candidatesLoop_ok (Attributes m) ∅ []) as [H1 H2]; [set_solver|constructor|constructor|].
  destruct (candidatesLoop ∅ [] (Attributes m)); [done|]. by simplify_eq.
Qed.

Lemma opusPayloadIn_spec m l pt :
  opusPayloadIn m l = inr pt -> exists a, a ∈ l /\ opusAttr m a = Some pt.
Proof.
  induction l as [|a l IH]; simpl; [done|]. destruct (opusAttr m a) eqn:E.
  - intros; simplify_eq. exists a. split; [left|done].
  - intros (a' & ? & ?)%IH. exists a'. split; [by right|done].
Qed.

Lemma parseFingerprint_ok m s f1 :
  parseFingerprint m s = inr f1 ->
  exists d, hex_DecodeString (ReplaceByte f1 (chr 58) "") = Some d /\ length d = 32%nat.
Proof.
  unfold parseFingerprint. destruct (attrOr m s "fingerprint") as [fp|]; [|done].
  destruct (Fields fp) as [|f0 [|f []]]; try done. destruct (negb _); [done|].
  destruct (hex_DecodeString _) as [d|] eqn:E; [|done].
  destruct (Nat.eqb_spec (length d) 32); [|done]. intros; simplify_eq. eauto.
Qed.

Lemma required_ok v msg x : required v msg = inr x -> x <> "".
Proof.
  unfold required. destruct v as [y|]; [|done].
  destruct (String.eqb_spec y ""); intros; by simplify_eq.
Qed.

Lemma parseMedia_ok m pt cands :
  parseMedia m = inr (pt, cands) -> opusPayload m = inr pt /\ remoteCandidates m = inr cands.
Proof.
  unfold parseMedia. destruct (opusPayload m); [done|].
  destruct (remoteCandidates m); [done|]. intros; by simplify_eq.
Qed.

Lemma answerRole_ok s l c :
  answerRole s = Some (l, c) ->
  (l = "passive" /\ c = false /\ (s = "active" \/ s = "actpass")) \/
  (l = "active" /\ c = true /\ s = "passive").
Proof.
  unfold answerRole. destruct (String.eqb_spec s "actpass"), (String.eqb_spec s "active");
    simpl; intros; simplify_eq; auto.
  destruct (String.eqb_spec s "passive"); simplify_eq; auto.
Qed.

(** Every failure other than that of the random source is an [ErrInvalidSDP]. *)
Definition sdp_error {A} (r : result A) : Prop :=
  match r with inl e => errors_Is e ErrInvalidSDP = true | inr _ => True end.

Lemma parseFingerprint_error m s : sdp_error (parseFingerprint m s).
Proof.
  unfold parseFingerprint. destruct (attrOr m s "fingerprint"); [|done].
  destruct (Fields _) as [|? [|? []]]; try done. destruct (negb _); [done|].
  destruct (hex_DecodeString _); [|done]. by destruct (_ =? _)%nat.
Qed.
Lemma parseSetup_error m s : sdp_error (parseSetup m s).
Proof. unfold parseSetup. destruct (attrOr m s "setup"); [|done]. by destruct (attr m "rtcp-mux"). Qed.
Lemma required_error v msg : sdp_error (required v msg).
Proof. unfold required. destruct v; [|done]. by destruct (String.eqb _ _). Qed.
Lemma parseMedia_error m : sdp_error (parseMedia m).
Proof.
  unfold parseMedia, opusPayload.
  assert (H : sdp_error (opusPayloadIn m (Attributes m))).
  { induction (Attributes m) as [|a l IH]; simpl; [done|]. by destruct (opusAttr m a). }
  destruct (opusPayloadIn _ _); [exact H|]. by destruct (remoteCandidates m).
Qed.

Lemma buildAnswer_ignores_answer now n a cert :
  buildAnswer now (set_answer n a) cert = buildAnswer now n cert.
Proof. reflexivity. Qed.

Lemma credential_text k r x :
  credential k r = inr x ->
  exists l, hex_DecodeString x = Some l /\ length l = k /\ length (bytes x) = (2 * k)%nat.
Proof.
  unfold credential. destruct r as [|b]; [done|]. intros; simplify_eq.
  eexists. split; [apply hex_encode_decode|].
  { apply Forall_fmap, Forall_forall. intros; apply u8_range. }
  rewrite length_map, length_seq. split; [done|].
  unfold hex_EncodeToString. rewrite bytes_of_bytes, map_map.
  rewrite <- (length_seq k 0) at 2. generalize (seq 0 k). intros l.
  induction l; simpl in *; lia.
Qed.

Lemma credential_nonempty k r x : (0 < k)%nat -> credential k r = inr x -> x <> "".
Proof. intros Hk (l & _ & _ & Hl)%credential_text ->. simpl in Hl. lia. Qed.

(** The step of [remote_ok] shared by the two directions. *)
Lemma remote_ok_intro m s f1 ufrag pwd pt cands n :
  parseFingerprint m s = inr f1 -> ufrag <> "" -> pwd <> "" -> parseMedia m = inr (pt, cands) ->
  RemoteFingerprint n = ToUpper uniUpper f1 -> RemoteUfrag n = ufrag -> RemotePwd n = pwd ->
  RemoteCandidates n = cands -> PayloadType n = pt ->
  answerRole (RemoteSetup n) = Some (LocalSetup n, IsClient n) -> remote_ok n.
Proof.
  intros (d & Hd & Hlen)%parseFingerprint_ok Hu Hp [Ho Hc]%parseMedia_ok Ef Eu Ep Ec Et Hr.
  apply (ToUpper_hex uniUpper) in Hd as [_ Hd].
  split; rewrite ?Ef, ?Eu, ?Ep, ?Ec, ?Et; eauto using opusPayload_ok, remoteCandidates_ok.
  by apply answerRole_ok in Hr.
Qed.

(** ** Properties *)

(** C16. A successful [ParseOfferAndAnswer] yields a negotiation a transport can be
    started from: a 32-byte fingerprint, non-empty remote ICE credentials, at least
    one candidate, all of them distinct IPv4 endpoints with a valid port, a DTLS role
    complementary to the offered one, a payload type that the offer's compatible
    audio section maps to Opus and lists; the local credentials have the lengths of
    8 and 24 random bytes in hexadecimal, and the answer is the one built from this
    very negotiation. *)
Theorem ParseOfferAndAnswer_sound now r1 r2 raw cert publicIP port n :
  ParseOfferAndAnswer now r1 r2 raw cert publicIP port = inr n ->
  remote_ok n /\
  (exists session m a, Unmarshal raw = inr session /\ m ∈ MediaDescriptions session /\
     compatible m = true /\ a ∈ Attributes m /\ opusAttr m a = Some (PayloadType n)) /\
  length (bytes (LocalUfrag n)) = 16%nat /\ length (bytes (LocalPwd n)) = 48%nat /\
  Cert n = Some cert /\ Local n = AddrPortFrom publicIP (u16 port) /\
  Answer n = buildAnswer now n cert.
Proof.
  unfold ParseOfferAndAnswer. intros H.
  destruct (Unmarshal raw) as [|offer] eqn:Eraw; [done|].
  destruct (List.find compatible (MediaDescriptions offer)) as [m|] eqn:Em; [|done].
  destruct (parseFingerprint m offer) as [|f1] eqn:Ef; [done|].
  destruct (parseSetup m offer) as [|setup]; [done|].
  destruct (required (attrOr m offer "ice-ufrag") _) as [|ufrag] eqn:Eu; [done|].
  destruct (required (attrOr m offer "ice-pwd") _) as [|pwd] eqn:Ep; [done|].
  destruct (parseMedia m) as [|[pt cands]] eqn:Epm; [done|].
  destruct (credential 8 r1) as [|lu] eqn:E1; [done|].
  destruct (credential 24 r2) as [|lp] eqn:E2; [done|].
  destruct (answerRole (ToLower uniLower setup)) as [[ls cl]|] eqn:Er; [|done].
  injection H as <-.
  apply List.find_some in Em as [Hin Hcomp]. apply list_elem_of_In in Hin.
  destruct (parseMedia_ok _ _ _ Epm) as [(a & Ha & Hopus)%opusPayloadIn_spec _].
  conjs; [|exists offer, m, a; by repeat split| | |done..].
  - apply (remote_ok_intro m offer f1 ufrag pwd pt cands); simpl; try done; by eapply required_ok.
  - by apply credential_text in E1 as (_ & _ & _ & ?).
  - by apply credential_text in E2 as (_ & _ & _ & ?).
Qed.

(** When the random source works, every rejection of an offer is an
    [ErrInvalidSDP], whichever check failed, so callers can tell a bad offer from an
    internal failure; the same holds of every rejection by [ApplyAnswer]. *)
Theorem rejections_are_ErrInvalidSDP now b1 b2 raw cert publicIP port n :
  sdp_error (ParseOfferAndAnswer now (inr b1) (inr b2) raw cert publicIP port) /\
  match ApplyAnswer raw n with
  | (_, Some e) => errors_Is e ErrInvalidSDP = true
  | (_, None) => True
  end.
Proof.
  split.
  - unfold ParseOfferAndAnswer. destruct (Unmarshal raw) as [|offer]; [done|].
    destruct (List.find compatible _) as [m|]; [|done].
    pose proof (parseFingerprint_error m offer). destruct (parseFingerprint m offer); [done|].
    pose proof (parseSetup_error m offer). destruct (parseSetup m offer); [done|].
    pose proof (required_error (attrOr m offer "ice-ufrag") "ICE ufrag missing").
    destruct (required _ _); [done|].
    pose proof (required_error (attrOr m offer "ice-pwd") "ICE password missing").
    destruct (required _ _); [done|].
    pose proof (parseMedia_error m). destruct (parseMedia m) as [|[]]; [done|].
    unfold credential. by destruct (answerRole _) as [[]|].
  - unfold ApplyAnswer. destruct (_ || _); [done|].
    assert (H : sdp_error (readAnswer raw)).
    { unfold readAnswer, compatibleAudio. destruct (Unmarshal raw) as [|s]; [done|].
      destruct (List.find compatible _) as [m|]; [|done].
      pose proof (parseFingerprint_error m s). destruct (parseFingerprint m s); [done|].
      pose proof (parseSetup_error m s). destruct (parseSetup m s); [done|].
      destruct (attrOr m s "ice-ufrag"), (attrOr m s "ice-pwd"); try done. destruct (_ || _); [done|].
      pose proof (parseMedia_error m). by destruct (parseMedia m) as [|[]]. }
    destruct (readAnswer raw); [exact H|].
    destruct (String.eqb _ "active"); [done|]. by destruct (String.eqb _ "passive").
Qed.

Lemma readAnswer_ok raw r :
  readAnswer raw = inr r ->
  exists m s, parseFingerprint m s = inr (rh_fingerprint r) /\ rh_ufrag r <> "" /\ rh_pwd r <> "" /\
    parseMedia m = inr (rh_pt r, rh_cands r).
Proof.
  unfold readAnswer. destruct (compatibleAudio raw) as [|[m s]]; [done|].
  destruct (parseFingerprint m s) eqn:Ef; [done|]. destruct (parseSetup m s); [done|].
  destruct (attrOr m s "ice-ufrag") as [u|], (attrOr m s "ice-pwd") as [p|]; try done.
  destruct (String.eqb_spec u ""), (String.eqb_spec p ""); simpl; try done.
  destruct (parseMedia m) as [|[pt c]] eqn:Ep; [done|]. intros; simplify_eq. exists m, s. done.
Qed.

(** C17. Completing an offer made by [NewOffer]: [ApplyAnswer] succeeds exactly on the
    answers that parse and name a definite role, then the remote half is usable and
    the DTLS roles are complementary; in every case, success or failure, the
    certificate, the ICE credentials, the address and the text that were offered
    to Meta are left as they were. *)
Theorem ApplyAnswer_completes_offer now r1 r2 cert publicIP port n raw :
  NewOffer now r1 r2 cert publicIP port = inr n ->
  let '(n', err) := ApplyAnswer raw n in
  (err = None <-> exists r, readAnswer raw = inr r /\
      (ToLower uniLower (rh_setup r) = "active" \/ ToLower uniLower (rh_setup r) = "passive")) /\
  (err = None -> remote_ok n' /\ RemoteSetup n' <> "actpass") /\
  Cert n' = cert /\ LocalUfrag n' = LocalUfrag n /\ LocalPwd n' = LocalPwd n /\
  Local n' = AddrPortFrom publicIP (u16 port) /\ Answer n' = Answer n.
Proof.
  intros H. unfold NewOffer in H. destruct cert as [c|]; [|done].
  destruct (_ || _); [done|]. destruct (credential 8 r1) as [|lu] eqn:E1; [done|].
  destruct (credential 24 r2) as [|lp] eqn:E2; [done|]. injection H as <-.
  apply credential_nonempty in E1; [|lia]. apply credential_nonempty in E2; [|lia].
  unfold ApplyAnswer. simpl.
  destruct (String.eqb_spec lu ""); [done|]. destruct (String.eqb_spec lp ""); [done|]. simpl.
  destruct (readAnswer raw) as [e|r] eqn:Er; simpl.
  { conjs; try done. split; [done|]. intros (r & ? & _). done. }
  destruct (readAnswer_ok _ _ Er) as (m & s & Hf & Hu & Hp & Hm).
  destruct (String.eqb_spec (ToLower uniLower (rh_setup r)) "active") as [Ea|Ea];
    [|destruct (String.eqb_spec (ToLower uniLower (rh_setup r)) "passive") as [Eb|Eb]]; simpl.
  - conjs; try done; [by split; eauto|]. intros _. split; [|simpl; congruence].
    apply (remote_ok_intro m s (rh_fingerprint r) (rh_ufrag r) (rh_pwd r) (rh_pt r) (rh_cands r));
      try done. cbn [set_role RemoteSetup LocalSetup IsClient]. by rewrite Ea.
  - conjs; try done; [by split; eauto|]. intros _. split; [|simpl; congruence].
    apply (remote_ok_intro m s (rh_fingerprint r) (rh_ufrag r) (rh_pwd r) (rh_pt r) (rh_cands r));
      try done. cbn [set_role RemoteSetup LocalSetup IsClient]. by rewrite Eb.
  - conjs; try done. split; [done|]. intros (r' & ? & []); simplify_eq.
Qed.
End Negotiate.

(** * The certificate and its check *)

Section Pinning.
(** SHA-256, as far as the program relies on it: a digest is 32 bytes. *)
Context (sha256 : list Z -> list Z).
Hypothesis sha256_bytes : forall c, length (sha256 c) = 32%nat /\ Forall is_u8 (sha256 c).
Context (uniUpper : string -> string).

(** [NewCertificate]: [key] and [serial] are the errors of the first two calls,
    [created] the DER bytes of the certificate or the error of the third. *)
Definition NewCertificate (key serial : option error) (created : result (list Z))
  : result Certificate :=
  match key with
  | Some e => inl e
  | None =>
      match serial with
      | Some e => inl e
      | None =>
          match created with
          | inl e => inl e
          | inr raw => inr (mkCertificate raw (fingerprintText (sha256 raw)))
          end
      end
  end.

(** The [VerifyPeerCertificate] callback of [run] ([None] is nil). [EqualFold] is
    symmetric; its ASCII argument, the computed text, comes second. *)
Definition verify (n : Negotiation) (rawCerts : list (list Z)) : option error :=
  match rawCerts with
  | [] => Some (NewError "DTLS peer sent no certificate")
  | c :: _ =>
      if negb (EqualFold (RemoteFingerprint n) (fingerprintText (sha256 c)))
      then Some (NewError "DTLS peer fingerprint mismatch")
      else None
  end.

Lemma EqualFold_fingerprint s c :
  EqualFold s (fingerprintText (sha256 c)) = true <->
  map lower (bytes s) = map lower (bytes (fingerprintText (sha256 c))).
Proof. apply foldEq_plain, fingerprint_plain, sha256_bytes. Qed.

Lemma fold_decode s t :
  map lower (bytes s) = map lower (bytes t) -> hexDecode (strip (bytes s)) = hexDecode (strip (bytes t)).
Proof.
  intros E. rewrite <- (hexDecode_map lower (strip (bytes s))) by apply fromHexChar_lower.
  rewrite <- (hexDecode_map lower (strip (bytes t))) by apply fromHexChar_lower.
  rewrite <- !strip_map by apply colon_lower. by rewrite E.
Qed.

(** C4. The DTLS peer is pinned by the fingerprint of the SDP, although the
    connection is configured without chain verification: a peer is accepted only if
    it sent a certificate whose SHA-256 digest is the 32 bytes announced, and the
    certificate that was announced, in either letter case, is accepted. *)
Theorem verify_pins_certificate m s f1 n certs :
  parseFingerprint m s = inr f1 -> RemoteFingerprint n = ToUpper uniUpper f1 ->
  (verify n certs = None -> exists c rest, certs = c :: rest /\
     hex_DecodeString (ReplaceByte f1 (chr 58) "") = Some (sha256 c)) /\
  (forall key serial created peer rest,
     NewCertificate key serial created = inr peer ->
     mapBytes lower f1 = mapBytes lower (Fingerprint peer) ->
     verify n (cert_raw peer :: rest) = None).
Proof.
  intros (d & Hd & _)%parseFingerprint_ok Hn.
  destruct (ToUpper_hex uniUpper _ _ Hd) as [Eu Hd']. rewrite Eu in Hn.
  assert (El : map lower (bytes (RemoteFingerprint n)) = map lower (bytes f1)).
  { rewrite Hn. unfold mapBytes. rewrite bytes_of_bytes, map_map. apply map_ext, lower_upper. }
  split.
  - destruct certs as [|c rest]; [done|]. simpl.
    destruct (EqualFold _ _) eqn:E; [|done]. intros _. exists c, rest. split; [done|].
    apply EqualFold_fingerprint in E. unfold hex_DecodeString. rewrite bytes_strip.
    rewrite (fold_decode f1 (fingerprintText (sha256 c))) by congruence.
    apply fingerprint_decode, sha256_bytes.
  - intros [] [] [|raw] peer rest; simpl; intros Hp Hf; try done. injection Hp as <-. simpl in *.
    assert (E : EqualFold (RemoteFingerprint n) (fingerprintText (sha256 raw)) = true).
    { apply EqualFold_fingerprint. rewrite El. unfold mapBytes in Hf.
      apply (f_equal bytes) in Hf. by rewrite !bytes_of_bytes in Hf. }
    by rewrite E.
Qed.
End Pinning.

(** * Concrete instances *)

(** The offer of the test-suite, as pion parses it. *)
Definition testFingerprint : string := fingerprintText (replicate 32 170).
Definition testMedia (setup : string) : MediaDescription :=
  mkMedia "audio" ["UDP"; "TLS"; "RTP"; "SAVPF"] ["111"]
    [ mkAttribute "mid" "0"; mkAttribute "setup" setup; mkAttribute "rtcp-mux" "";
      mkAttribute "ice-ufrag" "remote-user"; mkAttribute "ice-pwd" "remote-password-value";
      mkAttribute "candidate" "dead"; mkAttribute "candidate" "live"; mkAttribute "candidate" "rtcp";
      mkAttribute "candidate" "v6"; mkAttribute "rtpmap" "111 opus/48000/2" ].
Definition testSession (setup : string) : SessionDescription :=
  mkSession [mkAttribute "fingerprint" ("sha-256 " +:+ testFingerprint)] [testMedia setup].
Definition testUnmarshal (raw : string) : result SessionDescription := inr (testSession raw).
Definition testCandidates (s : string) : option candidate :=
  if String.eqb s "dead" then Some (mkCandidate 1 UDP4 "192.0.2.1" 9 "dead" 2130706431 1 s)
  else if String.eqb s "live" then Some (mkCandidate 1 UDP4 "198.51.100.10" 3480 "live" 1694498815 2 s)
  else if String.eqb s "rtcp" then Some (mkCandidate 2 UDP4 "198.51.100.10" 3481 "rtcp" 2130706430 1 s)
  else if String.eqb s "v6" then Some (mkCandidate 1 UDP6 "2001:db8::1" 3480 "v6" 2130706431 1 s)
  else None.
Definition testIP : Addr := V4 (mkAddr4 203 0 113 20).
Definition testCert : Certificate := mkCertificate [] "00".

Definition testParse (setup : string) : result Negotiation :=
  ParseOfferAndAnswer testUnmarshal testCandidates id id 1 (inr (fun _ => 7)) (inr Z.of_nat)
    setup testCert testIP 40001.

(** The assertions of TestParseOfferAndAnswer. *)
Example test_offer :
  match testParse "actpass" with
  | inr n => length (RemoteCandidates n) = 2%nat /\ PayloadType n = 111 /\ LocalSetup n = "passive"
  | inl _ => False
  end.
Proof. vm_compute. auto. Qed.

Lemma ParseOfferAndAnswer_sound_witness :
  exists n, testParse "passive" = inr n /\ remote_ok n.
Proof.
  eexists. split; [vm_compute; reflexivity|].
  eapply (ParseOfferAndAnswer_sound testUnmarshal testCandidates id id 1 (inr (fun _ => 7))
            (inr Z.of_nat) "passive" testCert testIP 40001).
  vm_compute. reflexivity.
Defined.

Definition testNewOffer : result Negotiation :=
  NewOffer 1 (inr (fun _ => 7)) (inr Z.of_nat) (Some testCert) testIP 40002.
Definition testOffered : Negotiation :=
  match testNewOffer with
  | inr n => n
  | inl _ => mkNegotiation "" "" "" false None "" "" "" "" [] (AddrPortFrom testIP 0) 0 ""
  end.

Lemma ApplyAnswer_completes_offer_witness :
  testNewOffer = inr testOffered /\
  Cert (fst (ApplyAnswer testUnmarshal testCandidates id id "active" testOffered)) = Some testCert.
Proof.
  split; [vm_compute; reflexivity|].
  pose proof (ApplyAnswer_completes_offer testUnmarshal testCandidates id id 1 (inr (fun _ => 7))
    (inr Z.of_nat) (Some testCert) testIP 40002 testOffered "active" ltac:(vm_compute; reflexivity)) as H.
  destruct (ApplyAnswer testUnmarshal testCandidates id id "active" testOffered) as [n' err].
  apply H.
Defined.

Lemma verify_pins_certificate_witness :
  let sha := fun _ : list Z => replicate 32 170 in
  let n := match testParse "actpass" with inr n => n | inl _ => testOffered end in
  parseFingerprint (testMedia "actpass") (testSession "actpass") = inr testFingerprint /\
  verify sha n [[1; 2; 3]] = None.
Proof.
  split; [vm_compute; reflexivity|].
  apply (verify_pins_certificate (fun _ => replicate 32 170)) with
    (uniUpper := id) (m := testMedia "actpass") (s := testSession "actpass") (f1 := testFingerprint)
    (certs := []) (key := None) (serial := None) (created := inr [1; 2; 3])
    (peer := mkCertificate [1; 2; 3] testFingerprint); try (vm_compute; reflexivity).
  intros _. split; [reflexivity|]. repeat (constructor; [unfold is_u8; lia|]). constructor.
Defined.
