(* ===== verification/SdpRoundtrip.v ===== *)
(** Round trip of the negotiation: what [buildOffer] and [buildAnswer] print is read
    back by [ParseOfferAndAnswer] and [ApplyAnswer] (internal/media/sdp.go). The
    parsers of pion/sdp and pion/ice are parameters; the hypotheses say that they
    read the subset of RFC 8866 and RFC 8839 in which the program writes. *)
From S2P Require Import Prelude Errors GoStrings GoWords Sdp.
From Stdlib Require Import Ascii.

Local Open Scope Z_scope.
Local Open Scope go_scope.

(** * The SDP subset *)

(** An attribute line: a=key or a=key:value. *)
Inductive line := Flag (key : string) | Pair (key value : string).

Definition attribute (l : line) : Attribute :=
  match l with Flag k => mkAttribute k "" | Pair k v => mkAttribute k v end.
Definition lineText (l : line) : string :=
  match l with Flag k => "a=" +:+ k | Pair k v => "a=" +:+ k +:+ ":" +:+ v end.

(** Values are printable ASCII; keys have moreover no space and no colon. *)
Definition printable (s : string) : Prop := Forall (fun c => between 32 c 126 = true) (bytes s).
Definition keyText (s : string) : Prop :=
  word s /\ Forall (fun c => Ascii.eqb c (chr 58) = false) (bytes s).
Definition line_ok (l : line) : Prop :=
  match l with Flag k => keyText k | Pair k v => keyText k /\ printable v end.

#[export] Instance printable_dec s : Decision (printable s).
Proof. unfold printable. apply _. Defined.
#[export] Instance keyText_dec s : Decision (keyText s).
Proof. unfold keyText. apply _. Defined.

(** Closed texts are checked by computation. *)
Ltac decide_text := apply (bool_decide_unpack _); vm_compute; exact I.

(** A session description with one audio section over DTLS-SRTP. *)
Definition document (sid : Z) (ip : Addr4) (port pt : Z) (session media : list line) : string :=
  sdpLines (
    [ "v=0";
      "o=- " +:+ Itoa sid +:+ " 2 IN IP4 " +:+ Addr4_String ip;
      "s=-";
      "t=0 0" ] ++ map lineText session ++
    [ "m=audio " +:+ Itoa port +:+ " UDP/TLS/RTP/SAVPF " +:+ Itoa pt;
      "c=IN IP4 " +:+ Addr4_String ip ] ++ map lineText media).

(** What it means. *)
Definition audioMedia (pt : Z) (media : list line) : MediaDescription :=
  mkMedia "audio" ["UDP"; "TLS"; "RTP"; "SAVPF"] [Itoa pt] (map attribute media).
Definition meaning (pt : Z) (session media : list line) : SessionDescription :=
  mkSession (map attribute session) [audioMedia pt media].

(** The value of a host candidate's attribute (RFC 8839). *)
Definition hostCandidate (ip : Addr4) (port : Z) : string :=
  "1 1 udp 2130706431 " +:+ Addr4_String ip +:+ " " +:+ Itoa port +:+ " typ host".

(** * What the program prints *)

Definition ownSession : list line := [Pair "group" "BUNDLE 0"; Pair "msid-semantic" " WMS"].
Definition ownMedia (ip : Addr4) (port pt : Z) (ufrag pwd fp setup : string) : list line :=
  [ Pair "mid" "0"; Flag "sendrecv"; Flag "rtcp-mux";
    Pair "rtpmap" (Itoa pt +:+ " opus/48000/2");
    Pair "fmtp" (Itoa pt +:+ " minptime=10;useinbandfec=1");
    Pair "ice-ufrag" ufrag; Pair "ice-pwd" pwd;
    Pair "candidate" (hostCandidate ip port);
    Flag "end-of-candidates";
    Pair "fingerprint" ("sha-256 " +:+ fp);
    Pair "setup" setup ].

(** The one candidate among the attributes. *)
Lemma ownMedia_split ip port pt ufrag pwd fp setup :
  ownMedia ip port pt ufrag pwd fp setup =
  take 7 (ownMedia ip port pt ufrag pwd fp setup) ++ [Pair "candidate" (hostCandidate ip port)] ++
  drop 8 (ownMedia ip port pt ufrag pwd fp setup).
Proof. reflexivity. Qed.

Lemma buildAnswer_document now n c ip :
  ap_Addr (Local n) = V4 ip ->
  buildAnswer now n c =
  document (u64 now) ip (ap_Port (Local n)) (PayloadType n) ownSession
    (ownMedia ip (ap_Port (Local n)) (PayloadType n) (LocalUfrag n) (LocalPwd n) (Fingerprint c)
       (LocalSetup n)).
Proof. intros E. unfold buildAnswer. rewrite E. reflexivity. Qed.

Lemma buildOffer_document now n c ip :
  ap_Addr (Local n) = V4 ip ->
  buildOffer now n c =
  document (u64 now) ip (ap_Port (Local n)) 111 ownSession
    (ownMedia ip (ap_Port (Local n)) 111 (LocalUfrag n) (LocalPwd n) (Fingerprint c) "actpass").
Proof. intros E. unfold buildOffer. rewrite E. reflexivity. Qed.

Lemma visible_printable s : Forall (fun c => visible c = true) (bytes s) -> printable s.
Proof.
  intros H. eapply Forall_impl; [exact H|]. intros c. unfold visible, between.
  intros [?%Z.leb_le ?%Z.leb_le]%andb_true_iff. apply andb_true_iff. split; apply Z.leb_le; lia.
Qed.
Lemma word_printable s : word s -> printable s.
Proof. intros [_ ?]. by apply visible_printable. Qed.
Lemma printable_app s t : printable s -> printable t -> printable (s +:+ t).
Proof. unfold printable. rewrite bytes_app, Forall_app. auto. Qed.

Lemma hex_digit_visible d : 0 <= d < Z.of_nat 16 ->
  visible (hexLower d) = true /\ visible (hexUpper d) = true.
Proof. revert d. refine (forall_below _ 16 _). repeat constructor. Qed.

Lemma credential_printable k r x : credential k r = inr x -> printable x.
Proof.
  unfold credential. destruct r as [|b]; [done|]. intros; simplify_eq. apply visible_printable.
  unfold hex_EncodeToString. rewrite bytes_of_bytes. generalize (seq 0 k). intros l.
  induction l as [|i l IH]; simpl; [done|]. pose proof (u8_range (b i)) as Hb. unfold is_u8 in Hb.
  repeat (apply Forall_cons; split); [| |done]; apply hex_digit_visible; Z.div_mod_to_equations; lia.
Qed.

Lemma fingerprint_word d : Forall is_u8 d -> d <> [] -> word (fingerprintText d).
Proof.
  intros Hd Hne. split.
  { destruct d as [|b d]; [done|]. intros E%(f_equal bytes). by rewrite bytes_fingerprint_cons in E. }
  clear Hne. induction Hd as [|b d Hb _ IH]; [done|]. rewrite bytes_fingerprint_cons.
  unfold is_u8 in Hb.
  repeat (apply Forall_cons; split); [apply hex_digit_visible; Z.div_mod_to_equations; lia..|].
  destruct d; [done|]. by constructor.
Qed.

Lemma upper_hexUpper d : 0 <= d < Z.of_nat 16 -> upper (hexUpper d) = hexUpper d.
Proof. revert d. refine (forall_below _ 16 _). repeat constructor. Qed.

(** The stored fingerprint is the announced text itself: it is upper case already. *)
Lemma ToUpper_fingerprint uni d :
  Forall is_u8 d -> ToUpper uni (fingerprintText d) = fingerprintText d.
Proof.
  intros Hd. destruct (ToUpper_hex uni (fingerprintText d) d) as [-> _].
  { unfold hex_DecodeString. rewrite bytes_strip. by apply fingerprint_decode. }
  apply bytes_inj. unfold mapBytes. rewrite bytes_of_bytes.
  induction Hd as [|b d Hb _ IH]; [done|]. rewrite bytes_fingerprint_cons, map_app.
  unfold is_u8 in Hb. f_equal.
  - simpl. rewrite !upper_hexUpper by (Z.div_mod_to_equations; lia). done.
  - destruct d; [done|]. simpl. f_equal. exact IH.
Qed.

Lemma hostCandidate_printable ip port : addr4_ok ip -> 0 <= port -> printable (hostCandidate ip port).
Proof.
  intros Ha Hp. unfold hostCandidate.
  pose proof (word_printable _ (Addr4_String_word ip Ha)) as H1.
  pose proof (word_printable _ (Itoa_word port Hp)) as H2.
  generalize dependent (Addr4_String ip). generalize dependent (Itoa port). intros.
  repeat apply printable_app; try done; decide_text.
Qed.

Lemma ownSession_ok : Forall line_ok ownSession.
Proof. repeat constructor; decide_text. Qed.

Lemma ownMedia_ok ip port pt ufrag pwd fp setup :
  addr4_ok ip -> 0 <= port -> 0 <= pt -> printable ufrag -> printable pwd -> printable fp ->
  printable setup -> Forall line_ok (ownMedia ip port pt ufrag pwd fp setup).
Proof.
  intros Hip Hport Hpt Hu Hp Hf Hs. unfold ownMedia.
  pose proof (word_printable _ (Itoa_word pt Hpt)) as Hi.
  pose proof (hostCandidate_printable ip port Hip Hport) as Hc.
  generalize dependent (Itoa pt). generalize dependent (hostCandidate ip port). intros.
  repeat apply Forall_cons_2; [..|apply Forall_nil_2]; cbn [line_ok];
    first [split; [decide_text|] | decide_text]; try assumption;
    try (apply printable_app; try assumption); decide_text.
Qed.

(** * Reading it back *)

Section Roundtrip.
Context (Unmarshal : string -> result SessionDescription)
        (UnmarshalCandidate : string -> option candidate)
        (uniLower uniUpper : string -> string)
        (sha256 : list Z -> list Z).

(** pion/sdp reads documents of the subset. *)
Hypothesis Unmarshal_document : forall sid ip port pt session media,
  is_u64 sid -> addr4_ok ip -> 1 <= port <= 65535 -> 0 <= pt <= 127 ->
  Forall line_ok session -> Forall line_ok media ->
  Unmarshal (document sid ip port pt session media) = inr (meaning pt session media).

(** pion/ice reads host candidates. *)
Hypothesis UnmarshalCandidate_host : forall ip port,
  addr4_ok ip -> 1 <= port <= 65535 ->
  exists c, UnmarshalCandidate (hostCandidate ip port) = Some c /\
    c_Component c = ComponentRTP /\ c_NetworkType c = UDP4 /\
    c_Address c = Addr4_String ip /\ c_Port c = port.

Hypothesis sha256_bytes : forall c, length (sha256 c) = 32%nat /\ Forall is_u8 (sha256 c).

Lemma candidatesLoop_skip l : forall seen out k,
  forallb (fun a => negb (String.eqb (Key a) "candidate")) l = true ->
  candidatesLoop UnmarshalCandidate seen out (l ++ k) =
  candidatesLoop UnmarshalCandidate seen out k.
Proof.
  induction l as [|a l IH]; intros seen out k; simpl; [done|].
  intros [Ha Hl]%andb_true_iff. unfold candidateOf at 1. rewrite Ha. by apply IH.
Qed.

Section Own.
Context (ip : Addr4) (port pt : Z) (ufrag pwd setup : string) (d : list Z).
Hypothesis Hip : addr4_ok ip.
Hypothesis Hport : 1 <= port <= 65535.
Hypothesis Hpt : 0 <= pt <= 127.
Hypothesis Hd : length d = 32%nat /\ Forall is_u8 d.

Let m : MediaDescription := audioMedia pt (ownMedia ip port pt ufrag pwd (fingerprintText d) setup).

Lemma own_fingerprint s : parseFingerprint m s = inr (fingerprintText d).
Proof.
  destruct Hd as [Hlen H8].
  change (parseFingerprint m s) with
    (match Fields ("sha-256 " +:+ fingerprintText d) with
     | [f0; f1] =>
         if negb (EqualFold f0 "sha-256") then inl (invalid "SHA-256 fingerprint required")
         else match hex_DecodeString (ReplaceByte f1 (chr 58) "") with
         | Some decoded =>
             if (length decoded =? 32)%nat then inr f1 else inl (invalid "malformed fingerprint")
         | None => inl (invalid "malformed fingerprint")
         end
     | _ => inl (invalid "SHA-256 fingerprint required")
     end : result string).
  change ("sha-256 " +:+ fingerprintText d) with ("sha-256" +:+ " " +:+ fingerprintText d).
  rewrite Fields_cons by decide_text.
  rewrite Fields_word by (apply fingerprint_word; [done|by intros ->]).
  unfold hex_DecodeString. rewrite bytes_strip, fingerprint_decode by done.
  by rewrite Hlen.
Qed.

Lemma own_opus : opusPayload m = inr pt.
Proof.
  unfold opusPayload, m, audioMedia, ownMedia.
  cbn [map attribute opusPayloadIn Attributes opusAttr Key Value String.eqb Ascii.eqb negb Bool.eqb].
  unfold opusAttr.
  cbn [Key Value String.eqb Ascii.eqb negb Bool.eqb].
  change (Itoa pt +:+ " opus/48000/2") with (Itoa pt +:+ " " +:+ "opus/48000/2").
  rewrite Fields_cons by (apply Itoa_word; lia). rewrite Fields_word by decide_text.
  change (EqualFold "opus/48000/2" "opus/48000/2") with true. cbn [negb].
  rewrite Atoi_Itoa by (unfold maxInt64; lia).
  unfold offeredFormat. cbn [MediaName_Formats offeredFormatIn]. rewrite String.eqb_refl.
  destruct (Z.leb_spec 0 pt), (Z.leb_spec pt 127); try lia. simpl. f_equal. words.
Qed.

Lemma own_candidates :
  exists c, remoteCandidates UnmarshalCandidate m = inr [c] /\
    Address c = AddrPortFrom (V4 ip) port.
Proof.
  destruct (UnmarshalCandidate_host ip port Hip Hport) as (k & Ek & E1 & E2 & E3 & E4).
  assert (Ec : candidateOf UnmarshalCandidate (mkAttribute "candidate" (hostCandidate ip port)) =
    Some (mkICECandidate (c_Marshal k) (AddrPortFrom (V4 ip) port)
            (c_Foundation k) (c_Priority k) (c_Type k))).
  { unfold candidateOf. cbn [Key Value]. rewrite Ek, E1, E2, E3, E4, ParseAddr4_String by done.
    destruct (Z.ltb_spec port 1), (Z.ltb_spec 65535 port); try lia.
    rewrite (u16_small port) by (unfold is_u16; lia). done. }
  exists (mkICECandidate (c_Marshal k) (AddrPortFrom (V4 ip) port)
            (c_Foundation k) (c_Priority k) (c_Type k)).
  split; [|reflexivity]. unfold remoteCandidates, m, audioMedia.
  cbn [Attributes]. rewrite ownMedia_split, !map_app. simpl map at 2.
  rewrite candidatesLoop_skip by done. cbn [app candidatesLoop]. rewrite Ec.
  rewrite bool_decide_eq_false_2 by (apply not_elem_of_empty).
  rewrite <- (app_nil_r (map attribute _)), candidatesLoop_skip by done. reflexivity.
Qed.

(** The media section the program prints is read as its local half. *)
Lemma own_read s :
  compatible m = true /\ parseFingerprint m s = inr (fingerprintText d) /\
  parseSetup m s = inr setup /\ attrOr m s "ice-ufrag" = Some ufrag /\
  attrOr m s "ice-pwd" = Some pwd /\
  exists c, parseMedia UnmarshalCandidate m = inr (pt, [c]) /\ Address c = AddrPortFrom (V4 ip) port.
Proof.
  conjs; try reflexivity; [apply own_fingerprint|].
  destruct own_candidates as (c & Ec & Ea). exists c. split; [|done].
  unfold parseMedia. by rewrite own_opus, Ec.
Qed.
End Own.

Lemma cert_fingerprint key serial created c :
  NewCertificate sha256 key serial created = inr c ->
  Fingerprint c = fingerprintText (sha256 (cert_raw c)).
Proof. destruct key, serial, created; simpl; intros; by simplify_eq. Qed.

Lemma cert_printable c :
  Fingerprint c = fingerprintText (sha256 (cert_raw c)) -> printable (Fingerprint c).
Proof.
  intros ->. destruct (sha256_bytes (cert_raw c)) as [Hlen H8].
  apply word_printable, fingerprint_word; [done|]. by intros E; rewrite E in Hlen.
Qed.

(** A document of the program, as its peer reads it. *)
Lemma Unmarshal_own sid ip port pt ufrag pwd c setup :
  addr4_ok ip -> 1 <= port <= 65535 -> 0 <= pt <= 127 -> printable ufrag -> printable pwd ->
  printable setup -> Fingerprint c = fingerprintText (sha256 (cert_raw c)) ->
  Unmarshal (document (u64 sid) ip port pt ownSession (ownMedia ip port pt ufrag pwd (Fingerprint c) setup))
  = inr (meaning pt ownSession (ownMedia ip port pt ufrag pwd (Fingerprint c) setup)).
Proof.
  intros Hip Hport Hpt Hu Hp Hs Hc. apply Unmarshal_document; auto using u64_range, ownSession_ok.
  apply ownMedia_ok; auto using cert_printable; lia.
Qed.

(** What [n] has learned of the peer [o], whose certificate is [c]. *)
Definition knows (n o : Negotiation) (c : Certificate) : Prop :=
  RemoteFingerprint n = Fingerprint c /\ RemoteUfrag n = LocalUfrag o /\
  RemotePwd n = LocalPwd o /\ map Address (RemoteCandidates n) = [Local o] /\
  PayloadType n = PayloadType o.

Lemma readAnswer_own now n c ip :
  ap_Addr (Local n) = V4 ip -> addr4_ok ip -> 1 <= ap_Port (Local n) <= 65535 ->
  0 <= PayloadType n <= 127 -> printable (LocalUfrag n) -> printable (LocalPwd n) ->
  LocalUfrag n <> "" -> LocalPwd n <> "" -> printable (LocalSetup n) ->
  Fingerprint c = fingerprintText (sha256 (cert_raw c)) ->
  exists k, readAnswer Unmarshal UnmarshalCandidate (buildAnswer now n c) =
    inr (mkRemote (Fingerprint c) (LocalSetup n) (LocalUfrag n) (LocalPwd n) [k] (PayloadType n)) /\
    Address k = Local n.
Proof.
  intros Ea Hip Hport Hpt Hu Hp Hun Hpn Hs Hc.
  rewrite (buildAnswer_document _ _ _ ip Ea). unfold readAnswer, compatibleAudio.
  rewrite Unmarshal_own by done. cbn [meaning MediaDescriptions List.find].
  rewrite Hc. destruct (own_read ip (ap_Port (Local n)) (PayloadType n) (LocalUfrag n) (LocalPwd n)
    (LocalSetup n) (sha256 (cert_raw c)) Hip Hport Hpt (sha256_bytes _)
    (meaning (PayloadType n) ownSession (ownMedia ip (ap_Port (Local n)) (PayloadType n)
      (LocalUfrag n) (LocalPwd n) (fingerprintText (sha256 (cert_raw c))) (LocalSetup n))))
    as (-> & -> & -> & -> & -> & k & -> & Hk).
  exists k. destruct (String.eqb_spec (LocalUfrag n) ""), (String.eqb_spec (LocalPwd n) ""); try done.
  split; [done|]. rewrite Hk. destruct (Local n); simpl in *; by subst.
Qed.

(** The local half of a negotiation is what both directions need to print. *)
Record local_ok (n : Negotiation) (ip : Addr4) : Prop := {
  lo_addr : ap_Addr (Local n) = V4 ip;
  lo_ip : addr4_ok ip;
  lo_port : 1 <= ap_Port (Local n) <= 65535;
  lo_ufrag : printable (LocalUfrag n) /\ LocalUfrag n <> "";
  lo_pwd : printable (LocalPwd n) /\ LocalPwd n <> ""
}.

Lemma readAnswer_local now n c ip :
  local_ok n ip -> 0 <= PayloadType n <= 127 -> printable (LocalSetup n) ->
  Fingerprint c = fingerprintText (sha256 (cert_raw c)) ->
  exists k, readAnswer Unmarshal UnmarshalCandidate (buildAnswer now n c) =
    inr (mkRemote (Fingerprint c) (LocalSetup n) (LocalUfrag n) (LocalPwd n) [k] (PayloadType n)) /\
    Address k = Local n.
Proof. intros [? ? ? [] []] ? ? ?. by apply (readAnswer_own now n c ip). Qed.

Lemma parse_local now r1 r2 raw cert ip port n :
  addr4_ok ip -> 1 <= port <= 65535 ->
  ParseOfferAndAnswer Unmarshal UnmarshalCandidate uniLower uniUpper now r1 r2 raw cert (V4 ip) port
    = inr n ->
  local_ok n ip /\ 0 <= PayloadType n <= 127 /\ Cert n = Some cert /\
  Answer n = buildAnswer now n cert /\ Local n = AddrPortFrom (V4 ip) port /\
  ((LocalSetup n = "passive" /\ IsClient n = false) \/ (LocalSetup n = "active" /\ IsClient n = true)).
Proof.
  intros Hip Hport H. unfold ParseOfferAndAnswer in H.
  destruct (Unmarshal raw) as [|offer]; [done|].
  destruct (List.find compatible (MediaDescriptions offer)) as [m|]; [|done].
  destruct (parseFingerprint m offer); [done|]. destruct (parseSetup m offer); [done|].
  destruct (required (attrOr m offer "ice-ufrag") _); [done|].
  destruct (required (attrOr m offer "ice-pwd") _); [done|].
  destruct (parseMedia UnmarshalCandidate m) as [|[pt cands]] eqn:Epm; [done|].
  destruct (credential 8 r1) as [|lu] eqn:E1; [done|].
  destruct (credential 24 r2) as [|lp] eqn:E2; [done|].
  destruct (answerRole _) as [[ls cl]|] eqn:Er; [|done]. injection H as <-. simpl.
  apply parseMedia_ok in Epm as [Ho%opusPayload_ok _].
  rewrite (u16_small port) by (unfold is_u16; lia).
  conjs; try done; try lia; [|apply answerRole_ok in Er; tauto].
  split; simpl; auto; try lia;
    (split; [eapply credential_printable; eassumption|]).
  - eapply credential_nonempty; [|exact E1]; lia.
  - eapply credential_nonempty; [|exact E2]; lia.
Qed.

(** C18. The answer says what the program means. Whatever offer Meta made, reading
    back the answer that [ParseOfferAndAnswer] prints gives the local half of the
    negotiation and nothing else: the fingerprint of the certificate that the DTLS
    handshake will present, the DTLS role the transport will play, its ICE
    credentials, the socket's address as the only candidate and the payload type it
    will send. *)
Theorem answer_announces_local_half now r1 r2 raw key serial created cert ip port n :
  NewCertificate sha256 key serial created = inr cert ->
  addr4_ok ip -> 1 <= port <= 65535 ->
  ParseOfferAndAnswer Unmarshal UnmarshalCandidate uniLower uniUpper now r1 r2 raw cert (V4 ip) port
    = inr n ->
  exists k, readAnswer Unmarshal UnmarshalCandidate (Answer n) =
    inr (mkRemote (Fingerprint cert) (if IsClient n then "active" else "passive")
           (LocalUfrag n) (LocalPwd n) [k] (PayloadType n)) /\
    Address k = AddrPortFrom (V4 ip) port.
Proof.
  intros Hc%cert_fingerprint Hip Hport H.
  apply parse_local in H as (Hl & Hpt & _ & -> & Eloc & Hrole); auto.
  destruct (readAnswer_local now n cert ip) as (k & Ek & Ea); auto.
  { destruct Hrole as [[-> _]|[-> _]]; decide_text. }
  exists k. rewrite Ek, Ea, Eloc. split; [|done]. by destruct Hrole as [[-> ->]|[-> ->]].
Qed.

Lemma NewOffer_local now r1 r2 c ip port o :
  addr4_ok ip -> NewOffer now r1 r2 (Some c) (V4 ip) port = inr o ->
  local_ok o ip /\ 1 <= port <= 65535 /\ Cert o = Some c /\ PayloadType o = 111 /\
  Answer o = buildOffer now o c /\ Local o = AddrPortFrom (V4 ip) port.
Proof.
  intros Hip H. unfold NewOffer in H. simpl in H.
  destruct (Z.ltb_spec port 1), (Z.ltb_spec 65535 port); try done. simpl in H.
  destruct (credential 8 r1) as [|lu] eqn:E1; [done|].
  destruct (credential 24 r2) as [|lp] eqn:E2; [done|]. injection H as <-. simpl.
  rewrite (u16_small port) by (unfold is_u16; lia). conjs; try done; try lia.
  split; simpl; auto; try lia; (split; [eapply credential_printable; eassumption|]).
  - eapply credential_nonempty; [|exact E1]; lia.
  - eapply credential_nonempty; [|exact E2]; lia.
Qed.

(** Parsing an offer of the program, up to the random bytes of the answerer. *)
Lemma parse_own_offer now0 now b1 b2 o c ip cert ip2 port2 :
  local_ok o ip -> Fingerprint c = fingerprintText (sha256 (cert_raw c)) ->
  exists n, ParseOfferAndAnswer Unmarshal UnmarshalCandidate uniLower uniUpper now (inr b1) (inr b2)
    (buildOffer now0 o c) cert (V4 ip2) port2 = inr n /\
    RemoteFingerprint n = Fingerprint c /\ RemoteUfrag n = LocalUfrag o /\
    RemotePwd n = LocalPwd o /\ map Address (RemoteCandidates n) = [Local o] /\
    PayloadType n = 111 /\ LocalSetup n = "passive" /\ IsClient n = false.
Proof.
  intros [Ea Hip Hport [Hu Hun] [Hp Hpn]] Hc.
  rewrite (buildOffer_document _ _ _ ip Ea). unfold ParseOfferAndAnswer.
  rewrite Unmarshal_own; [|try done; first [lia|decide_text]..].
  cbn [meaning MediaDescriptions List.find]. rewrite Hc.
  destruct (own_read ip (ap_Port (Local o)) 111 (LocalUfrag o) (LocalPwd o)
    "actpass" (sha256 (cert_raw c)) Hip Hport ltac:(lia) (sha256_bytes _)
    (meaning 111 ownSession (ownMedia ip (ap_Port (Local o)) 111
      (LocalUfrag o) (LocalPwd o) (fingerprintText (sha256 (cert_raw c))) "actpass")))
    as (-> & -> & -> & -> & -> & k & -> & Hk).
  unfold required. destruct (String.eqb_spec (LocalUfrag o) ""), (String.eqb_spec (LocalPwd o) "");
    try done.
  unfold credential. change (ToLower uniLower "actpass") with "actpass".
  cbn [answerRole String.eqb Ascii.eqb Bool.eqb orb].
  eexists. split; [reflexivity|]. cbn [set_answer RemoteFingerprint RemoteUfrag RemotePwd
    RemoteCandidates PayloadType LocalSetup IsClient map].
  rewrite ToUpper_fingerprint by apply sha256_bytes. rewrite Hk.
  conjs; try done. destruct (Local o); simpl in *; by subst.
Qed.

(** C13. Two ends that run this code understand each other. The offer of [NewOffer] is
    accepted by [ParseOfferAndAnswer], whose answer is accepted by [ApplyAnswer];
    afterwards each side holds exactly the fingerprint, credentials, address and
    payload type of the other, one is the DTLS client and the other the server, and
    each accepts the other's certificate in the handshake. *)
Theorem offer_answer_roundtrip now1 now2 r1 r2 b1 b2 k1 s1 d1 c1 k2 s2 d2 c2 ip1 ip2 port1 port2 o :
  NewCertificate sha256 k1 s1 d1 = inr c1 -> NewCertificate sha256 k2 s2 d2 = inr c2 ->
  addr4_ok ip1 -> addr4_ok ip2 -> 1 <= port2 <= 65535 ->
  NewOffer now1 r1 r2 (Some c1) (V4 ip1) port1 = inr o ->
  exists n o',
    ParseOfferAndAnswer Unmarshal UnmarshalCandidate uniLower uniUpper now2 (inr b1) (inr b2)
      (Answer o) c2 (V4 ip2) port2 = inr n /\
    ApplyAnswer Unmarshal UnmarshalCandidate uniLower uniUpper (Answer n) o = (o', None) /\
    knows n o c1 /\ knows o' n c2 /\
    IsClient o' = true /\ IsClient n = false /\ RemoteSetup o' = LocalSetup n /\
    verify sha256 n [cert_raw c1] = None /\ verify sha256 o' [cert_raw c2] = None.
Proof.
  intros Hc1%cert_fingerprint Hc2%cert_fingerprint Hip1 Hip2 Hport2 Ho.
  apply NewOffer_local in Ho as (Hlo & _ & Ec & Ept & Eo & _); [|done].
  destruct (parse_own_offer now1 now2 b1 b2 o c1 ip1 c2 ip2 port2 Hlo Hc1)
    as (n & En & Hf & Hu & Hp & Hcand & Hpt & Hs & Hcl).
  rewrite Eo. exists n. pose proof (parse_local _ _ _ _ _ _ _ _ Hip2 Hport2 En)
    as (Hln & _ & _ & Ea & _ & _).
  destruct (readAnswer_local now2 n c2 ip2 Hln) as (k & Ek & Eka);
    [rewrite Hpt; lia|rewrite Hs; decide_text|done|].
  unfold ApplyAnswer. rewrite Ec, Ea, Ek, Hs. destruct Hlo as [_ _ _ [_ ?] [_ ?]].
  rewrite (proj2 (String.eqb_neq (LocalUfrag o) "")), (proj2 (String.eqb_neq (LocalPwd o) "")) by done.
  rewrite bool_decide_eq_false_2 by done. cbn [orb rh_fingerprint rh_setup RemoteSetup].
  change (ToLower uniLower "passive") with "passive". cbn [String.eqb Ascii.eqb Bool.eqb].
  rewrite Hc2, ToUpper_fingerprint by apply sha256_bytes.
  eexists. conjs; try done; unfold knows; simpl.
  - conjs; congruence.
  - rewrite Eka. done.
  - rewrite Hf, Hc1. by rewrite (proj2 (EqualFold_fingerprint sha256 sha256_bytes _ _)).
  - by rewrite (proj2 (EqualFold_fingerprint sha256 sha256_bytes _ _)).
Qed.

End Roundtrip.

(** * Readers of the subset

    Small parsers that satisfy the hypotheses above, so that these can hold. *)

Fixpoint splitLines (cur l : list ascii) : list string :=
  match l with
  | [] => []
  | c :: l =>
      if code c =? 13 then
        match l with [] => [] | _ :: l => of_bytes (rev cur) :: splitLines [] l end
      else splitLines (c :: cur) l
  end.

Fixpoint splitColon (cur l : list ascii) : Attribute :=
  match l with
  | [] => mkAttribute (of_bytes (rev cur)) ""
  | c :: l =>
      if Ascii.eqb c (chr 58) then mkAttribute (of_bytes (rev cur)) (of_bytes l)
      else splitColon (c :: cur) l
  end.
Definition readLine (s : string) : Attribute := splitColon [] (drop 2 (bytes s)).

Fixpoint spanAttrs (ls : list string) : list Attribute * list string :=
  match ls with
  | [] => ([], [])
  | s :: ls' =>
      if HasPrefix s "a=" then let '(attrs, rest) := spanAttrs ls' in (readLine s :: attrs, rest)
      else ([], ls)
  end.

Definition readSession (raw : string) : result SessionDescription :=
  let '(session, rest) := spanAttrs (drop 4 (splitLines [] (bytes raw))) in
  match rest with
  | mline :: _ :: media =>
      inr (mkSession session
        [mkMedia "audio" ["UDP"; "TLS"; "RTP"; "SAVPF"] (drop 3 (Fields mline)) (fst (spanAttrs media))])
  | _ => inl (NewError "sdp: syntax error")
  end.

Definition readCandidate (v : string) : option candidate :=
  match Fields v with
  | [f; "1"; "udp"; _; ip; port; "typ"; "host"] =>
      match Atoi port with
      | Some p => Some (mkCandidate 1 UDP4 ip p f 2130706431 1 v)
      | None => None
      end
  | _ => None
  end.

Lemma splitLines_line s : forall cur l,
  printable s ->
  splitLines cur (bytes s ++ bytes crlf ++ l) = of_bytes (rev cur ++ bytes s) :: splitLines [] l.
Proof.
  induction s as [|c s IH]; intros cur l Hs; simpl.
  - by rewrite app_nil_r.
  - apply Forall_cons in Hs as [Hc Hs]. unfold between in Hc.
    apply andb_true_iff in Hc as [Hc%Z.leb_le _].
    assert ((code c =? 13) = false) as -> by (apply Z.eqb_neq; lia).
    specialize (IH (c :: cur) l Hs). simpl in IH. rewrite IH. do 2 f_equal.
    rewrite <- app_assoc. done.
Qed.

Lemma splitLines_sdpLines ls : Forall printable ls -> splitLines [] (bytes (sdpLines ls)) = ls.
Proof.
  unfold sdpLines. induction 1 as [|s ls Hs _ IH]; [done|].
  assert (E : bytes (String.concat "" (map (fun x => x +:+ crlf) (s :: ls))) =
    bytes s ++ bytes crlf ++ bytes (String.concat "" (map (fun x => x +:+ crlf) ls))).
  { destruct ls as [|t ls]; [simpl; by rewrite bytes_app|].
    change (String.concat "" (map (fun x => x +:+ crlf) (s :: t :: ls))) with
      ((s +:+ crlf) +:+ "" +:+ String.concat "" (map (fun x => x +:+ crlf) (t :: ls))).
    by rewrite !bytes_app, <- app_assoc. }
  rewrite E, splitLines_line, IH by done. simpl. by rewrite of_bytes_bytes.
Qed.

Lemma splitColon_key k : forall cur l,
  Forall (fun c => Ascii.eqb c (chr 58) = false) k ->
  splitColon cur (k ++ l) = splitColon (rev k ++ cur) l.
Proof.
  induction k as [|c k IH]; intros cur l; [done|]. intros [Hc Hk]%Forall_cons.
  simpl. rewrite Hc, IH by done. by rewrite <- app_assoc.
Qed.

Lemma readLine_text l : line_ok l -> readLine (lineText l) = attribute l.
Proof.
  destruct l as [k|k v]; cbn [line_ok attribute]; unfold readLine.
  - intros [_ Hk]. change (drop 2 (bytes (lineText (Flag k)))) with (bytes k). rewrite <- (app_nil_r (bytes k)), splitColon_key by done.
    simpl. rewrite app_nil_r, rev_involutive, of_bytes_bytes. done.
  - intros [[_ Hk] _]. change (drop 2 (bytes (lineText (Pair k v)))) with (bytes (k +:+ ":" +:+ v)).
    rewrite !bytes_app, splitColon_key by done.
    simpl. rewrite app_nil_r, rev_involutive, !of_bytes_bytes. done.
Qed.

Lemma spanAttrs_lines ls rest :
  Forall line_ok ls -> match rest with [] => True | s :: _ => HasPrefix s "a=" = false end ->
  spanAttrs (map lineText ls ++ rest) = (map attribute ls, rest).
Proof.
  intros Hls Hrest. induction Hls as [|l ls Hl _ IH]; simpl.
  - destruct rest; [done|]. simpl. by rewrite Hrest.
  - assert (HasPrefix (lineText l) "a=" = true) as -> by (destruct l as [[]|[]]; reflexivity).
    by rewrite IH, readLine_text.
Qed.

Lemma lineText_printable l : line_ok l -> printable (lineText l).
Proof.
  destruct l as [k|k v]; simpl.
  - intros [Hk%word_printable _]. apply (printable_app "a="); [decide_text|done].
  - intros [[Hk%word_printable _] Hv]. apply (printable_app "a="); [decide_text|].
    apply printable_app; [done|]. apply (printable_app ":"); [decide_text|done].
Qed.

Lemma mline_fields port pt : 0 <= port -> 0 <= pt ->
  drop 3 (Fields ("m=audio " +:+ Itoa port +:+ " UDP/TLS/RTP/SAVPF " +:+ Itoa pt)) = [Itoa pt].
Proof.
  intros Hp Ht.
  change ("m=audio " +:+ Itoa port +:+ " UDP/TLS/RTP/SAVPF " +:+ Itoa pt) with
    ("m=audio" +:+ " " +:+ Itoa port +:+ " " +:+ "UDP/TLS/RTP/SAVPF" +:+ " " +:+ Itoa pt).
  rewrite Fields_cons by decide_text. rewrite Fields_cons by by apply Itoa_word.
  rewrite Fields_cons by decide_text. by rewrite Fields_word by by apply Itoa_word.
Qed.

Lemma document_printable sid ip port pt session media :
  is_u64 sid -> addr4_ok ip -> 0 <= port -> 0 <= pt ->
  Forall line_ok session -> Forall line_ok media ->
  Forall printable (
    [ "v=0"; "o=- " +:+ Itoa sid +:+ " 2 IN IP4 " +:+ Addr4_String ip; "s=-"; "t=0 0" ] ++
    map lineText session ++
    [ "m=audio " +:+ Itoa port +:+ " UDP/TLS/RTP/SAVPF " +:+ Itoa pt;
      "c=IN IP4 " +:+ Addr4_String ip ] ++ map lineText media).
Proof.
  intros Hs Ha Hp Ht H1 H2. unfold is_u64 in Hs.
  pose proof (word_printable _ (Addr4_String_word ip Ha)) as Pa.
  pose proof (word_printable _ (Itoa_word sid ltac:(lia))) as Ps.
  pose proof (word_printable _ (Itoa_word port Hp)) as Pp.
  pose proof (word_printable _ (Itoa_word pt Ht)) as Pt.
  generalize dependent (Addr4_String ip). generalize dependent (Itoa sid).
  generalize dependent (Itoa port). generalize dependent (Itoa pt). intros.
  assert (HL : forall ls, Forall line_ok ls -> Forall printable (map lineText ls)).
  { intros ls Hls. apply Forall_fmap. eapply Forall_impl; [exact Hls|]. apply lineText_printable. }
  rewrite !Forall_app. conjs; auto;
    repeat match goal with
      | |- Forall printable (_ :: _) => apply Forall_cons_2
      | |- Forall printable [] => apply Forall_nil_2
      end; repeat (apply printable_app; try assumption); decide_text.
Qed.

Lemma readSession_document sid ip port pt session media :
  is_u64 sid -> addr4_ok ip -> 1 <= port <= 65535 -> 0 <= pt <= 127 ->
  Forall line_ok session -> Forall line_ok media ->
  readSession (document sid ip port pt session media) = inr (meaning pt session media).
Proof.
  intros Hs Ha Hp Ht H1 H2. unfold readSession, document.
  rewrite splitLines_sdpLines by (apply document_printable; auto; lia).
  cbn [app drop]. rewrite drop_0, (spanAttrs_lines session) by done.
  rewrite mline_fields by lia. rewrite <- (app_nil_r (map lineText media)).
  by rewrite (spanAttrs_lines media []).
Qed.

Lemma readCandidate_host ip port :
  addr4_ok ip -> 1 <= port <= 65535 ->
  exists c, readCandidate (hostCandidate ip port) = Some c /\
    c_Component c = ComponentRTP /\ c_NetworkType c = UDP4 /\
    c_Address c = Addr4_String ip /\ c_Port c = port.
Proof.
  intros Ha Hp. unfold readCandidate, hostCandidate.
  change ("1 1 udp 2130706431 " +:+ Addr4_String ip +:+ " " +:+ Itoa port +:+ " typ host") with
    ("1" +:+ " " +:+ "1" +:+ " " +:+ "udp" +:+ " " +:+ "2130706431" +:+ " " +:+ Addr4_String ip
     +:+ " " +:+ Itoa port +:+ " " +:+ "typ" +:+ " " +:+ "host").
  do 4 rewrite Fields_cons by decide_text.
  rewrite Fields_cons by by apply Addr4_String_word.
  rewrite Fields_cons by (apply Itoa_word; lia).
  rewrite Fields_cons, Fields_word by decide_text.
  rewrite Atoi_Itoa by (unfold maxInt64; lia). eexists. by conjs.
Qed.

(** * Instances *)

Definition rtSha (raw : list Z) : list Z := replicate 32 (u8 (Z.of_nat (length raw))).
Definition rtIP : Addr4 := mkAddr4 203 0 113 20.
Definition rtCert (raw : list Z) : Certificate := mkCertificate raw (fingerprintText (rtSha raw)).

Definition rtOffer : result Negotiation :=
  NewOffer 1 (inr (fun _ => 7)) (inr Z.of_nat) (Some (rtCert [1])) (V4 rtIP) 40002.

(** The offer above and its answer, run end to end. *)
Example roundtrip_runs :
  match rtOffer with
  | inr o =>
      match ParseOfferAndAnswer readSession readCandidate id id 2 (inr (fun _ => 9)) (inr Z.of_nat)
              (Answer o) (rtCert [1; 2]) (V4 rtIP) 40004 with
      | inr n => map Address (RemoteCandidates n) = [AddrPortFrom (V4 rtIP) 40002] /\
                 snd (ApplyAnswer readSession readCandidate id id (Answer n) o) = None
      | inl _ => False
      end
  | inl _ => False
  end.
Proof. vm_compute. auto. Qed.

Definition rtOffered : Negotiation := match rtOffer with inr o => o | inl _ => testOffered end.

Lemma rtSha_bytes c : length (rtSha c) = 32%nat /\ Forall is_u8 (rtSha c).
Proof. split; [apply length_replicate|apply Forall_replicate, u8_range]. Qed.
Lemma rtIP_ok : addr4_ok rtIP.
Proof. unfold addr4_ok, is_u8. simpl. lia. Qed.

Lemma offer_answer_roundtrip_witness :
  exists n o',
    ParseOfferAndAnswer readSession readCandidate id id 2 (inr (fun _ => 9)) (inr Z.of_nat)
      (Answer rtOffered) (rtCert [1; 2]) (V4 rtIP) 40004 = inr n /\
    ApplyAnswer readSession readCandidate id id (Answer n) rtOffered = (o', None) /\
    knows n rtOffered (rtCert [1]) /\ knows o' n (rtCert [1; 2]).
Proof.
  assert (E : rtOffer = inr rtOffered) by (vm_compute; reflexivity).
  pose proof (offer_answer_roundtrip readSession readCandidate id id rtSha
    readSession_document readCandidate_host rtSha_bytes
    1 2 (inr (fun _ => 7)) (inr Z.of_nat) (fun _ => 9) Z.of_nat None None (inr [1]) (rtCert [1])
    None None (inr [1; 2]) (rtCert [1; 2]) rtIP rtIP 40002 40004 rtOffered eq_refl eq_refl
    rtIP_ok rtIP_ok ltac:(lia) E) as (n & o' & H1 & H2 & H3 & H4 & _).
  exists n, o'. exact (conj H1 (conj H2 (conj H3 H4))).
Defined.

Definition rtAnswered : Negotiation :=
  match ParseOfferAndAnswer readSession readCandidate id id 2 (inr (fun _ => 9)) (inr Z.of_nat)
          (Answer rtOffered) (rtCert [1; 2]) (V4 rtIP) 40004 with
  | inr n => n | inl _ => testOffered
  end.

Lemma answer_announces_local_half_witness :
  exists k, readAnswer readSession readCandidate (Answer rtAnswered) =
    inr (mkRemote (Fingerprint (rtCert [1; 2])) (if IsClient rtAnswered then "active" else "passive")
           (LocalUfrag rtAnswered) (LocalPwd rtAnswered) [k] (PayloadType rtAnswered)) /\
    Address k = AddrPortFrom (V4 rtIP) 40004.
Proof.
  assert (E : ParseOfferAndAnswer readSession readCandidate id id 2 (inr (fun _ => 9)) (inr Z.of_nat)
    (Answer rtOffered) (rtCert [1; 2]) (V4 rtIP) 40004 = inr rtAnswered) by (vm_compute; reflexivity).
  exact (answer_announces_local_half readSession readCandidate id id rtSha
    readSession_document readCandidate_host rtSha_bytes
    2 (inr (fun _ => 9)) (inr Z.of_nat) (Answer rtOffered) None None (inr [1; 2]) (rtCert [1; 2])
    rtIP 40004 rtAnswered eq_refl rtIP_ok ltac:(lia) E).
Defined.
