(* ===== verification/Setup.v ===== *)
(** The set-up of a transport in detail (internal/media/transport.go): [run] and
    [connectICE] from top to bottom with the loops over the remote candidates, the
    choice of the DTLS role, of the SRTP profile and the creation of the sessions.
    [Lifecycle] has the same code as steps that interleave with [Close]; here the
    uninterrupted execution is a function and is shown to be one of those runs. The
    calls of the ICE, DTLS and SRTP libraries are arguments. *)
From S2P Require Import Prelude Errors GoStrings.
From S2P Require Sdp.
From S2P Require Import Lifecycle.

(** * SRTP profiles *)

(** [pdtls.SRTPProtectionProfile]: the two the program names, or another number. *)
Inductive dtlsProfile := SRTP_AEAD_AES_128_GCM | SRTP_AES128_CM_HMAC_SHA1_80 | OtherProfile (n : Z).
(** [psrtp.ProtectionProfile]: the two it maps to. *)
Inductive srtpProfile := ProfileAeadAes128Gcm | ProfileAes128CmHmacSha1_80.

#[export] Instance dtlsProfile_eq_dec : EqDecision dtlsProfile.
Proof. solve_decision. Defined.
#[export] Instance srtpProfile_eq_dec : EqDecision srtpProfile.
Proof. solve_decision. Defined.

(** The part of the [pdtls.Config] of [run] that decides what is negotiated. *)
Record dtlsConfig := mkDtlsConfig {
  InsecureSkipVerify : bool;
  RequireAnyClientCert : bool;
  SRTPProtectionProfiles : list dtlsProfile
}.
Definition cfg : dtlsConfig :=
  mkDtlsConfig true true [SRTP_AEAD_AES_128_GCM; SRTP_AES128_CM_HMAC_SHA1_80].

Definition srtpProfileOf (p : dtlsProfile) : result srtpProfile :=
  match p with
  | SRTP_AEAD_AES_128_GCM => inr ProfileAeadAes128Gcm
  | SRTP_AES128_CM_HMAC_SHA1_80 => inr ProfileAes128CmHmacSha1_80
  | OtherProfile n => inl (NewError ("unsupported SRTP profile " +:+ Itoa n))
  end.

(** The DTLS connection and the SRTP sessions made from it: [pdtls.Client] or
    [pdtls.Server] (by the role), the handshake, the selected profile, whether the
    connection state is available, the key extraction and the two constructors. *)
Record dtlsOps := mkDtlsOps {
  newDTLS : bool -> option error;
  handshake : option error;
  selected : option dtlsProfile;
  connectionState : bool;
  extractKeys : srtpProfile -> bool -> option error;
  newSRTP : srtpProfile -> option error;
  newSRTCP : srtpProfile -> option error
}.

(** The block of [run] after a successful handshake: whether the two sessions exist,
    and the error. *)
Definition srtpSessions (isClient : bool) (o : dtlsOps) : bool * bool * option error :=
  match selected o with
  | None => (false, false, Some (NewError "DTLS did not negotiate SRTP"))
  | Some profile =>
      match srtpProfileOf profile with
      | inl e => (false, false, Some e)
      | inr sp =>
          if negb (connectionState o) then (false, false, Some (NewError "DTLS state unavailable"))
          else match extractKeys o sp isClient with
          | Some e => (false, false, Some e)
          | None =>
              match newSRTP o sp with
              | Some e => (false, false, Some e)
              | None =>
                  match newSRTCP o sp with
                  | Some e => (true, false, Some e)
                  | None => (true, true, None)
                  end
              end
          end
      end
  end.

(** * ICE *)

(** One pass of the loop that waits for the agent to have the remote candidates: the
    reply of [GetRemoteCandidates] (their number), and the context's error if the
    select that follows takes that case. *)
Record poll := mkPoll { remotes : result nat; ctxEnd : option error }.

(** [None]: still waiting after these passes. *)
Fixpoint awaitRemote (want : nat) (l : list poll) : option (option error) :=
  match l with
  | [] => None
  | p :: l =>
      match remotes p with
      | inl e => Some (Some e)
      | inr n =>
          if (want <=? n)%nat then Some None
          else match ctxEnd p with
          | Some e => Some (Some e)
          | None => awaitRemote want l
          end
      end
  end.

(** The agent: its construction, the start of gathering, the end of gathering (or the
    context's error), the candidate parser, [AddRemoteCandidate], the polls, the dial
    with the remote credentials. *)
Record iceOps := mkIceOps {
  newAgent : option error;
  gather : option error;
  gathered : option error;
  unmarshalCandidate : string -> result Sdp.candidate;
  addRemoteCandidate : Sdp.candidate -> option error;
  polls : list poll;
  dial : string -> string -> option error
}.

(** The loop over [t.conf.RemoteCandidates]. *)
Fixpoint addRemotes (o : iceOps) (l : list Sdp.ICECandidate) : option error :=
  match l with
  | [] => None
  | rc :: l =>
      match unmarshalCandidate o (Sdp.Raw rc) with
      | inl e => Some e
      | inr c =>
          match addRemoteCandidate o c with
          | Some e => Some e
          | None => addRemotes o l
          end
      end
  end.

(** [connectICE]; [None] while it polls. *)
Definition connectICESeq (t : transport) (n : Sdp.Negotiation) (o : iceOps)
  : option (transport * option error) :=
  let t := create t IceMux in
  match newAgent o with
  | Some e => Some (close1 t IceMux, Some e)
  | None =>
      let t := create t IceAgent in
      if closed t then Some (close1 (close1 t IceAgent) IceMux, Some (Sentinel Canceled))
      else
        let t := publish (publish t IceAgent) IceMux in
        match gather o with
        | Some e => Some (t, Some e)
        | None =>
            match gathered o with
            | Some e => Some (t, Some e)
            | None =>
                match addRemotes o (Sdp.RemoteCandidates n) with
                | Some e => Some (t, Some e)
                | None =>
                    match awaitRemote (length (Sdp.RemoteCandidates n)) (polls o) with
                    | None => None
                    | Some (Some e) => Some (t, Some e)
                    | Some None => Some (t, dial o (Sdp.RemoteUfrag n) (Sdp.RemotePwd n))
                    end
                end
            end
        end
  end.

(** * run *)

(** The end of [run]: publish, start the pump, close the ready channel. *)
Definition conclude (t : transport) (l : locals) : transport :=
  let t := setResult t l in
  closeReady (if bool_decide (lerr l = None) && sr l then startPump t else t).

(** [run] without interference; [None] while it polls the agent. *)
Definition runSeq (t : transport) (n : Sdp.Negotiation) (io : iceOps) (d : dtlsOps)
  : option transport :=
  match connectICESeq t n io with
  | None => None
  | Some (t, Some e) => Some (conclude t (mkLocals false false false false (Some e)))
  | Some (t, None) =>
      let t := create t PktMux in
      if closed t then Some (closeReady (close1 t PktMux))
      else
        let t := publish t PktMux in
        match newDTLS d (Sdp.IsClient n) with
        | Some e => Some (conclude t (mkLocals false false false true (Some e)))
        | None =>
            let t := create t Dtls in
            match handshake d with
            | Some e => Some (conclude t (mkLocals true false false true (Some e)))
            | None =>
                let '(sr, sc, err) := srtpSessions (Sdp.IsClient n) d in
                let t := if sr then create t Srtp else t in
                let t := if sc then create t Srtcp else t in
                Some (conclude t (mkLocals true sr sc true err))
            end
        end
  end.

(** * Refinement *)

(** Running the step function of [Lifecycle] on a list of outcomes. *)
Fixpoint runOutcomes (t : transport) (pc : run_pc) (os : list (option error)) : transport * run_pc :=
  match os with
  | [] => (t, pc)
  | o :: os => let '(t, pc) := runStep t pc o in runOutcomes t pc os
  end.

Lemma runOutcomes_app os1 : forall t pc os2,
  runOutcomes t pc (os1 ++ os2) =
  runOutcomes (fst (runOutcomes t pc os1)) (snd (runOutcomes t pc os1)) os2.
Proof.
  induction os1 as [|o os1 IH]; intros t pc os2; [done|].
  cbn [app runOutcomes]. destruct (runStep t pc o). apply IH.
Qed.

Lemma conclude_outcomes t l :
  runOutcomes t (SetResult l) [None; None; None] = (conclude t l, RunDone).
Proof. reflexivity. Qed.

(** The outcomes of the ICE calls, as [Lifecycle] sees them. *)
Lemma connectICE_outcomes t n o t' err :
  connectICESeq t n o = Some (t', err) ->
  exists os, runOutcomes t NewUDPMux os =
    (t', match err with
         | Some e => SetResult (mkLocals false false false false (Some e))
         | None => NewPacketMux
         end).
Proof.
  unfold connectICESeq. intros H.
  destruct (newAgent o) as [e|]; [simplify_eq; by exists [None; Some e]|].
  destruct (closed _) eqn:Ec; [simplify_eq; exists [None; None; None]; simpl in *; by rewrite Ec|].
  assert (Hp : runOutcomes t NewUDPMux [None; None; None] =
    (publish (publish (create (create t IceMux) IceAgent) IceAgent) IceMux, Gather)).
  { simpl in *. by rewrite Ec. }
  destruct (gather o) as [e|]; [simplify_eq; exists ([None; None; None] ++ [Some e])|];
    [by rewrite runOutcomes_app, Hp|].
  destruct (gathered o) as [e|]; [simplify_eq; exists ([None; None; None] ++ [None; Some e])|];
    [by rewrite runOutcomes_app, Hp|].
  destruct (addRemotes o _) as [e|];
    [simplify_eq; exists ([None; None; None] ++ [None; None; Some e])|];
    [by rewrite runOutcomes_app, Hp|].
  destruct (awaitRemote _ _) as [[e|]|]; simplify_eq;
    [exists ([None; None; None] ++ [None; None; None; Some e])|
     exists ([None; None; None] ++ [None; None; None; None; dial o (Sdp.RemoteUfrag n) (Sdp.RemotePwd n)])];
    rewrite runOutcomes_app, Hp; [done|]. simpl. by destruct (dial o _ _).
Qed.

(** The outcomes after the connection, from the published packet mux on. *)
Lemma dtls_outcomes t client d :
  handshake d = None ->
  exists os,
    runOutcomes t Handshake os =
    (let '(sr, sc, err) := srtpSessions client d in
     let t := if sr then create t Srtp else t in
     let t := if sc then create t Srtcp else t in
     conclude t (mkLocals true sr sc true err), RunDone).
Proof.
  intros Hh. unfold srtpSessions.
  destruct (selected d) as [p|]; [|by eexists [None; Some _; None; None; None]].
  destruct (srtpProfileOf p) as [e|sp]; [by exists [None; Some e; None; None; None]|].
  destruct (connectionState d); [|by eexists [None; None; Some _; None; None; None]]. cbn [negb].
  destruct (extractKeys d sp client) as [e|]; [by exists [None; None; Some e; None; None; None]|].
  destruct (newSRTP d sp) as [e|]; [by exists [None; None; Some e; None; None; None]|].
  destruct (newSRTCP d sp) as [e|]; [by exists [None; None; None; Some e; None; None; None]|].
  by exists [None; None; None; None; None; None; None].
Qed.

Lemma runSeq_outcomes t n io d t' :
  runSeq t n io d = Some t' -> exists os, runOutcomes t NewUDPMux os = (t', RunDone).
Proof.
  unfold runSeq. destruct (connectICESeq t n io) as [[t1 [e|]]|] eqn:E; [| |done];
    apply connectICE_outcomes in E as (os & E); intros H.
  { simplify_eq. exists (os ++ [None; None; None]). by rewrite runOutcomes_app, E. }
  destruct (closed _) eqn:Ec.
  { simplify_eq. exists (os ++ [None; None; None]). rewrite runOutcomes_app, E.
    simpl in *. by rewrite Ec. }
  assert (Hp : runOutcomes t NewUDPMux (os ++ [None; None]) = (publish (create t1 PktMux) PktMux, NewDTLS)).
  { rewrite runOutcomes_app, E. simpl in *. by rewrite Ec. }
  destruct (newDTLS d _) as [e|].
  { simplify_eq. exists ((os ++ [None; None]) ++ [Some e; None; None; None]).
    by rewrite runOutcomes_app, Hp. }
  destruct (handshake d) as [e|] eqn:Eh.
  { simplify_eq. exists ((os ++ [None; None]) ++ [None; Some e; None; None; None]).
    by rewrite runOutcomes_app, Hp. }
  destruct (dtls_outcomes (create (publish (create t1 PktMux) PktMux) Dtls) (Sdp.IsClient n) d Eh)
    as (os' & E').
  exists ((os ++ [None; None]) ++ None :: os'). rewrite runOutcomes_app, Hp. cbn [fst snd].
  change (runOutcomes ?t NewDTLS (None :: os')) with (runOutcomes (create t Dtls) Handshake os').
  rewrite E'. destruct (srtpSessions _ _) as [[] ?]. by simplify_eq.
Qed.

Lemma runStep_running t pc o : running pc = true -> snd (runStep t pc o) <> NotStarted.
Proof. destruct pc; simpl; try done; intros _; repeat case_match; done. Qed.

Lemma runOutcomes_done t os : runOutcomes t RunDone os = (t, RunDone).
Proof. induction os as [|o os IH]; [done|]. exact IH. Qed.

Lemma runOutcomes_steps os : forall t pc c t',
  running pc = true -> runOutcomes t pc os = (t', RunDone) ->
  exists os', steps (mkSystem t pc c) (map DoRun os') = Some (mkSystem t' RunDone c).
Proof.
  induction os as [|o os IH]; intros t pc c t' Hpc H; [by simplify_eq/=|]. simpl in H.
  assert (Hs : step (mkSystem t pc c) (DoRun o) =
    let '(t1, pc1) := runStep t pc o in Some (mkSystem t1 pc1 c)) by by destruct pc.
  pose proof (runStep_running t pc o Hpc) as Hne.
  destruct (runStep t pc o) as [t1 pc1]. cbn [snd] in Hne. destruct (running pc1) eqn:E1.
  - destruct (IH t1 pc1 c t' E1 H) as (os' & Hos). exists (o :: os'). cbn [map steps]. by rewrite Hs.
  - assert (pc1 = RunDone) as -> by (destruct pc1; try done).
    rewrite runOutcomes_done in H. simplify_eq. exists [o]. cbn [map steps]. by rewrite Hs.
Qed.

(** The set-up code from top to bottom is one of the executions of the step model, so
    its results are reachable states of [Lifecycle]. *)
Lemma setup_refines_lifecycle t c n io d t' :
  runSeq t n io d = Some t' ->
  exists os, steps (mkSystem t NewUDPMux c) (map DoRun os) = Some (mkSystem t' RunDone c) /\
    (reachable (mkSystem t NewUDPMux c) -> reachable (mkSystem t' RunDone c)).
Proof.
  intros (os & Hos)%runSeq_outcomes.
  destruct (runOutcomes_steps os t NewUDPMux c t' eq_refl Hos) as (os' & H).
  exists os'. split; [done|]. intros Hr. by eapply life_reachable_steps.
Qed.

(** ** What a set-up leaves behind *)

(** Once set-up has returned, [Close] runs through without waiting. *)
Lemma close_runs_through t :
  reachable (mkSystem t RunDone NotClosing) ->
  exists t', steps (mkSystem t RunDone NotClosing) (DoClose :: replicate 7 DoCloseStep) =
    Some (mkSystem t' RunDone CloseDone).
Proof.
  intros Hr%life_inv_reachable. destruct (i_done _ Hr eq_refl) as [Hs Hrc]. simpl in *.
  rewrite Hs. simpl. rewrite Hrc. simpl. eexists. reflexivity.
Qed.

(** * When set-up succeeds *)

Definition remote_added (o : iceOps) (rc : Sdp.ICECandidate) : Prop :=
  exists c, unmarshalCandidate o (Sdp.Raw rc) = inr c /\ addRemoteCandidate o c = None.

Definition ice_ok (n : Sdp.Negotiation) (o : iceOps) : Prop :=
  newAgent o = None /\ gather o = None /\ gathered o = None /\
  Forall (remote_added o) (Sdp.RemoteCandidates n) /\
  awaitRemote (length (Sdp.RemoteCandidates n)) (polls o) = Some None /\
  dial o (Sdp.RemoteUfrag n) (Sdp.RemotePwd n) = None.

Definition dtls_ok (n : Sdp.Negotiation) (d : dtlsOps) : Prop :=
  newDTLS d (Sdp.IsClient n) = None /\ handshake d = None /\
  exists p sp, selected d = Some p /\ srtpProfileOf p = inr sp /\ connectionState d = true /\
    extractKeys d sp (Sdp.IsClient n) = None /\ newSRTP d sp = None /\ newSRTCP d sp = None.

Lemma addRemotes_ok o l : addRemotes o l = None <-> Forall (remote_added o) l.
Proof.
  induction l as [|rc l IH]; simpl; [by split|]. rewrite Forall_cons, <- IH. unfold remote_added.
  destruct (unmarshalCandidate o (Sdp.Raw rc)) as [e|c].
  - split; [done|]. intros [(c & ? & _) _]. done.
  - destruct (addRemoteCandidate o c) eqn:E.
    + split; [done|]. intros [(c' & ? & ?) _]. by simplify_eq.
    + split; [intros H; split; [by exists c|done]|by intros [_ ?]].
Qed.

(** What the set-up goroutine leaves alone until it concludes, on an open transport. *)
Definition untouched (t t' : transport) : Prop :=
  closed t' = false /\ readyCloses t' = readyCloses t /\ pumping t' = pumping t /\
  ctxDone t' = ctxDone t.

Lemma connectICE_ok t n o t' err :
  closed t = false -> connectICESeq t n o = Some (t', err) ->
  (err = None <-> ice_ok n o) /\ untouched t t'.
Proof.
  intros Ht H. unfold connectICESeq in H. unfold ice_ok, untouched.
  destruct (newAgent o) as [e|]; [simplify_eq; by conjs; [split; [|intros []]|..]|].
  change (closed (create (create t IceMux) IceAgent)) with (closed t) in H. rewrite Ht in H.
  destruct (gather o) as [e|]; [simplify_eq; conjs; [split; [done|by intros (_ & ? & _)]|done..]|].
  destruct (gathered o) as [e|];
    [simplify_eq; conjs; [split; [done|by intros (_ & _ & ? & _)]|done..]|].
  rewrite <- addRemotes_ok. destruct (addRemotes o _) as [e|];
    [simplify_eq; conjs; [split; [done|by intros (_ & _ & _ & ? & _)]|done..]|].
  destruct (awaitRemote _ _) as [[e|]|]; simplify_eq; conjs; try done; split; try done.
  - by intros (_ & _ & _ & _ & ? & _).
  - by intros (_ & _ & _ & _ & _ & ?).
Qed.

Lemma srtpSessions_ok client d :
  let '(sr, sc, err) := srtpSessions client d in
  (err = None <-> exists p sp, selected d = Some p /\ srtpProfileOf p = inr sp /\
     connectionState d = true /\ extractKeys d sp client = None /\ newSRTP d sp = None /\
     newSRTCP d sp = None) /\
  (err = None -> sr = true /\ sc = true).
Proof.
  unfold srtpSessions. destruct (selected d) as [p|]; [|split; [split; [done|]|done]].
  2: by intros (? & ? & ? & _).
  destruct (srtpProfileOf p) as [e|sp] eqn:Ep.
  { split; [split; [done|]|done]. intros (p' & sp & ? & ? & _). congruence. }
  assert (Hu : forall P : Prop, (P <-> connectionState d = true /\ extractKeys d sp client = None /\
      newSRTP d sp = None /\ newSRTCP d sp = None) ->
    P <-> exists p0 sp0, Some p = Some p0 /\ srtpProfileOf p0 = inr sp0 /\ connectionState d = true /\
      extractKeys d sp0 client = None /\ newSRTP d sp0 = None /\ newSRTCP d sp0 = None).
  { intros P ->. split; [intros; by exists p, sp|]. intros (p' & sp' & ? & ? & ?).
    assert (p' = p) as -> by congruence. by assert (sp' = sp) as -> by congruence. }
  destruct (connectionState d); cbn [negb]; [|split; [apply Hu; split; [done|by intros []]|done]].
  destruct (extractKeys d sp client); [split; [apply Hu; split; [done|by intros (_ & ? & _)]|done]|].
  destruct (newSRTP d sp); [split; [apply Hu; split; [done|by intros (_ & _ & ? & _)]|done]|].
  destruct (newSRTCP d sp); split; try done; apply Hu; split; try done.
  by intros (_ & _ & _ & ?).
Qed.

(** What the end of [run] leaves on a transport that nobody closed. *)
Lemma conclude_open t l :
  closed t = false ->
  terr (conclude t l) = lerr l /\ readyCloses (conclude t l) = S (readyCloses t) /\
  pumping (conclude t l) = (pumping t || (bool_decide (lerr l = None) && sr l)) /\
  fields (conclude t l) Dtls = dc l /\ fields (conclude t l) Srtp = sr l /\
  fields (conclude t l) Srtcp = sc l.
Proof.
  intros Ht. unfold conclude, setResult. rewrite Ht.
  destruct (bool_decide _ && sr l); simpl; rewrite ?orb_true_r, ?orb_false_r; by conjs.
Qed.

(** However it ends, [run] concludes once, with an error exactly when a call failed. *)
Lemma runSeq_concludes t n io d t' :
  closed t = false -> runSeq t n io d = Some t' ->
  exists t1 l, t' = conclude t1 l /\ untouched t t1 /\
    (lerr l = None <-> ice_ok n io /\ dtls_ok n d) /\
    (lerr l = None -> dc l = true /\ sr l = true /\ sc l = true).
Proof.
  intros Ht H. unfold runSeq in H. destruct (connectICESeq t n io) as [[t1 err]|] eqn:E; [|done].
  destruct (connectICE_ok _ _ _ _ _ Ht E) as [Hice (Hc & Hr & Hp & Hx)].
  destruct err as [e|].
  { simplify_eq. exists t1. eexists. split; [reflexivity|]. split; [done|]. simpl.
    split; [|done]. split; [done|]. intros [?%Hice _]. done. }
  change (closed (create t1 PktMux)) with (closed t1) in H. rewrite Hc in H.
  assert (Hice' : ice_ok n io) by by apply Hice. unfold dtls_ok.
  destruct (newDTLS d _) as [e|].
  { simplify_eq. do 2 eexists. split; [reflexivity|]. split; [done|]. simpl.
    split; [|done]. split; [done|]. by intros [_ [? _]]. }
  destruct (handshake d) as [e|].
  { simplify_eq. do 2 eexists. split; [reflexivity|]. split; [done|]. simpl.
    split; [|done]. split; [done|]. by intros [_ (_ & ? & _)]. }
  pose proof (srtpSessions_ok (Sdp.IsClient n) d) as Hs.
  destruct (srtpSessions (Sdp.IsClient n) d) as [[sr sc] err]. destruct Hs as [Hs1 Hs2].
  simplify_eq. do 2 eexists. split; [reflexivity|]. split; [by destruct sr, sc|]. simpl.
  split; [|intros ?; by destruct Hs2]. rewrite Hs1. clear - Hice'. tauto.
Qed.

Lemma offered_supported p :
  p ∈ SRTPProtectionProfiles cfg <-> exists sp, srtpProfileOf p = inr sp.
Proof.
  simpl. rewrite !elem_of_cons, elem_of_nil. destruct p; simpl.
  - split; [eauto|auto].
  - split; [eauto|auto].
  - split; [by intros [?|[?|?]]|by intros [? ?]].
Qed.

(** The wait for the candidates is bounded by the context: once a pass sees it ended,
    the loop has returned. *)
Lemma awaitRemote_ends want l :
  Exists (fun q => ctxEnd q <> None) l -> awaitRemote want l <> None.
Proof.
  induction 1 as [p l Hp|p l _ IH]; simpl; destruct (remotes p); try done;
    destruct (_ <=? _)%nat; try done; by destruct (ctxEnd p).
Qed.

Lemma runSeq_returns t n io d :
  Exists (fun q => ctxEnd q <> None) (polls io) -> exists t', runSeq t n io d = Some t'.
Proof.
  intros H%(awaitRemote_ends (length (Sdp.RemoteCandidates n))).
  unfold runSeq. destruct (connectICESeq t n io) as [[t1 [e|]]|] eqn:E; [by eexists| |].
  - repeat case_match; by eexists.
  - exfalso. unfold connectICESeq in E. by repeat case_match.
Qed.

(** C19. A set-up whose context ends leaks nothing, whether it succeeds or any call of
    the ICE, DTLS or SRTP library fails: it returns, everything it leaves open is the
    socket or is held by a field of the transport, so that a [Close] that follows runs
    through without waiting and leaves no socket, mux, agent, connection or session
    open. And a set-up that begins on a transport that is being closed closes itself
    what it creates, publishes nothing and starts no pump. *)
Theorem setup_leaks_nothing n io d :
  Exists (fun q => ctxEnd q <> None) (polls io) ->
  (exists t', runSeq (setStarted NewTransport) n io d = Some t' /\
     (forall r, state t' r = Live -> r = Raw \/ fields t' r = true) /\
     exists t2, steps (mkSystem t' RunDone NotClosing) (DoClose :: replicate 7 DoCloseStep) =
       Some (mkSystem t2 RunDone CloseDone) /\ forall r, state t2 r <> Live) /\
  (exists t', runSeq (setClosed (setStarted NewTransport)) n io d = Some t' /\
     readyCloses t' = 1 /\ pumping t' = false /\
     forall r, (state t' r = Live -> r = Raw) /\ fields t' r = fields NewTransport r).
Proof.
  intros Hend. split.
  - destruct (runSeq_returns (setStarted NewTransport) n io d Hend) as (t' & H). exists t'. split; [done|].
    destruct (setup_refines_lifecycle _ NotClosing _ _ _ _ H) as (os & _ & Hr).
    assert (Hr' : reachable (mkSystem t' RunDone NotClosing)).
    { apply Hr. exact (reach_step initial DoStart _ reach_init eq_refl). }
    split.
    + intros r Hl. destruct (i_live _ (life_inv_reachable _ Hr') r Hl) as [?|[?|Ho]]; auto. by destruct r.
    + destruct (close_runs_through t' Hr') as (t2 & Hs). exists t2. split; [exact Hs|].
      apply (closed_nothing_live (mkSystem t2 RunDone CloseDone)); [|done].
      by eapply life_reachable_steps.
  - unfold runSeq, connectICESeq. destruct (newAgent io); simpl;
      (eexists; split; [reflexivity|]); split; try done; split; try done;
      intros r; (split; [|done]); destruct r; simpl; vm_compute; intros; congruence.
Qed.

(** C20. Set-up returns when its context ends, and succeeds exactly when every library call on its way does and the
    agent has taken all remote candidates: then, and only then, the transport has no
    error, and in that case the DTLS connection and both SRTP sessions are published,
    the pump runs and Wait returns nil; otherwise Wait returns the error and no pump
    was started. Every profile the DTLS configuration offers is one the SRTP sessions
    can use, so the "unsupported profile" error needs a peer that selects a profile
    that was not offered. *)
Theorem setup_succeeds_iff n io d :
  Exists (fun q => ctxEnd q <> None) (polls io) ->
  exists t', runSeq (setStarted NewTransport) n io d = Some t' /\
  (terr t' = None <-> ice_ok n io /\ dtls_ok n d) /\
  readyCloses t' = 1 /\ (terr t' = None -> media_up t') /\
  pumping t' = bool_decide (terr t' = None) /\
  (forall pick ctxErr, Wait t' pick ctxErr = Some (terr t')) /\
  (forall p, p ∈ SRTPProtectionProfiles cfg <-> exists sp, srtpProfileOf p = inr sp).
Proof.
  intros (t' & H)%(runSeq_returns (setStarted NewTransport) n io d). exists t'. split; [done|].
  apply runSeq_concludes in H as (t & l & -> & (Hc & Hr & Hp & Hx) & Hiff & Hall); [|done].
  destruct (conclude_open t l Hc) as (E1 & E2 & E3 & E4 & E5 & E6).
  unfold media_up, Wait. rewrite E1, E2, E3, E4, E5, E6, Hr, Hp.
  assert (Ecx : ctxDone (conclude t l) = false).
  { unfold conclude, setResult. rewrite Hc. by destruct (_ && _). }
  rewrite Ecx. conjs; try done; [|apply offered_supported].
  case_bool_decide as Hl; [|done]. by destruct (Hall Hl) as (_ & -> & _).
Qed.

(** ** Waiting for the candidates *)

(** The wait ends well exactly when some reply counts all candidates before an error
    or the end of the context; an agent that merges candidates (fewer than were
    added) keeps it waiting until the context ends. *)
Lemma awaitRemote_success want l :
  awaitRemote want l = Some None <->
  exists l1 p l2 k, l = l1 ++ p :: l2 /\ remotes p = inr k /\ (want <= k)%nat /\
    Forall (fun q => ctxEnd q = None /\ exists m, remotes q = inr m /\ (m < want)%nat) l1.
Proof.
  induction l as [|p l IH]; simpl.
  { split; [done|]. intros (l1 & p & l2 & k & E & _). by destruct l1. }
  destruct (remotes p) as [e|m] eqn:Ep.
  { split; [done|]. intros ([|q l1] & p' & l2 & k & E & Hp & _ & Hl1); simplify_eq/=; [congruence|].
    apply Forall_cons in Hl1 as [(_ & m & Hm & _) _]. congruence. }
  destruct (Nat.leb_spec want m) as [Hle|Hlt].
  { split; [|done]. intros _. by exists [], p, l, m. }
  destruct (ctxEnd p) eqn:Ec.
  - split; [done|]. intros ([|q l1] & p' & l2 & k & E & Hp & Hk & Hl1); simplify_eq/=;
      [assert (k = m) by congruence; lia|].
    apply Forall_cons in Hl1 as [[? _] _]. congruence.
  - rewrite IH. split.
    + intros (l1 & p' & l2 & k & -> & Hp & Hk & Hl1). exists (p :: l1), p', l2, k. conjs; try done.
      constructor; [|done]. split; [done|]. by exists m.
    + intros ([|q l1] & p' & l2 & k & E & Hp & Hk & Hl1); simplify_eq/=;
      [assert (k = m) by congruence; lia|].
      apply Forall_cons in Hl1 as [_ ?]. by exists l1, p', l2, k.
Qed.

(** The candidates that negotiation kept parse again: their stored text is what pion
    printed, so only the agent itself can refuse one. *)
Lemma kept_candidates_parse U o m cands e :
  (forall s c, U s = Some c -> unmarshalCandidate o (Sdp.c_Marshal c) = inr c) ->
  Sdp.remoteCandidates U m = inr cands -> addRemotes o cands = Some e ->
  exists c, addRemoteCandidate o c = Some e.
Proof.
  intros HU Hm He.
  assert (Hk : Forall (fun rc => exists c, unmarshalCandidate o (Sdp.Raw rc) = inr c) cands).
  { unfold Sdp.remoteCandidates in Hm.
    assert (HL : forall l seen out, Forall (fun rc => exists c, unmarshalCandidate o (Sdp.Raw rc) = inr c) out ->
      Forall (fun rc => exists c, unmarshalCandidate o (Sdp.Raw rc) = inr c)
        (Sdp.candidatesLoop U seen out l)).
    { induction l as [|a l IH]; intros seen out Ho; simpl; [done|].
      destruct (Sdp.candidateOf U a) as [rc|] eqn:Ea; [|by apply IH].
      case_bool_decide; apply IH; [done|]. apply Forall_app. split; [done|]. apply Forall_singleton.
      unfold Sdp.candidateOf in Ea. destruct (negb _); [done|].
      destruct (U (Sdp.Value a)) as [c|] eqn:Eu; [|done]. apply HU in Eu.
      repeat (case_match; try done). simplify_eq. by exists c. }
    specialize (HL (Sdp.Attributes m) ∅ [] ltac:(constructor)).
    destruct (Sdp.candidatesLoop U ∅ [] (Sdp.Attributes m)); [done|]. by simplify_eq. }
  clear Hm HU. induction Hk as [|rc l (c & Hc) _ IH]; simpl in He; [done|]. rewrite Hc in He.
  destruct (addRemoteCandidate o c) eqn:E; [simplify_eq; by exists c|auto].
Qed.

(** * Instances *)

Definition demoCandidate : Sdp.candidate := Sdp.mkCandidate 1 Sdp.UDP4 "198.51.100.10" 3480 "f" 1 1 "live".
Definition demoIce (ps : list poll) : iceOps :=
  mkIceOps None None None (fun _ => inr demoCandidate) (fun _ => None) ps (fun _ _ => None).
Definition demoDtls : dtlsOps :=
  mkDtlsOps (fun _ => None) None (Some SRTP_AEAD_AES_128_GCM) true (fun _ _ => None) (fun _ => None)
    (fun _ => None).
Definition demoNeg : Sdp.Negotiation :=
  match Sdp.testParse "actpass" with inr n => n | inl _ => Sdp.testOffered end.
Definition demoPolls : list poll :=
  [mkPoll (inr 1) None; mkPoll (inr 2) None; mkPoll (inr 2) (Some (Sentinel DeadlineExceeded))].
Definition demoRun : option transport :=
  runSeq (setStarted NewTransport) demoNeg (demoIce demoPolls) demoDtls.
Definition demoUp : transport := default NewTransport demoRun.

(** A set-up whose DTLS handshake fails. *)
Definition demoFailedDtls : dtlsOps :=
  mkDtlsOps (fun _ => None) (Some (Sentinel EOF)) None false (fun _ _ => None) (fun _ => None) (fun _ => None).

Example demo_failed_setup :
  match runSeq (setStarted NewTransport) demoNeg (demoIce demoPolls) demoFailedDtls with
  | Some t => terr t = Some (Sentinel EOF) /\ state t Dtls = Live /\ fields t Dtls = true /\ pumping t = false
  | None => False
  end.
Proof. vm_compute. auto. Qed.

Lemma setup_leaks_nothing_witness :
  exists t', runSeq (setStarted NewTransport) demoNeg (demoIce demoPolls) demoFailedDtls = Some t' /\
    state t' Dtls = Live /\ exists t2, steps (mkSystem t' RunDone NotClosing) (DoClose :: replicate 7 DoCloseStep) =
      Some (mkSystem t2 RunDone CloseDone) /\ state t2 Dtls <> Live.
Proof.
  assert (X : Exists (fun q => ctxEnd q <> None) (polls (demoIce demoPolls))).
  { do 2 apply Exists_cons_tl. by apply Exists_cons_hd. }
  destruct (setup_leaks_nothing demoNeg _ demoFailedDtls X) as [(t' & H & _ & t2 & Hs & Hl) _].
  exists t'. split; [exact H|]. split; [|exists t2; split; [exact Hs|apply Hl]].
  vm_compute in H. by simplify_eq.
Defined.

Lemma setup_succeeds_iff_witness :
  exists t', demoRun = Some t' /\ terr t' = None /\ media_up t' /\ pumping t' = true.
Proof.
  assert (E : demoRun = Some demoUp) by (vm_compute; reflexivity).
  assert (T : terr demoUp = None) by (vm_compute; reflexivity).
  assert (X : Exists (fun q => ctxEnd q <> None) (polls (demoIce demoPolls))).
  { do 2 apply Exists_cons_tl. by apply Exists_cons_hd. }
  destruct (setup_succeeds_iff demoNeg _ demoDtls X) as (t' & H & _ & _ & H1 & H2 & _).
  assert (t' = demoUp) as -> by (unfold demoRun in E; congruence).
  exists demoUp. rewrite T in H2. exact (conj E (conj T (conj (H1 T) H2))).
Defined.
