(* ===== verification/Bridge.v ===== *)
(** The LiveKit bridge (internal/livekitbridge/bridge.go): the callbacks of the room,
    the forwarding of agent audio to Meta and of Meta's audio to the room. The
    LiveKit SDK appears through the events it delivers and the results of its calls;
    the write towards Meta is an interface that the call implements. *)
From S2P Require Import Prelude Errors GoStrings Rtp Rebase.

Local Open Scope Z_scope.

(** * The interface towards Meta *)

(** [Config.WriteToMeta]: [write s p now] sends one packet; [delivered] is what was
    handed to the media session so far. *)
Class MetaWriter (S : Type) := {
  write : S -> Packet -> Z -> S * option error;
  delivered : S -> list Packet
}.

(** What the bridge relies on: a packet is delivered exactly when the write returns
    no error, and "not ready" is reported with the bridge's own error value. *)
Class MetaWriterLaws (S : Type) `{MetaWriter S} := {
  write_ok : forall s p now s', write s p now = (s', None) -> delivered s' = delivered s ++ [p];
  write_err : forall s p now s' e, write s p now = (s', Some e) -> delivered s' = delivered s;
  write_not_ready : forall s p now s' e,
    write s p now = (s', Some e) -> errors_Is e MediaErrNotReady = false
}.

(** * Bridge *)

(** [type Bridge struct]. [room]: nil, joined or disconnected; [local]: the published
    track is there; [doneCloses] counts the closes of the done channel. *)
Inductive roomState := NoRoom | Joined | Left.
Record Bridge := mkBridge {
  confPayloadType : Z;
  hasOnDisconnected : bool;
  room : roomState;
  local : bool;
  closeOnce : bool;
  doneCloses : nat;
  activeTrack : string;
  outbound : rtpRebaser;         (* LiveKit -> Meta *)
  inbound : rtpRebaser;          (* Meta -> LiveKit *)
  txPackets : Z; txDropped : Z; txWriteErrors : Z; rxPackets : Z
}.

Record Stats := mkStats { sTxPackets : Z; sTxDropped : Z; sTxWriteErrors : Z; sRxPackets : Z }.
Definition bridgeStats (b : Bridge) : Stats :=
  mkStats (txPackets b) (txDropped b) (txWriteErrors b) (rxPackets b).

Definition set_room (b : Bridge) (r : roomState) (l : bool) : Bridge :=
  mkBridge (confPayloadType b) (hasOnDisconnected b) r l (closeOnce b) (doneCloses b)
    (activeTrack b) (outbound b) (inbound b) (txPackets b) (txDropped b) (txWriteErrors b) (rxPackets b).
Definition set_active (b : Bridge) (id : string) : Bridge :=
  mkBridge (confPayloadType b) (hasOnDisconnected b) (room b) (local b) (closeOnce b) (doneCloses b)
    id (outbound b) (inbound b) (txPackets b) (txDropped b) (txWriteErrors b) (rxPackets b).
Definition set_outbound (b : Bridge) (r : rtpRebaser) : Bridge :=
  mkBridge (confPayloadType b) (hasOnDisconnected b) (room b) (local b) (closeOnce b) (doneCloses b)
    (activeTrack b) r (inbound b) (txPackets b) (txDropped b) (txWriteErrors b) (rxPackets b).
Definition set_inbound (b : Bridge) (r : rtpRebaser) : Bridge :=
  mkBridge (confPayloadType b) (hasOnDisconnected b) (room b) (local b) (closeOnce b) (doneCloses b)
    (activeTrack b) (outbound b) r (txPackets b) (txDropped b) (txWriteErrors b)
    (u64 (rxPackets b + 1)).
Definition set_tx (b : Bridge) (t d w : Z) : Bridge :=
  mkBridge (confPayloadType b) (hasOnDisconnected b) (room b) (local b) (closeOnce b) (doneCloses b)
    (activeTrack b) (outbound b) (inbound b) t d w (rxPackets b).

(** [closeDone] *)
Definition closeDone (b : Bridge) : Bridge :=
  if closeOnce b then b
  else mkBridge (confPayloadType b) (hasOnDisconnected b) (room b) (local b) true (S (doneCloses b))
         (activeTrack b) (outbound b) (inbound b) (txPackets b) (txDropped b) (txWriteErrors b)
         (rxPackets b).

(** [Close] *)
Definition Close (b : Bridge) : Bridge :=
  let b := closeDone b in
  match room b with NoRoom => b | _ => set_room b Left (local b) end.

(** [Connect]: the error of the token, of the join, of the track and of its
    publication, if any. The bridge of a failed [Connect] is returned too, to see
    what happened to the room. *)
Definition newBridge (payload : Z) (cb : bool) : Bridge :=
  mkBridge payload cb NoRoom false false 0 "" (zeroRebaser false) (zeroRebaser false) 0 0 0 0.
Definition Connect (payload : Z) (cb : bool) (token join track publish : option error)
  : Bridge * option error :=
  let b := newBridge payload cb in
  match token with
  | Some e => (b, Some e)
  | None =>
      match join with
      | Some e => (b, Some e)
      | None =>
          let b := set_room b Joined false in
          match track with
          | Some e => (set_room b Left false, Some e)
          | None =>
              match publish with
              | Some e => (set_room b Left false, Some e)
              | None => (set_room b Joined true, None)
              end
          end
      end
  end.

(** [lksdk.ParticipantKind]: an agent, or one of the other kinds. *)
Inductive ParticipantKind := ParticipantAgent | OtherKind (k : Z).
Definition endsCallOnDeparture (k : ParticipantKind) : bool :=
  match k with ParticipantAgent => true | OtherKind _ => false end.

(** [isFatalWrite] *)
Definition isFatalWrite (e : error) : bool :=
  errors_Is e EOF || errors_Is e ErrClosedPipe || errors_Is e NetErrClosed ||
  errors_Is e Canceled || errors_Is e DeadlineExceeded.

(** [countWriteFailure], with whether it logs. *)
Definition countWriteFailure (b : Bridge) (e : error) : Bridge * bool :=
  if errors_Is e BridgeErrNotReady
  then (set_tx b (txPackets b) (u64 (txDropped b + 1)) (txWriteErrors b), false)
  else let n := u64 (txWriteErrors b + 1) in
       (set_tx b (txPackets b) (txDropped b) n, (n =? 1) || (n mod 500 =? 0)).

(** [WriteFromMeta]: the result is the error, or the packet handed to the local
    track ([b.local.WriteRTP] returns [werr]). *)
Definition WriteFromMeta (b : Bridge) (p : Packet) (now : Z) (werr : option error)
  : Bridge * option error * option Packet :=
  if negb (local b) then (b, Some (Sentinel ErrClosedPipe), None)
  else
    let r := inbound b in
    let r := mkRebaser (started r) (outSSRC r) (srcSSRC r) (seqOff r) (tsOff r) (lastInSeq r)
               (lastOutSeq r) (lastOutTS r) (lastAt r) true in
    let '(r, q) := rewrite r p (PayloadType p) now in
    (set_inbound b r, werr, Some q).

(** The start of [forwardRemote]: claim the active track or give up. *)
Definition forwardStart (b : Bridge) (id : string) : Bridge * bool :=
  if negb (String.eqb (activeTrack b) "") then (b, false) else (set_active b id, true).

(** Its deferred function, also the body of OnTrackUnsubscribed. *)
Definition releaseTrack (b : Bridge) (id : string) : Bridge :=
  if String.eqb (activeTrack b) id then set_active b "" else b.

(** ** The running bridge *)

(** The loop of [forwardRemote] on a packet that was read, up to the write: the
    rebaser's critical section. *)
Definition forwardRead (b : Bridge) (p : Packet) (now : Z) : Bridge * Packet :=
  let '(r, q) := rewrite (outbound b) p (confPayloadType b) now in (set_outbound b r, q).

(** The rest of the iteration, with the result of the write; the flag says whether the
    loop goes on. *)
Definition forwardWrote (b : Bridge) (err : option error) : Bridge * bool :=
  match err with
  | None => (set_tx b (u64 (txPackets b + 1)) (txDropped b) (txWriteErrors b), true)
  | Some e =>
      if isFatalWrite e then (b, false)
      else (fst (countWriteFailure b e), true)
  end.

(** Where the loop of a goroutine of [forwardRemote] is: at [ReadRTP], before
    [WriteToMeta] with the rewritten packet, or after it with its result. *)
Inductive fstate := Reading | Rewritten (q : Packet) | Written (err : option error).

Section System.
Context {S : Type} {MW : MetaWriter S}.

(** The bridge, the writer's state, the goroutines of [forwardRemote] that are in
    their loop (with the identifier of their track), and how many times
    [OnDisconnected] was invoked. *)
Record system := mkSystem {
  br : Bridge;
  wr : S;
  forwarders : gmap nat (string * fstate);
  notified : nat
}.

Inductive action :=
  | TrackSubscribed (t : nat) (mime sid : string)   (* goroutine [t] is started *)
  | TrackUnsubscribed (sid : string)
  | ReadPacket (t : nat) (p : Packet) (now : Z)     (* track.ReadRTP returns, rewrite *)
  | WritePacket (t : nat) (now : Z)                 (* b.conf.WriteToMeta *)
  | Settle (t : nat)                                (* the result of the write is handled *)
  | ReadError (t : nat) (e : error)
  | RoomDisconnected
  | ParticipantLeft (k : ParticipantKind)
  | MetaPacket (p : Packet) (now : Z)
  | CloseBridge.

Definition disconnected (y : system) : system :=
  mkSystem (closeDone (br y)) (wr y) (forwarders y)
    (if hasOnDisconnected (br y) then Datatypes.S (notified y) else notified y).

Definition step (y : system) (a : action) : option system :=
  match a with
  | TrackSubscribed t mime sid =>
      if decide (is_Some (forwarders y !! t)) then None
      else if EqualFold mime "audio/opus" then
        let '(b, ok) := forwardStart (br y) sid in
        Some (mkSystem b (wr y) (if ok then <[t := (sid, Reading)]> (forwarders y) else forwarders y)
                (notified y))
      else Some y
  | TrackUnsubscribed sid =>
      Some (mkSystem (releaseTrack (br y) sid) (wr y) (forwarders y) (notified y))
  | ReadPacket t p now =>
      match forwarders y !! t with
      | Some (sid, Reading) =>
          let '(b, q) := forwardRead (br y) p now in
          Some (mkSystem b (wr y) (<[t := (sid, Rewritten q)]> (forwarders y)) (notified y))
      | _ => None
      end
  | WritePacket t now =>
      match forwarders y !! t with
      | Some (sid, Rewritten q) =>
          let '(s, err) := write (wr y) q now in
          Some (mkSystem (br y) s (<[t := (sid, Written err)]> (forwarders y)) (notified y))
      | _ => None
      end
  | Settle t =>
      match forwarders y !! t with
      | Some (sid, Written err) =>
          let '(b, go) := forwardWrote (br y) err in
          if go then Some (mkSystem b (wr y) (<[t := (sid, Reading)]> (forwarders y)) (notified y))
          else Some (mkSystem (releaseTrack b sid) (wr y) (delete t (forwarders y)) (notified y))
      | _ => None
      end
  | ReadError t _ =>
      match forwarders y !! t with
      | Some (sid, Reading) =>
          Some (mkSystem (releaseTrack (br y) sid) (wr y) (delete t (forwarders y)) (notified y))
      | _ => None
      end
  | RoomDisconnected => Some (disconnected y)
  | ParticipantLeft k => Some (if endsCallOnDeparture k then disconnected y else y)
  | MetaPacket p now =>
      Some (mkSystem (fst (fst (WriteFromMeta (br y) p now None))) (wr y) (forwarders y) (notified y))
  | CloseBridge => Some (mkSystem (Close (br y)) (wr y) (forwarders y) (notified y))
  end.

Fixpoint run (y : system) (acts : list action) : option system :=
  match acts with
  | [] => Some y
  | a :: acts => match step y a with Some y' => run y' acts | None => None end
  end.

(** A connected bridge. *)
Definition connected (payload : Z) (cb : bool) (s : S) : system :=
  mkSystem (fst (Connect payload cb None None None None)) s ∅ 0.
End System.
Arguments system : clear implicits.

(** * What the packets of a run are *)

(** The packets read from the tracks, in order. *)
Definition readsOf (a : action) : list (Packet * Z) :=
  match a with ReadPacket _ p now => [(p, now)] | _ => [] end.
Definition reads (acts : list action) : list (Packet * Z) := concat (map readsOf acts).

Definition startOf (a : action) : nat :=
  match a with TrackSubscribed _ _ _ => 1 | _ => 0 end.
Definition starts (acts : list action) : nat := list_sum (map startOf acts).

Definition no_unsubscribe (a : action) : bool :=
  match a with
  | TrackUnsubscribed _ => false
  | TrackSubscribed _ _ sid => negb (String.eqb sid "")
  | _ => true
  end.


Lemma rewriteAll_app pt ps : forall qs r,
  rewriteAll r pt (ps ++ qs) =
  (fst (rewriteAll (fst (rewriteAll r pt ps)) pt qs),
   snd (rewriteAll r pt ps) ++ snd (rewriteAll (fst (rewriteAll r pt ps)) pt qs)).
Proof.
  induction ps as [|[p now] ps IH]; intros qs r; [simpl; by destruct (rewriteAll r pt qs)|].
  rewrite <- app_comm_cons, !rewriteAll_cons, IH. reflexivity.
Qed.

(** The account of one write: sent, dropped, failed, or fatal. *)
Inductive fate := Sent | Dropped | Failed | Fatal.

#[export] Instance fate_eq_dec : EqDecision fate.
Proof. solve_decision. Defined.

Definition fateOf (r : option error) : fate :=
  match r with
  | None => Sent
  | Some e => if isFatalWrite e then Fatal
              else if errors_Is e BridgeErrNotReady then Dropped else Failed
  end.

(** How many of these results have this fate. *)
Definition tally (f : fate) (l : list (option error)) : nat := length (filter (fun r => fateOf r = f) l).

Lemma tally_app f l k : tally f (l ++ k) = (tally f l + tally f k)%nat.
Proof. unfold tally. by rewrite filter_app, length_app. Qed.

Lemma tally_cons f r l : tally f (r :: l) = ((if decide (fateOf r = f) then 1 else 0) + tally f l)%nat.
Proof. unfold tally. rewrite filter_cons. by destruct (decide _). Qed.

#[export] Instance tally_perm f : Proper ((≡ₚ) ==> (=)) (tally f).
Proof. intros l k H. unfold tally. by rewrite H. Qed.

(** What the goroutines hold between two steps. *)
Section Collect.
Context {A : Type} (f : fstate -> list A).

Definition collect (fw : gmap nat (string * fstate)) : list A :=
  map_to_list fw ≫= (fun kx => f (snd (snd kx))).

Lemma collect_empty : collect ∅ = [].
Proof. reflexivity. Qed.

Lemma collect_insert fw t x : fw !! t = None -> collect (<[t := x]> fw) ≡ₚ f (snd x) ++ collect fw.
Proof. intros H. unfold collect. by rewrite map_to_list_insert. Qed.

Lemma collect_set fw t x : collect (<[t := x]> fw) ≡ₚ f (snd x) ++ collect (delete t fw).
Proof.
  rewrite <- insert_delete_eq. apply collect_insert. apply lookup_delete_eq.
Qed.

Lemma collect_at fw t x : fw !! t = Some x -> collect fw ≡ₚ f (snd x) ++ collect (delete t fw).
Proof. intros H. rewrite <- (insert_delete_id fw t x) at 1 by done. apply collect_insert. apply lookup_delete_eq. Qed.
End Collect.

Definition heldPacket (x : fstate) : list Packet := match x with Rewritten q => [q] | _ => [] end.
Definition heldResult (x : fstate) : list (option error) := match x with Written r => [r] | _ => [] end.


Section Forwarding.
Context {S : Type} {MW : MetaWriter S} {ML : MetaWriterLaws S}.

(** Rewritten packets not written yet, and results of writes not yet counted. *)
Definition inflight (y : system S) : list Packet := collect heldPacket (forwarders y).
Definition unsettled (y : system S) : list (option error) := collect heldResult (forwarders y).

Lemma forwardWrote_spec b r b' go :
  forwardWrote b r = (b', go) ->
  outbound b' = outbound b /\ confPayloadType b' = confPayloadType b /\ activeTrack b' = activeTrack b /\
  closeOnce b' = closeOnce b /\ doneCloses b' = doneCloses b /\
  hasOnDisconnected b' = hasOnDisconnected b /\
  go = (match fateOf r with Fatal => false | _ => true end) /\
  txPackets b' = (match fateOf r with Sent => u64 (txPackets b + 1) | _ => txPackets b end) /\
  txDropped b' = (match fateOf r with Dropped => u64 (txDropped b + 1) | _ => txDropped b end) /\
  txWriteErrors b' = (match fateOf r with Failed => u64 (txWriteErrors b + 1) | _ => txWriteErrors b end).
Proof.
  unfold forwardWrote, fateOf, countWriteFailure. destruct r as [e|]; [|intros; simplify_eq; by conjs].
  destruct (isFatalWrite e); [|destruct (errors_Is e BridgeErrNotReady)]; intros; simplify_eq; by conjs.
Qed.

Lemma releaseTrack_frame b sid :
  let b' := releaseTrack b sid in
  outbound b' = outbound b /\ confPayloadType b' = confPayloadType b /\ txPackets b' = txPackets b /\
  txDropped b' = txDropped b /\ txWriteErrors b' = txWriteErrors b /\ closeOnce b' = closeOnce b /\
  doneCloses b' = doneCloses b /\ hasOnDisconnected b' = hasOnDisconnected b.
Proof. unfold releaseTrack. destruct (String.eqb _ _); simpl; auto 10. Qed.

(** ** One forwarder at a time *)

(** Without unsubscriptions there is at most one loop, and it holds the active track. *)
Definition exclusive (y : system S) : Prop :=
  forall t x, forwarders y !! t = Some x ->
    fst x <> "" /\ activeTrack (br y) = fst x /\ delete t (forwarders y) = ∅.

Lemma exclusive_set y b s k t sid st st' :
  exclusive y -> forwarders y !! t = Some (sid, st) -> activeTrack b = activeTrack (br y) ->
  exclusive (mkSystem b s (<[t := (sid, st')]> (forwarders y)) k).
Proof.
  intros He Ht Ea u x Hu. simpl in *. destruct (He t _ Ht) as (H1 & H2 & H3). simpl in *.
  rewrite <- insert_delete_eq, H3 in Hu. rewrite Ea.
  apply lookup_insert_Some in Hu as [[<- <-]|[_ Hu]]; [|by rewrite lookup_empty in Hu].
  simpl. by rewrite delete_insert_eq, H3.
Qed.

Lemma exclusive_delete y b s k t x :
  exclusive y -> forwarders y !! t = Some x -> exclusive (mkSystem b s (delete t (forwarders y)) k).
Proof.
  intros He Ht u x' Hu. simpl in *. destruct (He t x Ht) as (_ & _ & H). rewrite H in Hu.
  by rewrite lookup_empty in Hu.
Qed.

Lemma exclusive_idle y : exclusive y -> activeTrack (br y) = "" -> forwarders y = ∅.
Proof.
  intros He Ha. apply map_empty. intros u. destruct (forwarders y !! u) as [x|] eqn:Eu; [|done].
  destruct (He u x Eu) as (? & ? & _). congruence.
Qed.

Lemma exclusive_start y s k t sid :
  exclusive y -> activeTrack (br y) = "" -> sid <> "" ->
  exclusive (mkSystem (set_active (br y) sid) s (<[t := (sid, Reading)]> (forwarders y)) k).
Proof.
  intros He Ha Hs u x Hu. simpl in *. rewrite (exclusive_idle y He Ha) in *.
  apply lookup_insert_Some in Hu as [[<- <-]|[_ Hu]]; [|by rewrite lookup_empty in Hu].
  simpl. by rewrite delete_insert_eq, delete_empty.
Qed.

(** What the only forwarder holds is all there is. *)
Lemma alone {A} (f : fstate -> list A) y t x x' :
  exclusive y -> forwarders y !! t = Some x -> (length (f (snd x)) <= 1)%nat -> (length (f (snd x')) <= 1)%nat ->
  collect f (forwarders y) = f (snd x) /\ collect f (<[t := x']> (forwarders y)) = f (snd x') /\
  collect f (delete t (forwarders y)) = [].
Proof.
  intros He Ht Hx Hx'. destruct (He t x Ht) as (_ & _ & Hd).
  assert (Hs : forall l k : list A, (length k <= 1)%nat -> l ≡ₚ k ++ [] -> l = k).
  { intros l k Hk Hp. rewrite app_nil_r in Hp. destruct k as [|a [|]]; simpl in Hk; [| |lia].
    - by apply Permutation_nil_r in Hp.
    - by apply Permutation_singleton_r in Hp. }
  pose proof (collect_at f _ _ _ Ht) as H1. pose proof (collect_set f (forwarders y) t x') as H2.
  rewrite Hd in *. rewrite collect_empty in *. auto.
Qed.

(** ** The totals of a run *)

(** [ps] was read, [out] was delivered, [lost] was not, the results [counted] are in
    the counters or ended their goroutine; [n] goroutines were started; [ok] says that
    no track was unsubscribed. *)
Record account (y : system S) (ps : list (Packet * Z)) (n : nat) (ok : bool) (r0 : rtpRebaser) (pt : Z)
    (d0 : list Packet) (out lost : list Packet) (counted : list (option error)) : Prop := {
  acc_reb : outbound (br y) = fst (rewriteAll r0 pt ps);
  acc_pt : confPayloadType (br y) = pt;
  acc_out : delivered (wr y) = d0 ++ out;
  acc_all : snd (rewriteAll r0 pt ps) ≡ₚ out ++ lost ++ inflight y;
  acc_sent : length out = tally Sent (counted ++ unsettled y);
  acc_lost : (length lost = tally Dropped (counted ++ unsettled y) + tally Failed (counted ++ unsettled y) +
    tally Fatal (counted ++ unsettled y))%nat;
  acc_tx : txPackets (br y) = u64 (Z.of_nat (tally Sent counted));
  acc_drop : txDropped (br y) = u64 (Z.of_nat (tally Dropped counted));
  acc_err : txWriteErrors (br y) = u64 (Z.of_nat (tally Failed counted));
  acc_fatal : (tally Fatal counted + size (forwarders y) <= n)%nat;
  acc_order : ok = true -> exclusive y /\ out ++ inflight y `sublist_of` snd (rewriteAll r0 pt ps)
}.

(** Actions that do not forward leave the totals alone. *)
Lemma account_frame y y' ps n n' ok ok' r0 pt d0 out lost counted :
  account y ps n ok r0 pt d0 out lost counted ->
  outbound (br y') = outbound (br y) -> confPayloadType (br y') = confPayloadType (br y) ->
  wr y' = wr y -> txPackets (br y') = txPackets (br y) -> txDropped (br y') = txDropped (br y) ->
  txWriteErrors (br y') = txWriteErrors (br y) ->
  inflight y' ≡ₚ inflight y -> unsettled y' ≡ₚ unsettled y ->
  (size (forwarders y') + n <= size (forwarders y) + n')%nat ->
  (ok' = true -> ok = true /\ (exclusive y -> exclusive y' /\ inflight y' = inflight y)) ->
  account y' ps n' ok' r0 pt d0 out lost counted.
Proof.
  intros [A1 A2 A3 A4 A5 A6 A7 A8 A9 A10 A11] E1 E2 E3 E4 E5 E6 E7 E8 E9 E10.
  split; try congruence; try lia.
  - by rewrite E7.
  - by rewrite E8.
  - by rewrite E8.
  - intros H. destruct (E10 H) as [Hok Hx]. destruct (A11 Hok) as [He Hs]. destruct (Hx He) as [? ->]. auto.
Qed.

Lemma u64_succ n : u64 (u64 (Z.of_nat n) + 1) = u64 (Z.of_nat (Datatypes.S n)).
Proof. rewrite Nat2Z.inj_succ. words. Qed.

Lemma account_read y t p now y' ps n ok r0 pt d0 out lost counted :
  account y ps n ok r0 pt d0 out lost counted -> step y (ReadPacket t p now) = Some y' ->
  account y' (ps ++ [(p, now)]) n ok r0 pt d0 out lost counted.
Proof.
  intros [A1 A2 A3 A4 A5 A6 A7 A8 A9 A10 A11] Hs. simpl in Hs.
  destruct (forwarders y !! t) as [[sid []]|] eqn:Et; try done.
  unfold forwardRead in Hs. rewrite A1, A2 in Hs.
  pose proof (rewriteAll_app pt ps [(p, now)] r0) as Hq. rewrite rewriteAll_cons in Hq. simpl in Hq.
  destruct (rewrite (fst (rewriteAll r0 pt ps)) p pt now) as [r q]. simpl in Hq. simplify_eq.
  pose proof (collect_at heldPacket _ _ _ Et) as C1. pose proof (collect_at heldResult _ _ _ Et) as C2.
  pose proof (collect_set heldPacket (forwarders y) t (sid, Rewritten q)) as C3.
  pose proof (collect_set heldResult (forwarders y) t (sid, Rewritten q)) as C4.
  assert (Hu : unsettled (mkSystem (set_outbound (br y) r) (wr y)
    (<[t:=(sid, Rewritten q)]> (forwarders y)) (notified y)) ≡ₚ unsettled y).
  { unfold unsettled. simpl. by rewrite C4, C2. }
  split; rewrite ?Hq; cbn [br wr forwarders fst snd]; try done; rewrite ?Hu; try done.
  - unfold inflight in *. cbn [forwarders]. rewrite C3, A4, C1. simpl.
    rewrite <- !app_assoc. apply Permutation_app_head, Permutation_app_head.
    rewrite Permutation_app_comm. done.
  - rewrite map_size_insert, Et. simpl. lia.
  - intros Hok. destruct (A11 Hok) as [He Hsub]. split; [by eapply exclusive_set|].
    destruct (alone heldPacket y t _ (sid, Rewritten q) He Et) as (E1 & E2 & _); [simpl; lia..|].
    unfold inflight in *. simpl in *. rewrite E2. rewrite E1, app_nil_r in Hsub. by apply sublist_app.
Qed.

Lemma account_write y t now y' ps n ok r0 pt d0 out lost counted :
  account y ps n ok r0 pt d0 out lost counted -> step y (WritePacket t now) = Some y' ->
  exists out' lost', account y' ps n ok r0 pt d0 out' lost' counted.
Proof.
  intros [A1 A2 A3 A4 A5 A6 A7 A8 A9 A10 A11] Hs. simpl in Hs.
  destruct (forwarders y !! t) as [[sid []]|] eqn:Et; try done.
  destruct (write (wr y) q now) as [s r] eqn:Ew. injection Hs as <-.
  pose proof (collect_at heldPacket _ _ _ Et) as C1. pose proof (collect_at heldResult _ _ _ Et) as C2.
  pose proof (collect_set heldPacket (forwarders y) t (sid, Written r)) as C3.
  pose proof (collect_set heldResult (forwarders y) t (sid, Written r)) as C4.
  assert (Ho : ok = true -> exclusive (mkSystem (br y) s (<[t:=(sid, Written r)]> (forwarders y)) (notified y)) /\
    collect heldPacket (<[t:=(sid, Written r)]> (forwarders y)) = [] /\
    out ++ [q] `sublist_of` snd (rewriteAll r0 pt ps)).
  { intros Hok. destruct (A11 Hok) as [He Hsub]. split; [by eapply exclusive_set|].
    destruct (alone heldPacket y t _ (sid, Written r) He Et) as (E1 & E2 & _); [simpl; lia..|].
    unfold inflight in Hsub. rewrite E1 in Hsub. done. }
  unfold inflight, unsettled in *. rewrite C2 in A5, A6. rewrite C1 in A4. simpl in A4, A5, A6, C3, C4.
  rewrite tally_app in A5. rewrite !tally_app in A6.
  assert (Hsz : size (<[t:=(sid, Written r)]> (forwarders y)) = size (forwarders y)).
  { by rewrite map_size_insert, Et. }
  destruct r as [e|]; [apply write_err in Ew; exists out, (lost ++ [q])|apply write_ok in Ew; exists (out ++ [q]), lost];
    (split; cbn [br wr forwarders]; unfold inflight, unsettled; cbn [forwarders];
     rewrite ?C3, ?C4, ?Hsz, ?Ew, ?A3, ?length_app, ?tally_app, ?tally_cons; try done; try (by rewrite app_assoc));
    rewrite ?A5, ?A6; simpl length.
  - rewrite A4, <- !app_assoc. done.
  - unfold fateOf. destruct (isFatalWrite e); [|destruct (errors_Is e BridgeErrNotReady)]; simpl; lia.
  - unfold fateOf. destruct (isFatalWrite e); [|destruct (errors_Is e BridgeErrNotReady)]; simpl; lia.
  - intros Hok. destruct (Ho Hok) as (He & -> & Hsub). split; [done|]. rewrite app_nil_r.
    etrans; [|exact Hsub]. by apply sublist_inserts_r.
  - rewrite A4, <- !app_assoc. apply Permutation_app_head. simpl.
    by rewrite Permutation_middle.
  - simpl. lia.
  - intros Hok. destruct (Ho Hok) as (He & -> & Hsub). split; [done|]. by rewrite app_nil_r.
Qed.

Lemma account_settle y t y' ps n ok r0 pt d0 out lost counted :
  account y ps n ok r0 pt d0 out lost counted -> step y (Settle t) = Some y' ->
  exists counted', account y' ps n ok r0 pt d0 out lost counted'.
Proof.
  intros [A1 A2 A3 A4 A5 A6 A7 A8 A9 A10 A11] Hs. simpl in Hs.
  destruct (forwarders y !! t) as [[sid [| |r]]|] eqn:Et; try done.
  destruct (forwardWrote (br y) r) as [b go] eqn:Ef.
  destruct (forwardWrote_spec _ _ _ _ Ef) as (F1 & F2 & F3 & _ & _ & _ & F4 & F5 & F6 & F7).
  destruct (releaseTrack_frame b sid) as (R1 & R2 & R3 & R4 & R5 & _).
  assert (Hpos : (0 < size (forwarders y))%nat).
  { destruct (size (forwarders y)) eqn:E0; [|lia]. apply map_size_empty_iff in E0. rewrite E0 in Et. done. }
  pose proof (collect_at heldPacket _ _ _ Et) as C1. pose proof (collect_at heldResult _ _ _ Et) as C2.
  pose proof (collect_set heldPacket (forwarders y) t (sid, Reading)) as C3.
  pose proof (collect_set heldResult (forwarders y) t (sid, Reading)) as C4. simpl in C1, C2, C3, C4.
  assert (Hc : counted ++ unsettled y ≡ₚ (counted ++ [r]) ++ collect heldResult (delete t (forwarders y))).
  { unfold unsettled. by rewrite C2, <- app_assoc. }
  exists (counted ++ [r]). unfold inflight in *. rewrite Hc in A5, A6. rewrite C1 in A4.
  assert (Hal : exclusive y -> collect heldPacket (forwarders y) = [] /\
    collect heldPacket (<[t:=(sid, Reading)]> (forwarders y)) = [] /\
    collect heldPacket (delete t (forwarders y)) = []).
  { intros He. apply (alone heldPacket y t _ (sid, Reading) He Et); simpl; lia. }
  assert (Htx : txPackets b = u64 (Z.of_nat (tally Sent (counted ++ [r]))) /\
    txDropped b = u64 (Z.of_nat (tally Dropped (counted ++ [r]))) /\
    txWriteErrors b = u64 (Z.of_nat (tally Failed (counted ++ [r])))).
  { rewrite F5, F6, F7, A7, A8, A9, !tally_app, !tally_cons. unfold tally at 2 5 8. simpl.
    destruct (fateOf r); simpl; rewrite ?u64_succ, ?Nat.add_0_r, ?Nat.add_1_r; auto. }
  destruct Htx as (T1 & T2 & T3).
  destruct go; simplify_eq; split; cbn [br wr forwarders]; unfold inflight, unsettled; cbn [forwarders];
    rewrite ?C3, ?C4, ?R1, ?R2, ?R3, ?R4, ?R5; try congruence; try done.
  - rewrite map_size_insert, Et. rewrite tally_app, tally_cons. simpl.
    destruct (fateOf r); simpl in *; try done; unfold tally at 2; simpl; lia.
  - intros Hok. destruct (A11 Hok) as [He Hsub]. destruct (Hal He) as (E1 & -> & _).
    rewrite E1 in Hsub. split; [by eapply exclusive_set|done].
  - rewrite map_size_delete, Et, tally_app, tally_cons. simpl. unfold tally at 2. simpl.
    destruct (fateOf r); simpl; lia.
  - intros Hok. destruct (A11 Hok) as [He Hsub]. destruct (Hal He) as (E1 & _ & ->).
    rewrite E1 in Hsub. split; [by eapply exclusive_delete|done].
Qed.

Lemma account_step y a y' ps n ok r0 pt d0 out lost counted :
  account y ps n ok r0 pt d0 out lost counted -> step y a = Some y' ->
  exists out' lost' counted', account y' (ps ++ readsOf a) (n + startOf a) (ok && no_unsubscribe a)
    r0 pt d0 out' lost' counted'.
Proof.
  intros Ha Hs. destruct a as [t mime sid|sid|t p now|t now|t|t e| |k|p now|];
    cbn [readsOf startOf no_unsubscribe]; rewrite ?app_nil_r, ?Nat.add_0_r, ?andb_true_r.
  3: by exists out, lost, counted; eapply account_read.
  3: destruct (account_write _ _ _ _ _ _ _ _ _ _ _ _ _ Ha Hs) as (out' & lost' & ?); by exists out', lost', counted.
  3: destruct (account_settle _ _ _ _ _ _ _ _ _ _ _ _ Ha Hs) as (c' & ?); by exists out, lost, c'.
  all: exists out, lost, counted; simpl in Hs.
  - destruct (decide _) as [|Ht]; [done|].
    assert (Hsame : account y ps (n + 1) (ok && negb (String.eqb sid "")) r0 pt d0 out lost counted).
    { eapply account_frame; [exact Ha|done..|lia|]. intros [? _]%andb_true_iff. auto. }
    destruct (EqualFold mime "audio/opus"); simplify_eq; [|done]. unfold forwardStart in Hs.
    destruct (String.eqb_spec (activeTrack (br y)) "") as [Ea|Ea]; simpl in Hs; simplify_eq; [|by destruct y].
    assert (Hn : forwarders y !! t = None) by (destruct (forwarders y !! t) eqn:E; [destruct Ht; eauto|done]).
    eapply account_frame; [exact Ha|done..| | | |]; unfold inflight, unsettled; simpl.
    + by rewrite collect_insert.
    + by rewrite collect_insert.
    + rewrite map_size_insert, Hn. simpl. lia.
    + intros [? Hsid%negb_true_iff]%andb_true_iff. split; [done|]. intros He.
      apply String.eqb_neq in Hsid. split; [by apply exclusive_start|].
      rewrite (exclusive_idle y He Ea). apply Permutation_nil_r. by rewrite collect_insert.
  - simplify_eq. destruct (releaseTrack_frame (br y) sid) as (? & ? & ? & ? & ? & _).
    rewrite andb_false_r. by eapply account_frame.
  - destruct (forwarders y !! t) as [[sid []]|] eqn:Et; try done. simplify_eq.
    destruct (releaseTrack_frame (br y) sid) as (? & ? & ? & ? & ? & _).
    eapply account_frame; [exact Ha|done..| | | |]; unfold inflight, unsettled; simpl.
    + by rewrite (collect_at heldPacket _ _ _ Et).
    + by rewrite (collect_at heldResult _ _ _ Et).
    + rewrite map_size_delete, Et. simpl. lia.
    + intros ?. split; [done|]. intros He. split; [by eapply exclusive_delete|].
      destruct (alone heldPacket y t _ (sid, Reading) He Et) as (-> & _ & ->); simpl; auto.
  - simplify_eq. eapply account_frame; [exact Ha|..]; try done; unfold disconnected, closeDone;
      simpl; by destruct (closeOnce (br y)).
  - destruct (endsCallOnDeparture k); simplify_eq; [|done].
    eapply account_frame; [exact Ha|..]; try done; unfold disconnected, closeDone;
      simpl; by destruct (closeOnce (br y)).
  - simplify_eq. unfold WriteFromMeta. destruct (negb _); [by destruct y|].
    eapply account_frame; [exact Ha|..]; simpl; try done; by destruct (rewrite _ p _ now).
  - simplify_eq. unfold Close, closeDone.
    eapply account_frame; [exact Ha|..]; try done; simpl;
      destruct (closeOnce (br y)); simpl; by destruct (room (br y)).
Qed.

Lemma account_run acts : forall y y' ps n ok r0 pt d0 out lost counted,
  account y ps n ok r0 pt d0 out lost counted -> run y acts = Some y' ->
  exists out' lost' counted', account y' (ps ++ reads acts) (n + starts acts)
    (ok && forallb no_unsubscribe acts) r0 pt d0 out' lost' counted'.
Proof.
  induction acts as [|a acts IH]; intros y y' ps n ok r0 pt d0 out lost counted Ha Hr; simpl in Hr.
  - simplify_eq. exists out, lost, counted. unfold reads, starts. simpl.
    by rewrite app_nil_r, Nat.add_0_r, andb_true_r.
  - destruct (step y a) as [y1|] eqn:E; [|done].
    destruct (account_step _ _ _ _ _ _ _ _ _ _ _ _ Ha E) as (o1 & l1 & c1 & H1).
    destruct (IH _ _ _ _ _ _ _ _ _ _ _ H1 Hr) as (o2 & l2 & c2 & H2).
    exists o2, l2, c2. unfold reads, starts in *. simpl.
    by rewrite app_assoc, Nat.add_assoc, andb_assoc.
Qed.

Lemma account_connected payload cb s :
  account (connected payload cb s) [] 0 true (zeroRebaser false) payload (delivered s) [] [] [].
Proof.
  split; try done; by rewrite app_nil_r.
Qed.
End Forwarding.

(** The bridge ends: the room disconnects, the agent leaves, or it is closed. *)
Definition notifies (a : action) : bool :=
  match a with RoomDisconnected => true | ParticipantLeft k => endsCallOnDeparture k | _ => false end.
Definition ending (a : action) : bool :=
  notifies a || match a with CloseBridge => true | _ => false end.

(** What holds of the writer and is kept by a write holds throughout. *)
Lemma run_writer_inv {S} `{MetaWriter S} (P : S -> Prop) acts :
  (forall s p now, P s -> P (fst (write s p now))) ->
  forall y y', run y acts = Some y' -> P (wr y) -> P (wr y').
Proof.
  intros Hw. induction acts as [|a acts IH]; intros y y' Hr Hp; simpl in Hr; [by simplify_eq|].
  destruct (step y a) as [y1|] eqn:E; [|done]. eapply IH; [exact Hr|]. clear IH Hr.
  destruct a as [t mime sid|sid|t p now|t now|t|t e| |k|p now|]; simpl in E; try (by simplify_eq);
    try (destruct (forwarders y !! t) as [[sid []]|]; try done; by simplify_eq).
  - destruct (decide _); [done|]. destruct (EqualFold _ _); [|by simplify_eq].
    destruct (forwardStart _ _); by simplify_eq.
  - destruct (forwarders y !! t) as [[sid []]|]; try done. destruct (forwardRead _ p now); by simplify_eq.
  - destruct (forwarders y !! t) as [[sid []]|]; try done. specialize (Hw (wr y) q now Hp).
    destruct (write (wr y) q now); by simplify_eq.
  - destruct (forwarders y !! t) as [[sid []]|]; try done. destruct (forwardWrote _ err) as [b []]; by simplify_eq.
  - destruct (endsCallOnDeparture k); by simplify_eq.
Qed.

Section Properties.
Context {S : Type} {MW : MetaWriter S} {ML : MetaWriterLaws S}.


(** A transient failure costs one packet, not the call's agent audio: a
    forwarding goroutine ends only when its track's read fails or when the write
    reported that the media path is gone; in particular a write refused because
    Meta's side is not up yet, or a failed send, leaves it running. *)
Theorem forwarder_ends_only_on_fatal (y y' : system S) a t sid st :
  step y a = Some y' -> forwarders y !! t = Some (sid, st) -> forwarders y' !! t = None ->
  (exists e, a = ReadError t e) \/
  (exists e, a = Settle t /\ st = Written (Some e) /\
     isFatalWrite e = true /\ errors_Is e BridgeErrNotReady = false).
Proof.
  intros Hs Ht Hn. destruct a as [u mime sid'|sid'|u p now|u now|u|u e| |k|p now|]; simpl in Hs;
    try (by simplify_eq; simpl in Hn; congruence).
  - destruct (decide _) as [|Hu]; [done|]. destruct (EqualFold _ _); [|congruence].
    destruct (forwardStart _ _) as [b []]; simplify_eq; simpl in Hn; [|congruence].
    apply lookup_insert_None in Hn as [? _]. congruence.
  - destruct (forwarders y !! u) as [[sid' []]|]; try done. destruct (forwardRead _ p now). simplify_eq.
    simpl in Hn. apply lookup_insert_None in Hn as [? _]. congruence.
  - destruct (forwarders y !! u) as [[sid' []]|]; try done. destruct (write _ q now). simplify_eq.
    simpl in Hn. apply lookup_insert_None in Hn as [? _]. congruence.
  - destruct (forwarders y !! u) as [[sid' [| |r]]|] eqn:Eu; try done.
    destruct (forwardWrote (br y) r) as [b []] eqn:Ef; simplify_eq; simpl in Hn.
    { apply lookup_insert_None in Hn as [? _]. congruence. }
    apply lookup_delete_None in Hn as [<-|?]; [|congruence]. simplify_eq. right.
    unfold forwardWrote in Ef. destruct r as [e|]; [|done]. destruct (isFatalWrite e) eqn:Ee; [|done].
    exists e. conjs; auto. revert Ee. clear. unfold isFatalWrite. induction e; simpl; auto.
    destruct s; simpl; auto.
  - destruct (forwarders y !! u) as [[sid' []]|] eqn:Eu; try done. simplify_eq. simpl in Hn.
    apply lookup_delete_None in Hn as [<-|?]; [eauto|congruence].
  - destruct (endsCallOnDeparture k); simplify_eq; simpl in Hn; congruence.
Qed.

(** The agent's voice has one source: as long as no track is unsubscribed, at
    most one forwarding goroutine is in its loop, and it holds the active track. *)
Theorem one_forwarder payload cb s acts (y : system S) t u x :
  run (connected payload cb s) acts = Some y -> forallb no_unsubscribe acts = true ->
  forwarders y !! t = Some x -> is_Some (forwarders y !! u) -> u = t /\ activeTrack (br y) = fst x.
Proof.
  intros Hr Hno Ht [x' Hu].
  destruct (account_run _ _ _ _ _ _ _ _ _ _ _ _ (account_connected payload cb s) Hr) as (o & l & c & Ha).
  destruct (acc_order _ _ _ _ _ _ _ _ _ _ Ha Hno) as [He _].
  destruct (He t x Ht) as (_ & Hact & Hd). split; [|done]. destruct (decide (u = t)) as [|Hne]; [done|].
  assert (E : delete t (forwarders y) !! u = Some x') by (by rewrite lookup_delete_ne).
  by rewrite Hd, lookup_empty in E.
Qed.

Lemma ending_step (y y' : system S) a :
  step y a = Some y' ->
  hasOnDisconnected (br y') = hasOnDisconnected (br y) /\
  closeOnce (br y') = closeOnce (br y) || ending a /\
  doneCloses (br y') = (doneCloses (br y) + if negb (closeOnce (br y)) && ending a then 1 else 0)%nat /\
  notified y' = (notified y + if hasOnDisconnected (br y) && notifies a then 1 else 0)%nat.
Proof.
  unfold ending.
  assert (Hd : forall y0 : system S, let y' := disconnected y0 in
    hasOnDisconnected (br y') = hasOnDisconnected (br y0) /\ closeOnce (br y') = true /\
    doneCloses (br y') = (doneCloses (br y0) + if negb (closeOnce (br y0)) then 1 else 0)%nat /\
    notified y' = (notified y0 + if hasOnDisconnected (br y0) then 1 else 0)%nat).
  { intros y0. unfold disconnected, closeDone. simpl.
    destruct (closeOnce (br y0)) eqn:E, (hasOnDisconnected (br y0)); simpl; conjs; auto; lia. }
  intros Hs. destruct a as [t mime sid|sid|t p now|t now|t|t e| |k|p now|]; simpl in *;
    rewrite ?orb_false_r, ?orb_true_r, ?andb_false_r, ?andb_true_r, ?Nat.add_0_r.
  - destruct (decide _); [done|]. destruct (EqualFold _ _); simplify_eq; auto.
    unfold forwardStart in Hs. destruct (negb _); simplify_eq; auto.
  - simplify_eq. destruct (releaseTrack_frame (br y) sid) as (_ & _ & _ & _ & _ & ? & ? & ?). auto.
  - destruct (forwarders y !! t) as [[sid []]|]; try done. unfold forwardRead in Hs.
    destruct (rewrite _ p _ now). simplify_eq. auto.
  - destruct (forwarders y !! t) as [[sid []]|]; try done. destruct (write _ q now). simplify_eq. auto.
  - destruct (forwarders y !! t) as [[sid [| |r]]|]; try done.
    destruct (forwardWrote (br y) r) as [b go] eqn:Ef.
    destruct (forwardWrote_spec _ _ _ _ Ef) as (_ & _ & _ & F1 & F2 & F3 & _).
    destruct (releaseTrack_frame b sid) as (_ & _ & _ & _ & _ & R1 & R2 & R3).
    destruct go; simplify_eq; simpl; rewrite ?R1, ?R2, ?R3; auto.
  - destruct (forwarders y !! t) as [[sid []]|]; try done. simplify_eq.
    destruct (releaseTrack_frame (br y) sid) as (_ & _ & _ & _ & _ & ? & ? & ?). auto.
  - simplify_eq. apply Hd.
  - destruct (endsCallOnDeparture k); simplify_eq; simpl;
      rewrite ?orb_false_r, ?orb_true_r, ?andb_false_r, ?andb_true_r, ?Nat.add_0_r; auto.
  - simplify_eq. unfold WriteFromMeta. simpl. destruct (negb _); auto.
    destruct (rewrite _ p _ now); auto.
  - simplify_eq. unfold Close, closeDone. simpl.
    destruct (closeOnce (br y)) eqn:E; simpl; destruct (room (br y)); simpl; conjs; auto; lia.
Qed.

Lemma ending_run acts : forall y y' : system S,
  run y acts = Some y' ->
  doneCloses (br y') = (doneCloses (br y) + if negb (closeOnce (br y)) && existsb ending acts then 1 else 0)%nat /\
  notified y' = (notified y + if hasOnDisconnected (br y)
                              then list_sum (map (fun a => if notifies a then 1 else 0) acts) else 0)%nat.
Proof.
  induction acts as [|a acts IH]; intros y y' Hr; simpl in Hr.
  - simplify_eq. simpl. rewrite andb_false_r. destruct (hasOnDisconnected (br y')); lia.
  - destruct (step y a) as [y1|] eqn:E; [|done].
    destruct (ending_step _ _ _ E) as (E1 & E2 & E3 & E4).
    destruct (IH _ _ Hr) as [H1 H2]. rewrite H1, H2, E1, E2, E3, E4. simpl.
    destruct (closeOnce (br y)), (ending a), (existsb ending acts), (hasOnDisconnected (br y)),
      (notifies a); simpl; lia.
Qed.

(** The end of the bridge is signalled once: the done channel is closed exactly
    when the room disconnected, the agent left or the bridge was closed, and never
    twice (which would panic), however often these happen; the call is notified at
    each disconnection, and never because another kind of participant left. *)
Theorem bridge_end_signalled_once payload cb s acts (y : system S) :
  run (connected payload cb s) acts = Some y ->
  doneCloses (br y) = (if existsb ending acts then 1 else 0)%nat /\
  notified y = (if cb then list_sum (map (fun a => if notifies a then 1 else 0) acts) else 0)%nat.
Proof. intros Hr. apply ending_run in Hr. exact Hr. Qed.
End Properties.

(** * Witnesses *)

(** A writer that is ready from time 10 on. *)
#[local] Instance test_writer : MetaWriter (list Packet) := {
  write s p now := if now <? 10 then (s, Some (Sentinel BridgeErrNotReady)) else (s ++ [p], None);
  delivered s := s
}.
#[local] Instance test_writer_laws : MetaWriterLaws (list Packet).
Proof.
  split; intros s p now s'; simpl; destruct (now <? 10); intros; simplify_eq; done.
Defined.

(** Two packets of one track, the first before Meta is ready; another track after it. *)
Definition test_run : list action :=
  [TrackSubscribed 1 "audio/OPUS" "TR_a"; ReadPacket 1 (pkt 7 100 960) 5; TrackSubscribed 2 "audio/opus" "TR_b";
   WritePacket 1 6; Settle 1; ReadPacket 1 (pkt 7 101 1920) 12; WritePacket 1 12; ParticipantLeft (OtherKind 0);
   Settle 1; ReadError 1 (Sentinel EOF); TrackSubscribed 3 "audio/opus" "TR_c"; ReadPacket 3 (pkt 9 5 0) 13;
   WritePacket 3 14; Settle 3; RoomDisconnected; CloseBridge].

Definition test_end : system (list Packet) := default (connected 111 true []) (run (connected 111 true []) test_run).

Example test_run_result :
  map SequenceNumber (wr test_end) = [101; 102] /\ bridgeStats (br test_end) = mkStats 2 1 0 0 /\
  doneCloses (br test_end) = 1%nat /\ notified test_end = 1%nat.
Proof. vm_compute. auto. Qed.

(** After an unsubscription two goroutines can overlap and deliver out of order. *)
Example overlap_reorders :
  let acts := [TrackSubscribed 1 "audio/opus" "TR_a"; TrackUnsubscribed "TR_a"; TrackSubscribed 2 "audio/opus" "TR_b";
    ReadPacket 1 (pkt 7 100 960) 20; ReadPacket 2 (pkt 7 101 1920) 20; WritePacket 2 20; WritePacket 1 20] in
  map SequenceNumber (wr (default test_end (run (connected 111 true []) acts))) = [101; 100].
Proof. vm_compute. reflexivity. Qed.


Definition ended_early : system (list Packet) :=
  default (connected 111 true []) (run (connected 111 true []) (take 9 test_run)).

Lemma forwarder_ends_only_on_fatal_witness :
  let y' := default ended_early (step ended_early (ReadError 1 (Sentinel EOF))) in
  (exists e, ReadError 1 (Sentinel EOF) = ReadError 1 e) \/
  (exists e, ReadError 1 (Sentinel EOF) = Settle 1 /\ Reading = Written (Some e) /\
     isFatalWrite e = true /\ errors_Is e BridgeErrNotReady = false).
Proof.
  intros y'.
  apply (forwarder_ends_only_on_fatal ended_early y' (ReadError 1 (Sentinel EOF)) 1 "TR_a");
    vm_compute; reflexivity.
Defined.

Lemma one_forwarder_witness :
  forwarders ended_early !! 1%nat = Some ("TR_a", Reading) /\ activeTrack (br ended_early) = "TR_a".
Proof.
  split; [vm_compute; reflexivity|].
  refine (proj2 (one_forwarder 111 true [] (take 9 test_run) ended_early 1 1 ("TR_a", Reading) _ _ _ _));
    try (vm_compute; reflexivity). eexists. vm_compute. reflexivity.
Defined.

Lemma bridge_end_signalled_once_witness :
  run (connected 111 true []) test_run = Some test_end /\ doneCloses (br test_end) = 1%nat.
Proof.
  split; [vm_compute; reflexivity|].
  apply (bridge_end_signalled_once 111 true [] test_run test_end). vm_compute. reflexivity.
Defined.
