(* ===== verification/MetaPath.v ===== *)
(** The path of agent audio from the bridge to Meta: [Call.writeToMeta]
    (internal/call/manager.go) on top of [Transport.TryWriteRTP]. It implements the
    interface the bridge is verified against, so the two can be composed. *)
From S2P Require Import Prelude Errors Rtp RtpStats Rebase.
From S2P Require Import Media Bridge.

Local Open Scope Z_scope.

(** What a transport is at one moment, for the write path: its session and codec, the
    ready channel, [t.err] and whether the SRTP session is published. *)
Record transportView := mkView {
  v_ops : Media.srtpOps; v_ready : bool; v_err : option error; v_srtp : bool
}.

(** The call as [writeToMeta] sees it. The answer and the transport are installed by
    other goroutines, so what is seen depends on the moment of the call. [wireOut] is
    what was handed to the SRTP session. *)
Record metaPath := mkPath {
  outboundCall : bool;
  answerReady : Z -> bool;
  transportAt : Z -> option transportView;
  out : Media.outbound;
  wireOut : list Packet
}.

(** [writeToMeta] *)
Definition writeToMeta (c : metaPath) (p : Packet) (now : Z) : metaPath * option error :=
  if outboundCall c && negb (answerReady c now) then (c, Some (Sentinel BridgeErrNotReady))
  else match transportAt c now with
  | None => (c, Some (Sentinel BridgeErrNotReady))
  | Some v =>
      let '(o, err) := Media.TryWriteRTP (v_ops v) (v_ready v) (v_err v) (v_srtp v) (out c) p now in
      let sent := match err with None => wireOut c ++ [p] | Some _ => wireOut c end in
      let c := mkPath (outboundCall c) (answerReady c) (transportAt c) o sent in
      match err with
      | Some e => if errors_Is e MediaErrNotReady then (c, Some (Sentinel BridgeErrNotReady)) else (c, Some e)
      | None => (c, None)
      end
  end.

#[export] Instance metaPath_writer : Bridge.MetaWriter metaPath := {
  Bridge.write := writeToMeta;
  Bridge.delivered := wireOut
}.

#[export] Instance metaPath_laws : Bridge.MetaWriterLaws metaPath.
Proof.
  split; intros c p now c'; simpl; unfold writeToMeta; destruct (_ && _); intros;
    try (by simplify_eq); destruct (transportAt c now) as [v|]; try (by simplify_eq);
    destruct (Media.TryWriteRTP _ _ _ _ _ _ _) as [o [err|]]; try (by simplify_eq);
    destruct (errors_Is err MediaErrNotReady) eqn:E; by simplify_eq.
Qed.

(** The transport's packet counter counts what was handed to the session. *)
Definition counted (c : metaPath) : Prop :=
  packets (Media.tx (out c)) = u32 (Z.of_nat (length (wireOut c))).

Lemma counted_write c p now : counted c -> counted (fst (writeToMeta c p now)).
Proof.
  unfold counted, writeToMeta. intros H. destruct (_ && _); [done|].
  destruct (transportAt c now) as [v|]; [|done].
  pose proof (Media.TryWriteRTP_counts (v_ops v) (v_ready v) (v_err v) (v_srtp v) (out c) p now) as Hc.
  destruct (Media.TryWriteRTP _ _ _ _ _ _ _) as [o [err|]]; simpl in Hc.
  - destruct (errors_Is err MediaErrNotReady); simpl; by rewrite Hc.
  - simpl. rewrite Hc. simpl. rewrite H, length_app. simpl. words.
Qed.

(** The media path is not up at this moment: an outbound call without an answer, no
    transport yet, or a transport whose set-up has not ended. *)
Definition notReady (c : metaPath) (now : Z) : Prop :=
  (outboundCall c = true /\ answerReady c now = false) \/ transportAt c now = None \/
  exists v, transportAt c now = Some v /\ v_ready v = false.

Lemma notReady_write c q now :
  notReady c now ->
  exists c', writeToMeta c q now = (c', Some (Sentinel BridgeErrNotReady)) /\
    wireOut c' = wireOut c /\ out c' = out c.
Proof.
  unfold writeToMeta. intros [[-> ->]|[->|(v & -> & Hv)]]; [by exists c| |].
  - destruct (_ && _); by exists c.
  - unfold Media.TryWriteRTP. rewrite Hv. destruct (_ && _); [by exists c|]. simpl. eexists.
    split; [reflexivity|done].
Qed.

(** What the call sees of its answer and its transport is not the writer's to change. *)
Lemma write_view c p now :
  let c' := fst (writeToMeta c p now) in
  outboundCall c' = outboundCall c /\ answerReady c' = answerReady c /\ transportAt c' = transportAt c.
Proof.
  unfold writeToMeta. destruct (_ && _); [done|]. destruct (transportAt c now) as [v|] eqn:E; [|done].
  destruct (Media.TryWriteRTP _ _ _ _ _ _ _) as [o [e|]]; [destruct (errors_Is e MediaErrNotReady)|]; done.
Qed.

(** C33. The bridge on top of the call's write path: for every run, whatever the state
    of the transport at each packet, the bridge's sent counter (with the writes whose
    result is not noted yet) and the transport's packet counter agree with each other
    (modulo their widths) and with the packets handed to the SRTP session. A packet
    that meets a media path that is not up (an outbound call without an answer, no
    transport, or a transport still in its set-up) is not handed on, is counted once
    as dropped and not as a failed write, and its goroutine goes on. *)
Theorem bridge_and_transport_agree payload cb isOut answered transp acts y :
  let c0 := mkPath isOut answered transp (Media.mkOutbound zeroTx false) [] in
  Bridge.run (Bridge.connected payload cb c0) acts = Some y ->
  packets (Media.tx (out (Bridge.wr y))) = u32 (Z.of_nat (length (wireOut (Bridge.wr y)))) /\
  (exists k, length (wireOut (Bridge.wr y)) = (k + tally Sent (unsettled y))%nat /\
     Bridge.txPackets (Bridge.br y) = u64 (Z.of_nat k)) /\
  (forall t sid q now, Bridge.forwarders y !! t = Some (sid, Rewritten q) ->
     (isOut = true /\ answered now = false) \/ transp now = None \/
       (exists v, transp now = Some v /\ v_ready v = false) ->
     exists y', Bridge.run y [WritePacket t now; Settle t] = Some y' /\
       wireOut (Bridge.wr y') = wireOut (Bridge.wr y) /\
       packets (Media.tx (out (Bridge.wr y'))) = packets (Media.tx (out (Bridge.wr y))) /\
       Bridge.txDropped (Bridge.br y') = u64 (Bridge.txDropped (Bridge.br y) + 1) /\
       Bridge.txWriteErrors (Bridge.br y') = Bridge.txWriteErrors (Bridge.br y) /\
       Bridge.forwarders y' !! t = Some (sid, Reading)).
Proof.
  intros c0 Hr. conjs.
  - refine (Bridge.run_writer_inv counted acts counted_write _ _ Hr _). reflexivity.
  - destruct (Bridge.account_run _ _ _ _ _ _ _ _ _ _ _ _ (Bridge.account_connected payload cb c0) Hr)
      as (o & lost & cnt & Ha). exists (tally Sent cnt).
    destruct Ha as [_ _ H3 _ H5 _ H7 _ _ _ _]. simpl in H3. rewrite H3, H5, tally_app. auto.
  - assert (Hfix : outboundCall (Bridge.wr y) = isOut /\ answerReady (Bridge.wr y) = answered /\
        transportAt (Bridge.wr y) = transp).
    { refine (Bridge.run_writer_inv (fun c => outboundCall c = isOut /\ answerReady c = answered /\
        transportAt c = transp) acts _ _ _ Hr _); [|done].
      intros c p now (<- & <- & <-). apply write_view. }
    destruct Hfix as (E1 & E2 & E3). intros t sid q now Ht Hn.
    assert (Hn' : notReady (Bridge.wr y) now) by (unfold notReady; by rewrite E1, E2, E3).
    destruct (notReady_write _ q now Hn') as (c' & Ew & H1 & H2).
    cbn [Bridge.run Bridge.step]. rewrite Ht. unfold Bridge.write at 1. simpl. rewrite Ew. simpl.
    rewrite lookup_insert_eq. simpl. eexists. split; [reflexivity|]. simpl. rewrite lookup_insert_eq.
    conjs; congruence.
Qed.

(** A transport that becomes ready at time 10. *)
Definition demoOps : Media.srtpOps := Media.mkSrtpOps None (fun p => inr (Payload p)) (fun _ => None).
Definition demoView (now : Z) : option transportView :=
  if now <? 5 then None else Some (mkView demoOps (10 <=? now) None true).
Definition demoPath : metaPath := mkPath true (fun now => 5 <=? now) demoView (Media.mkOutbound zeroTx false) [].
Definition demoActs : list Bridge.action :=
  [TrackSubscribed 1 "audio/opus" "TR"; ReadPacket 1 (pkt 7 1 0) 1; WritePacket 1 1; Settle 1;
   ReadPacket 1 (pkt 7 2 960) 7; WritePacket 1 7; Settle 1;
   ReadPacket 1 (pkt 7 3 1920) 12; WritePacket 1 12; Settle 1].
Definition demoEnd : Bridge.system metaPath :=
  default (Bridge.connected 111 true demoPath) (Bridge.run (Bridge.connected 111 true demoPath) demoActs).

Lemma bridge_and_transport_agree_witness :
  Bridge.bridgeStats (Bridge.br demoEnd) = Bridge.mkStats 1 2 0 0 /\
  packets (Media.tx (out (Bridge.wr demoEnd))) = 1.
Proof.
  split; [vm_compute; reflexivity|].
  destruct (bridge_and_transport_agree 111 true true (fun now => 5 <=? now) demoView demoActs demoEnd)
    as [H _]; [vm_compute; reflexivity|].
  rewrite H. vm_compute. reflexivity.
Defined.
