(* ===== verification/Receive.v ===== *)
(** Meta's audio on its way to the room: the goroutine that [Call.connected]
    (internal/call/manager.go) starts, between the inbound pump of the transport
    ([Media]) and the bridge ([Bridge]), with all of them interleaving. *)
From S2P Require Import Prelude Errors Rtp Rebase.
From S2P Require Media Bridge.

Local Open Scope Z_scope.

(** The goroutine: at [ReadRTP], at [WriteFromMeta] with the packet it read, or
    returned. *)
Inductive loop_pc := AtRead | AtWrite (p : Packet) | Returned.

Section Receive.
Context {S : Type} {MW : Bridge.MetaWriter S}.

(** [errCh] is the channel of capacity one that [awaitEnd] listens to; [wrote] are the
    packets passed to [WriteFromMeta] on a published track with their times, and
    [toTrack] what the bridge handed to the track. *)
Record receiver := mkReceiver {
  pm : Media.pump;
  hs : Media.phist;
  bs : Bridge.system S;
  lpc : loop_pc;
  errCh : list error;
  wrote : list (Packet * Z);
  toTrack : list Packet
}.

Inductive raction :=
  | RPump (a : Media.pump_action)
  | RRead (e : Media.readEnv) (c : Media.readCase)
  | RWrite (now : Z) (werr : option error)
  | RBridge (a : Bridge.action).

Definition set_bridge (y : Bridge.system S) (b : Bridge.Bridge) : Bridge.system S :=
  Bridge.mkSystem b (Bridge.wr y) (Bridge.forwarders y) (Bridge.notified y).

Definition loopStep (r : receiver) (a : raction) : option receiver :=
  match a with
  | RPump Media.Consume => None
  | RPump a =>
      match Media.pumpStep (pm r) a with
      | Some (m, out) =>
          Some (mkReceiver m (Media.plog (pm r) (hs r) a out) (bs r) (lpc r) (errCh r) (wrote r) (toTrack r))
      | None => None
      end
  | RRead e c =>
      match lpc r with
      | AtRead =>
          match Media.ReadRTP e (Media.inb (pm r)) c with
          | Some (st, inr p) =>
              Some (mkReceiver (Media.mkPump st (Media.streams (pm r)))
                      (Media.plog (pm r) (hs r) Media.Consume (Some p)) (bs r) (AtWrite p) (errCh r)
                      (wrote r) (toTrack r))
          | Some (_, inl err) =>
              Some (mkReceiver (pm r) (hs r) (bs r) Returned (errCh r ++ [err]) (wrote r) (toTrack r))
          | None => None
          end
      | _ => None
      end
  | RWrite now werr =>
      match lpc r with
      | AtWrite p =>
          let '(b, err, q) := Bridge.WriteFromMeta (Bridge.br (bs r)) p now werr in
          let '(w, t) := match q with
                         | Some q => (wrote r ++ [(p, now)], toTrack r ++ [q])
                         | None => (wrote r, toTrack r)
                         end in
          Some (match err with
                | Some e => mkReceiver (pm r) (hs r) (set_bridge (bs r) b) Returned (errCh r ++ [e]) w t
                | None => mkReceiver (pm r) (hs r) (set_bridge (bs r) b) AtRead (errCh r) w t
                end)
      | _ => None
      end
  | RBridge (Bridge.MetaPacket _ _) => None
  | RBridge a =>
      match Bridge.step (bs r) a with
      | Some y => Some (mkReceiver (pm r) (hs r) y (lpc r) (errCh r) (wrote r) (toTrack r))
      | None => None
      end
  end.

Fixpoint loopRun (r : receiver) (acts : list raction) : option receiver :=
  match acts with
  | [] => Some r
  | a :: acts => match loopStep r a with Some r' => loopRun r' acts | None => None end
  end.

(** A connected call: nothing received yet, the bridge as [Connect] left it. *)
Definition callStart (payload : Z) (cb : bool) (s : S) : receiver :=
  mkReceiver Media.newPump Media.pstart (Bridge.connected payload cb s) AtRead [] [] [].

(** The packet with its own payload type, as [WriteFromMeta] asks for. *)
Definition with_pt (q : Packet) (x : Packet * Z) : Packet :=
  mkPacket (PayloadType (fst x)) (SequenceNumber q) (Timestamp q) (SSRC q)
    (Extension q) (ExtensionProfile q) (Extensions q) (Payload q).

Definition keeping (r : rtpRebaser) : rtpRebaser :=
  mkRebaser (started r) (outSSRC r) (srcSSRC r) (seqOff r) (tsOff r) (lastInSeq r)
    (lastOutSeq r) (lastOutTS r) (lastAt r) true.

Lemma keeping_id r : keepExtensions r = true -> keeping r = r.
Proof. destruct r; simpl; by intros ->. Qed.

(** The payload type has no influence on the rebaser. *)
Lemma rewrite_pt r p pt pt' now :
  fst (rewrite r p pt now) = fst (rewrite r p pt' now) /\
  (keepExtensions r = true -> keepExtensions (fst (rewrite r p pt now)) = true) /\
  snd (rewrite r p (PayloadType p) now) = with_pt (snd (rewrite r p pt now)) (p, now).
Proof.
  unfold rewrite. destruct (seqNewer _ (lastOutSeq _)); simpl; conjs; try done;
    try (by destruct (keepExtensions (rebase r p now)));
    intros E; unfold rebase; destruct (negb (started r)), (sourceChanged r p); done.
Qed.

Lemma rewriteAll_snoc r pt ps x :
  rewriteAll r pt (ps ++ [x]) =
  let '(r1, qs) := rewriteAll r pt ps in
  let '(r2, q) := rewrite r1 (fst x) pt (snd x) in (r2, qs ++ [q]).
Proof.
  rewrite Bridge.rewriteAll_app. destruct (rewriteAll r pt ps) as [r1 qs]. destruct x as [p now].
  simpl. by destruct (rewrite r1 p pt now).
Qed.

Lemma rewriteAll_length r pt ps : length (snd (rewriteAll r pt ps)) = length ps.
Proof.
  revert r. induction ps as [|[p now] ps IH]; intros r; [done|]. rewrite rewriteAll_cons. simpl.
  by rewrite IH.
Qed.

Definition inhand (p : loop_pc) : list Packet := match p with AtWrite p => [p] | _ => [] end.

(** The account of the packets. *)
Record receive_ok (r : receiver) : Prop := {
  ro_pump : Media.pump_inv (pm r) (hs r);
  ro_track : Bridge.local (Bridge.br (bs r)) = true;
  ro_in : Media.delivered (hs r) = map fst (wrote r) ++ inhand (lpc r);
  ro_reb : keeping (Bridge.inbound (Bridge.br (bs r))) = fst (rewriteAll (zeroRebaser true) 0 (wrote r));
  ro_out : toTrack r = zip_with with_pt (snd (rewriteAll (zeroRebaser true) 0 (wrote r))) (wrote r);
  ro_count : Bridge.rxPackets (Bridge.br (bs r)) = u64 (Z.of_nat (length (wrote r)));
  ro_err : length (errCh r) = match lpc r with Returned => 1%nat | _ => 0%nat end
}.

Lemma start_ok payload cb s : receive_ok (callStart payload cb s).
Proof. split; try reflexivity. apply Media.pump_inv_new. Qed.

Lemma bridge_step_frame y a y' :
  (forall p now, a <> Bridge.MetaPacket p now) -> Bridge.step y a = Some y' ->
  Bridge.local (Bridge.br y') = Bridge.local (Bridge.br y) /\
  Bridge.inbound (Bridge.br y') = Bridge.inbound (Bridge.br y) /\
  Bridge.rxPackets (Bridge.br y') = Bridge.rxPackets (Bridge.br y).
Proof.
  intros Ha H. destruct a; simpl in H; try (by destruct (Ha p now));
    unfold Bridge.forwardRead, Bridge.forwardWrote, Bridge.forwardStart, Bridge.disconnected, Bridge.closeDone,
      Bridge.Close, Bridge.releaseTrack, Bridge.countWriteFailure, Bridge.closeDone in H;
    repeat match type of H with
    | context [match ?x with _ => _ end] => destruct x eqn:?; try discriminate H
    end; simplify_eq; try done.
  all: repeat match goal with
    | E : context [if ?x then _ else _] |- _ => destruct x eqn:?
    | E : context [match ?x with _ => _ end] |- _ => destruct x eqn:?
    end; by simplify_eq.
Qed.

Lemma loop_pump_ok r a r' : receive_ok r -> loopStep r (RPump a) = Some r' -> receive_ok r'.
Proof.
  intros [H1 H2 H3 H4 H5 H6 H7] H.
  assert (Hs : exists m out, Media.pumpStep (pm r) a = Some (m, out) /\ out = None /\
    r' = mkReceiver m (Media.plog (pm r) (hs r) a out) (bs r) (lpc r) (errCh r) (wrote r) (toTrack r)).
  { destruct a; try done; cbn [loopStep] in H; (destruct (Media.pumpStep (pm r) _) as [[m out]|] eqn:E; [|done]);
      simplify_eq; exists m, out; conjs; try done; simpl in E;
      repeat match type of E with
      | match ?x with _ => _ end = Some _ => destruct x eqn:?; try done
      end; by simplify_eq. }
  destruct Hs as (m & out & Hs & -> & ->). split; simpl; auto.
  - by eapply Media.pump_inv_step.
  - by rewrite app_nil_r.
Qed.

Lemma loop_read_ok r e c r' : receive_ok r -> loopStep r (RRead e c) = Some r' -> receive_ok r'.
Proof.
  intros [H1 H2 H3 H4 H5 H6 H7] H. cbn [loopStep] in H. destruct (lpc r) eqn:El; try done.
  destruct (Media.ReadRTP e (Media.inb (pm r)) c) as [[st [err|p]]|] eqn:Er; simplify_eq.
  - split; simpl; auto. by rewrite length_app, H7.
  - assert (Hc : Media.pumpStep (pm r) Media.Consume =
      Some (Media.mkPump st (Media.streams (pm r)), Some p)).
    { unfold Media.ReadRTP in Er. destruct (Media.waitErr e); [done|].
      destruct (negb (Media.haveSRTP e)); [done|]. destruct c; simpl in *;
        repeat match type of Er with
        | match ?x with _ => _ end = Some _ => destruct x eqn:?; try done
        end; by simplify_eq. }
    split; simpl; auto; [by eapply Media.pump_inv_step|]. by rewrite H3, <- app_assoc.
Qed.

Lemma loop_write_ok r now werr r' :
  receive_ok r -> loopStep r (RWrite now werr) = Some r' -> receive_ok r'.
Proof.
  intros [H1 H2 H3 H4 H5 H6 H7] H. cbn [loopStep] in H. destruct (lpc r) as [|p|] eqn:El; try done.
  unfold Bridge.WriteFromMeta in H. rewrite H2 in H. cbn [negb] in H.
  fold (keeping (Bridge.inbound (Bridge.br (bs r)))) in H. rewrite H4 in H.
  pose proof (rewriteAll_snoc (zeroRebaser true) 0 (wrote r) (p, now)) as Hall.
  pose proof (rewriteAll_length (zeroRebaser true) 0 (wrote r)) as Hlen.
  assert (Hk : keepExtensions (fst (rewriteAll (zeroRebaser true) 0 (wrote r))) = true) by by rewrite <- H4.
  destruct (rewriteAll (zeroRebaser true) 0 (wrote r)) as [r1 qs]. cbn [fst snd] in *.
  destruct (rewrite_pt r1 p 0 (PayloadType p) now) as (E1 & E2 & E3). specialize (E2 Hk).
  destruct (rewrite r1 p 0 now) as [r2 q0]. destruct (rewrite r1 p (PayloadType p) now) as [r3 q].
  cbn [fst snd] in *. subst r3 q.
  assert (Ht : toTrack r ++ [with_pt q0 (p, now)] = zip_with with_pt (qs ++ [q0]) (wrote r ++ [(p, now)])).
  { rewrite zip_with_app by done. by rewrite H5. }
  assert (Hc : u64 (Bridge.rxPackets (Bridge.br (bs r)) + 1) = u64 (Z.of_nat (length (wrote r ++ [(p, now)])))).
  { rewrite H6, length_app. simpl. unfold u64. rewrite Z.add_mod_idemp_l by lia. f_equal. lia. }
  destruct werr; simplify_eq; split; cbn [pm hs bs lpc errCh wrote toTrack set_bridge Bridge.br]; auto;
    rewrite ?Hall; cbn [fst snd]; auto; try (by apply keeping_id);
    try (by rewrite H3, map_app, app_nil_r); by rewrite length_app, H7.
Qed.

Lemma loop_step_ok r a r' : receive_ok r -> loopStep r a = Some r' -> receive_ok r'.
Proof.
  destruct a as [a|e c|now werr|a].
  - apply loop_pump_ok.
  - apply loop_read_ok.
  - apply loop_write_ok.
  - intros [H1 H2 H3 H4 H5 H6 H7] H.
    assert (Hs : (forall p now, a <> Bridge.MetaPacket p now) /\ exists y, Bridge.step (bs r) a = Some y /\
      r' = mkReceiver (pm r) (hs r) y (lpc r) (errCh r) (wrote r) (toTrack r)).
    { destruct a; try done; cbn [loopStep] in H; (split; [done|]);
        destruct (Bridge.step (bs r) _); simplify_eq; eauto. }
    destruct Hs as (Hne & y & Hs & ->).
    destruct (bridge_step_frame _ _ _ Hne Hs) as (F1 & F2 & F3). split; simpl; auto; congruence.
Qed.

Lemma loop_run_ok acts : forall r r', receive_ok r -> loopRun r acts = Some r' -> receive_ok r'.
Proof.
  induction acts as [|a acts IH]; intros r r' Hr H; simpl in H; [by simplify_eq|].
  destruct (loopStep r a) eqn:E; [|done]. eauto using loop_step_ok.
Qed.

(** C14. Meta's audio is accounted for from the network to the room. Whatever the
    interleaving of the stream readers, the goroutine of the call, the forwarders and
    the room's callbacks: every packet accepted from the network is handed to the
    room's track, held by the goroutine, queued, held by a reader, or counted as
    dropped; the track receives them in the order they were taken, rewritten as one
    continuous stream with their own payload types; the bridge's counter is their
    number; and the goroutine reports exactly one error, when it returns, so its send
    on the channel of capacity one never blocks. *)
Theorem received_audio_accounted payload cb s acts r :
  loopRun (callStart payload cb s) acts = Some r ->
  (Media.accepted (hs r) ≡ₚ map fst (wrote r) ++ inhand (lpc r) ++ Media.rtpIn (Media.inb (pm r)) ++
     Media.lost (hs r) ++ concat (map Media.inflight (Media.streams (pm r)))) /\
  toTrack r = zip_with with_pt (snd (rewriteAll (zeroRebaser true) 0 (wrote r))) (wrote r) /\
  Media.rxDropped (Media.inb (pm r)) = u64 (Z.of_nat (length (Media.lost (hs r)))) /\
  Bridge.sRxPackets (Bridge.bridgeStats (Bridge.br (bs r))) = u64 (Z.of_nat (length (toTrack r))) /\
  length (errCh r) = (match lpc r with Returned => 1 | _ => 0 end)%nat.
Proof.
  intros H. destruct (loop_run_ok _ _ _ (start_ok payload cb s) H) as [[P1 P2 _ _] H2 H3 H4 H5 H6 H7].
  conjs; try done.
  - rewrite P1, H3, <- app_assoc. done.
  - simpl. rewrite H6, H5, length_zip_with_l_eq; [by rewrite rewriteAll_length|]. apply rewriteAll_length.
Qed.
End Receive.

(** * Instance *)

Definition demoEnv : Media.readEnv := Media.mkReadEnv None true Second false None None.
Definition demoActs : list raction :=
  [RPump Media.AcceptStream; RPump (Media.Arrive 0 (Some (pkt 7 100 960)) 1); RPump (Media.Select 0);
   RRead demoEnv Media.CasePacket; RPump (Media.Arrive 0 (Some (pkt 7 101 1920)) 2); RWrite 3 None;
   RBridge (Bridge.ParticipantLeft (Bridge.OtherKind 0)); RPump (Media.Select 0);
   RRead demoEnv Media.CasePacket; RWrite 4 (Some (Sentinel ErrClosedPipe))].
Definition demoReceiver : receiver (S := list Packet) :=
  default (callStart 111 true []) (loopRun (MW := Bridge.test_writer) (callStart 111 true []) demoActs).

Lemma received_audio_accounted_witness :
  map SequenceNumber (toTrack demoReceiver) = [100; 101] /\ errCh demoReceiver = [Sentinel ErrClosedPipe] /\
  Bridge.sRxPackets (Bridge.bridgeStats (Bridge.br (bs demoReceiver))) = u64 (Z.of_nat (length (toTrack demoReceiver))).
Proof.
  assert (E : loopRun (MW := Bridge.test_writer) (callStart 111 true []) demoActs = Some demoReceiver)
    by (vm_compute; reflexivity).
  split; [vm_compute; reflexivity|]. split; [vm_compute; reflexivity|].
  apply (received_audio_accounted (MW := Bridge.test_writer) 111 true [] demoActs demoReceiver E).
Defined.
