(* ===== verification/Reports.v ===== *)
(** The periodic and diagnostic goroutines of a connected call: [Transport.RunRTCP]
    (internal/media/transport.go), [Call.logStats], [Call.statsAttrs],
    [Call.observeRTCP] and [callLabel] (internal/call/manager.go). *)
From S2P Require Import Prelude Errors GoStrings GoFloat Rtp RtpStats Media.
From S2P Require Bridge Sdp.

Local Open Scope Z_scope.

(** * RunRTCP *)

(** What happens around the loop of [RunRTCP]: packets of Meta's source (by their
    unbounded position, as in [RtpStats]), packets sent, sender reports received, a
    tick, the end of the call's or the transport's context. *)
Inductive revent :=
  | PacketIn (n ts at_ : Z)
  | PacketOut (p : Packet) (at_ : Z)
  | ReportIn (ntp at_ : Z)
  | Tick (now : Z)
  | ContextDone.


Section RunRTCP.
Variable oob : float64 -> Z.
Context (ops : srtcpOps) (srtcp : bool) (rtcpSSRC src : Z).










(** ** Ticks *)

Definition isTick (e : revent) : bool := match e with Tick _ => true | _ => false end.
Definition ticks (es : list revent) : nat := length (filter (fun e => isTick e = true) es).

Lemma ticks_app es1 es2 : ticks (es1 ++ es2) = (ticks es1 + ticks es2)%nat.
Proof. unfold ticks. by rewrite filter_app, length_app. Qed.






End RunRTCP.

(** * Log lines *)

(** What the goroutines log: attributes with their values. *)
Inductive logLine :=
  | MediaStats (attrs : list (string * Z))                      (* "media stats" *)
  | ReceptionLine (ssrc fraction total jitter : Z)              (* "Meta media reception report" *)
  | SenderLine (ssrc : Z).                                      (* "Meta media sender report" *)

(** [int(f)]: the truncated value, left to the implementation outside int64. *)
Definition to_int (oob : float64 -> Z) (f : float64) : Z :=
  match ftrunc f with
  | Some v => if (minInt64 <=? v) && (v <=? maxInt64) then v else oob f
  | None => oob f
  end.
Definition fhalf : float64 := fdiv (of_int 1) (of_int 2).

(** [statsAttrs] *)
Definition statsAttrs (oob : float64 -> Z) (ts : Stats) (bs : Bridge.Stats) : list (string * Z) :=
  [ ("rx_packets", RxPackets ts); ("rx_lost", RxLost ts); ("rx_reordered", RxReordered ts);
    ("rx_dropped", RxDropped ts); ("rx_jitter_ms", to_int oob (fadd (RxJitterMs ts) fhalf));
    ("tx_packets", Bridge.sTxPackets bs); ("tx_not_ready_dropped", Bridge.sTxDropped bs);
    ("tx_write_errors", Bridge.sTxWriteErrors bs) ].

(** The goroutines that [connected] starts besides awaiting the end. *)
Inductive helper := ObserveRTCP | RunRTCP | LogStats | ReadLoop.
Definition connectedHelpers (rtcpInterval statsInterval : Z) : list helper :=
  [ObserveRTCP] ++ (if 0 <? rtcpInterval then [RunRTCP] else []) ++
  (if 0 <? statsInterval then [LogStats] else []) ++ [ReadLoop].

(** [logStats]: a line at each tick, with the counters of that moment, until the
    call's context ends. *)
Inductive logEvent := StatsTick (ts : Stats) (bs : Bridge.Stats) | LogDone.
Fixpoint logStats (oob : float64 -> Z) (evs : list logEvent) : list logLine :=
  match evs with
  | [] => []
  | StatsTick ts bs :: evs => MediaStats (statsAttrs oob ts bs) :: logStats oob evs
  | LogDone :: _ => []
  end.

(** [callLabel]; [sha256] works on the bytes of the identifier. *)
Definition callLabel (sha256 : list Z -> list Z) (id : string) : string :=
  hex_EncodeToString (take 6 (sha256 (map code (bytes id)))).

(** What [observeRTCP] logs of one compound packet. *)
Definition reportLines (p : rtcpPacket) : list logLine :=
  match p with
  | ReceiverReportPkt _ blocks =>
      map (fun b => ReceptionLine (rr_SSRC b) (FractionLost b) (TotalLost b) (Jitter b)) blocks
  | SenderReportPkt sr => [SenderLine (sr_SSRC sr)]
  | SourceDescription _ _ | OtherRtcp => []
  end.
Definition observeLines (pkts : list rtcpPacket) : list logLine := concat (map reportLines pkts).

(** The reception statistics and the diagnostics channel, shared by the readers of
    [drainSRTCP] and by [observeRTCP]; [observing]: the latter has not returned. *)
Record observer := mkObserver {
  o_rx : rxStats; reports : list (list rtcpPacket); observing : bool; logged : list logLine
}.
Inductive oaction :=
  | Receive (pkts : list rtcpPacket) (now : Z)
  | Observe
  | CallDone.

Definition observeStep (o : observer) (a : oaction) : option observer :=
  match a with
  | Receive pkts now =>
      let '(s, q) := recvRTCP (o_rx o) (reports o) pkts now in
      Some (mkObserver s q (observing o) (logged o))
  | Observe =>
      match reports o with
      | pkts :: q => if observing o
                     then Some (mkObserver (o_rx o) q true (logged o ++ observeLines pkts)) else None
      | [] => None
      end
  | CallDone => Some (mkObserver (o_rx o) (reports o) false (logged o))
  end.

Fixpoint observeRun (o : observer) (acts : list oaction) : option observer :=
  match acts with
  | [] => Some o
  | a :: acts => match observeStep o a with Some o' => observeRun o' acts | None => None end
  end.

Definition received_of (acts : list oaction) : list (list rtcpPacket) :=
  omap (fun a => match a with Receive pkts _ => Some pkts | _ => None end) acts.
Definition noted_of (s : rxStats) (acts : list oaction) : rxStats :=
  fold_left (fun s a => match a with Receive pkts now => noteReports s pkts now | _ => s end) acts s.

Lemma observeLines_app p q :
  concat (map observeLines (p ++ q)) = concat (map observeLines p) ++ concat (map observeLines q).
Proof. by rewrite map_app, concat_app. Qed.

Lemma observe_run acts : forall o o' taken,
  observeRun o acts = Some o' -> logged o = concat (map observeLines taken) ->
  (length (reports o) <= rtcpReportsSize)%nat ->
  exists taken', logged o' = concat (map observeLines taken') /\
    taken' ++ reports o' `sublist_of` (taken ++ reports o) ++ received_of acts /\
    (length (reports o') <= rtcpReportsSize)%nat /\ o_rx o' = noted_of (o_rx o) acts.
Proof.
  induction acts as [|a acts IH]; intros o o' taken H Hl Hb; simpl in H.
  { simplify_eq. exists taken. conjs; auto. simpl. by rewrite app_nil_r. }
  destruct a as [pkts now| |]; simpl in H.
  - specialize (IH _ o' taken H Hl). simpl in IH.
    destruct (Nat.ltb_spec (length (reports o)) rtcpReportsSize) as [Hlt|Hge].
    + rewrite length_app in IH. simpl in IH. destruct (IH ltac:(lia)) as (tk & ? & Hs & ? & ?).
      exists tk. conjs; auto. etrans; [exact Hs|].
      change (received_of (Receive pkts now :: acts)) with ([pkts] ++ received_of acts). by rewrite <- !app_assoc.
    + destruct (IH Hb) as (tk & ? & Hs & ? & ?). exists tk. conjs; auto.
      etrans; [exact Hs|].
      change (received_of (Receive pkts now :: acts)) with ([pkts] ++ received_of acts).
      apply sublist_app; [done|]. by apply sublist_inserts_l.
  - destruct (reports o) as [|pkts q] eqn:Eq; [done|]. destruct (observing o); [|done].
    destruct (IH _ o' (taken ++ [pkts]) H) as (tk & ? & Hs & ? & ?); simpl in *; [|lia|].
    { rewrite Hl, observeLines_app. simpl. by rewrite app_nil_r. }
    exists tk. conjs; auto. rewrite <- (app_assoc taken [pkts] q) in Hs. exact Hs.
  - destruct (IH _ o' taken H Hl Hb) as (tk & ? & ? & ? & ?). by exists tk.
Qed.

(** RTCP from Meta never blocks the call and is never reordered: whatever the
    interleaving of the stream readers and [observeRTCP], every sender report is
    noted for the round-trip computation, also when the diagnostics channel is full;
    what is logged are, in order, the lines of a selection of the compound packets
    received, and at most 32 are waiting; the lines are counters and SSRCs only. *)
Theorem observeRTCP_in_order s acts o :
  observeRun (mkObserver s [] true []) acts = Some o ->
  exists taken, logged o = concat (map observeLines taken) /\
    taken ++ reports o `sublist_of` received_of acts /\
    (length (reports o) <= rtcpReportsSize)%nat /\
    o_rx o = noted_of s acts /\
    Forall (fun l => match l with MediaStats _ => False | _ => True end) (logged o).
Proof.
  intros H. destruct (observe_run _ _ _ [] H) as (tk & H1 & H2 & H3 & H4); simpl; [done|lia|].
  exists tk. conjs; auto. rewrite H1. clear. induction tk as [|pkts tk IH]; simpl; [done|].
  apply Forall_app. split; [|done]. unfold observeLines. clear.
  induction pkts as [|p pkts IH]; simpl; [done|]. apply Forall_app. split; [|done].
  destruct p; simpl; try (by repeat constructor). apply Forall_fmap. by apply Forall_true.
Qed.

(** The label of a call in the log is twelve hexadecimal digits: the first six bytes
    of the digest of its identifier, and nothing else of it. *)
Lemma callLabel_digest sha256 id :
  (forall c, length (sha256 c) = 32%nat /\ Forall is_u8 (sha256 c)) ->
  length (bytes (callLabel sha256 id)) = 12%nat /\
  hex_DecodeString (callLabel sha256 id) = Some (take 6 (sha256 (map code (bytes id)))).
Proof.
  intros H. destruct (H (map code (bytes id))) as [Hlen H8]. unfold callLabel. split.
  - unfold hex_EncodeToString. rewrite bytes_of_bytes.
    destruct (sha256 _) as [|b0 [|b1 [|b2 [|b3 [|b4 [|b5 l]]]]]]; simpl in *; try lia; done.
  - apply Sdp.hex_encode_decode. by apply Forall_take.
Qed.

(** ** Instances *)



Definition demoObserved : observer :=
  default (mkObserver zeroRx [] true [])
    (observeRun (mkObserver zeroRx [] true [])
       [Receive [ReceiverReportPkt 1 [mkRR 5 0 3 9 2 0 0]; OtherRtcp] 1; Receive [OtherRtcp] 2; Observe; CallDone]).

Lemma observeRTCP_in_order_witness :
  logged demoObserved = [ReceptionLine 5 0 3 2] /\ (length (reports demoObserved) <= rtcpReportsSize)%nat.
Proof.
  split; [vm_compute; reflexivity|].
  destruct (observeRTCP_in_order zeroRx
    [Receive [ReceiverReportPkt 1 [mkRR 5 0 3 9 2 0 0]; OtherRtcp] 1; Receive [OtherRtcp] 2; Observe; CallDone]
    demoObserved) as (tk & _ & _ & H & _); [vm_compute; reflexivity|exact H].
Defined.
