(* ===== verification/Call.v ===== *)
(** One call (internal/call/manager.go: [type Call], [signalReady], [fail], [wait],
    [stopBusiness], [stopUser], [cleanup], [runInbound], [runOutbound], [connected],
    [awaitEnd], [finish]) as a state machine: the goroutine that runs the call, one
    step per critical section or external call, on the shared Call object. *)
From S2P Require Import Prelude Errors Sdp.

Local Open Scope Z_scope.

(** A pointer to a closable object. *)
Inductive ptr := Nil | Open | Closed.

#[export] Instance ptr_eq_dec : EqDecision ptr.
Proof. solve_decision. Defined.

Definition closePtr (p : ptr) : ptr := match p with Nil => Nil | _ => Closed end.

(** [type Call struct]: the parameters of the call that the manager uses, the state
    of its context, its transport, bridge and UDP socket (the one in [udp], or the
    one handed to the transport), and the number of times each channel was closed. *)
Record Call := mkCall {
  PhoneID : string; APIToken : string; APIVersion : string; CallID : string; Timeout : Z;
  room : string; identity : string;
  ctxDone : bool;
  transport : ptr;
  bridge : ptr;
  socket : ptr;
  answer : string;
  negotiation : option Negotiation;
  outbound : bool;
  ready : nat; answerReady : nat; done : nat;
  err : option error;
  terminate : bool; userTerminated : bool; signaled : bool
}.

(** ** Field updates *)

Definition set_token (c : Call) (x : string) : Call :=
  mkCall (PhoneID c) x (APIVersion c) (CallID c) (Timeout c) (room c) (identity c) (ctxDone c)
    (transport c) (bridge c) (socket c) (answer c) (negotiation c) (outbound c) (ready c)
    (answerReady c) (done c) (err c) (terminate c) (userTerminated c) (signaled c).
Definition set_stop (c : Call) (term user : bool) : Call :=   (* and cancel the context *)
  mkCall (PhoneID c) (APIToken c) (APIVersion c) (CallID c) (Timeout c) (room c) (identity c) true
    (transport c) (bridge c) (socket c) (answer c) (negotiation c) (outbound c) (ready c)
    (answerReady c) (done c) (err c) term user (signaled c).
Definition set_ready (c : Call) (e : option error) : Call :=
  mkCall (PhoneID c) (APIToken c) (APIVersion c) (CallID c) (Timeout c) (room c) (identity c) (ctxDone c)
    (transport c) (bridge c) (socket c) (answer c) (negotiation c) (outbound c) (S (ready c))
    (answerReady c) (done c) e (terminate c) (userTerminated c) (signaled c).
Definition set_signaled (c : Call) : Call :=
  mkCall (PhoneID c) (APIToken c) (APIVersion c) (CallID c) (Timeout c) (room c) (identity c) (ctxDone c)
    (transport c) (bridge c) (socket c) (answer c) (negotiation c) (outbound c) (ready c)
    (answerReady c) (done c) (err c) (terminate c) (userTerminated c) true.
Definition set_bridge (c : Call) (b : ptr) : Call :=
  mkCall (PhoneID c) (APIToken c) (APIVersion c) (CallID c) (Timeout c) (room c) (identity c) (ctxDone c)
    (transport c) b (socket c) (answer c) (negotiation c) (outbound c) (ready c)
    (answerReady c) (done c) (err c) (terminate c) (userTerminated c) (signaled c).
Definition set_media (c : Call) (t s : ptr) : Call :=
  mkCall (PhoneID c) (APIToken c) (APIVersion c) (CallID c) (Timeout c) (room c) (identity c) (ctxDone c)
    t (bridge c) s (answer c) (negotiation c) (outbound c) (ready c)
    (answerReady c) (done c) (err c) (terminate c) (userTerminated c) (signaled c).
Definition set_negotiation (c : Call) (n : Negotiation) : Call :=
  mkCall (PhoneID c) (APIToken c) (APIVersion c) (CallID c) (Timeout c) (room c) (identity c) (ctxDone c)
    (transport c) (bridge c) (socket c) (answer c) (Some n) (outbound c) (ready c)
    (answerReady c) (done c) (err c) (terminate c) (userTerminated c) (signaled c).
Definition set_answered (c : Call) : Call :=    (* the new transport and close(answerReady) *)
  mkCall (PhoneID c) (APIToken c) (APIVersion c) (CallID c) (Timeout c) (room c) (identity c) (ctxDone c)
    Open (bridge c) (socket c) (answer c) (negotiation c) (outbound c) (ready c)
    (S (answerReady c)) (done c) (err c) (terminate c) (userTerminated c) (signaled c).
Definition set_done (c : Call) : Call :=
  mkCall (PhoneID c) (APIToken c) (APIVersion c) (CallID c) (Timeout c) (room c) (identity c) (ctxDone c)
    (transport c) (bridge c) (socket c) (answer c) (negotiation c) (outbound c) (ready c)
    (answerReady c) (S (done c)) (err c) (terminate c) (userTerminated c) (signaled c).

(** ** Operations *)

Definition isReady (c : Call) : bool := (0 <? ready c)%nat.

(** [signalReady]: the first result wins. *)
Definition signalReady (c : Call) (e : option error) : Call :=
  if isReady c then c else set_ready c e.

Definition stopBusiness (c : Call) : Call :=
  set_stop c (if userTerminated c then terminate c else true) (userTerminated c).
Definition stopUser (c : Call) : Call := set_stop c false true.

(** [wait]: [None] while both cases of the select block; [pickCtx] says which case is
    taken when both are ready, [ctxErr] is the error of the caller's context. *)
Definition wait (c : Call) (ctxErr : option error) (pickCtx : bool) : option (option error) :=
  match ctxErr with
  | None => if isReady c then Some (err c) else None
  | Some e => if isReady c && negb pickCtx then Some (err c) else Some (Some e)
  end.

(** ** The goroutine of the call *)

(** Where it is. [reg] tells the cleanup of a registered call, which [finish]
    continues, from that of a call that [Dial] could not register. *)
Inductive pc :=
  | Private (t : nat)                 (* built by thread [t], not registered *)
  | Dropped                           (* never registered, released *)
  | InBridge | InPreAccept | InSignaled | InWait | InAccept        (* runInbound *)
  | OutBridge | OutSelect | OutTransport | OutWait                 (* runOutbound *)
  | Connected | AwaitEnd | EndStop                                 (* connected, awaitEnd *)
  | Fail (e : error) | FailStop                                    (* fail *)
  | CSignal (reg : bool) | CDecide (reg : bool) | CTerminate (reg : bool) (token : string)
  | CBridge (reg : bool) | CTransport (reg : bool)                 (* cleanup *)
  | FDelete | FWg | FDone                                          (* finish *)
  | Finished.

(** An operation of [meta.Client] made for the call, with its outcome where the program
    depends on it. The client may send several HTTP requests for one operation;
    [CallRequests] unfolds them. *)
Inductive event := EvPreAccept (ok : bool) | EvAccept (ok : bool) | EvTerminate (token : string).

#[export] Instance event_eq_dec : EqDecision event.
Proof. solve_decision. Defined.

(** What the environment decides at a step: the error of the external call made
    there, and the case a select takes. *)
Inductive choice := CaseCtx | CaseAnswer | CaseTimer | CaseBridge | CaseMedia.
Record outcome := mkOutcome { oerr : option error; ocase : choice }.

Definition orFail (o : outcome) (next : pc) : pc :=
  match oerr o with Some e => Fail e | None => next end.
Definition isOk (o : outcome) : bool := match oerr o with None => true | Some _ => false end.

(** [runInbound]: join the room, pre-accept, wait for the media path, accept. A failure
    goes to [fail]; every way out goes to [finish]. *)
Definition inboundStep (c : Call) (p : pc) (o : outcome) : option (Call * pc * list event) :=
  match p with
  | InBridge => Some (if isOk o then set_bridge c Open else c, orFail o InPreAccept, [])
  | InPreAccept => Some (c, orFail o InSignaled, [EvPreAccept (isOk o)])
  | InSignaled => Some (set_signaled c, InWait, [])
  | InWait => Some (c, orFail o InAccept, [])
  | InAccept => Some (c, orFail o Connected, [EvAccept (isOk o)])
  | _ => None
  end.

(** [runOutbound]: join the room, wait for the answer, then for the media path. *)
Definition outboundStep (c : Call) (p : pc) (o : outcome) : option (Call * pc * list event) :=
  match p with
  | OutBridge => Some (if isOk o then set_bridge c Open else c, orFail o OutSelect, [])
  | OutSelect =>
      match ocase o with
      | CaseAnswer => if (0 <? answerReady c)%nat then Some (c, OutTransport, []) else None
      | CaseTimer => Some (c, Fail (Sentinel DeadlineExceeded), [])
      | CaseCtx => if ctxDone c then Some (c, CSignal true, []) else None
      | _ => None
      end
  | OutTransport =>
      Some (c, match transport c with
               | Nil => Fail (NewError "outbound transport was not created")
               | _ => OutWait
               end, [])
  | OutWait => Some (c, orFail o Connected, [])
  | _ => None
  end.

(** [awaitEnd]: why a connected call ends; [maxDuration] is the configured cap. *)
Definition awaitEnd (maxDuration : Z) (c : Call) (p : pc) (o : outcome) : option (Call * pc * list event) :=
  match p with
  | AwaitEnd =>
      match ocase o with
      | CaseCtx => if ctxDone c then Some (c, CSignal true, []) else None
      | CaseBridge | CaseMedia => Some (c, EndStop, [])
      | CaseTimer => if 0 <? maxDuration then Some (c, EndStop, []) else None
      | CaseAnswer => None
      end
  | EndStop => Some (stopBusiness c, CSignal true, [])
  | _ => None
  end.

(** [fail] *)
Definition failStep (c : Call) (p : pc) : option (Call * pc * list event) :=
  match p with
  | Fail e => Some (signalReady c (Some e), FailStop, [])
  | FailStop => Some (stopBusiness c, CSignal true, [])
  | _ => None
  end.

(** [cleanup] *)
Definition cleanupStep (c : Call) (p : pc) : option (Call * pc * list event) :=
  match p with
  | CSignal reg => Some (signalReady c (Some (Sentinel Canceled)), CDecide reg, [])
  | CDecide reg =>
      Some (c, if terminate c && signaled c then CTerminate reg (APIToken c) else CBridge reg, [])
  | CTerminate reg token => Some (c, CBridge reg, [EvTerminate token])
  | CBridge reg => Some (set_bridge c (closePtr (bridge c)), CTransport reg, [])
  | CTransport reg =>
      Some (match transport c with
            | Nil => if outbound c then set_media c Nil (closePtr (socket c)) else c
            | t => set_media c (closePtr t) (closePtr (socket c))
            end, if reg then FDelete else Dropped, [])
  | _ => None
  end.

(** One step of the goroutine. [None] while the chosen case of a select is not ready.
    [FDelete] and [FWg] also act on the manager. *)
Definition callStep (maxDuration : Z) (c : Call) (p : pc) (o : outcome)
  : option (Call * pc * list event) :=
  match p with
  | Private _ | Dropped | Finished => None
  | InBridge | InPreAccept | InSignaled | InWait | InAccept => inboundStep c p o
  | OutBridge | OutSelect | OutTransport | OutWait => outboundStep c p o
  | Connected => Some (signalReady c None, AwaitEnd, [])
  | AwaitEnd | EndStop => awaitEnd maxDuration c p o
  | Fail _ | FailStop => failStep c p
  | CSignal _ | CDecide _ | CTerminate _ _ | CBridge _ | CTransport _ => cleanupStep c p
  | FDelete => Some (c, FWg, [])
  | FWg => Some (c, FDone, [])
  | FDone => Some (set_done c, Finished, [])
  end.

(** [awaitEnd]'s reason for the end, as it is logged. *)
Definition endReason (c : Call) (o : outcome) : string :=
  match ocase o with
  | CaseCtx => if userTerminated c then "user_hangup" else "disconnect_requested"
  | CaseBridge => "livekit_disconnected_or_agent_left"
  | CaseMedia => "media_stopped"
  | CaseTimer | CaseAnswer => "max_duration"
  end.

(** [Connect]'s critical section on an outbound call: apply the answer and create the
    transport, unless there is one. The negotiation is updated in place even when
    the answer is refused. *)
Definition connectCall (apply : Negotiation -> Negotiation * option error) (c : Call)
  : Call * option error :=
  match transport c with
  | Nil =>
      match negotiation c with
      | None => (c, Some (invalid "outbound offer state missing"))
      | Some n =>
          let '(n, e) := apply n in
          let c := set_negotiation c n in
          match e with Some e => (c, Some e) | None => (set_answered c, None) end
      end
  | _ => (c, None)
  end.

(** * Invariant of a call *)

(** The goroutine has passed the first step of [cleanup]. *)
Definition past_signal (p : pc) : bool :=
  match p with
  | CDecide _ | CTerminate _ _ | CBridge _ | CTransport _ | FDelete | FWg | FDone | Finished => true
  | _ => false
  end.
(** Its resources have been released. *)
Definition released (p : pc) : bool :=
  match p with Dropped | FDelete | FWg | FDone | Finished => true | _ => false end.

(** The requests made before a terminate, given the direction and [signaled]. *)
Definition set_up_trace (ob sg : bool) (evs : list event) : Prop :=
  if ob then evs = []
  else if sg then evs = [EvPreAccept true] \/ exists b, evs = [EvPreAccept true; EvAccept b]
  else evs = [] \/ evs = [EvPreAccept false].

Definition trace_ok (c : Call) (p : pc) (evs : list event) : Prop :=
  match p with
  | Private _ => evs = [] /\ signaled c = outbound c
  | InBridge | InPreAccept => evs = [] /\ outbound c = false /\ signaled c = false
  | InSignaled => evs = [EvPreAccept true] /\ outbound c = false /\ signaled c = false
  | InWait | InAccept => evs = [EvPreAccept true] /\ outbound c = false /\ signaled c = true
  | OutBridge | OutSelect | OutTransport | OutWait =>
      evs = [] /\ outbound c = true /\ signaled c = true
  | Connected | AwaitEnd | EndStop =>
      signaled c = true /\ evs = if outbound c then [] else [EvPreAccept true; EvAccept true]
  | Fail _ | FailStop | CSignal _ | CDecide _ => set_up_trace (outbound c) (signaled c) evs
  | CTerminate _ _ => signaled c = true /\ set_up_trace (outbound c) (signaled c) evs
  | _ => set_up_trace (outbound c) (signaled c) evs \/
         (signaled c = true /\ exists pre tok, evs = pre ++ [EvTerminate tok] /\
            set_up_trace (outbound c) (signaled c) pre)
  end.

Record call_ok (c : Call) (p : pc) (evs : list event) : Prop := {
  k_user : userTerminated c = true -> terminate c = false;
  k_ready : (ready c <= 1)%nat;
  k_signal : past_signal p = true -> ready c = 1%nat;
  k_done : done c = match p with Finished => 1%nat | _ => 0%nat end;
  k_answer : answerReady c = (if outbound c then match transport c with Nil => 0 | _ => 1 end else 0)%nat;
  k_inbound : outbound c = false -> transport c <> Nil;
  k_released : released p = true -> socket c <> Open;
  k_bridge : released p = true \/ (exists reg, p = CTransport reg) -> bridge c <> Open;
  k_private : (exists t, p = Private t) -> bridge c = Nil;
  k_trace : trace_ok c p evs
}.

Lemma closePtr_not_open p : closePtr p <> Open.
Proof. by destruct p. Qed.
#[export] Hint Resolve closePtr_not_open : core.

Lemma signalReady_ready c e : (ready c <= 1)%nat -> ready (signalReady c e) = 1%nat.
Proof.
  unfold signalReady, isReady. destruct (Nat.ltb_spec 0 (ready c)); simpl; lia.
Qed.

(** Everything but the ready channel and the error is untouched. *)
Lemma signalReady_frame c e :
  let c' := signalReady c e in
  userTerminated c' = userTerminated c /\ terminate c' = terminate c /\ done c' = done c /\
  answerReady c' = answerReady c /\ outbound c' = outbound c /\ transport c' = transport c /\
  socket c' = socket c /\ bridge c' = bridge c /\ signaled c' = signaled c /\ CallID c' = CallID c.
Proof. unfold signalReady. destruct (isReady c); simpl; auto 12. Qed.

(** Once [ready] is closed, the result never changes. *)
Lemma signalReady_first c e : isReady c = true -> signalReady c e = c.
Proof. unfold signalReady. by intros ->. Qed.

#[export] Instance pc_eq_dec : EqDecision pc.
Proof. solve_decision. Defined.

(** The cases of a step: the place, and what its continuation depends on. *)
Ltac step_cases Hs p :=
  destruct p; cbn [callStep inboundStep outboundStep awaitEnd failStep cleanupStep] in Hs; try discriminate Hs; unfold orFail, isOk in Hs;
  repeat match type of Hs with
  | context [match ?x with _ => _ end] => destruct x eqn:?
  end; simplify_eq.

Lemma step_trace max c p o c' p' new evs :
  trace_ok c p evs -> callStep max c p o = Some (c', p', new) -> trace_ok c' p' (evs ++ new).
Proof.
  assert (Hf : forall e, outbound (signalReady c e) = outbound c /\ signaled (signalReady c e) = signaled c).
  { intros e. pose proof (signalReady_frame c e). simpl in *. tauto. }
  intros Ht Hs. step_cases Hs p; rewrite ?app_nil_r; cbn [trace_ok] in *;
    try (destruct (Hf None) as [-> ->]); try (destruct (Hf (Some e)) as [-> ->]);
    try (destruct (Hf (Some (Sentinel Canceled))) as [-> ->]); try exact Ht;
    try (destruct Ht as (-> & E1 & E2)); simpl; unfold set_up_trace in *;
    rewrite ?E1, ?E2; eauto.
  - destruct Ht as [-> ->]. destruct (outbound c'); eauto.
  - destruct Ht as [-> ->]. destruct (outbound c); eauto.
  - split; [|exact Ht]. by destruct (terminate c').
  - right. destruct Ht as [E Ht]. eauto.
Qed.

Lemma stopBusiness_user c :
  (userTerminated c = true -> terminate c = false) ->
  userTerminated (stopBusiness c) = true -> terminate (stopBusiness c) = false.
Proof. simpl. intros H E. rewrite E. auto. Qed.

(** A step moves the channels and flags as the invariant says. *)
Lemma step_flags max c p o c' p' new evs :
  call_ok c p evs -> callStep max c p o = Some (c', p', new) ->
  (userTerminated c' = true -> terminate c' = false) /\ (ready c' <= 1)%nat /\
  (past_signal p' = true -> ready c' = 1%nat) /\
  outbound c' = outbound c /\ answerReady c' = answerReady c /\
  (transport c' = Nil <-> transport c = Nil) /\ CallID c' = CallID c.
Proof.
  intros [H1 H2 H3 H4 H5 H6 H7 H8 H9 H10] Hs. clear H4 H5 H6 H7 H8 H9 H10.
  assert (Hr : forall e, ready (signalReady c e) = 1%nat) by (intros; by apply signalReady_ready).
  pose proof (signalReady_frame c) as Hf. pose proof (stopBusiness_user c H1) as Hb.
  step_cases Hs p; conjs; simpl in *; auto; rewrite ?Hr; auto;
    try (match goal with |- context [signalReady c ?e] =>
           destruct (Hf e) as (E1 & E2 & _ & E3 & E4 & E5 & _ & _ & _ & E6) end;
         rewrite ?E1, ?E2, ?E3, ?E4, ?E5, ?E6; auto; done);
    try done; try (split; congruence).
Qed.

Lemma call_ok_step max c p o c' p' new evs :
  call_ok c p evs -> callStep max c p o = Some (c', p', new) -> call_ok c' p' (evs ++ new).
Proof.
  intros Hok Hs. destruct (step_flags _ _ _ _ _ _ _ _ Hok Hs) as (F1 & F2 & F3 & F4 & F5 & F6 & _).
  pose proof (step_trace _ _ _ _ _ _ _ _ (k_trace _ _ _ Hok) Hs) as Ht.
  destruct Hok as [_ _ _ H4 H5 H6 H7 H8 H9 _].
  assert (Hf : forall e, done (signalReady c e) = done c /\ socket (signalReady c e) = socket c /\
    bridge (signalReady c e) = bridge c).
  { intros e. pose proof (signalReady_frame c e). simpl in *. tauto. }
  split; auto.
  - clear -H4 Hs Hf. step_cases Hs p; simpl in *; rewrite ?H4; try done;
      match goal with |- context [signalReady c ?e] => destruct (Hf e) as (-> & _) end; done.
  - rewrite F4, F5, H5. destruct (outbound c); [|done].
    destruct (transport c) eqn:E, (transport c') eqn:E'; intuition congruence.
  - intros Ho. rewrite F6. apply H6. congruence.
  - clear -H6 H7 Hs. step_cases Hs p; simpl in *; try done; auto.
    all: intros _; exfalso; by apply H6.
  - clear -H8 Hs Hf. intros Hrel. step_cases Hs p; simpl in *; auto;
      try (destruct Hrel as [?|[? ?]]; done); try (apply H8; right; eauto; fail).
    all: apply H8; destruct Hrel as [?|[? ?]]; eauto.
  - clear -Hs. intros [t ->]. by step_cases Hs p.
Qed.

(** ** What other goroutines do to the call *)

Lemma call_ok_stopBusiness c p evs : call_ok c p evs -> call_ok (stopBusiness c) p evs.
Proof.
  intros [H1 H2 H3 H4 H5 H6 H7 H8 H9 H10]. split; auto using stopBusiness_user; destruct p; exact H10.
Qed.

Lemma call_ok_stopUser c p evs : call_ok c p evs -> call_ok (stopUser c) p evs.
Proof. intros [H1 H2 H3 H4 H5 H6 H7 H8 H9 H10]. split; auto; destruct p; exact H10. Qed.

Lemma call_ok_token c p evs tok : call_ok c p evs -> call_ok (set_token c tok) p evs.
Proof. intros [H1 H2 H3 H4 H5 H6 H7 H8 H9 H10]. split; auto; destruct p; exact H10. Qed.

Lemma call_ok_connect f c p evs : call_ok c p evs -> call_ok (fst (connectCall f c)) p evs.
Proof.
  intros Hok. unfold connectCall. destruct (transport c) eqn:Et; [|exact Hok..].
  destruct (negotiation c) as [n|]; [|exact Hok]. destruct (f n) as [n' e].
  destruct Hok as [H1 H2 H3 H4 H5 H6 H7 H8 H9 H10].
  destruct e; split; simpl; auto; try (destruct p; exact H10).
  rewrite H5, Et. destruct (outbound c) eqn:E; [done|]. by destruct (H6 eq_refl).
Qed.

Lemma connectCall_frame f c :
  let c' := fst (connectCall f c) in
  CallID c' = CallID c /\ userTerminated c' = userTerminated c /\ ready c' = ready c /\ err c' = err c /\
  ctxDone c' = ctxDone c /\ outbound c' = outbound c.
Proof.
  unfold connectCall. destruct (transport c); simpl; auto 10.
  destruct (negotiation c); simpl; auto 10. destruct (f n) as [n' []]; simpl; auto 10.
Qed.

(** ** A call that the user ended *)

(** From here on no terminate request will be made. *)
Definition silenced (c : Call) (p : pc) : Prop :=
  userTerminated c = true /\ match p with CTerminate _ _ => False | _ => True end.

Lemma silenced_step max c p o c' p' new evs :
  call_ok c p evs -> silenced c p -> callStep max c p o = Some (c', p', new) ->
  silenced c' p' /\ forall tok, EvTerminate tok ∉ new.
Proof.
  intros Hok [Hu Hp] Hs. pose proof (k_user _ _ _ Hok Hu) as Ht.
  assert (Hf : forall e, userTerminated (signalReady c e) = true).
  { intros e. pose proof (signalReady_frame c e) as H. simpl in H. intuition congruence. }
  unfold silenced. step_cases Hs p; simpl in *; rewrite ?Hf, ?Hu; split; auto.
  all: try (intros tok; rewrite ?elem_of_cons, ?elem_of_nil; by intuition).
  by rewrite Ht in *.
Qed.

(** ** Progress *)

(** Steps left before the goroutine returns. *)
Definition left_of (p : pc) : nat :=
  match p with
  | Private _ | Dropped | Finished => 0
  | FDone => 1 | FWg => 2 | FDelete => 3 | CTransport _ => 4 | CBridge _ => 5 | CTerminate _ _ => 6
  | CDecide _ => 7 | CSignal _ => 8 | FailStop => 9 | Fail _ => 10 | EndStop => 9 | AwaitEnd => 11
  | Connected => 12 | InAccept => 13 | InWait => 14 | InSignaled => 15 | InPreAccept => 16 | InBridge => 17
  | OutWait => 13 | OutTransport => 14 | OutSelect => 15 | OutBridge => 16
  end.

Lemma left_of_step max c p o c' p' new :
  callStep max c p o = Some (c', p', new) -> (left_of p' < left_of p)%nat.
Proof. intros Hs. step_cases Hs p; simpl; lia. Qed.

(** A place where the goroutine can wait for an event. *)
Definition blocking (p : pc) : bool := match p with OutSelect | AwaitEnd => true | _ => false end.

Lemma step_enabled max c p o :
  (0 < left_of p)%nat -> blocking p = false \/ (ctxDone c = true /\ ocase o = CaseCtx) ->
  callStep max c p o <> None.
Proof.
  intros Hl [Hb|[Hc Ho]]; destruct p; simpl in *; rewrite ?Ho, ?Hc; try done; lia.
Qed.
