(* ===== verification/CallMedia.v ===== *)
(** A call together with its transport: [Call] treats the transport as a pointer that
    is nil, open or closed, [Lifecycle] has its set-up and close in detail. Here the
    goroutine of the call (internal/call/manager.go) drives the real transport:
    Start and Wait in runInbound and runOutbound, Close in cleanup. *)
From S2P Require Import Prelude Errors Sdp Call.
From S2P Require Lifecycle.

Local Open Scope Z_scope.

(** The call, where its goroutine is, and its transport. *)
Record mediaCall := mkMediaCall { cl : Call; at_pc : pc; tp : option Lifecycle.system }.

(** A transport made by a late answer on the socket that cleanup has closed. *)
Definition late : Lifecycle.system :=
  Lifecycle.mkSystem (Lifecycle.close1 Lifecycle.NewTransport Lifecycle.Raw)
    Lifecycle.NotStarted Lifecycle.NotClosing.

Inductive jaction :=
  | JCall (o : outcome)                          (* the call's goroutine *)
  | JStart                                       (* it starts the transport *)
  | JWait (pickCtx : bool) (ctxErr : error)      (* its Wait returns *)
  | JRun (o : option error)                      (* the transport's set-up goroutine *)
  | JClose                                       (* the call's goroutine, inside Close *)
  | JCancel                                      (* the call's context ends the transport's *)
  | JStop (user : bool)                          (* stopBusiness or stopUser by another goroutine *)
  | JToken (tok : string)
  | JConnect (f : Negotiation -> Negotiation * option error).

Definition waiting (p : pc) : bool := match p with InWait | OutWait => true | _ => false end.
Definition closing (p : pc) : bool := match p with CTransport _ => true | _ => false end.

(** [Close] has returned. *)
Definition closeDone (s : Lifecycle.system) : bool :=
  match Lifecycle.cpc s with Lifecycle.CloseDone => true | _ => false end.

Definition on_tp (j : mediaCall) (s : option Lifecycle.system) : option mediaCall :=
  (fun s => mkMediaCall (cl j) (at_pc j) (Some s)) <$> s.

Definition jstep (max : Z) (j : mediaCall) (a : jaction) : option mediaCall :=
  let call o := (fun r => mkMediaCall (fst (fst r)) (snd (fst r)) (tp j)) <$>
                  callStep max (cl j) (at_pc j) o in
  match a with
  | JCall o =>
      if waiting (at_pc j) then None
      else if closing (at_pc j) then
        match tp j with
        | Some s => if closeDone s then call o else None
        | None => call o
        end
      else call o
  | JStart =>
      match tp j with
      | Some s => if waiting (at_pc j) then on_tp j (Lifecycle.step s Lifecycle.DoStart) else None
      | None => None
      end
  | JWait pick e =>
      match tp j with
      | Some s =>
          if waiting (at_pc j) && Lifecycle.startDone (Lifecycle.tr s) then
            match Lifecycle.Wait (Lifecycle.tr s) pick e with
            | Some r => call (mkOutcome r CaseCtx)
            | None => None
            end
          else None
      | None => None
      end
  | JRun o =>
      match tp j with Some s => on_tp j (Lifecycle.step s (Lifecycle.DoRun o)) | None => None end
  | JClose =>
      match tp j with
      | Some s =>
          if closing (at_pc j) then
            on_tp j (Lifecycle.step s (match Lifecycle.cpc s with
                                       | Lifecycle.NotClosing => Lifecycle.DoClose
                                       | _ => Lifecycle.DoCloseStep
                                       end))
          else None
      | None => None
      end
  | JCancel =>
      match tp j with
      | Some s => if ctxDone (cl j) then on_tp j (Lifecycle.step s Lifecycle.ParentCancel) else None
      | None => None
      end
  | JStop user => Some (mkMediaCall (if user then stopUser (cl j) else stopBusiness (cl j)) (at_pc j) (tp j))
  | JToken tok => Some (mkMediaCall (set_token (cl j) tok) (at_pc j) (tp j))
  | JConnect f =>
      let c := fst (connectCall f (cl j)) in
      Some (mkMediaCall c (at_pc j)
        (match tp j, transport c with
         | None, Open => Some (if released (at_pc j) then late else Lifecycle.initial)
         | s, _ => s
         end))
  end.

(** An inbound call has its transport from the start, an outbound one gets it with
    the answer. *)
Definition started (j : mediaCall) : Prop :=
  (at_pc j = InBridge /\ outbound (cl j) = false /\ transport (cl j) = Open /\
     tp j = Some Lifecycle.initial) \/
  (at_pc j = OutBridge /\ outbound (cl j) = true /\ transport (cl j) = Nil /\ tp j = None).

Inductive jreachable (max : Z) : mediaCall -> Prop :=
  | jreach_init j : started j -> jreachable max j
  | jreach_step j a j' : jreachable max j -> jstep max j a = Some j' -> jreachable max j'.

(** Where the media path has come up. *)
Definition talking (p : pc) : bool :=
  match p with InAccept | Connected | AwaitEnd | EndStop => true | _ => false end.

(** Such a transport: not started, nothing open. *)
Definition unused (s : Lifecycle.system) : Prop :=
  Lifecycle.rpc s = Lifecycle.NotStarted /\ forall r, Lifecycle.state (Lifecycle.tr s) r <> Lifecycle.Live.

Record jinv (j : mediaCall) : Prop := {
  j_nil : tp j = None <-> transport (cl j) = Nil;
  j_reach : forall s, tp j = Some s ->
    Lifecycle.reachable s \/ (unused s /\ released (at_pc j) = true);
  j_open : closing (at_pc j) = false -> released (at_pc j) = false ->
    forall s, tp j = Some s -> Lifecycle.cpc s = Lifecycle.NotClosing;
  j_up : talking (at_pc j) = true -> exists s, tp j = Some s /\
    Lifecycle.rpc s = Lifecycle.RunDone /\ Lifecycle.terr (Lifecycle.tr s) = None;
  j_rel : released (at_pc j) = true -> forall s, tp j = Some s ->
    Lifecycle.cpc s = Lifecycle.CloseDone \/ unused s
}.

Lemma step_transport max c p o c' p' new :
  callStep max c p o = Some (c', p', new) -> transport c' = Nil <-> transport c = Nil.
Proof.
  pose proof (signalReady_frame c) as Hf.
  intros Hs. step_cases Hs p; simpl; try done; try (split; congruence);
    match goal with |- context [signalReady c ?e] => destruct (Hf e) as (_ & _ & _ & _ & _ & -> & _) end;
    done.
Qed.

(** The goroutine's places: it talks only after a successful wait or from talking, and
    is released only from the close or from being released. *)
Lemma step_places max c p o c' p' new :
  callStep max c p o = Some (c', p', new) ->
  (talking p' = true -> talking p = true \/ (waiting p = true /\ oerr o = None)) /\
  (released p' = true -> released p = true \/ closing p = true) /\
  (closing p = true -> released p' = true) /\ (released p = true -> released p' = true).
Proof.
  intros Hs. step_cases Hs p; simpl in *; repeat match goal with |- context [if ?b then _ else _] => destruct b end; auto.
Qed.

Lemma released_not_closing p : released p = true -> closing p = false.
Proof. by destruct p. Qed.

Lemma lifecycle_reach s a s' : Lifecycle.reachable s -> Lifecycle.step s a = Some s' -> Lifecycle.reachable s'.
Proof. intros. by eapply Lifecycle.reach_step. Qed.

(** Outside Close, the transport's own steps keep a finished set-up finished. *)
Lemma set_up_kept s a s' :
  Lifecycle.step s a = Some s' -> a <> Lifecycle.DoClose -> a <> Lifecycle.DoCloseStep ->
  Lifecycle.cpc s' = Lifecycle.cpc s /\
  (Lifecycle.reachable s -> Lifecycle.rpc s = Lifecycle.RunDone ->
   Lifecycle.rpc s' = Lifecycle.RunDone /\ Lifecycle.terr (Lifecycle.tr s') = Lifecycle.terr (Lifecycle.tr s)).
Proof.
  intros H H1 H2. destruct a; try done; cbn [Lifecycle.step] in H.
  - destruct (Lifecycle.startDone (Lifecycle.tr s)) eqn:E; simplify_eq; (split; [done|]); [done|].
    intros Hr Hd. destruct (Lifecycle.i_done _ (Lifecycle.life_inv_reachable s Hr) Hd). congruence.
  - destruct (Lifecycle.rpc s) eqn:E; try done;
      (destruct (Lifecycle.runStep _ _ _) as [t pc]; simplify_eq; split; done).
  - simplify_eq. split; done.
Qed.

Lemma jinv_call max j o c p new :
  jinv j -> callStep max (cl j) (at_pc j) o = Some (c, p, new) ->
  (waiting (at_pc j) = true -> oerr o = None -> exists s, tp j = Some s /\
     Lifecycle.rpc s = Lifecycle.RunDone /\ Lifecycle.terr (Lifecycle.tr s) = None) ->
  (closing (at_pc j) = true -> forall s, tp j = Some s -> Lifecycle.cpc s = Lifecycle.CloseDone) ->
  jinv (mkMediaCall c p (tp j)).
Proof.
  intros [H1 H2 H3 H4 H5] Hs Hw Hc.
  destruct (step_places _ _ _ _ _ _ _ Hs) as (P1 & P2 & P3 & P4). split; simpl.
  - by rewrite (step_transport _ _ _ _ _ _ _ Hs).
  - intros s Es. destruct (H2 s Es) as [?|[? ?]]; auto.
  - intros Hcl Hrel. apply H3.
    + destruct (closing (at_pc j)) eqn:E; [|done]. by rewrite P3 in Hrel.
    + destruct (released (at_pc j)) eqn:E; [|done]. by rewrite P4 in Hrel.
  - intros [Ht|[Hwt Ho]]%P1; auto.
  - intros [Hr|Hr]%P2 s Es; auto.
Qed.

(** A step of the transport alone. *)
Lemma jinv_transport j s a s' :
  jinv j -> tp j = Some s -> Lifecycle.step s a = Some s' ->
  released (at_pc j) = false ->
  (closing (at_pc j) = true \/ (a <> Lifecycle.DoClose /\ a <> Lifecycle.DoCloseStep)) ->
  jinv (mkMediaCall (cl j) (at_pc j) (Some s')).
Proof.
  intros [H1 H2 H3 H4 H5] Es Ha Hrel Hcl.
  assert (Hr : Lifecycle.reachable s) by (destruct (H2 s Es) as [?|[_ ?]]; [done|congruence]).
  split; simpl.
  - rewrite <- H1, Es. done.
  - intros x ?. simplify_eq. left. by eapply lifecycle_reach.
  - intros Hc _ x ?. simplify_eq. destruct Hcl as [?|[N1 N2]]; [congruence|].
    destruct (set_up_kept _ _ _ Ha N1 N2) as [-> _]. by apply H3.
  - intros Ht. destruct (H4 Ht) as (y & Ey & Hd & He). simplify_eq. exists s'. split; [done|].
    destruct Hcl as [Hc|[N1 N2]]; [by destruct (at_pc j)|].
    destruct (set_up_kept _ _ _ Ha N1 N2) as [_ Hk]. destruct (Hk Hr Hd) as [-> ->]. done.
  - congruence.
Qed.

(** A closed or unused transport does not run any more. *)
Lemma parked j s o : jinv j -> released (at_pc j) = true -> tp j = Some s ->
  Lifecycle.step s (Lifecycle.DoRun o) = None.
Proof.
  intros [_ H2 _ _ H5] Hrel Es. destruct (H5 Hrel s Es) as [Hc|[Hn _]]; [|simpl; by rewrite Hn].
  destruct (H2 s Es) as [Hr|[[Hn _] _]]; [|simpl; by rewrite Hn].
  destruct (Lifecycle.closed_nothing_live s Hr Hc) as [Hn _]. simpl. by destruct (Lifecycle.rpc s).
Qed.

Lemma jinv_cancel_released j s :
  jinv j -> released (at_pc j) = true -> tp j = Some s ->
  forall s', Lifecycle.step s Lifecycle.ParentCancel = Some s' -> jinv (mkMediaCall (cl j) (at_pc j) (Some s')).
Proof.
  intros [H1 H2 H3 H4 H5] Hrel Es s' Hs.
  assert (Hu : unused s -> unused s') by (simpl in Hs; by simplify_eq).
  assert (Hc : Lifecycle.cpc s' = Lifecycle.cpc s) by (simpl in Hs; by simplify_eq).
  split; simpl.
  - rewrite <- H1, Es. done.
  - intros x ?. simplify_eq. destruct (H2 s Es) as [?|[? ?]]; [left; by eapply lifecycle_reach|auto].
  - congruence.
  - intros Ht. by destruct (at_pc j).
  - intros _ x ?. simplify_eq. rewrite Hc. destruct (H5 Hrel s Es); auto.
Qed.

Lemma late_unused : unused late.
Proof. split; [done|]. intros r. simpl. unfold Lifecycle.upd. by destruct r. Qed.

Lemma jinv_connect j f :
  jinv j ->
  jinv (mkMediaCall (fst (connectCall f (cl j))) (at_pc j)
    (match tp j, transport (fst (connectCall f (cl j))) with
     | None, Open => Some (if released (at_pc j) then late else Lifecycle.initial)
     | s, _ => s
     end)).
Proof.
  intros Hj. pose proof Hj as [H1 H2 H3 H4 H5]. destruct (tp j) as [s|] eqn:Es.
  - assert (Hn : transport (cl j) <> Nil) by (intros E; by apply H1 in E).
    assert (E : fst (connectCall f (cl j)) = cl j) by (unfold connectCall; by destruct (transport (cl j))).
    rewrite E, <- Es. by destruct j.
  - assert (Hn : transport (cl j) = Nil) by by apply H1.
    assert (Ht : transport (fst (connectCall f (cl j))) = Nil \/ transport (fst (connectCall f (cl j))) = Open).
    { unfold connectCall. rewrite Hn. destruct (negotiation (cl j)) as [n|]; [|by left].
      destruct (f n) as [n' [e|]]; simpl; auto. }
    destruct Ht as [Et|Et]; rewrite Et; [by split|]. split; simpl; rewrite ?Et; try done.
    + intros s [= <-]. destruct (released (at_pc j)); [right; split; [apply late_unused|done]|left; constructor].
    + intros _ -> s [= <-]. done.
    + intros Ht. destruct (H4 Ht) as (s & ? & _). done.
    + intros -> s [= <-]. right. apply late_unused.
Qed.

Lemma jinv_step max j a j' : jinv j -> jstep max j a = Some j' -> jinv j'.
Proof.
  intros Hj H. destruct a as [o| |pick e|o| | |user|tok|f]; cbn [jstep] in H.
  - destruct (waiting (at_pc j)) eqn:Ew; [done|].
    assert (Hcl : closing (at_pc j) = true -> forall s, tp j = Some s -> closeDone s = true).
    { intros Ec s Es. rewrite Ec, Es in H. by destruct (closeDone s). }
    assert (Hs : exists r, callStep max (cl j) (at_pc j) o = Some r /\
      j' = mkMediaCall (fst (fst r)) (snd (fst r)) (tp j)).
    { destruct (callStep max (cl j) (at_pc j) o) as [r|]; simpl in H;
        destruct (closing (at_pc j)), (tp j) as [s|]; try destruct (closeDone s); simplify_eq; eauto. }
    destruct Hs as ([[c p] new] & Hs & ->). eapply jinv_call; [done|exact Hs|by rewrite Ew|].
    intros Ec s Es. specialize (Hcl Ec s Es). unfold closeDone in Hcl. by destruct (Lifecycle.cpc s).
  - destruct (tp j) as [s|] eqn:Es; [|done]. destruct (waiting (at_pc j)) eqn:Ew; [|done].
    destruct (Lifecycle.step s Lifecycle.DoStart) eqn:E; [|done]. injection H as <-.
    eapply jinv_transport; eauto; try (by right); by destruct (at_pc j).
  - destruct (tp j) as [s|] eqn:Es; [|done].
    destruct (waiting (at_pc j)) eqn:Ew, (Lifecycle.startDone (Lifecycle.tr s)); try done. cbn [andb] in H.
    destruct (Lifecycle.Wait _ _ _) as [r|] eqn:Er; [|done].
    destruct (callStep max (cl j) (at_pc j) (mkOutcome r CaseCtx)) as [[[c p] new]|] eqn:Hs; [|done].
    injection H as <-. simpl. rewrite <- Es. eapply jinv_call; [done|exact Hs| |by destruct (at_pc j)].
    intros _ Ho. simpl in Ho. subst r. exists s. split; [done|].
    destruct Hj as [_ H2 H3 _ _].
    destruct (H2 s Es) as [Hr|[_ ?]]; [|by destruct (at_pc j)].
    apply (Lifecycle.Wait_success_done s pick e Hr); [|done].
    rewrite (Lifecycle.i_closed _ (Lifecycle.life_inv_reachable s Hr)), (H3 ltac:(by destruct (at_pc j))
      ltac:(by destruct (at_pc j)) s Es). done.
  - destruct (tp j) as [s|] eqn:Es; [|done].
    destruct (released (at_pc j)) eqn:Er; [by rewrite (parked j s o Hj Er Es) in H|].
    destruct (Lifecycle.step s (Lifecycle.DoRun o)) eqn:E; [|done]. injection H as <-.
    eapply jinv_transport; eauto; by right.
  - destruct (tp j) as [s|] eqn:Es; [|done]. destruct (closing (at_pc j)) eqn:Ec; [|done].
    destruct (Lifecycle.step s _) eqn:E; [|done]. injection H as <-.
    eapply jinv_transport; eauto. by destruct (at_pc j).
  - destruct (tp j) as [s|] eqn:Es; [|done]. destruct (ctxDone (cl j)); [|done].
    destruct (Lifecycle.step s Lifecycle.ParentCancel) eqn:E; [|done]. injection H as <-.
    destruct (released (at_pc j)) eqn:Er; [by eapply jinv_cancel_released|].
    eapply jinv_transport; eauto; by right.
  - destruct Hj. simplify_eq. by destruct user; split.
  - destruct Hj. simplify_eq. by split.
  - simplify_eq. by apply jinv_connect.
Qed.

Lemma jinv_reachable max j : jreachable max j -> jinv j.
Proof.
  induction 1 as [j [(E1 & _ & E2 & E3)|(E1 & _ & E2 & E3)]|]; [| |by eapply jinv_step];
    (split; rewrite ?E1, ?E2, ?E3; try done).
  - intros s ?. simplify_eq. left. constructor.
  - intros _ _ s ?. by simplify_eq.
Qed.

Lemma on_tp_call j s j' : on_tp j s = Some j' -> cl j' = cl j /\ at_pc j' = at_pc j.
Proof. unfold on_tp. destruct s; simpl; intros; by simplify_eq. Qed.

(** What the steps are on the side of the call. *)
Definition call_view (max : Z) (j j' : mediaCall) : Prop :=
  (exists o new, callStep max (cl j) (at_pc j) o = Some (cl j', at_pc j', new)) \/
  (at_pc j' = at_pc j /\ (cl j' = cl j \/ cl j' = stopUser (cl j) \/ cl j' = stopBusiness (cl j) \/
     (exists tok, cl j' = set_token (cl j) tok) \/ exists f, cl j' = fst (connectCall f (cl j)))).

Lemma jstep_visible max j a j' : jstep max j a = Some j' -> call_view max j j'.
Proof.
  intros H. unfold call_view.
  assert (Hcall : forall o, (fun r => mkMediaCall (fst (fst r)) (snd (fst r)) (tp j)) <$>
      callStep max (cl j) (at_pc j) o = Some j' ->
      exists new, callStep max (cl j) (at_pc j) o = Some (cl j', at_pc j', new)).
  { intros o Hc. destruct (callStep max (cl j) (at_pc j) o) as [[[c p] new]|]; [|done].
    injection Hc as <-. by exists new. }
  assert (Htp : forall s, on_tp j s = Some j' -> at_pc j' = at_pc j /\ cl j' = cl j).
  { intros s Hs. by destruct (on_tp_call _ _ _ Hs). }
  destruct a as [o| |pick e|o| | |user|tok|f]; cbn [jstep] in H.
  - left. exists o. apply Hcall. destruct (waiting _); [done|]. destruct (closing _); [|done].
    destruct (tp j) as [s|]; [|done]. by destruct (closeDone s).
  - destruct (tp j); [|done]. destruct (waiting _); [|done]. apply Htp in H. tauto.
  - left. destruct (tp j) as [s|]; [|done]. destruct (_ && _); [|done].
    destruct (Lifecycle.Wait _ _ _) as [r|]; [|done]. exists (mkOutcome r CaseCtx). by apply Hcall.
  - destruct (tp j); [|done]. apply Htp in H. tauto.
  - destruct (tp j); [|done]. destruct (closing _); [|done]. apply Htp in H. tauto.
  - destruct (tp j); [|done]. destruct (ctxDone _); [|done]. apply Htp in H. tauto.
  - injection H as <-. right. destruct user; simpl; tauto.
  - injection H as <-. right. simpl. eauto 10.
  - injection H as <-. right. simpl. eauto 10.
Qed.

(** C12. The call's view of its transport is the truth. In every interleaving of the
    call's goroutine, the set-up goroutine of the transport, the end of the contexts,
    stops, new tokens and answers from other requests: while the call is being
    accepted or is connected, the transport's sessions are published and its pump
    runs; and when the goroutine has released the call, the transport, whichever way
    its set-up went, has nothing open and runs no goroutine any more. Each step is a
    step of the call as modelled in [Call], an operation of another goroutine on it,
    or invisible to it. *)
Theorem call_and_transport_agree max j :
  jreachable max j ->
  (talking (at_pc j) = true -> exists s, tp j = Some s /\
     Lifecycle.media_up (Lifecycle.tr s) /\ Lifecycle.pumping (Lifecycle.tr s) = true) /\
  (released (at_pc j) = true -> forall s, tp j = Some s ->
     Lifecycle.running (Lifecycle.rpc s) = false /\
     forall r, Lifecycle.state (Lifecycle.tr s) r <> Lifecycle.Live) /\
  (forall a j', jstep max j a = Some j' -> call_view max j j').
Proof.
  intros Hr. destruct (jinv_reachable _ _ Hr) as [H1 H2 H3 H4 H5]. conjs.
  - intros Ht. destruct (H4 Ht) as (s & Es & Hd & He). exists s. split; [done|].
    assert (Hp : closing (at_pc j) = false /\ released (at_pc j) = false) by by destruct (at_pc j).
    destruct Hp as [P1 P2]. destruct (H2 s Es) as [Hs|[_ ?]]; [|congruence].
    apply Lifecycle.set_up_media; auto.
    by rewrite (Lifecycle.i_closed _ (Lifecycle.life_inv_reachable s Hs)), (H3 P1 P2 s Es).
  - intros Hrel s Es. destruct (H5 Hrel s Es) as [Hc|[Hn Hl]]; [|by rewrite Hn].
    destruct (H2 s Es) as [Hs|[[Hn Hl] _]]; [by apply Lifecycle.closed_nothing_live|by rewrite Hn].
  - intros a j'. apply jstep_visible.
Qed.

(** * Instance *)

(** An inbound call: joined, pre-accepted, the transport comes up, accepted, stopped
    by the user, released. *)
Definition demoCall : Call :=
  mkCall "phone" "token" "v23.0" "wacid.0" 0 "room" "agent" false Open Nil Open "" None false 0 0 0
    None false false false.
Definition ok : jaction := JCall (mkOutcome None CaseCtx).
Definition demoUp : list jaction :=
  [ok; ok; ok; JStart] ++ replicate 18 (JRun None) ++ [JWait false (Sentinel Canceled); ok; ok].
Definition demoDown : list jaction :=
  [JStop true; JCancel; ok; ok; ok; ok] ++ replicate 8 JClose ++ [ok].

Fixpoint jsteps (max : Z) (j : mediaCall) (acts : list jaction) : option mediaCall :=
  match acts with
  | [] => Some j
  | a :: acts => match jstep max j a with Some j' => jsteps max j' acts | None => None end
  end.

Lemma jreachable_jsteps max acts : forall j j', jreachable max j -> jsteps max j acts = Some j' -> jreachable max j'.
Proof.
  induction acts as [|a acts IH]; intros j j' Hj H; simpl in H; [by simplify_eq|].
  destruct (jstep max j a) eqn:E; [|done]. eapply IH; [|done]. by eapply jreach_step.
Qed.

Definition demoStart : mediaCall := mkMediaCall demoCall InBridge (Some Lifecycle.initial).
Definition demoMedia (acts : list jaction) : mediaCall := default demoStart (jsteps 0 demoStart acts).

Lemma call_and_transport_agree_witness :
  at_pc (demoMedia demoUp) = AwaitEnd /\ at_pc (demoMedia (demoUp ++ demoDown)) = FDelete /\
  (exists s, tp (demoMedia demoUp) = Some s /\ Lifecycle.media_up (Lifecycle.tr s)) /\
  (forall s, tp (demoMedia (demoUp ++ demoDown)) = Some s ->
     forall r, Lifecycle.state (Lifecycle.tr s) r <> Lifecycle.Live).
Proof.
  assert (S0 : jreachable 0 demoStart) by (apply jreach_init; left; auto).
  assert (E1 : at_pc (demoMedia demoUp) = AwaitEnd) by (vm_compute; reflexivity).
  assert (E2 : at_pc (demoMedia (demoUp ++ demoDown)) = FDelete) by (vm_compute; reflexivity).
  assert (R : forall acts, jreachable 0 (demoMedia acts)).
  { intros acts. unfold demoMedia. destruct (jsteps 0 demoStart acts) eqn:E; [|exact S0].
    exact (jreachable_jsteps 0 acts demoStart _ S0 E). }
  split; [exact E1|]. split; [exact E2|]. split.
  - destruct (call_and_transport_agree 0 _ (R demoUp)) as (H & _).
    rewrite E1 in H. destruct (H eq_refl) as (s & Hs & Hm & _). exists s. exact (conj Hs Hm).
  - destruct (call_and_transport_agree 0 _ (R (demoUp ++ demoDown))) as (_ & H & _).
    rewrite E2 in H. intros s Hs. apply (H eq_refl s Hs).
Defined.
