(* ===== verification/Manager.v ===== *)
(** The call manager (internal/call/manager.go: [NewManager], [Accept], [Dial],
    [Connect], [Disconnect], [Shutdown], [finish]): the registry of calls, the wait
    group and the draining flag, shared by the API requests and by the goroutines of
    the calls. Every critical section of a mutex and every external call is one step;
    steps of different goroutines interleave freely. *)
From S2P Require Import Prelude Errors Sdp Call.

Local Open Scope Z_scope.

(** * State *)

(** A call object, where its goroutine is, and the operations of [meta.Client] made for it. *)
Record cell := mkCell { cl : Call; at_pc : pc; evs : list event }.

Record AcceptParams := mkAccept {
  aPhone : string; aToken : string; aVersion : string; aCallID : string; aSDP : string;
  aRoom : string; aIdentity : string; aWait : bool; aTimeout : Z
}.
Record DialParams := mkDial {
  dPhone : string; dToken : string; dVersion : string; dTo : string; dOpaque : string;
  dRoom : string; dIdentity : string; dTimeout : Z
}.

(** Results of the API: a room and call identifier, and the error. *)
Inductive apiResult :=
  | AcceptResult (room : string) (e : option error)
  | DialResult (r : error + string * string)
  | Result (e : option error).

(** An API request in progress: what it will do next, with its local variables. *)
Inductive thread :=
  | TAcceptBuild (p : AcceptParams)
  | TAcceptRegister (p : AcceptParams) (l : nat)
  | TAcceptWait (l : nat) (mine : bool)
  | TAcceptStop (l : nat) (room : string) (e : error)
  | TDialBuild (p : DialParams)
  | TDialRegister (l : nat)
  | TDialDraining (l : nat)
  | TConnect (l : nat) (answer : string) (w : bool)
  | TConnectWait (l : nat)
  | TDisconnect (l : nat) (user : bool) (token : string)
  | TDisconnectStop (l : nat) (user : bool)
  | TShutdown (drained : bool)          (* [drained]: its done channel is closed *)
  | TReturn (r : apiResult).

(** [type Manager struct] with the call objects and the requests in progress. *)
Record manager := mkManager {
  calls : gmap string nat;
  draining : bool;
  wg : Z;
  heap : gmap nat cell;
  threads : gmap nat thread
}.

Definition NewManager : manager := mkManager ∅ false 0 ∅ ∅.

Definition set_thread (m : manager) (t : nat) (x : thread) : manager :=
  mkManager (calls m) (draining m) (wg m) (heap m) (<[t := x]> (threads m)).
Definition set_cell (m : manager) (l : nat) (x : cell) : manager :=
  mkManager (calls m) (draining m) (wg m) (<[l := x]> (heap m)) (threads m).
Definition on_call (m : manager) (l : nat) (f : Call -> Call) : manager :=
  mkManager (calls m) (draining m) (wg m)
    (alter (fun x => mkCell (f (cl x)) (at_pc x) (evs x)) l (heap m)) (threads m).

(** The critical section that registers a call: the map entry and the wait group. *)
Definition register (m : manager) (l : nat) (x : cell) (start : pc) : manager :=
  mkManager (<[CallID (cl x) := l]> (calls m)) (draining m) (wg m + 1)
    (<[l := mkCell (cl x) start (evs x)]> (heap m)) (threads m).

Definition empty (s : string) : bool := String.eqb s "".
Definition drainingError : error := NewError "connector is draining".

Section Manager.
(** Configuration, and the parsers and hash that Sdp takes as parameters. *)
Context (publicIP : Addr) (maxDuration : Z).
Context (Unmarshal : string -> result SessionDescription)
        (UnmarshalCandidate : string -> option candidate)
        (uniLower uniUpper : string -> string) (sha256 : list Z -> list Z).

(** The results of the external calls made while a call is built. *)
Record buildEnv := mkEnv {
  e_listen : result Z;                      (* ports.Listen: the port *)
  e_key : option error; e_serial : option error; e_created : result (list Z);  (* NewCertificate *)
  e_now : Z; e_rand1 : error + (nat -> Z); e_rand2 : error + (nat -> Z);
  e_uuid1 : string; e_uuid2 : string;
  e_dial : result string                    (* meta.Dial: the call identifier *)
}.

Definition withDefault (s uuid : string) : string := if empty s then "whatsapp-" +:+ uuid else s.

(** [Accept] between its two critical sections: the call object or the error, and
    what became of the socket. *)
Definition prepareAccept (p : AcceptParams) (e : buildEnv) : result Call * ptr :=
  match e_listen e with
  | inl err => (inl err, Nil)
  | inr port =>
      match NewCertificate sha256 (e_key e) (e_serial e) (e_created e) with
      | inl err => (inl err, Closed)
      | inr cert =>
          match ParseOfferAndAnswer Unmarshal UnmarshalCandidate uniLower uniUpper
                  (e_now e) (e_rand1 e) (e_rand2 e) (aSDP p) cert publicIP port with
          | inl err => (inl err, Closed)
          | inr n =>
              (inr (mkCall (aPhone p) (aToken p) (aVersion p) (aCallID p) (aTimeout p)
                      (withDefault (aRoom p) (e_uuid1 e)) (withDefault (aIdentity p) (e_uuid2 e))
                      false Open Nil Open (Answer n) None false 0 0 0 None false false false), Open)
          end
      end
  end.

(** The same for [Dial]. *)
Definition prepareDial (p : DialParams) (e : buildEnv) : result Call * ptr :=
  match e_listen e with
  | inl err => (inl err, Nil)
  | inr port =>
      match NewCertificate sha256 (e_key e) (e_serial e) (e_created e) with
      | inl err => (inl err, Closed)
      | inr cert =>
          match NewOffer (e_now e) (e_rand1 e) (e_rand2 e) (Some cert) publicIP port with
          | inl err => (inl err, Closed)
          | inr n =>
              match e_dial e with
              | inl err => (inl err, Closed)
              | inr callID =>
                  (inr (mkCall (dPhone p) (dToken p) (dVersion p) callID (dTimeout p)
                          (withDefault (dRoom p) (e_uuid1 e)) (withDefault (dIdentity p) (e_uuid2 e))
                          false Nil Nil Open "" (Some n) true 0 0 0 None false false true), Open)
              end
          end
      end
  end.

(** * Steps *)

Inductive action :=
  | CallAccept (t : nat) (p : AcceptParams)
  | BuildAccept (t l : nat) (e : buildEnv)
  | RegisterAccept (t : nat)
  | WaitAccept (t : nat) (ctxErr : option error) (pickCtx : bool)
  | StopAccept (t : nat)
  | CallDial (t : nat) (p : DialParams)
  | BuildDial (t l : nat) (e : buildEnv)
  | RegisterDial (t : nat)
  | ReturnDial (t : nat)
  | CallConnect (t : nat) (id answer : string) (w : bool)
  | ApplyConnect (t : nat)
  | WaitConnect (t : nat) (ctxErr : option error) (pickCtx : bool)
  | CallDisconnect (t : nat) (id : string) (user : bool) (token : string)
  | TokenDisconnect (t : nat)
  | StopDisconnect (t : nat)
  | CallShutdown (t : nat)
  | DrainShutdown (t : nat)
  | ReturnShutdown (t : nat) (ctxErr : option error) (pickCtx : bool)
  | RunCall (l : nat) (o : outcome)
  | BridgeDisconnected (l : nat).

(** A new request. *)
Definition spawn (m : manager) (t : nat) (x : thread) : option manager :=
  match threads m !! t with Some _ => None | None => Some (set_thread m t x) end.

Definition callAccept (m : manager) (p : AcceptParams) : thread :=
  if empty (aPhone p) || empty (aToken p) || empty (aVersion p) || empty (aCallID p) || empty (aSDP p)
  then TReturn (AcceptResult "" (Some (NewError "required WhatsApp call fields are missing")))
  else if draining m then TReturn (AcceptResult "" (Some drainingError))
  else match calls m !! aCallID p with
  | Some l =>
      match heap m !! l with
      | Some x => if aWait p then TAcceptWait l false else TReturn (AcceptResult (room (cl x)) None)
      | None => TReturn (AcceptResult "" None)
      end
  | None => TAcceptBuild p
  end.

(** The second critical section of [Accept]. A duplicate is closed and dropped. *)
Definition registerAccept (m : manager) (t : nat) (p : AcceptParams) (l : nat) (x : cell)
  : option manager :=
  match calls m !! aCallID p with
  | Some old =>
      match heap m !! old with
      | Some y =>
          let c := set_media (cl x) (closePtr (transport (cl x))) (closePtr (socket (cl x))) in
          let m := set_cell m l (mkCell (set_stop c (terminate c) (userTerminated c)) Dropped (evs x)) in
          Some (set_thread m t (if aWait p then TAcceptWait old false
                                else TReturn (AcceptResult (room (cl y)) None)))
      | None => None
      end
  | None =>
      Some (set_thread (register m l x InBridge) t
              (if aWait p then TAcceptWait l true else TReturn (AcceptResult (room (cl x)) None)))
  end.

Definition registerDial (m : manager) (t l : nat) (x : cell) : manager :=
  if draining m
  then set_thread (set_cell m l (mkCell (stopBusiness (cl x)) (CSignal false) (evs x))) t (TDialDraining l)
  else set_thread (register m l x OutBridge) t (TReturn (DialResult (inr (CallID (cl x), room (cl x))))).

Definition callDisconnect (m : manager) (id : string) (user : bool) (token : string) : thread :=
  match calls m !! id with
  | None => TReturn (Result None)
  | Some l => if empty token then TDisconnectStop l user else TDisconnect l user token
  end.

(** [Shutdown]'s critical section: stop every registered call. *)
Definition stopAll (ls : list nat) (h : gmap nat cell) : gmap nat cell :=
  foldr (fun l h => alter (fun x => mkCell (stopBusiness (cl x)) (at_pc x) (evs x)) l h) h ls.
Definition startShutdown (m : manager) : manager :=
  mkManager (calls m) true (wg m) (stopAll (map snd (map_to_list (calls m))) (heap m)) (threads m).

(** A step of the goroutine of a call, with what [finish] does to the manager. *)
Definition runCall (m : manager) (l : nat) (x : cell) (o : outcome) : option manager :=
  match callStep maxDuration (cl x) (at_pc x) o with
  | None => None
  | Some (c, p, new) =>
      let m' := set_cell m l (mkCell c p (evs x ++ new)) in
      Some match at_pc x with
      | FDelete => mkManager (delete (CallID (cl x)) (calls m')) (draining m') (wg m') (heap m') (threads m')
      | FWg => mkManager (calls m') (draining m') (wg m' - 1) (heap m') (threads m')
      | _ => m'
      end
  end.

(** The steps of [Accept]. *)
Definition acceptStep (m : manager) (a : action) : option manager :=
  match a with
  | CallAccept t p => spawn m t (callAccept m p)
  | BuildAccept t l e =>
      match threads m !! t, heap m !! l with
      | Some (TAcceptBuild p), None =>
          match fst (prepareAccept p e) with
          | inl err => Some (set_thread m t (TReturn (AcceptResult "" (Some err))))
          | inr c => Some (set_thread (set_cell m l (mkCell c (Private t) [])) t (TAcceptRegister p l))
          end
      | _, _ => None
      end
  | RegisterAccept t =>
      match threads m !! t with
      | Some (TAcceptRegister p l) =>
          match heap m !! l with
          | Some x => if decide (at_pc x = Private t) then registerAccept m t p l x else None
          | None => None
          end
      | _ => None
      end
  | WaitAccept t ctxErr pick =>
      match threads m !! t with
      | Some (TAcceptWait l mine) =>
          match heap m !! l with
          | Some x =>
              match wait (cl x) ctxErr pick with
              | None => None
              | Some None => Some (set_thread m t (TReturn (AcceptResult (room (cl x)) None)))
              | Some (Some e) =>
                  Some (set_thread m t (if mine then TAcceptStop l (room (cl x)) e
                                        else TReturn (AcceptResult (room (cl x)) (Some e))))
              end
          | None => None
          end
      | _ => None
      end
  | StopAccept t =>
      match threads m !! t with
      | Some (TAcceptStop l r e) =>
          Some (set_thread (on_call m l stopBusiness) t (TReturn (AcceptResult r (Some e))))
      | _ => None
      end
  | _ => None
  end.

(** The steps of [Dial]. *)
Definition dialStep (m : manager) (a : action) : option manager :=
  match a with
  | CallDial t p =>
      spawn m t
        (if empty (dPhone p) || empty (dToken p) || empty (dVersion p) || empty (dTo p)
         then TReturn (DialResult (inl (NewError "required outbound WhatsApp call fields are missing")))
         else if draining m then TReturn (DialResult (inl drainingError)) else TDialBuild p)
  | BuildDial t l e =>
      match threads m !! t, heap m !! l with
      | Some (TDialBuild p), None =>
          match fst (prepareDial p e) with
          | inl err => Some (set_thread m t (TReturn (DialResult (inl err))))
          | inr c => Some (set_thread (set_cell m l (mkCell c (Private t) [])) t (TDialRegister l))
          end
      | _, _ => None
      end
  | RegisterDial t =>
      match threads m !! t with
      | Some (TDialRegister l) =>
          match heap m !! l with
          | Some x => if decide (at_pc x = Private t) then Some (registerDial m t l x) else None
          | None => None
          end
      | _ => None
      end
  | ReturnDial t =>
      match threads m !! t with
      | Some (TDialDraining l) =>
          match heap m !! l with
          | Some x => if decide (at_pc x = Dropped)
                      then Some (set_thread m t (TReturn (DialResult (inl drainingError)))) else None
          | None => None
          end
      | _ => None
      end
  | _ => None
  end.

(** The steps of [Connect]. *)
Definition connectStep (m : manager) (a : action) : option manager :=
  match a with
  | CallConnect t id answer w =>
      spawn m t
        match calls m !! id with
        | Some l =>
            match heap m !! l with
            | Some x => if outbound (cl x) then TConnect l answer w
                        else TReturn (Result (Some (NewError "outbound WhatsApp call not found")))
            | None => TReturn (Result (Some (NewError "outbound WhatsApp call not found")))
            end
        | None => TReturn (Result (Some (NewError "outbound WhatsApp call not found")))
        end
  | ApplyConnect t =>
      match threads m !! t with
      | Some (TConnect l answer w) =>
          match heap m !! l with
          | Some x =>
              let '(c, e) := connectCall (ApplyAnswer Unmarshal UnmarshalCandidate uniLower uniUpper answer) (cl x) in
              let m := on_call m l (fun _ => c) in
              Some (set_thread m t
                match e with
                | Some e => TReturn (Result (Some e))
                | None => if w then TConnectWait l else TReturn (Result None)
                end)
          | None => None
          end
      | _ => None
      end
  | WaitConnect t ctxErr pick =>
      match threads m !! t with
      | Some (TConnectWait l) =>
          match heap m !! l with
          | Some x =>
              match wait (cl x) ctxErr pick with
              | None => None
              | Some r => Some (set_thread m t (TReturn (Result r)))
              end
          | None => None
          end
      | _ => None
      end
  | _ => None
  end.

(** The steps of [Disconnect]. *)
Definition disconnectStep (m : manager) (a : action) : option manager :=
  match a with
  | CallDisconnect t id user token => spawn m t (callDisconnect m id user token)
  | TokenDisconnect t =>
      match threads m !! t with
      | Some (TDisconnect l user token) =>
          Some (set_thread (on_call m l (fun c => set_token c token)) t (TDisconnectStop l user))
      | _ => None
      end
  | StopDisconnect t =>
      match threads m !! t with
      | Some (TDisconnectStop l user) =>
          Some (set_thread (on_call m l (if user then stopUser else stopBusiness)) t (TReturn (Result None)))
      | _ => None
      end
  | _ => None
  end.

(** The steps of [Shutdown]. [DrainShutdown] is the goroutine it starts: [m.wg.Wait]
    is released at a moment when the wait group is zero, and the done channel is
    closed; the select of [Shutdown] sees that channel later, when new calls may have
    been registered, or takes the case of the context. *)
Definition shutdownStep (m : manager) (a : action) : option manager :=
  match a with
  | CallShutdown t => spawn (startShutdown m) t (TShutdown false)
  | DrainShutdown t =>
      match threads m !! t with
      | Some (TShutdown false) => if wg m =? 0 then Some (set_thread m t (TShutdown true)) else None
      | _ => None
      end
  | ReturnShutdown t ctxErr pick =>
      match threads m !! t with
      | Some (TShutdown drained) =>
          match ctxErr with
          | None => if drained then Some (set_thread m t (TReturn (Result None))) else None
          | Some e =>
              Some (set_thread m t (TReturn (Result (if drained && negb pick then None else Some e))))
          end
      | _ => None
      end
  | _ => None
  end.

(** One step of the program: of a request, of a call's goroutine, or the bridge's
    OnDisconnected callback. *)
Definition step (m : manager) (a : action) : option manager :=
  match a with
  | CallAccept _ _ | BuildAccept _ _ _ | RegisterAccept _ | WaitAccept _ _ _ | StopAccept _ =>
      acceptStep m a
  | CallDial _ _ | BuildDial _ _ _ | RegisterDial _ | ReturnDial _ =>
      dialStep m a
  | CallConnect _ _ _ _ | ApplyConnect _ | WaitConnect _ _ _ =>
      connectStep m a
  | CallDisconnect _ _ _ _ | TokenDisconnect _ | StopDisconnect _ =>
      disconnectStep m a
  | CallShutdown _ | DrainShutdown _ | ReturnShutdown _ _ _ =>
      shutdownStep m a
  | RunCall l o => match heap m !! l with Some x => runCall m l x o | None => None end
  | BridgeDisconnected l =>
      match heap m !! l with
      | Some x => match at_pc x with
                  | Private _ | Dropped => None
                  | _ => Some (on_call m l stopBusiness)
                  end
      | None => None
      end
  end.

Inductive reachable : manager -> Prop :=
  | reach_init : reachable NewManager
  | reach_step m a m' : reachable m -> step m a = Some m' -> reachable m'.

(** Any number of further steps. *)
Inductive follows : manager -> manager -> Prop :=
  | follows_refl m : follows m m
  | follows_step m m1 a m2 : follows m m1 -> step m1 a = Some m2 -> follows m m2.

Fixpoint steps (m : manager) (acts : list action) : option manager :=
  match acts with
  | [] => Some m
  | a :: acts => match step m a with Some m' => steps m' acts | None => None end
  end.

(** * What a step does to one call *)

(** Operations of other goroutines on a call object. *)
Inductive interferes (c : Call) : Call -> Prop :=
  | if_business : interferes c (stopBusiness c)
  | if_user : interferes c (stopUser c)
  | if_token tok : interferes c (set_token c tok)
  | if_connect f : interferes c (fst (connectCall f c)).

Inductive cell_step (x : cell) : cell -> Prop :=
  | cs_same : cell_step x x
  | cs_interfere c : interferes (cl x) c -> cell_step x (mkCell c (at_pc x) (evs x))
  | cs_start t :
      at_pc x = Private t ->
      cell_step x (mkCell (cl x) (if outbound (cl x) then OutBridge else InBridge) (evs x))
  | cs_drop t c :
      at_pc x = Private t -> outbound (cl x) = false ->
      c = set_media (cl x) (closePtr (transport (cl x))) (closePtr (socket (cl x))) ->
      cell_step x (mkCell (set_stop c (terminate c) (userTerminated c)) Dropped (evs x))
  | cs_drain t :
      at_pc x = Private t -> cell_step x (mkCell (stopBusiness (cl x)) (CSignal false) (evs x))
  | cs_run o c p new :
      callStep maxDuration (cl x) (at_pc x) o = Some (c, p, new) ->
      cell_step x (mkCell c p (evs x ++ new)).

Definition cell_ok (x : cell) : Prop := call_ok (cl x) (at_pc x) (evs x).

Lemma interferes_ok c c' p es : interferes c c' -> call_ok c p es -> call_ok c' p es.
Proof.
  intros []; eauto using call_ok_stopBusiness, call_ok_stopUser, call_ok_token, call_ok_connect.
Qed.

Lemma interferes_frame c c' : interferes c c' ->
  CallID c' = CallID c /\ outbound c' = outbound c /\ ready c' = ready c /\ err c' = err c /\
  (userTerminated c = true -> userTerminated c' = true) /\ (ctxDone c = true -> ctxDone c' = true).
Proof.
  intros [| |tok|f]; simpl; auto 10.
  pose proof (connectCall_frame f c) as (E1 & E2 & E3 & E4 & E5 & E6). rewrite E2, E5. auto 10.
Qed.

Lemma cell_step_ok x x' : cell_step x x' -> cell_ok x -> cell_ok x'.
Proof.
  unfold cell_ok. intros [|c Hi|t Hp|t c Hp Ho ->|t Hp|o c p new Hs] Hok; simpl; auto.
  - by eapply interferes_ok.
  - rewrite Hp in Hok. destruct Hok as [H1 H2 H3 H4 H5 H6 H7 H8 H9 [H10 H11]].
    destruct (outbound (cl x)) eqn:Eo; split; simpl; auto; try done; rewrite ?Eo; auto;
      try (intros [?|[? ?]]; done); try (intros [? ?]; done).
  - rewrite Hp in Hok. destruct Hok as [H1 H2 H3 H4 H5 H6 H7 H8 H9 [H10 H11]].
    split; simpl; auto; try done.
    + rewrite Ho in *. done.
    + intros E. specialize (H6 E). by destruct (transport (cl x)).
    + intros _. rewrite H9; [done|eauto].
    + intros [? ?]. done.
    + left. rewrite H11, Ho, H10. simpl. auto.
  - rewrite Hp in Hok. apply call_ok_stopBusiness in Hok.
    destruct Hok as [H1 H2 H3 H4 H5 H6 H7 H8 H9 [H10 H11]].
    split; auto; try done.
    + intros [?|[? ?]]; done.
    + intros [? ?]; done.
    + simpl in *. rewrite H11, H10. unfold set_up_trace. destruct (outbound (cl x)); auto.
  - by eapply call_ok_step.
Qed.

Lemma cell_step_frame x x' : cell_step x x' -> cell_ok x ->
  CallID (cl x') = CallID (cl x) /\ outbound (cl x') = outbound (cl x) /\
  (forall t, at_pc x' = Private t -> at_pc x = Private t).
Proof.
  intros [|c Hi|t Hp|t c Hp Ho ->|t Hp|o c p new Hs] Hok; simpl; auto;
    try (conjs; [done..|by intros]).
  - destruct (interferes_frame _ _ Hi) as (? & ? & _). auto.
  - repeat split; auto. destruct (outbound (cl x)); done.
  - destruct (step_flags _ _ _ _ _ _ _ _ Hok Hs) as (_ & _ & _ & ? & _ & _ & ?).
    repeat split; auto. intros t ->. exfalso. revert Hs. destruct x as [c0 p0 e0]. simpl.
    intros Hs. step_cases Hs p0.
Qed.

(** The object made by [Accept] or [Dial]. *)
Definition fresh_cell (x : cell) : Prop := cell_ok x /\ socket (cl x) = Open /\ evs x = [].

Lemma prepareAccept_spec p e c s :
  prepareAccept p e = (inr c, s) ->
  s = Open /\ outbound c = false /\ CallID c = aCallID p /\ forall t, fresh_cell (mkCell c (Private t) []).
Proof.
  unfold prepareAccept. destruct (e_listen e); [done|]. destruct (NewCertificate _ _ _ _); [done|].
  destruct (ParseOfferAndAnswer _ _ _ _ _ _ _ _ _ _ _); [done|]. intros; simplify_eq.
  conjs; auto. intros t. split; [|done].
  split; simpl; auto; try done; try (intros [?|[? ?]]; done).
Qed.

Lemma prepareDial_spec p e c s :
  prepareDial p e = (inr c, s) ->
  s = Open /\ outbound c = true /\ forall t, fresh_cell (mkCell c (Private t) []).
Proof.
  unfold prepareDial. destruct (e_listen e); [done|]. destruct (NewCertificate _ _ _ _); [done|].
  destruct (NewOffer _ _ _ _ _ _); [done|]. destruct (e_dial e); [done|]. intros; simplify_eq.
  conjs; auto. intros t. split; [|done].
  split; simpl; auto; try done; try (intros [?|[? ?]]; done).
Qed.

(** ** Lookups after a step *)

Lemma on_call_lookup m l f k :
  heap (on_call m l f) !! k =
  (if decide (l = k) then (fun x => mkCell (f (cl x)) (at_pc x) (evs x)) <$> heap m !! k
   else heap m !! k).
Proof.
  simpl. destruct (decide (l = k)) as [->|]; [by rewrite lookup_alter_eq|by rewrite lookup_alter_ne].
Qed.

Lemma stopBusiness_idem c : stopBusiness (stopBusiness c) = stopBusiness c.
Proof. unfold stopBusiness, set_stop. simpl. by destruct (userTerminated c). Qed.

Lemma stopAll_lookup ls h k :
  stopAll ls h !! k =
  (if decide (k ∈ ls) then (fun x => mkCell (stopBusiness (cl x)) (at_pc x) (evs x)) <$> h !! k
   else h !! k).
Proof.
  induction ls as [|l ls IH]; [by rewrite decide_False by apply not_elem_of_nil|].
  simpl. destruct (decide (l = k)) as [->|Hne].
  - rewrite lookup_alter_eq, IH. rewrite (decide_True (P := k ∈ k :: ls)) by left.
    destruct (decide (k ∈ ls)); [|done]. destruct (h !! k); simpl; [|done].
    by rewrite stopBusiness_idem.
  - rewrite lookup_alter_ne, IH by done.
    destruct (decide (k ∈ ls)); [rewrite decide_True by (by right)|rewrite decide_False]; try done.
    rewrite elem_of_cons. intros [?|?]; congruence.
Qed.

(** * Invariant of the manager *)

(** The call is registered and [wg.Done] has not been called for it. *)
Definition active (p : pc) : bool :=
  match p with
  | Private _ | Dropped | FDone | Finished => false
  | CSignal reg | CDecide reg | CTerminate reg _ | CBridge reg | CTransport reg => reg
  | _ => true
  end.
(** It may still be in the map. *)
Definition mapped (p : pc) : bool := match p with FWg => false | _ => active p end.

Definition count (h : gmap nat cell) : nat :=
  size (filter (fun kx : nat * cell => active (at_pc (snd kx)) = true) h).

Definition weight (x : option cell) : nat :=
  match x with Some x => if active (at_pc x) then 1 else 0 | None => 0 end.

Lemma count_insert h l x : (count (<[l := x]> h) + weight (h !! l) = count h + weight (Some x))%nat.
Proof.
  unfold count.
  assert (Hd : (size (filter (fun kx : nat * cell => active (at_pc (snd kx)) = true) h) =
    size (filter (fun kx : nat * cell => active (at_pc (snd kx)) = true) (delete l h)) + weight (h !! l))%nat).
  { destruct (h !! l) as [y|] eqn:E; [|rewrite delete_id by done; simpl; lia].
    rewrite <- (insert_delete_id h l y) at 1 by done. simpl.
    destruct (active (at_pc y)) eqn:Ea.
    - rewrite map_filter_insert_True by done. rewrite map_size_insert_None; [simpl; lia|].
      apply map_lookup_filter_None. left. apply lookup_delete_eq.
    - rewrite map_filter_insert_False by (simpl; congruence).
      rewrite delete_delete_eq. lia. }
  rewrite Hd. rewrite <- insert_delete_eq. simpl.
  destruct (active (at_pc x)) eqn:Ea.
  - rewrite map_filter_insert_True by done. rewrite map_size_insert_None; [simpl; lia|].
    apply map_lookup_filter_None. left. apply lookup_delete_eq.
  - rewrite map_filter_insert_False by (simpl; congruence). rewrite delete_delete_eq. lia.
Qed.

Lemma alter_Some (h : gmap nat cell) f l x : h !! l = Some x -> alter f l h = <[l := f x]> h.
Proof.
  intros E. apply map_eq. intros k. destruct (decide (l = k)) as [->|].
  - by rewrite lookup_alter_eq, E, lookup_insert_eq.
  - by rewrite lookup_alter_ne, lookup_insert_ne.
Qed.

Lemma alter_None (h : gmap nat cell) f l : h !! l = None -> alter f l h = h.
Proof.
  intros E. apply map_eq. intros k. destruct (decide (l = k)) as [->|].
  - by rewrite lookup_alter_eq, E.
  - by rewrite lookup_alter_ne.
Qed.

Lemma count_stopAll ls h : count (stopAll ls h) = count h.
Proof.
  induction ls as [|l ls IH]; [done|]. simpl. rewrite <- IH. clear IH.
  destruct (stopAll ls h !! l) as [x|] eqn:E; [|by rewrite alter_None].
  rewrite (alter_Some _ _ _ _ E).
  pose proof (count_insert (stopAll ls h) l (mkCell (stopBusiness (cl x)) (at_pc x) (evs x))) as H.
  rewrite E in H. simpl in H. lia.
Qed.

Record inv (m : manager) : Prop := {
  i_cells : forall l x, heap m !! l = Some x -> cell_ok x;
  i_accept : forall t p l x, threads m !! t = Some (TAcceptRegister p l) -> heap m !! l = Some x ->
    at_pc x = Private t -> outbound (cl x) = false /\ CallID (cl x) = aCallID p;
  i_dial : forall t l x, threads m !! t = Some (TDialRegister l) -> heap m !! l = Some x ->
    at_pc x = Private t -> outbound (cl x) = true;
  i_calls : forall id l, calls m !! id = Some l ->
    exists x, heap m !! l = Some x /\ CallID (cl x) = id /\ mapped (at_pc x) = true;
  i_wg : wg m = Z.of_nat (count (heap m))
}.

(** The request is building a call. *)
Definition building (x : option thread) : bool :=
  match x with Some (TAcceptBuild _) | Some (TDialBuild _) => true | _ => false end.

(** What a step does to the registry, the wait group and the heap. *)
Inductive change (m m' : manager) : Prop :=
  | ch_same : heap m' = heap m -> calls m' = calls m -> wg m' = wg m -> change m m'
  | ch_new l x t :
      heap m !! l = None -> fresh_cell x -> at_pc x = Private t -> building (threads m !! t) = true ->
      heap m' = <[l := x]> (heap m) -> calls m' = calls m -> wg m' = wg m -> change m m'
  | ch_all ls :
      heap m' = stopAll ls (heap m) -> calls m' = calls m -> wg m' = wg m -> change m m'
  | ch_cell l x x' :
      heap m !! l = Some x -> cell_step x x' -> heap m' = <[l := x']> (heap m) ->
      wg m' = wg m + Z.of_nat (weight (Some x')) - Z.of_nat (weight (Some x)) ->
      (calls m' = calls m /\ (mapped (at_pc x) = true -> mapped (at_pc x') = true)) \/
      (calls m' = <[CallID (cl x) := l]> (calls m) /\ mapped (at_pc x') = true) \/
      calls m' = delete (CallID (cl x)) (calls m) ->
      change m m'.

Lemma active_step c p o c' p' new :
  callStep maxDuration c p o = Some (c', p', new) -> p <> FWg -> active p' = active p.
Proof. intros Hs Hn. step_cases Hs p; simpl in *; try done. Qed.

Lemma mapped_step c p o c' p' new :
  callStep maxDuration c p o = Some (c', p', new) -> p <> FDelete ->
  mapped p = true -> mapped p' = true.
Proof. intros Hs Hn. step_cases Hs p; simpl in *; try done. Qed.

Lemma change_on_call m m' l f :
  (forall x, heap m !! l = Some x -> interferes (cl x) (f (cl x))) ->
  heap m' = heap (on_call m l f) -> calls m' = calls m -> wg m' = wg m -> change m m'.
Proof.
  intros Hf Hh Hc Hw. simpl in Hh. destruct (heap m !! l) as [x|] eqn:E.
  - rewrite (alter_Some _ _ _ _ E) in Hh. eapply ch_cell; [exact E| |exact Hh| |left; auto].
    + apply cs_interfere. auto.
    + simpl. lia.
  - rewrite alter_None in Hh by done. by apply ch_same.
Qed.

Lemma runCall_change m l x o m' :
  heap m !! l = Some x -> runCall m l x o = Some m' -> change m m' /\ threads m' = threads m.
Proof.
  intros E Hs. unfold runCall in Hs.
  destruct (callStep maxDuration (cl x) (at_pc x) o) as [[[c p] new]|] eqn:Es; [|done].
  destruct x as [c0 p0 e0]; simpl in *.
  assert (Hcs : cell_step (mkCell c0 p0 e0) (mkCell c p (e0 ++ new))) by (by eapply cs_run).
  split; [|destruct p0; by simplify_eq].
  destruct (decide (p0 = FDelete)) as [->|Hd]; [|destruct (decide (p0 = FWg)) as [->|Hw]].
  - simplify_eq. eapply ch_cell; [exact E|exact Hcs|reflexivity| |simpl; auto].
    simpl in Es. simplify_eq. simpl. lia.
  - simplify_eq. eapply ch_cell; [exact E|exact Hcs|reflexivity| |].
    + simpl in Es. simplify_eq. simpl. lia.
    + left. split; [done|]. simpl. done.
  - assert (m' = set_cell m l (mkCell c p (e0 ++ new))) as -> by (destruct p0; congruence).
    eapply ch_cell; [exact E|exact Hcs|reflexivity| |].
    + simpl. rewrite (active_step _ _ _ _ _ _ Es Hw). lia.
    + left. split; [done|]. simpl. by eapply mapped_step.
Qed.

Lemma register_change m t l x :
  heap m !! l = Some x -> at_pc x = Private t ->
  forall m' start, start = (if outbound (cl x) then OutBridge else InBridge) ->
  heap m' = heap (register m l x start) -> calls m' = calls (register m l x start) ->
  wg m' = wg (register m l x start) -> change m m'.
Proof.
  intros E Hp m' start -> Hh Hc Hw. simpl in *.
  eapply ch_cell; [exact E|by eapply cs_start|exact Hh| |].
  - rewrite Hw. simpl. rewrite Hp. destruct (outbound (cl x)); simpl; lia.
  - right; left. split; [exact Hc|]. simpl. by destruct (outbound (cl x)).
Qed.

Lemma acceptStep_change m a m' : inv m -> acceptStep m a = Some m' -> change m m'.
Proof.
  intros Hinv Hs. destruct a; try discriminate Hs; simpl in Hs; unfold spawn in Hs.
  - destruct (threads m !! t); [done|]. simplify_eq. by apply ch_same.
  - destruct (threads m !! t) as [[]|] eqn:Et; try done. destruct (heap m !! l) eqn:El; [done|].
    destruct (prepareAccept p e) as [[err|c] s] eqn:Ep; simpl in Hs; simplify_eq; [by apply ch_same|].
    apply prepareAccept_spec in Ep as (_ & _ & _ & Hf). eapply ch_new; eauto. by rewrite Et.
  - destruct (threads m !! t) as [[]|] eqn:Et; try done. destruct (heap m !! l) as [x|] eqn:El; [|done].
    destruct (decide (at_pc x = Private t)) as [Hp|]; [|done].
    destruct (i_accept _ Hinv _ _ _ _ Et El Hp) as [Ho Hid]. unfold registerAccept in Hs.
    destruct (calls m !! aCallID p) as [old|] eqn:Ec.
    + destruct (heap m !! old) as [y|]; [|done]. simplify_eq.
      eapply ch_cell; [exact El|by eapply cs_drop|reflexivity| |].
      * simpl. rewrite Hp. simpl. lia.
      * left. rewrite Hp. done.
    + simplify_eq. eapply register_change; try done. by rewrite Ho.
  - destruct (threads m !! t) as [[]|]; try done. destruct (heap m !! l) as [x|]; [|done].
    destruct (wait (cl x) ctxErr pickCtx) as [[]|]; simplify_eq; by apply ch_same.
  - destruct (threads m !! t) as [[]|]; try done. simplify_eq.
    eapply (change_on_call m _ l stopBusiness); try done. intros; apply if_business.
Qed.

Lemma dialStep_change m a m' : inv m -> dialStep m a = Some m' -> change m m'.
Proof.
  intros Hinv Hs. destruct a; try discriminate Hs; simpl in Hs; unfold spawn in Hs.
  - destruct (threads m !! t); [done|]. simplify_eq. by apply ch_same.
  - destruct (threads m !! t) as [[]|] eqn:Et; try done. destruct (heap m !! l) eqn:El; [done|].
    destruct (prepareDial p e) as [[err|c] s] eqn:Ep; simpl in Hs; simplify_eq; [by apply ch_same|].
    apply prepareDial_spec in Ep as (_ & _ & Hf). eapply ch_new; eauto. by rewrite Et.
  - destruct (threads m !! t) as [[]|] eqn:Et; try done. destruct (heap m !! l) as [x|] eqn:El; [|done].
    destruct (decide (at_pc x = Private t)) as [Hp|]; [|done]. simplify_eq. unfold registerDial.
    pose proof (i_dial _ Hinv _ _ _ Et El Hp) as Ho. destruct (draining m).
    + eapply ch_cell; [exact El|by eapply cs_drain|reflexivity| |].
      * simpl. rewrite Hp. simpl. lia.
      * left. rewrite Hp. done.
    + eapply register_change; try done. by rewrite Ho.
  - destruct (threads m !! t) as [[]|]; try done. destruct (heap m !! l) as [x|]; [|done].
    destruct (decide _); simplify_eq. by apply ch_same.
Qed.

Lemma connectStep_change m a m' : inv m -> connectStep m a = Some m' -> change m m'.
Proof.
  intros Hinv Hs. destruct a; try discriminate Hs; simpl in Hs; unfold spawn in Hs.
  - destruct (threads m !! t); [done|]. simplify_eq. by apply ch_same.
  - destruct (threads m !! t) as [[]|]; try done. destruct (heap m !! l) as [x|] eqn:El; [|done].
    destruct (connectCall _ (cl x)) as [c e] eqn:Ec. simplify_eq.
    eapply (change_on_call m _ l (fun _ => c)); try done.
    intros y Hy. simplify_eq. rewrite <- (f_equal fst Ec : fst _ = c). apply if_connect.
  - destruct (threads m !! t) as [[]|]; try done. destruct (heap m !! l) as [x|]; [|done].
    destruct (wait (cl x) ctxErr pickCtx); simplify_eq; by apply ch_same.
Qed.

Lemma disconnectStep_change m a m' : inv m -> disconnectStep m a = Some m' -> change m m'.
Proof.
  intros Hinv Hs. destruct a; try discriminate Hs; simpl in Hs; unfold spawn in Hs.
  - destruct (threads m !! t); [done|]. simplify_eq. by apply ch_same.
  - destruct (threads m !! t) as [[]|]; try done. simplify_eq.
    eapply (change_on_call m _ l (fun c => set_token c token)); try done. intros; apply if_token.
  - destruct (threads m !! t) as [[]|]; try done. simplify_eq.
    eapply (change_on_call m _ l (if user then stopUser else stopBusiness)); try done.
    intros. destruct user; [apply if_user|apply if_business].
Qed.

Lemma shutdownStep_change m a m' : inv m -> shutdownStep m a = Some m' -> change m m'.
Proof.
  intros Hinv Hs. destruct a; try discriminate Hs; simpl in Hs; unfold spawn in Hs.
  - destruct (threads (startShutdown m) !! t); [done|]. simplify_eq. by eapply ch_all.
  - destruct (threads m !! t) as [[]|]; try done. destruct drained; [done|].
    destruct (wg m =? 0); simplify_eq; by apply ch_same.
  - destruct (threads m !! t) as [[]|]; try done.
    destruct ctxErr; [|destruct drained]; simplify_eq; by apply ch_same.
Qed.

Lemma step_change m a m' : inv m -> step m a = Some m' -> change m m'.
Proof.
  intros Hinv Hs. destruct a; unfold step in Hs;
    eauto using acceptStep_change, dialStep_change, connectStep_change, disconnectStep_change,
      shutdownStep_change.
  - destruct (heap m !! l) as [x|] eqn:El; [|done]. by eapply runCall_change.
  - destruct (heap m !! l) as [x|] eqn:El; [|done].
    assert (m' = on_call m l stopBusiness) as ->.
    { destruct (at_pc x); congruence. }
    eapply (change_on_call m _ l stopBusiness); try done. intros; apply if_business.
Qed.

(** Which requests can be about to register a call. *)
Lemma step_accept m a m' t p l :
  step m a = Some m' -> threads m' !! t = Some (TAcceptRegister p l) ->
  threads m !! t = Some (TAcceptRegister p l) \/
  (heap m !! l = None /\ exists c, heap m' !! l = Some (mkCell c (Private t) []) /\
     outbound c = false /\ CallID c = aCallID p).
Proof.
  intros Hs Ht.
  destruct a; simpl in Hs; unfold spawn, registerAccept, registerDial, callDisconnect, callAccept in Hs;
    repeat case_match; simplify_eq; simpl in Ht;
    try (apply lookup_insert_Some in Ht as [[<- Ht]|[_ Ht]]; simplify_eq); auto.
  - right. split; [done|]. destruct (prepareAccept p e) as [r s] eqn:Ep; simpl in *; subst r.
    apply prepareAccept_spec in Ep as (_ & ? & ? & _). eexists. rewrite lookup_insert_eq. eauto.
  - left. apply (runCall_change _ _ _ _ _ H) in Hs as [_ Hth]. congruence.
Qed.

Lemma step_dial m a m' t l :
  step m a = Some m' -> threads m' !! t = Some (TDialRegister l) ->
  threads m !! t = Some (TDialRegister l) \/
  (heap m !! l = None /\ exists c, heap m' !! l = Some (mkCell c (Private t) []) /\ outbound c = true).
Proof.
  intros Hs Ht.
  destruct a; simpl in Hs; unfold spawn, registerAccept, registerDial, callDisconnect, callAccept in Hs;
    repeat case_match; simplify_eq; simpl in Ht;
    try (apply lookup_insert_Some in Ht as [[<- Ht]|[_ Ht]]; simplify_eq); auto.
  - right. split; [done|]. destruct (prepareDial p e) as [r s] eqn:Ep; simpl in *; subst r.
    apply prepareDial_spec in Ep as (_ & ? & _). eexists. rewrite lookup_insert_eq. eauto.
  - left. apply (runCall_change _ _ _ _ _ H) in Hs as [_ Hth]. congruence.
Qed.

(** A call object persists and evolves by [cell_step]; new ones are fresh. *)
Lemma change_forward m m' k x :
  change m m' -> heap m !! k = Some x -> exists x', heap m' !! k = Some x' /\ cell_step x x'.
Proof.
  intros [Hh _ _|l y t Hl _ _ _ Hh _ _|ls Hh _ _|l y y' Hl Hcs Hh _ _] E; rewrite Hh.
  - eauto using cs_same.
  - rewrite lookup_insert_ne by congruence. eauto using cs_same.
  - rewrite stopAll_lookup, E. destruct (decide _); simpl; eexists; split; try done.
    + apply cs_interfere, if_business.
    + apply cs_same.
  - destruct (decide (l = k)) as [->|].
    + rewrite lookup_insert_eq. simplify_eq. eauto.
    + rewrite lookup_insert_ne by done. eauto using cs_same.
Qed.

Lemma change_backward m m' k x' :
  change m m' -> heap m' !! k = Some x' ->
  (fresh_cell x' /\ exists t, at_pc x' = Private t /\ building (threads m !! t) = true) \/
  exists x, heap m !! k = Some x /\ cell_step x x'.
Proof.
  intros Hc E. destruct (heap m !! k) as [x|] eqn:Ek.
  - right. destruct (change_forward _ _ _ _ Hc Ek) as (y & Hy & ?). simplify_eq. eauto.
  - left. destruct Hc as [Hh _ _|l y t Hl Hf Hp Hb Hh _ _|ls Hh _ _|l y y' Hl Hcs Hh _ _];
      rewrite Hh in E.
    + congruence.
    + apply lookup_insert_Some in E as [[<- <-]|[_ ?]]; [eauto|congruence].
    + rewrite stopAll_lookup, Ek in E. by destruct (decide _).
    + apply lookup_insert_Some in E as [[<- <-]|[_ ?]]; congruence.
Qed.

Lemma change_calls m m' id l :
  (forall l x, heap m !! l = Some x -> cell_ok x) ->
  (forall id l, calls m !! id = Some l ->
     exists x, heap m !! l = Some x /\ CallID (cl x) = id /\ mapped (at_pc x) = true) ->
  change m m' -> calls m' !! id = Some l ->
  exists x, heap m' !! l = Some x /\ CallID (cl x) = id /\ mapped (at_pc x) = true.
Proof.
  intros Hok Hcalls [Hh Hc _|k y t Hl _ _ _ Hh Hc _|ls Hh Hc _|k y y' Hl Hcs Hh _ Hc] E; rewrite Hh.
  - rewrite Hc in E. auto.
  - rewrite Hc in E. destruct (Hcalls _ _ E) as (x & Hx & ?).
    exists x. rewrite lookup_insert_ne by congruence. auto.
  - rewrite Hc in E. destruct (Hcalls _ _ E) as (x & Hx & ?). rewrite stopAll_lookup, Hx.
    destruct (decide _); simpl; eauto.
  - destruct (cell_step_frame _ _ Hcs (Hok _ _ Hl)) as (Hid & _ & _).
    assert (Hold : calls m !! id = Some l -> l <> k ->
              exists x, <[k:=y']> (heap m) !! l = Some x /\ CallID (cl x) = id /\ mapped (at_pc x) = true).
    { intros E' Hne. destruct (Hcalls _ _ E') as (x & Hx & ?). exists x.
      by rewrite lookup_insert_ne. }
    destruct (decide (l = k)) as [->|Hne].
    + rewrite lookup_insert_eq. exists y'. split; [done|]. rewrite Hid.
      destruct Hc as [[Hc Hm]|[[Hc Hm]|Hc]]; rewrite Hc in E.
      * destruct (Hcalls _ _ E) as (x & Hx & ? & ?). simplify_eq. auto.
      * split; [|done]. apply lookup_insert_Some in E as [[? _]|[? E]]; [done|].
        destruct (Hcalls _ _ E) as (x & Hx & ? & ?). by simplify_eq.
      * apply lookup_delete_Some in E as [Hne E].
        destruct (Hcalls _ _ E) as (x & Hx & ? & ?). by simplify_eq.
    + apply Hold; [|done]. destruct Hc as [[Hc Hm]|[[Hc Hm]|Hc]]; rewrite Hc in E; [done| |].
      * apply lookup_insert_Some in E as [[_ ?]|[_ E]]; [congruence|done].
      * by apply lookup_delete_Some in E as [_ E].
Qed.

Lemma change_wg m m' :
  change m m' -> wg m = Z.of_nat (count (heap m)) -> wg m' = Z.of_nat (count (heap m')).
Proof.
  intros [Hh _ Hw|l y t Hl _ Ha _ Hh _ Hw|ls Hh _ Hw|l y y' Hl _ Hh Hw _] E; rewrite Hh, Hw, E.
  - done.
  - pose proof (count_insert (heap m) l y) as H. rewrite Hl in H. simpl in H. rewrite Ha in H. simpl in H. lia.
  - by rewrite count_stopAll.
  - pose proof (count_insert (heap m) l y') as H. rewrite Hl in H. lia.
Qed.

Lemma inv_init : inv NewManager.
Proof. split; simpl; intros; try (by rewrite lookup_empty in *). done. Qed.

Lemma inv_step m a m' : inv m -> step m a = Some m' -> inv m'.
Proof.
  intros Hinv Hs. pose proof (step_change _ _ _ Hinv Hs) as Hc.
  assert (Hok' : forall l x, heap m' !! l = Some x -> cell_ok x).
  { intros l x Hx. destruct (change_backward _ _ _ _ Hc Hx) as [[[? _] _]|(y & Hy & Hcs)]; [done|].
    eapply cell_step_ok; [exact Hcs|]. by eapply i_cells. }
  split.
  - exact Hok'.
  - intros t p l x Ht Hx Hp. destruct (step_accept _ _ _ _ _ _ Hs Ht) as [Ht'|(_ & c & E & ? & ?)];
      [|by simplify_eq].
    destruct (change_backward _ _ _ _ Hc Hx) as [(_ & t' & Hp' & Hb)|(y & Hy & Hcs)].
    + rewrite Hp in Hp'. simplify_eq. by rewrite Ht' in Hb.
    + destruct (cell_step_frame _ _ Hcs (i_cells _ Hinv _ _ Hy)) as (-> & -> & Hpp).
      eapply i_accept; eauto.
  - intros t l x Ht Hx Hp. destruct (step_dial _ _ _ _ _ Hs Ht) as [Ht'|(_ & c & E & ?)];
      [|by simplify_eq].
    destruct (change_backward _ _ _ _ Hc Hx) as [(_ & t' & Hp' & Hb)|(y & Hy & Hcs)].
    + rewrite Hp in Hp'. simplify_eq. by rewrite Ht' in Hb.
    + destruct (cell_step_frame _ _ Hcs (i_cells _ Hinv _ _ Hy)) as (_ & -> & Hpp).
      eapply i_dial; eauto.
  - intros id l. apply change_calls with m; auto; apply Hinv.
  - eapply change_wg; [exact Hc|apply Hinv].
Qed.

Lemma inv_reachable m : reachable m -> inv m.
Proof. induction 1; eauto using inv_init, inv_step. Qed.

Lemma reachable_follows m m' : reachable m -> follows m m' -> reachable m'.
Proof. induction 2 as [|m m1 a m2 _ IH Hs]; [done|]. eapply reach_step; [by apply IH|exact Hs]. Qed.

Lemma reachable_steps acts : forall m m', reachable m -> steps m acts = Some m' -> reachable m'.
Proof.
  induction acts as [|a acts IH]; intros m m' Hr Hs; simpl in Hs; [by simplify_eq|].
  destruct (step m a) eqn:E; [|done]. eapply IH; [|exact Hs]. eapply reach_step; eauto.
Qed.

Lemma step_cell m a m' k x :
  reachable m -> step m a = Some m' -> heap m !! k = Some x ->
  cell_ok x /\ exists x', heap m' !! k = Some x' /\ cell_step x x'.
Proof.
  intros Hr Hs Hx. pose proof (inv_reachable _ Hr) as Hinv. split; [by eapply i_cells|].
  eapply change_forward; [|exact Hx]. by eapply step_change.
Qed.
End Manager.
