(* ===== verification/ManagerProps.v ===== *)
(** Properties of the call manager: theorems about every reachable state of Manager.v,
    that is about every interleaving of API requests, call goroutines and callbacks. *)
From S2P Require Import Prelude Errors GoStrings Sdp Call Manager.

Local Open Scope Z_scope.

(** The operations of [meta.Client] made for one call: for an inbound call a
    pre-accept, an accept only after it succeeded, each at most once; then possibly one
    terminate, the last one, and only if Meta knows the call as taken (the pre-accept
    succeeded, or the call was dialled). An operation may be several HTTP requests,
    see [CallRequests]. *)
Definition protocol (ob : bool) (es : list event) : Prop :=
  exists pre tail, es = pre ++ tail /\
    (if ob then pre = []
     else pre = [] \/ pre = [EvPreAccept false] \/ pre = [EvPreAccept true] \/
          exists b, pre = [EvPreAccept true; EvAccept b]) /\
    (tail = [] \/ exists tok, tail = [EvTerminate tok] /\
       (ob = true \/ head pre = Some (EvPreAccept true))).

Lemma protocol_pre (ob : bool) (es : list event) :
  (if ob then es = []
   else es = [] \/ es = [EvPreAccept false] \/ es = [EvPreAccept true] \/
        exists b, es = [EvPreAccept true; EvAccept b]) ->
  protocol ob es.
Proof. intros H. exists es, []. rewrite app_nil_r. auto. Qed.

Lemma set_up_protocol ob sg es : set_up_trace ob sg es -> protocol ob es.
Proof.
  unfold set_up_trace. intros H. apply protocol_pre. destruct ob; [done|]. destruct sg; intuition.
Qed.

Lemma trace_protocol c p es : trace_ok c p es -> protocol (outbound c) es.
Proof.
  intros H. destruct p; simpl in H;
    try (by eapply set_up_protocol); try (destruct H as [_ H]; by eapply set_up_protocol);
    try (destruct H as [H|(Hs & pre & tok & -> & H)]; [by eapply set_up_protocol|];
         exists pre, [EvTerminate tok]; split; [done|]; unfold set_up_trace in H; rewrite Hs in H;
         destruct (outbound c); [subst; eauto 10|]; destruct H as [->|[b ->]]; simpl; eauto 10; fail);
    apply protocol_pre; try (destruct H as (-> & -> & _); eauto 10; fail);
    destruct H as [H1 H2]; subst es; destruct (outbound c); eauto 10.
Qed.

Section Properties.
Context (publicIP : Addr) (maxDuration : Z).
Context (Unmarshal : string -> result SessionDescription)
        (UnmarshalCandidate : string -> option candidate)
        (uniLower uniUpper : string -> string) (sha256 : list Z -> list Z).

Abbreviation step := (step publicIP maxDuration Unmarshal UnmarshalCandidate uniLower uniUpper sha256).
Abbreviation steps := (steps publicIP maxDuration Unmarshal UnmarshalCandidate uniLower uniUpper sha256).
Abbreviation reachable :=
  (reachable publicIP maxDuration Unmarshal UnmarshalCandidate uniLower uniUpper sha256).
Abbreviation follows :=
  (follows publicIP maxDuration Unmarshal UnmarshalCandidate uniLower uniUpper sha256).
Abbreviation cell_step := (cell_step maxDuration).

Lemma reachable_cell m l x : reachable m -> heap m !! l = Some x -> cell_ok x.
Proof. intros Hr Hx. apply inv_reachable in Hr. by eapply i_cells. Qed.

(** The registry holds only calls that may be in it. *)
Lemma unmapped_unregistered m l x :
  reachable m -> heap m !! l = Some x -> mapped (at_pc x) = false -> forall id, calls m !! id <> Some l.
Proof.
  intros Hr Hx Hm id Hid.
  destruct (i_calls _ (inv_reachable _ _ _ _ _ _ _ _ Hr) _ _ Hid) as (y & Hy & _ & Hy').
  simplify_eq. congruence.
Qed.

Lemma reachable_protocol m l x :
  reachable m -> heap m !! l = Some x -> protocol (outbound (cl x)) (evs x).
Proof. intros Hr Hx. eapply trace_protocol, k_trace, (reachable_cell m l x); auto. Qed.

(** C3. No channel of a call is closed twice (which would panic). A call whose
    goroutine has returned, a duplicate that Accept dropped and a call that Dial
    dropped during a shutdown hold nothing (UDP socket and bridge closed) and are not
    in the registry under any identifier; a finished call has also answered its
    waiters and closed its done channel. *)
Theorem finished_call_released m l x :
  reachable m -> heap m !! l = Some x ->
  (ready (cl x) <= 1 /\ answerReady (cl x) <= 1 /\ done (cl x) <= 1)%nat /\
  (at_pc x = Finished \/ at_pc x = Dropped ->
     socket (cl x) <> Open /\ bridge (cl x) <> Open /\ forall id, calls m !! id <> Some l) /\
  (at_pc x = Finished -> ready (cl x) = 1%nat /\ done (cl x) = 1%nat).
Proof.
  intros Hr Hx. destruct (reachable_cell m l x Hr Hx) as [H1 H2 H3 H4 H5 H6 H7 H8 H9 H10]. conjs.
  - done.
  - rewrite H5. destruct (outbound (cl x)); [|lia]. destruct (transport (cl x)); lia.
  - rewrite H4. destruct (at_pc x); lia.
  - intros Hp. assert (released (at_pc x) = true) by (by destruct Hp as [->| ->]). conjs; auto.
    apply (unmapped_unregistered m l x Hr Hx). by destruct Hp as [->| ->].
  - intros Hp. rewrite Hp in *. auto.
Qed.

Lemma cell_step_silenced x x' :
  cell_ok x -> silenced (cl x) (at_pc x) -> cell_step x x' ->
  silenced (cl x') (at_pc x') /\
  exists new, evs x' = evs x ++ new /\ forall tok, EvTerminate tok ∉ new.
Proof.
  assert (Hnil : forall es : list event, exists new, es = es ++ new /\ forall tok, EvTerminate tok ∉ new).
  { intros es. exists []. rewrite app_nil_r. split; [done|]. intros; apply not_elem_of_nil. }
  intros Hok Hsil [|c Hi|t Hp|t c Hp Ho ->|t Hp|o c p new Hs]; simpl; auto.
  - destruct Hsil as [Hu Hp]. destruct (interferes_frame _ _ Hi) as (_ & _ & _ & _ & Hu' & _).
    split; [split|]; auto.
  - destruct Hsil as [Hu _]. split; [|done]. split; [done|]. by destruct (outbound (cl x)).
  - destruct Hsil as [Hu _]. by split.
  - destruct Hsil as [Hu _]. by split.
  - destruct (silenced_step _ _ _ _ _ _ _ _ Hok Hsil Hs) as [? ?]. split; eauto.
Qed.

(** The cleanup is past its decision about a terminate, and past the request. *)
Definition past_terminate (p : pc) : bool :=
  match p with
  | CBridge _ | CTransport _ | FDelete | FWg | FDone | Finished | Dropped => true
  | _ => false
  end.

Lemma past_terminate_step max c p o c' p' new :
  callStep max c p o = Some (c', p', new) -> past_terminate p = true ->
  past_terminate p' = true /\ new = [].
Proof. intros Hs Hp. step_cases Hs p; simpl in *; auto. Qed.

Lemma cell_step_past x x' :
  past_terminate (at_pc x) = true -> cell_step x x' ->
  past_terminate (at_pc x') = true /\ evs x' = evs x.
Proof.
  intros Hp [|c Hi|t Ht|t c Ht Ho ->|t Ht|o c p new Hs]; simpl; auto; try (by rewrite Ht in Hp).
  destruct (past_terminate_step _ _ _ _ _ _ _ Hs Hp) as [? ->]. by rewrite app_nil_r.
Qed.

(** What can have happened to a call since [x], where the user had hung up. *)
Definition since_hangup (x x' : cell) (new : list event) : Prop :=
  (silenced (cl x') (at_pc x') /\ forall tok, EvTerminate tok ∉ new) \/
  exists reg tok, at_pc x = CTerminate reg tok /\
    ((at_pc x' = CTerminate reg tok /\ userTerminated (cl x') = true /\ new = []) \/
     (past_terminate (at_pc x') = true /\ new = [EvTerminate tok])).

Lemma since_hangup_step x x1 x2 new :
  cell_ok x1 -> since_hangup x x1 new -> cell_step x1 x2 ->
  exists new2, evs x2 = evs x1 ++ new2 /\ since_hangup x x2 (new ++ new2).
Proof.
  intros Hok [[Hs Hn]|(reg & tok & Hp & [(Hp1 & Hu & ->)|[Hp1 ->]])] Hcs.
  - destruct (cell_step_silenced _ _ Hok Hs Hcs) as (Hs2 & new2 & E & Hn2). exists new2.
    split; [done|]. left. split; [done|]. intros tok. rewrite elem_of_app. intros [?|?]; [by eapply Hn|by eapply Hn2].
  - destruct Hcs as [|c Hi|t Ht|t c Ht Ho ->|t Ht|o c p new Hs]; simpl; try (by rewrite Ht in Hp1).
    + exists []. rewrite app_nil_r. split; [done|]. right. eauto 10.
    + exists []. rewrite app_nil_r. split; [done|]. right. exists reg, tok. split; [done|]. left.
      destruct (interferes_frame _ _ Hi) as (_ & _ & _ & _ & Hu' & _). auto.
    + rewrite Hp1 in Hs. simpl in Hs. simplify_eq. exists [EvTerminate tok]. split; [done|].
      right. exists reg, tok. auto.
  - destruct (cell_step_past _ _ Hp1 Hcs) as [Hp2 E]. exists []. rewrite !app_nil_r.
    split; [done|]. right. exists reg, tok. auto.
Qed.

(** C1. A hang-up by the user is final: once it is recorded, no terminate operation is
    started for the call, whatever happens later (a disconnect request, a failed
    set-up, a departing agent, a shutdown). The one exception is a cleanup that had
    already read the flags and decided to terminate when the hang-up was recorded: it
    still makes that one terminate, with the token it had read, and nothing else. *)
Theorem user_hangup_is_final m m' l x :
  reachable m -> heap m !! l = Some x -> userTerminated (cl x) = true -> follows m m' ->
  exists x' new, heap m' !! l = Some x' /\ evs x' = evs x ++ new /\
    ((forall tok, EvTerminate tok ∉ new) \/
     exists reg tok, at_pc x = CTerminate reg tok /\ new = [EvTerminate tok]).
Proof.
  intros Hr Hx Hu Hf.
  cut (exists x' new, heap m' !! l = Some x' /\ evs x' = evs x ++ new /\ since_hangup x x' new).
  { intros (x' & new & ? & ? & H). exists x', new. conjs; auto.
    destruct H as [[_ ?]|(reg & tok & ? & [(_ & _ & ->)|[_ ->]])]; [auto| |right; eauto].
    left. intros ?. apply not_elem_of_nil. }
  induction Hf as [m|m m1 a m2 Hf IH Hs].
  - exists x, []. rewrite app_nil_r. conjs; auto. unfold since_hangup, silenced.
    destruct (at_pc x) eqn:Ep; try (left; split; [by split|intros ?; apply not_elem_of_nil]).
    right. eauto 10.
  - destruct (IH Hr Hx) as (x1 & new & Hx1 & E & Hsi).
    pose proof (reachable_follows _ _ _ _ _ _ _ _ _ Hr Hf) as Hr1.
    destruct (step_cell _ _ _ _ _ _ _ _ _ _ _ _ Hr1 Hs Hx1) as (Hok & x2 & Hx2 & Hcs).
    destruct (since_hangup_step _ _ _ _ Hok Hsi Hcs) as (new2 & E2 & Hsi2).
    exists x2, (new ++ new2). rewrite E2, E, app_assoc. auto.
Qed.

Lemma cell_step_ready x x' :
  cell_step x x' -> isReady (cl x) = true ->
  isReady (cl x') = true /\ err (cl x') = err (cl x).
Proof.
  intros [|c Hi|t Hp|t c Hp Ho ->|t Hp|o c p new Hs] Hrd; simpl; auto.
  - destruct (interferes_frame _ _ Hi) as (_ & _ & E1 & E2 & _). unfold isReady. by rewrite E1, E2.
  - destruct x as [c0 p0 e0]. simpl in *.
    assert (Hf : forall e, signalReady c0 e = c0) by (intros; by apply signalReady_first).
    unfold isReady in *. step_cases Hs p0; rewrite ?Hf; auto.
Qed.

(** C26. The outcome of a call's set-up is decided once: after the ready channel is
    closed the recorded error never changes. So a request that waits for the call (the
    first Accept, a duplicate, a Connect), early or late, does not block, and gets that
    outcome if its own context has not ended; if its context has ended, it gets either
    that outcome or, when the select takes that case, its context's error. *)
Theorem set_up_outcome_is_stable m m' l x :
  reachable m -> heap m !! l = Some x -> isReady (cl x) = true -> follows m m' ->
  exists x', heap m' !! l = Some x' /\ err (cl x') = err (cl x) /\
    (forall pick, wait (cl x') None pick = Some (err (cl x))) /\
    (forall e pick, wait (cl x') (Some e) pick = Some (if pick then Some e else err (cl x))).
Proof.
  intros Hr Hx Hrd Hf.
  cut (exists x', heap m' !! l = Some x' /\ isReady (cl x') = true /\ err (cl x') = err (cl x)).
  { intros (x' & ? & E1 & E2). exists x'. conjs; try done; unfold wait; rewrite E1, E2; [done|].
    intros e []; done. }
  induction Hf as [m|m m1 a m2 Hf IH Hs]; [eauto|].
  destruct (IH Hr Hx) as (x1 & Hx1 & Hr1 & E1).
  pose proof (reachable_follows _ _ _ _ _ _ _ _ _ Hr Hf) as Hrm.
  destruct (step_cell _ _ _ _ _ _ _ _ _ _ _ _ Hrm Hs Hx1) as (_ & x2 & Hx2 & Hcs).
  destruct (cell_step_ready _ _ Hcs Hr1) as [? ?]. exists x2. conjs; auto. congruence.
Qed.

Lemma count_zero h l x : count h = 0%nat -> h !! l = Some x -> active (at_pc x) = false.
Proof.
  intros Hc Hx. destruct (active (at_pc x)) eqn:Ea; [|done]. exfalso.
  unfold count in Hc. apply map_size_empty_iff in Hc.
  assert (Hl : filter (fun kx : nat * cell => active (at_pc (snd kx)) = true) h !! l = Some x).
  { by apply map_lookup_filter_Some. }
  rewrite Hc in Hl. done.
Qed.

(** A wait group at zero: nothing is registered, nothing runs. *)
Lemma drained_empty m :
  inv m -> wg m = 0 -> calls m = ∅ /\ forall l x, heap m !! l = Some x -> active (at_pc x) = false.
Proof.
  intros Hinv E. pose proof (i_wg _ Hinv) as Hw. assert (Hz : count (heap m) = 0%nat) by lia.
  split; [|intros l x; by apply count_zero].
  apply map_empty. intros id. destruct (calls m !! id) as [l|] eqn:El; [|done].
  destruct (i_calls _ Hinv _ _ El) as (x & Hx & _ & Hm).
  pose proof (count_zero _ _ _ Hz Hx) as Ha. destruct (at_pc x); simpl in *; congruence.
Qed.

(** ** Shutdown *)

(** The goroutine of a registered call runs. *)
Definition going (p : pc) : bool := match p with FDone => true | _ => active p end.

Lemma going_step max c p o c' p' new :
  callStep max c p o = Some (c', p', new) -> going p = true -> going p' = true \/ p' = Finished.
Proof. intros Hs Hg. step_cases Hs p; simpl in *; auto. Qed.

Lemma step_ctx max c p o c' p' new :
  callStep max c p o = Some (c', p', new) -> ctxDone c = true -> ctxDone c' = true.
Proof.
  intros Hs Hc. assert (Hf : forall e, ctxDone (signalReady c e) = true).
  { intros e. unfold signalReady. by destruct (isReady c). }
  step_cases Hs p; auto.
Qed.

(** A call that was registered runs or has finished, and a stop is never undone. *)
Lemma cell_step_going x x' :
  cell_step x x' -> going (at_pc x) = true \/ at_pc x = Finished ->
  (going (at_pc x') = true \/ at_pc x' = Finished) /\
  (active (at_pc x) = false -> active (at_pc x') = false) /\
  (ctxDone (cl x) = true -> ctxDone (cl x') = true).
Proof.
  assert (Hno : forall p t, going p = true \/ p = Finished -> p <> Private t).
  { intros p t [H|H] ->; done. }
  intros [|c Hi|t Hp|t c Hp Ho ->|t Hp|o c p new Hs] Hg; simpl; auto;
    try (by destruct (Hno _ t Hg)).
  - destruct (interferes_frame _ _ Hi) as (_ & _ & _ & _ & _ & ?). auto.
  - conjs; [..|by eapply step_ctx].
    + destruct Hg as [Hg|Hg]; [by eapply going_step|]. by rewrite Hg in Hs.
    + intros Ha. destruct (at_pc x); try (destruct Hg; simpl in *; congruence); simpl in *; by simplify_eq.
Qed.

(** No request touches the thread of a [Shutdown] or of a request that returned. *)
Lemma step_shutdown_thread m a m' t y :
  step m a = Some m' -> threads m !! t = Some y ->
  (exists b, y = TShutdown b) \/ (exists r, y = TReturn r) ->
  threads m' !! t = Some y \/
  (exists b, y = TShutdown b /\ (a = DrainShutdown t \/ exists ce pick, a = ReturnShutdown t ce pick)).
Proof.
  intros Hs Ht Hy.
  destruct a; simpl in Hs; unfold spawn, registerAccept, registerDial in Hs;
    repeat match type of Hs with
    | match ?x with _ => _ end = Some _ => destruct x eqn:?; try done
    end; simplify_eq; simpl; auto;
    try (match goal with |- context [<[?u := _]> _ !! t] => destruct (decide (u = t)) as [->|Hne] end;
         [|left; by rewrite lookup_insert_ne]; simplify_eq;
         try (destruct Hy as [[? ?]|[? ?]]; simplify_eq; fail); try (right; eauto 10; fail)).
  - left. destruct (draining m); simpl; (destruct (decide (t0 = t)) as [->|Hne];
      [simplify_eq; destruct Hy as [[? ?]|[? ?]]; simplify_eq|by rewrite lookup_insert_ne]).
  - simpl in *. congruence.
  - left. apply runCall_change in Hs as [_ ->]; [done|]. done.
Qed.

Lemma step_draining m a m' : step m a = Some m' -> draining m = true -> draining m' = true.
Proof.
  intros Hs Hd. destruct a; simpl in Hs; unfold spawn, registerAccept, registerDial, runCall in Hs;
    repeat match type of Hs with
    | match ?x with _ => _ end = Some _ => destruct x eqn:?; try done
    end; simplify_eq; simpl; auto.
  - by rewrite Hd.
  - by destruct (at_pc c).
Qed.

(** What a [Shutdown] that was called in [m0] by [t] knows of the calls of [m0]. *)
Record shutting_down (m0 : manager) (t : nat) (m : manager) : Prop := {
  sd_draining : draining m = true;
  sd_calls : forall id l, calls m0 !! id = Some l -> exists x, heap m !! l = Some x /\
    (going (at_pc x) = true \/ at_pc x = Finished) /\ ctxDone (cl x) = true /\
    (threads m !! t = Some (TShutdown true) \/ threads m !! t = Some (TReturn (Result None)) ->
       active (at_pc x) = false);
  sd_thread : (exists b, threads m !! t = Some (TShutdown b)) \/
    exists r, threads m !! t = Some (TReturn (Result r))
}.

Lemma shutting_down_start m0 t m1 :
  reachable m0 -> step m0 (CallShutdown t) = Some m1 -> shutting_down m0 t m1.
Proof.
  intros Hr Hs. simpl in Hs. unfold spawn in Hs. destruct (threads (startShutdown m0) !! t); [done|].
  simplify_eq. split; simpl; [done| |rewrite lookup_insert_eq; eauto].
  intros id l Hid. destruct (i_calls _ (inv_reachable _ _ _ _ _ _ _ _ Hr) _ _ Hid) as (x & Hx & _ & Hm).
  rewrite stopAll_lookup, Hx, decide_True.
  - eexists. split; [reflexivity|]. simpl. rewrite lookup_insert_eq.
    split; [left; by destruct (at_pc x)|]. split; [done|]. by intros [?|?].
  - apply list_elem_of_fmap. exists (id, l). split; [done|]. by apply elem_of_map_to_list.
Qed.

Lemma shutting_down_step m0 t m a m' :
  reachable m -> shutting_down m0 t m -> step m a = Some m' -> shutting_down m0 t m'.
Proof.
  intros Hr [Hd Hc Ht] Hs.
  assert (Hth : (threads m' !! t = threads m !! t /\ ((exists b, threads m !! t = Some (TShutdown b)) \/
                   exists r, threads m !! t = Some (TReturn (Result r)))) \/
    (wg m = 0 /\ heap m' = heap m /\ threads m' !! t = Some (TShutdown true)) \/
    (exists b r, threads m !! t = Some (TShutdown b) /\ threads m' !! t = Some (TReturn (Result r)) /\
       (r = None -> b = true))).
  { destruct (threads m !! t) as [y|] eqn:Et; [|by destruct Ht as [[? ?]|[? ?]]].
    destruct (step_shutdown_thread m a m' t y Hs Et) as [E|(b & -> & Ha)]; [|left; split; [done|]|].
    { destruct Ht as [[? ?]|[? ?]]; simplify_eq; eauto. }
    { destruct Ht as [[? ?]|[? ?]]; simplify_eq; eauto. }
    right. destruct Ha as [->|(ce & pick & ->)]; simpl in Hs; rewrite Et in Hs.
    - destruct b; [done|]. destruct (Z.eqb_spec (wg m) 0); [|done]. simplify_eq. left.
      simpl. by rewrite lookup_insert_eq.
    - right. exists b. destruct ce; [|destruct b; [|done]]; simplify_eq; simpl; rewrite lookup_insert_eq;
        eexists; conjs; try done. destruct b; [done|]. by destruct pick. }
  split.
  - by eapply step_draining.
  - intros id l Hid. destruct (Hc _ _ Hid) as (x & Hx & Hg & Hctx & Hdr).
    destruct (step_cell _ _ _ _ _ _ _ _ _ _ _ _ Hr Hs Hx) as (_ & x' & Hx' & Hcs).
    destruct (cell_step_going _ _ Hcs Hg) as (Hg' & Ha' & Hctx'). exists x'. conjs; auto.
    destruct Hth as [[-> _]|[(Hw & Eh & Et)|(b & r & Eb & Er & Hbr)]].
    + intros H. auto.
    + intros _. destruct (drained_empty m (inv_reachable _ _ _ _ _ _ _ _ Hr) Hw) as [_ Hact].
      rewrite Eh in Hx'. by eapply Hact.
    + rewrite Er. intros [?|?]; simplify_eq. apply Ha', Hdr. left. by rewrite Eb, Hbr.
  - destruct Hth as [[-> H]|[(_ & _ & ->)|(b & r & _ & -> & _)]]; eauto.
Qed.

(** C15. [Shutdown] keeps its promise to the calls it finds. From the moment it is
    called, whatever other requests and calls do: the manager drains; every call that
    was registered at that moment has been told to stop; and when it returns nil,
    every one of those calls has run its cleanup to the end, holds no socket or bridge
    and is in the registry under no identifier (a call that an earlier Accept
    registers meanwhile is not waited for). It returns as soon as its context ends,
    and the wait group it waits for counts exactly the registered calls that have not
    finished, so it never goes negative (which would panic). *)
Theorem shutdown_waits_for_calls m0 m1 m t :
  reachable m0 -> step m0 (CallShutdown t) = Some m1 -> follows m1 m ->
  draining m = true /\ wg m = Z.of_nat (count (heap m)) /\
  (forall id l, calls m0 !! id = Some l -> exists x, heap m !! l = Some x /\ ctxDone (cl x) = true /\
     (threads m !! t = Some (TReturn (Result None)) ->
        (at_pc x = FDone \/ at_pc x = Finished) /\ socket (cl x) <> Open /\ bridge (cl x) <> Open /\
        forall id', calls m !! id' <> Some l)) /\
  ((exists r, threads m !! t = Some (TReturn (Result r))) \/
   forall e, exists m', step m (ReturnShutdown t (Some e) true) = Some m' /\
     threads m' !! t = Some (TReturn (Result (Some e)))).
Proof.
  intros Hr0 Hs Hf. assert (Hr1 : reachable m1) by (by eapply reach_step).
  pose proof (reachable_follows _ _ _ _ _ _ _ _ _ Hr1 Hf) as Hr.
  assert (Hsd : shutting_down m0 t m).
  { clear Hr. induction Hf as [m|m m2 a m3 Hf IH Hs']; [by apply shutting_down_start|].
    eapply shutting_down_step; [|by apply IH|exact Hs']. by eapply reachable_follows. }
  destruct Hsd as [Hd Hc Ht]. conjs; [done|by apply inv_reachable in Hr as []| |].
  - intros id l Hid. destruct (Hc _ _ Hid) as (x & Hx & Hg & Hctx & Hact). exists x. conjs; auto.
    intros Hret. specialize (Hact (or_intror Hret)).
    assert (Hp : at_pc x = FDone \/ at_pc x = Finished).
    { destruct Hg as [Hg|?]; [|auto]. destruct (at_pc x); simpl in *; auto; congruence. }
    assert (Hm : mapped (at_pc x) = false /\ released (at_pc x) = true) by (by destruct Hp as [->| ->]).
    destruct Hm as [Hm Hrel]. destruct (reachable_cell m l x Hr Hx). conjs; auto.
    by eapply unmapped_unregistered.
  - destruct Ht as [[b Hb]|Ht]; [right|by left]. intros e. simpl. rewrite Hb. eexists.
    split; [reflexivity|]. simpl. rewrite lookup_insert_eq. by rewrite andb_false_r.
Qed.

(** C27. A call identifier is accepted once: when another request registered the same
    identifier in the meantime, [Accept] closes the socket it had opened, drops its own
    call object, and changes nothing else: the registry, the wait group, the draining
    flag, the registered call and every other call object and request stay as they
    were; it answers with the room of the registered call (or waits for that call). *)
Theorem duplicate_accept_joins m m' t p l x old :
  reachable m -> threads m !! t = Some (TAcceptRegister p l) ->
  heap m !! l = Some x -> calls m !! aCallID p = Some old ->
  step m (RegisterAccept t) = Some m' ->
  calls m' = calls m /\ wg m' = wg m /\ draining m' = draining m /\
  (exists x', heap m' !! l = Some x' /\ at_pc x' = Dropped /\ socket (cl x') <> Open) /\
  (forall k, k <> l -> heap m' !! k = heap m !! k) /\
  (forall u, u <> t -> threads m' !! u = threads m !! u) /\ old <> l /\
  (exists y, heap m !! old = Some y /\ CallID (cl y) = aCallID p /\ active (at_pc y) = true /\
     threads m' !! t = Some (if aWait p then TAcceptWait old false
                             else TReturn (AcceptResult (room (cl y)) None))).
Proof.
  intros Hr Ht Hx Hold Hs. pose proof (inv_reachable _ _ _ _ _ _ _ _ Hr) as Hinv.
  destruct (i_calls _ Hinv _ _ Hold) as (y & Hy & Hid & Hm).
  simpl in Hs. rewrite Ht, Hx in Hs. destruct (decide _) as [Hp|]; [|done].
  unfold registerAccept in Hs. rewrite Hold, Hy in Hs. simplify_eq. simpl.
  rewrite !lookup_insert_eq. conjs; auto.
  - eexists. split; [done|]. simpl. auto.
  - intros k Hk. by rewrite lookup_insert_ne.
  - intros u Hu. by rewrite lookup_insert_ne.
  - intros ->. simplify_eq. by rewrite Hp in Hm.
  - exists y. conjs; auto. by destruct (at_pc y).
Qed.

(** C40. [Dial] honours a shutdown that started while the call was being placed: the
    call is not registered and the wait group is not touched; the request itself runs
    the cleanup, which asks Meta to end the call with the call's token and closes its
    socket, whatever the outcome of the calls it makes; then it returns the draining
    error. (The user cannot have hung up yet: no other goroutine has the object.) *)
Theorem dial_honours_draining m m' t l x :
  reachable m -> draining m = true -> threads m !! t = Some (TDialRegister l) -> heap m !! l = Some x ->
  userTerminated (cl x) = false -> step m (RegisterDial t) = Some m' ->
  calls m' = calls m /\ wg m' = wg m /\
  forall o, exists m2 x2, steps m' (replicate 5 (RunCall l o) ++ [ReturnDial t]) = Some m2 /\
    calls m2 = calls m /\ wg m2 = wg m /\
    threads m2 !! t = Some (TReturn (DialResult (inl drainingError))) /\
    heap m2 !! l = Some x2 /\ at_pc x2 = Dropped /\ evs x2 = [EvTerminate (APIToken (cl x))] /\
    socket (cl x2) <> Open.
Proof.
  intros Hr Hd Ht Hx Hu Hs. pose proof (inv_reachable _ _ _ _ _ _ _ _ Hr) as Hinv.
  assert (Hr' : reachable m') by (by eapply reach_step).
  simpl in Hs. rewrite Ht, Hx in Hs. destruct (decide _) as [Hp|]; [|done]. simplify_eq.
  pose proof (i_dial _ Hinv _ _ _ Ht Hx Hp) as Ho.
  destruct (i_cells _ Hinv _ _ Hx) as [_ Hrd _ _ _ _ _ _ _ Htr]. rewrite Hp in Htr. destruct Htr as [He Hsg].
  revert Hr'. unfold registerDial. rewrite Hd. intros Hr'. conjs; auto. intros o.
  assert (Hrun : exists m2 x2, steps (set_thread (set_cell m l (mkCell (stopBusiness (cl x)) (CSignal false) (evs x)))
      t (TDialDraining l)) (replicate 5 (RunCall l o) ++ [ReturnDial t]) = Some m2 /\
    calls m2 = calls m /\ wg m2 = wg m /\ threads m2 !! t = Some (TReturn (DialResult (inl drainingError))) /\
    heap m2 !! l = Some x2 /\ at_pc x2 = Dropped /\ evs x2 = evs x ++ [EvTerminate (APIToken (cl x))]).
  { cbn [replicate app Manager.steps Manager.step]. unfold runCall. simpl.
    destruct (signalReady_frame (stopBusiness (cl x)) (Some (Sentinel Canceled))) as
      (_ & E2 & _ & _ & _ & _ & _ & _ & E3 & _).
    assert (Etok : APIToken (signalReady (stopBusiness (cl x)) (Some (Sentinel Canceled))) = APIToken (cl x))
      by (unfold signalReady; by destruct (isReady _)).
    rewrite !lookup_insert_eq. simpl.
    rewrite !lookup_insert_eq. simpl. rewrite E2, E3. simpl. rewrite Hu, Hsg, Ho. simpl.
    rewrite !lookup_insert_eq. simpl. rewrite !lookup_insert_eq. simpl. rewrite !lookup_insert_eq. simpl.
    rewrite !lookup_insert_eq. simpl. eexists _, _.
    split; [reflexivity|]. simpl. rewrite !lookup_insert_eq. conjs; try done. simpl.
    by rewrite !app_nil_r, Etok. }
  destruct Hrun as (m2 & x2 & Hrun & H1 & H2 & H3 & H4 & H5 & H6). exists m2, x2. rewrite He in H6. conjs; auto.
  assert (Hr2 : reachable m2) by (by eapply reachable_steps).
  apply (k_released _ _ _ (reachable_cell _ _ _ Hr2 H4)). by rewrite H5.
Qed.

(** ** A stopped call ends *)

Lemma going_left p : going p = true -> (0 < left_of p <= 17)%nat.
Proof. destruct p; simpl; try done; try lia. Qed.

Lemma run_to_end l k : forall m x (oracle : nat -> option error) i,
  (left_of (at_pc x) <= k)%nat -> heap m !! l = Some x -> going (at_pc x) = true -> ctxDone (cl x) = true ->
  exists n m' x', (n <= k)%nat /\
    steps m (map (fun i => RunCall l (mkOutcome (oracle i) CaseCtx)) (seq i n)) = Some m' /\
    heap m' !! l = Some x' /\ at_pc x' = Finished.
Proof.
  induction k as [|k IH]; intros m x oracle i Hk Hx Hg Hc.
  { apply going_left in Hg. lia. }
  destruct (callStep maxDuration (cl x) (at_pc x) (mkOutcome (oracle i) CaseCtx)) as [[[c p] new]|] eqn:Es.
  2: { exfalso. revert Es. apply step_enabled; [by apply going_left|right; auto]. }
  assert (Hstep : exists m1, step m (RunCall l (mkOutcome (oracle i) CaseCtx)) = Some m1 /\
                    heap m1 !! l = Some (mkCell c p (evs x ++ new))).
  { simpl. rewrite Hx. unfold runCall. rewrite Es.
    destruct (at_pc x); eexists; (split; [reflexivity|]); simpl; apply lookup_insert_eq. }
  destruct Hstep as (m1 & Hm1 & Hl1).
  destruct (going_step _ _ _ _ _ _ _ Es Hg) as [Hg'| ->].
  - destruct (IH m1 (mkCell c p (evs x ++ new)) oracle (S i)) as (n & m' & x' & Hn & Hs & Hx' & Hp).
    + apply left_of_step in Es. simpl. lia.
    + done.
    + done.
    + by eapply step_ctx.
    + exists (S n), m', x'. split; [lia|]. simpl map. cbn [Manager.steps]. rewrite Hm1. auto.
  - exists 1%nat, m1, (mkCell c Finished (evs x ++ new)). split; [lia|].
    simpl map. cbn [Manager.steps]. rewrite Hm1. auto.
Qed.

(** C6. A call that has been told to stop always ends: from any place, and whatever
    the outcome of the external calls still to be made, its goroutine reaches its
    end, cleanup included, within 17 of its own steps; and nothing another goroutine
    does can undo the stop or move it back. *)
Theorem stopped_call_finishes m l x (oracle : nat -> option error) :
  reachable m -> heap m !! l = Some x -> active (at_pc x) = true -> ctxDone (cl x) = true ->
  (exists n m' x', (n <= 17)%nat /\
     steps m (map (fun i => RunCall l (mkOutcome (oracle i) CaseCtx)) (seq 0 n)) = Some m' /\
     heap m' !! l = Some x' /\ at_pc x' = Finished) /\
  (forall a m1, step m a = Some m1 -> exists x1, heap m1 !! l = Some x1 /\
     ctxDone (cl x1) = true /\ (left_of (at_pc x1) <= left_of (at_pc x))%nat).
Proof.
  intros Hr Hx Ha Hc. assert (Hg : going (at_pc x) = true) by (by destruct (at_pc x)). split.
  - eapply run_to_end; eauto. by apply going_left.
  - intros a m1 Hs. destruct (step_cell _ _ _ _ _ _ _ _ _ _ _ _ Hr Hs Hx) as (_ & x1 & Hx1 & Hcs).
    exists x1. split; [done|].
    destruct Hcs as [|c Hi|t Hp|t c Hp Ho ->|t Hp|o c p new Hcs]; simpl; auto;
      try (rewrite Hp in Ha; done).
    + destruct (interferes_frame _ _ Hi) as (_ & _ & _ & _ & _ & ?). auto.
    + split; [by eapply step_ctx|]. apply left_of_step in Hcs. lia.
Qed.

(** Building a call leaks no socket: when [Accept] or [Dial] gives up before its
    second critical section (no certificate, an invalid offer, Meta refuses the
    call), the socket it opened is closed; otherwise the call object owns it. *)
Theorem failed_build_closes_socket p d e :
  (match prepareAccept publicIP Unmarshal UnmarshalCandidate uniLower uniUpper sha256 p e with
   | (inl _, s) => s <> Open
   | (inr c, s) => s = Open /\ socket c = Open /\ transport c = Open /\ CallID c = aCallID p
   end) /\
  (match prepareDial publicIP sha256 d e with
   | (inl _, s) => s <> Open
   | (inr c, s) => s = Open /\ socket c = Open /\ transport c = Nil /\ signaled c = true /\
       exists n, negotiation c = Some n /\ Cert n <> None
   end).
Proof.
  unfold prepareAccept, prepareDial. destruct (e_listen e) as [|port]; [done|].
  destruct (NewCertificate _ _ _ _) as [|cert]; [done|]. split.
  - by destruct (ParseOfferAndAnswer _ _ _ _ _ _ _ _ _ _ _).
  - destruct (NewOffer _ _ _ _ _ _) as [|n] eqn:En; [done|]. destruct (e_dial e); [done|]. simpl.
    conjs; auto. exists n. split; [done|]. unfold NewOffer in En.
    destruct (_ || _); [done|]. destruct (credential 8 _); [done|]. destruct (credential 24 _); [done|].
    by simplify_eq.
Qed.
End Properties.

(** * Witnesses *)

Definition demoSha (_ : list Z) : list Z := replicate 32 170.
Definition demoEnv : buildEnv :=
  mkEnv (inr 40001) None None (inr [1]) 1 (inr (fun _ => 7)) (inr Z.of_nat) "u1" "u2" (inr "wacid.1").
Definition demoAccept (w : bool) : AcceptParams :=
  mkAccept "phone" "token" "v23.0" "wacid.0" "actpass" "" "agent" w 0.
Definition demoDial : DialParams := mkDial "phone" "token" "v23.0" "4917" "" "room" "" 0.

Abbreviation demoStep := (step testIP 0 testUnmarshal testCandidates id id demoSha).
Abbreviation demoSteps := (steps testIP 0 testUnmarshal testCandidates id id demoSha).
Abbreviation demoReachable := (reachable testIP 0 testUnmarshal testCandidates id id demoSha).

Definition demo (acts : list action) : manager := default NewManager (demoSteps NewManager acts).
Definition demoCell (m : manager) (l : nat) : cell :=
  default (mkCell (mkCall "" "" "" "" 0 "" "" false Nil Nil Nil "" None false 0 0 0 None false false false)
             Finished []) (heap m !! l).

Lemma demo_reachable acts : demoReachable (demo acts).
Proof.
  unfold demo. destruct (demoSteps NewManager acts) eqn:E; simpl; [|constructor].
  eapply reachable_steps; [constructor|exact E].
Qed.

Lemma follows_steps ip max u uc lo up sha acts : forall m m',
  steps ip max u uc lo up sha m acts = Some m' -> follows ip max u uc lo up sha m m'.
Proof.
  assert (Htr : forall m1 m2 m3 a, step ip max u uc lo up sha m1 a = Some m2 ->
    follows ip max u uc lo up sha m2 m3 -> follows ip max u uc lo up sha m1 m3).
  { intros m1 m2 m3 a Hs Hf. induction Hf as [m|m m4 b m5 _ IH Hb].
    - eapply follows_step; [apply follows_refl|exact Hs].
    - eapply follows_step; [by apply IH|exact Hb]. }
  induction acts as [|a acts IH]; intros m m' Hs; simpl in Hs; [simplify_eq; constructor|].
  destruct (step ip max u uc lo up sha m a) eqn:E; [|done]. eauto.
Qed.

(** The call object 10 takes a successful step, or one in which its context ended. *)
Definition go : action := RunCall 10 (mkOutcome None CaseCtx).

(** An inbound call up to the connected state, with the request still waiting. *)
Definition inboundUp : list action :=
  [CallAccept 1 (demoAccept true); BuildAccept 1 10 demoEnv; RegisterAccept 1] ++ replicate 6 go.
(** The user hangs up. *)
Definition userEnds : list action := [CallDisconnect 2 "wacid.0" true ""; StopDisconnect 2].
(** The connector ends the call. *)
Definition businessEnds : list action := [CallDisconnect 2 "wacid.0" false "newtoken"; TokenDisconnect 2; StopDisconnect 2].

Example demo_user_ends :
  let x := demoCell (demo (inboundUp ++ userEnds ++ replicate 8 go)) 10 in
  at_pc x = Finished /\ evs x = [EvPreAccept true; EvAccept true] /\ socket (cl x) = Closed.
Proof. vm_compute. auto. Qed.

Example demo_business_ends :
  let x := demoCell (demo (inboundUp ++ businessEnds ++ replicate 9 go)) 10 in
  at_pc x = Finished /\ evs x = [EvPreAccept true; EvAccept true; EvTerminate "newtoken"].
Proof. vm_compute. auto. Qed.

Lemma finished_call_released_witness :
  let m := demo (inboundUp ++ userEnds ++ replicate 8 go) in
  socket (cl (demoCell m 10)) <> Open /\ bridge (cl (demoCell m 10)) <> Open /\
  forall id, calls m !! id <> Some 10%nat.
Proof.
  intros m.
  apply (finished_call_released testIP 0 testUnmarshal testCandidates id id demoSha m 10 (demoCell m 10)
           (demo_reachable _)); [vm_compute; reflexivity|left; vm_compute; reflexivity].
Defined.

Lemma user_hangup_is_final_witness :
  let m := demo (inboundUp ++ userEnds) in
  let m' := default m (demoSteps m [CallDisconnect 3 "wacid.0" false ""; StopDisconnect 3; go; go; go]) in
  userTerminated (cl (demoCell m 10)) = true /\
  exists x' new, heap m' !! 10%nat = Some x' /\ evs x' = evs (demoCell m 10) ++ new /\
    ((forall tok, EvTerminate tok ∉ new) \/
     exists reg tok, at_pc (demoCell m 10) = CTerminate reg tok /\ new = [EvTerminate tok]).
Proof.
  intros m m'. split; [vm_compute; reflexivity|].
  apply (user_hangup_is_final testIP 0 testUnmarshal testCandidates id id demoSha m m' 10 (demoCell m 10)
           (demo_reachable _)); try (vm_compute; reflexivity).
  apply (follows_steps testIP 0 testUnmarshal testCandidates id id demoSha
      [CallDisconnect 3 "wacid.0" false ""; StopDisconnect 3; go; go; go]). vm_compute. reflexivity.
Defined.

Lemma set_up_outcome_is_stable_witness :
  let m := demo inboundUp in
  let m' := default m (demoSteps m (userEnds ++ replicate 8 go)) in
  exists x', heap m' !! 10%nat = Some x' /\ err (cl x') = None /\
    (forall pick, wait (cl x') None pick = Some None) /\
    (forall e pick, wait (cl x') (Some e) pick = Some (if pick then Some e else None)).
Proof.
  intros m m'.
  apply (set_up_outcome_is_stable testIP 0 testUnmarshal testCandidates id id demoSha m m' 10 (demoCell m 10)
           (demo_reachable _)); try (vm_compute; reflexivity).
  apply (follows_steps testIP 0 testUnmarshal testCandidates id id demoSha (userEnds ++ replicate 8 go)).
  vm_compute. reflexivity.
Defined.

Lemma shutdown_waits_for_calls_witness :
  let m0 := demo inboundUp in
  let m1 := default m0 (demoStep m0 (CallShutdown 5)) in
  let m := default m1 (demoSteps m1 (replicate 8 go ++ [DrainShutdown 5; ReturnShutdown 5 None false])) in
  threads m !! 5%nat = Some (TReturn (Result None)) /\
  exists x, heap m !! 10%nat = Some x /\ (at_pc x = FDone \/ at_pc x = Finished).
Proof.
  intros m0 m1 m. assert (E : threads m !! 5%nat = Some (TReturn (Result None))) by (vm_compute; reflexivity).
  split; [exact E|].
  destruct (shutdown_waits_for_calls testIP 0 testUnmarshal testCandidates id id demoSha m0 m1 m 5
    (demo_reachable _)) as (_ & _ & H & _).
  - vm_compute. reflexivity.
  - apply (follows_steps testIP 0 testUnmarshal testCandidates id id demoSha
      (replicate 8 go ++ [DrainShutdown 5; ReturnShutdown 5 None false])). vm_compute. reflexivity.
  - destruct (H "wacid.0" 10%nat) as (x & Hx & _ & Hr); [vm_compute; reflexivity|].
    exists x. split; [exact Hx|]. apply (Hr E).
Defined.

Definition twoAccepts : list action :=
  [CallAccept 1 (demoAccept false); CallAccept 2 (demoAccept false); BuildAccept 1 10 demoEnv;
   BuildAccept 2 11 demoEnv; RegisterAccept 1].

Lemma duplicate_accept_joins_witness :
  let m := demo twoAccepts in
  let m' := default m (demoStep m (RegisterAccept 2)) in
  threads m' !! 2%nat = Some (TReturn (AcceptResult "whatsapp-u1" None)) /\ wg m' = wg m.
Proof.
  intros m m'. split; [vm_compute; reflexivity|].
  apply (duplicate_accept_joins testIP 0 testUnmarshal testCandidates id id demoSha m m' 2 (demoAccept false)
           11 (demoCell m 11) 10 (demo_reachable _)); vm_compute; reflexivity.
Defined.

Definition dialThenDrain : list action := [CallDial 1 demoDial; BuildDial 1 10 demoEnv; CallShutdown 2].

Lemma dial_honours_draining_witness :
  let m := demo dialThenDrain in
  let m' := default m (demoStep m (RegisterDial 1)) in
  calls m' = calls m /\ wg m' = 0.
Proof.
  intros m m'.
  destruct (dial_honours_draining testIP 0 testUnmarshal testCandidates id id demoSha m m' 1 10 (demoCell m 10)
           (demo_reachable _)) as (H1 & H2 & _); try (vm_compute; reflexivity).
  split; [exact H1|]. rewrite H2. vm_compute. reflexivity.
Defined.

Lemma stopped_call_finishes_witness :
  let m := demo (inboundUp ++ businessEnds) in
  exists n m' x', (n <= 17)%nat /\
    demoSteps m (map (fun i => RunCall 10 (mkOutcome (Some (Sentinel EOF)) CaseCtx)) (seq 0 n)) = Some m' /\
    heap m' !! 10%nat = Some x' /\ at_pc x' = Finished.
Proof.
  intros m.
  apply (stopped_call_finishes testIP 0 testUnmarshal testCandidates id id demoSha m 10 (demoCell m 10)
           (fun _ => Some (Sentinel EOF)) (demo_reachable _)); vm_compute; reflexivity.
Defined.

(** [Accept], unlike [Dial], does not look at the draining flag again when it
    registers: a request that passed its first check before the shutdown can register
    and start a call after [Shutdown] has returned nil. *)
Example accept_registers_after_shutdown :
  let m := demo [CallAccept 1 (demoAccept false); CallShutdown 2; DrainShutdown 2;
                 ReturnShutdown 2 None false; BuildAccept 1 10 demoEnv; RegisterAccept 1] in
  draining m = true /\ threads m !! 2%nat = Some (TReturn (Result None)) /\
  calls m !! "wacid.0" = Some 10%nat /\ at_pc (demoCell m 10) = InBridge /\
  ctxDone (cl (demoCell m 10)) = false /\ wg m = 1.
Proof. vm_compute. auto 10. Qed.

(** [Dial] overwrites the registry entry of a call identifier that is already there,
    and the end of the older call removes the entry of the newer one, which then
    cannot be found by [Connect] or [Disconnect]. *)
Example dial_overwrites_registry :
  let second := [CallDial 3 demoDial; BuildDial 3 11 demoEnv; RegisterDial 3] in
  let m := demo ([CallDial 1 demoDial; BuildDial 1 10 demoEnv; RegisterDial 1] ++ second ++
                 [RunCall 10 (mkOutcome (Some (Sentinel EOF)) CaseCtx)] ++ replicate 8 go) in
  calls m = ∅ /\ at_pc (demoCell m 11) = OutBridge /\ active (at_pc (demoCell m 11)) = true.
Proof. vm_compute. auto. Qed.
