(* ===== verification/CallRequests.v ===== *)
(** What Meta sees of a call: the operations of [meta.Client] that the manager makes
    for it (internal/call/manager.go: [runInbound], [cleanup]; the events of [Call])
    carried out by the retry loop of the client (internal/meta/client.go, [Meta]), as
    HTTP requests on the wire. *)
From S2P Require Import Prelude Errors Sdp Call Manager ManagerProps.
From S2P Require Meta.

Local Open Scope Z_scope.

(** The call of the client that an event stands for. PreAccept and Accept use the
    token the call has at that moment, Terminate the one that cleanup has read. *)
Definition metaCall (mc : Meta.Client) (net : Meta.Net) (c : Call) (token : string) (e : event)
  : list Meta.meta_event * result string :=
  match e with
  | EvPreAccept _ => Meta.PreAccept mc net (APIVersion c) (PhoneID c) token (CallID c) (answer c)
  | EvAccept _ => Meta.Accept mc net (APIVersion c) (PhoneID c) token (CallID c) (answer c)
  | EvTerminate tok => Meta.Terminate mc net (APIVersion c) (PhoneID c) tok (CallID c)
  end.

(** Its policy, token and body. *)
Definition metaPolicy (e : event) : Meta.retryPolicy :=
  match e with EvTerminate _ => Meta.retryAny | _ => Meta.retryUnprocessed end.
Definition metaToken (token : string) (e : event) : string :=
  match e with EvTerminate tok => tok | _ => token end.
Definition metaBody (c : Call) (e : event) : Meta.callRequest :=
  match e with
  | EvPreAccept _ =>
      Meta.mkCallRequest "whatsapp" (CallID c) "" "pre_accept" (Some (Meta.mkSession "answer" (answer c))) ""
  | EvAccept _ =>
      Meta.mkCallRequest "whatsapp" (CallID c) "" "accept" (Some (Meta.mkSession "answer" (answer c))) ""
  | EvTerminate _ => Meta.mkCallRequest "whatsapp" (CallID c) "" "terminate" None ""
  end.

Lemma metaCall_call mc net c token e :
  metaCall mc net c token e =
  Meta.call mc net (metaPolicy e) (APIVersion c) (PhoneID c) (metaToken token e) (metaBody c e).
Proof. by destruct e. Qed.

(** One operation as it went: the event, the network it met and the token. *)
Record op := mkOp { o_ev : event; o_net : Meta.Net; o_token : string }.

Definition ran (mc : Meta.Client) (c : Call) (o : op) : list Meta.meta_event * result string :=
  metaCall mc (o_net o) c (o_token o) (o_ev o).

(** The outcome the event records is the one the client returned. *)
Definition served (mc : Meta.Client) (c : Call) (o : op) : Prop :=
  match o_ev o with
  | EvPreAccept ok | EvAccept ok => ok = bool_decide (Meta.err_of (snd (ran mc c o)) = None)
  | EvTerminate _ => True
  end.

(** The requests of an operation, and the result of its [n]-th attempt. *)
Definition requestsOf (mc : Meta.Client) (c : Call) (o : op) : list Meta.Request :=
  Meta.requests (fst (ran mc c o)).
Definition attempt (mc : Meta.Client) (c : Call) (o : op) (n : nat) : result string :=
  snd (Meta.callOnce mc (o_net o) n (APIVersion c) (PhoneID c) (metaToken (o_token o) (o_ev o))
         (metaBody c (o_ev o))).

(** The call and the action that a request names. *)
Definition about (r : Meta.Request) : option (string * string) :=
  (fun b => (Meta.CallID b, Meta.Action b)) <$> Meta.unmarshal (Meta.Body r).

Definition actionOf (e : event) : string :=
  match e with EvPreAccept _ => "pre_accept" | EvAccept _ => "accept" | EvTerminate _ => "terminate" end.

(** * One operation *)

Lemma about_request mc net version phoneID token body r :
  Meta.buildRequest mc net version phoneID token body = inr r ->
  about r = Some (Meta.CallID body, Meta.Action body).
Proof.
  unfold Meta.buildRequest. case_bool_decide; [done|]. destruct (Meta.urlError net _); [done|].
  intros; simplify_eq. unfold about. cbn [Meta.Body]. by rewrite Meta.marshal_roundtrip.
Qed.

(** An operation sends up to three requests, all for its call and with its action; one
    that succeeded sent at least one; and PreAccept and Accept repeat a request only
    after a failure in which nothing was processed. *)
Lemma ran_requests mc c o :
  exists k, (k <= Meta.maxAttempts)%nat /\
    map about (requestsOf mc c o) = replicate k (Some (CallID c, actionOf (o_ev o))) /\
    (Meta.err_of (snd (ran mc c o)) = None -> (0 < k)%nat) /\
    (forall n, (1 <= n < k)%nat -> metaPolicy (o_ev o) = Meta.retryUnprocessed ->
       exists e, attempt mc c o n = inl e /\ Meta.unprocessed e).
Proof.
  unfold requestsOf, ran, attempt. rewrite metaCall_call.
  set (body := metaBody c (o_ev o)). set (tok := metaToken (o_token o) (o_ev o)).
  destruct (Meta.callFrom_ends mc (o_net o) (metaPolicy (o_ev o)) (APIVersion c) (PhoneID c) tok body
    Meta.maxAttempts 1) as [k [H1 H2 _ H3 H4 _]]; [unfold Meta.maxAttempts; lia|reflexivity|].
  unfold Meta.call. rewrite H3, H2, Meta.sent_upto_replicate.
  replace (S k - 1)%nat with k by lia.
  destruct (Meta.buildRequest mc (o_net o) (APIVersion c) (PhoneID c) tok body) as [e|r] eqn:Eb.
  - exists 0%nat. conjs; [lia|done| |lia]. unfold Meta.callOnce. rewrite Eb. done.
  - exists k. conjs; [lia| |lia|].
    + rewrite fmap_replicate, (about_request _ _ _ _ _ _ _ Eb). by destruct (o_ev o).
    + intros n Hn Hp. destruct (H4 n Hn) as [Hr _]. rewrite Hp in Hr.
      apply Meta.retryUnprocessed_spec in Hr as (e & He & Hu). exists e. split; [|done].
      unfold Meta.err_of in He. destruct (snd (Meta.callOnce _ _ n _ _ _ _)); by simplify_eq.
Qed.

(** * All operations of a call *)

(** Up to three requests for an operation that was made, none for one that was not. *)
Lemma op_requests mc c (ops : list op) act :
  (ops = [] \/ exists o, ops = [o] /\ actionOf (o_ev o) = act) ->
  exists k, (k <= Meta.maxAttempts)%nat /\ (ops = [] -> k = 0%nat) /\
    map about (concat (map (requestsOf mc c) ops)) = replicate k (Some (CallID c, act)).
Proof.
  intros [->|(o & -> & <-)]; [exists 0%nat; conjs; auto; lia|].
  destruct (ran_requests mc c o) as (k & H1 & H2 & _). exists k. conjs; auto; [done|].
  simpl. by rewrite app_nil_r.
Qed.

(** The operations of a call, by kind. *)
Lemma protocol_split ob (ops : list op) :
  protocol ob (map o_ev ops) ->
  exists pre acc term, ops = pre ++ acc ++ term /\
    (pre = [] \/ exists o, pre = [o] /\ actionOf (o_ev o) = "pre_accept") /\
    (acc = [] \/ exists o, acc = [o] /\ actionOf (o_ev o) = "accept") /\
    (term = [] \/ exists o, term = [o] /\ actionOf (o_ev o) = "terminate") /\
    (ob = true -> pre = [] /\ acc = []) /\
    (acc <> [] -> exists o, pre = [o] /\ o_ev o = EvPreAccept true) /\
    (term <> [] -> ob = true \/ exists o, pre = [o] /\ o_ev o = EvPreAccept true).
Proof.
  intros (es & tl & E & Hpre & Htl). apply map_eq_app in E as (a & term & -> & <- & <-).
  assert (Ht : term = [] \/ exists o tok, term = [o] /\ o_ev o = EvTerminate tok /\
                 (ob = true \/ head (map o_ev a) = Some (EvPreAccept true))).
  { destruct Htl as [H|(tok & H & Hs)]; [left; by destruct term|].
    destruct term as [|o [|]]; simplify_eq/=. right. eauto. }
  clear Htl.
  assert (Ha : exists pre acc, a = pre ++ acc /\
    (pre = [] \/ exists o, pre = [o] /\ actionOf (o_ev o) = "pre_accept") /\
    (acc = [] \/ exists o, acc = [o] /\ actionOf (o_ev o) = "accept") /\
    (ob = true -> pre = [] /\ acc = []) /\
    (acc <> [] -> exists o, pre = [o] /\ o_ev o = EvPreAccept true) /\
    head (map o_ev a) = head (map o_ev pre)).
  { destruct ob; [exists [], []; destruct a; by conjs; auto|].
    destruct Hpre as [H|[H|[H|[b H]]]]; destruct a as [|o1 [|o2 [|]]]; simplify_eq/=.
    - exists [], []. by conjs; auto.
    - exists [o1], []. conjs; auto; try done. right. exists o1. split; [done|]. by rewrite H.
    - exists [o1], []. conjs; auto; try done. right. exists o1. split; [done|]. by rewrite H.
    - exists [o1], [o2]. conjs; auto; try done; eauto.
      + right. exists o1. by rewrite H.
      + right. exists o2. by rewrite H0. }
  destruct Ha as (pre & acc & -> & H1 & H2 & H3 & H4 & H5). exists pre, acc, term.
  rewrite <- app_assoc. conjs; auto.
  - destruct Ht as [?|(o & tok & -> & Ho & _)]; [auto|]. right. exists o. by rewrite Ho.
  - intros Hne. destruct Ht as [?|(o & tok & _ & _ & [?|Hh])]; [done|auto|]. right.
    rewrite H5 in Hh. destruct H1 as [->|(o1 & -> & _)]; [done|]. simpl in Hh. exists o1.
    split; [done|]. congruence.
Qed.

Section Requests.
Context (publicIP : Addr) (maxDuration : Z).
Context (Unmarshal : string -> result SessionDescription)
        (UnmarshalCandidate : string -> option candidate)
        (uniLower uniUpper : string -> string) (sha256 : list Z -> list Z).
Abbreviation reachable :=
  (reachable publicIP maxDuration Unmarshal UnmarshalCandidate uniLower uniUpper sha256).

(** C2. For every call, in every interleaving of requests, calls and callbacks and
    whatever the network answers, the HTTP requests that Meta receives for the call
    are in protocol order: up to three pre-accepts, then up to three accepts, then up
    to three terminates, all naming the call. For a dialled call there is no
    pre-accept or accept. An accept is sent only after a pre-accept succeeded; a
    terminate only for a call that was dialled or whose pre-accept succeeded. And a
    pre-accept or accept is repeated only when the previous one was not processed
    (429, 503 or no connection), so neither is processed twice. *)
Theorem call_follows_protocol mc m l x ops :
  reachable m -> heap m !! l = Some x ->
  map o_ev ops = evs x -> Forall (served mc (cl x)) ops ->
  let id := CallID (cl x) in
  (exists i j k, (i <= 3 /\ j <= 3 /\ k <= 3)%nat /\
    map about (concat (map (requestsOf mc (cl x)) ops)) =
      replicate i (Some (id, "pre_accept")) ++ replicate j (Some (id, "accept")) ++
      replicate k (Some (id, "terminate")) /\
    (outbound (cl x) = true -> i = 0 /\ j = 0)%nat /\
    ((0 < j)%nat -> (0 < i)%nat /\ EvPreAccept true ∈ evs x) /\
    ((0 < k)%nat -> outbound (cl x) = true \/ (0 < i)%nat /\ EvPreAccept true ∈ evs x)) /\
  (forall o n, o ∈ ops -> actionOf (o_ev o) <> "terminate" ->
     (1 <= n < length (requestsOf mc (cl x) o))%nat ->
     exists e, attempt mc (cl x) o n = inl e /\ Meta.unprocessed e).
Proof.
  intros Hr Hx Hev Hserved id. split.
  - pose proof (reachable_protocol _ _ _ _ _ _ _ m l x Hr Hx) as Hp. rewrite <- Hev in Hp.
    apply protocol_split in Hp as (pre & acc & term & -> & H1 & H2 & H3 & H4 & H5 & H6).
    destruct (op_requests mc (cl x) pre _ H1) as (i & Hi & Zi & Ei).
    destruct (op_requests mc (cl x) acc _ H2) as (j & Hj & Zj & Ej).
    destruct (op_requests mc (cl x) term _ H3) as (k & Hk & Zk & Ek).
    assert (Hpos : (exists o, pre = [o] /\ o_ev o = EvPreAccept true) ->
              (0 < i)%nat /\ EvPreAccept true ∈ evs x).
    { intros (o & -> & Ho). apply Forall_app in Hserved as [Hs _]. rewrite Forall_singleton in Hs.
      unfold served in Hs. rewrite Ho in Hs. symmetry in Hs. apply bool_decide_eq_true in Hs.
      destruct (ran_requests mc (cl x) o) as (i' & _ & Ei' & Hi' & _). split.
      - specialize (Hi' Hs). simpl in Ei. rewrite app_nil_r, Ei' in Ei.
        apply (f_equal length) in Ei. rewrite !length_replicate in Ei. lia.
      - rewrite <- Hev. simpl. rewrite Ho. left. }
    exists i, j, k. unfold Meta.maxAttempts in *. conjs; try lia.
    + rewrite !map_app, !concat_app, !map_app. by rewrite Ei, Ej, Ek.
    + intros Ho. destruct (H4 Ho) as [-> ->]. auto.
    + intros Hlt. apply Hpos, H5. intros ->. rewrite Zj in Hlt by done. lia.
    + intros Hlt. destruct H6 as [?|?]; [|by left|right; auto]. intros ->. rewrite Zk in Hlt by done. lia.
  - intros o n Ho Ha Hn. destruct (ran_requests mc (cl x) o) as (k & _ & Ek & _ & Hu).
    apply (f_equal length) in Ek. rewrite length_map, length_replicate in Ek. apply Hu; [lia|].
    by destruct (o_ev o).
Qed.
End Requests.

(** ** Instance *)

(** Meta answers 503 once, then accepts; the terminate fails twice with 500. *)
Definition flakyNet (bad : Z) (until : nat) : Meta.Net :=
  Meta.mkNet (fun _ => None) (fun _ => None)
    (fun n _ => inr (Meta.mkResponse (if (n <? until)%nat then bad else 200) "x")) (fun _ => true).
Definition demoOps : list op :=
  [mkOp (EvPreAccept true) (flakyNet 503 2) "token"; mkOp (EvAccept true) (flakyNet 503 1) "token";
   mkOp (EvTerminate "newtoken") (flakyNet 500 3) ""].
Definition demoEnded : manager := demo (inboundUp ++ businessEnds ++ replicate 9 go).

Lemma call_follows_protocol_witness :
  map about (concat (map (requestsOf Meta.New (cl (demoCell demoEnded 10))) demoOps)) =
    [Some ("wacid.0", "pre_accept"); Some ("wacid.0", "pre_accept"); Some ("wacid.0", "accept");
     Some ("wacid.0", "terminate"); Some ("wacid.0", "terminate"); Some ("wacid.0", "terminate")] /\
  exists i j k, (i <= 3 /\ j <= 3 /\ k <= 3)%nat /\
    map about (concat (map (requestsOf Meta.New (cl (demoCell demoEnded 10))) demoOps)) =
      replicate i (Some ("wacid.0", "pre_accept")) ++ replicate j (Some ("wacid.0", "accept")) ++
      replicate k (Some ("wacid.0", "terminate")).
Proof.
  split; [vm_compute; reflexivity|].
  destruct (call_follows_protocol testIP 0 testUnmarshal testCandidates id id demoSha Meta.New
    demoEnded 10 (demoCell demoEnded 10) demoOps (demo_reachable _)) as [(i & j & k & H & E & _) _].
  - vm_compute. reflexivity.
  - vm_compute. reflexivity.
  - repeat constructor; vm_compute; reflexivity.
  - exists i, j, k. split; [exact H|exact E].
Defined.
