(* ===== verification/ManagerIdle.v ===== *)
(** Who is responsible for a call that is not registered: the request that builds it,
    or the Dial that cleans it up during a shutdown. So when no request is in
    progress every call is registered or has released what it held. *)
From S2P Require Import Prelude Errors Sdp Call Manager.

Local Open Scope Z_scope.

(** [Some th] is the request responsible for the call at [l]. *)
Definition guards_for (th : option thread) (l : nat) : bool :=
  match th with
  | Some (TAcceptRegister _ k) | Some (TDialRegister k) | Some (TDialDraining k) => (k =? l)%nat
  | _ => false
  end.

Definition guarded (ths : gmap nat thread) (l : nat) (p : pc) : Prop :=
  match p with
  | Private t => guards_for (ths !! t) l = true
  | CSignal false | CDecide false | CTerminate false _ | CBridge false | CTransport false =>
      exists t, guards_for (ths !! t) l = true
  | _ => True
  end.

Definition guards (m : manager) : Prop :=
  forall l x, heap m !! l = Some x -> guarded (threads m) l (at_pc x).

(** A request that is not responsible for the call may do anything. *)
Lemma guarded_insert ths t y l p :
  guards_for (ths !! t) l = false -> guarded ths l p -> guarded (<[t := y]> ths) l p.
Proof.
  intros Hf Hg.
  assert (H : forall t', guards_for (ths !! t') l = true -> guards_for (<[t := y]> ths !! t') l = true).
  { intros t' Ht'. rewrite lookup_insert_ne; [done|]. intros ->. congruence. }
  unfold guarded in *. destruct p; auto; destruct reg; auto; destruct Hg as [t' ?]; eauto.
Qed.

Lemma guards_thread m t y :
  guards m -> (forall l, guards_for (threads m !! t) l = false) -> guards (set_thread m t y).
Proof. intros Hg Ht l x Hx. apply guarded_insert; [apply Ht|by apply Hg]. Qed.

(** The request [t] gives up, or takes, responsibility for the call at [l] only. *)
Lemma guards_move m m' t l x y :
  guards m -> heap m' = <[l := x]> (heap m) -> threads m' = <[t := y]> (threads m) ->
  (forall k, k <> l -> guards_for (threads m !! t) k = false) ->
  guarded (threads m') l (at_pc x) -> guards m'.
Proof.
  intros Hg Eh Et Ht Hx k z. rewrite Eh. destruct (decide (l = k)) as [->|Hne].
  - rewrite lookup_insert_eq. intros; by simplify_eq.
  - rewrite lookup_insert_ne by done. intros Hz. rewrite Et.
    apply guarded_insert; [by apply Ht|by apply Hg].
Qed.

(** Only the places of the calls matter. *)
Lemma guards_same m m' :
  guards m -> threads m' = threads m ->
  (forall l x', heap m' !! l = Some x' -> exists x, heap m !! l = Some x /\ at_pc x = at_pc x') ->
  guards m'.
Proof. intros Hg Et Hh l x' (x & Hx & <-)%Hh. rewrite Et. by apply Hg. Qed.

Lemma guards_on_call m l f : guards m -> guards (on_call m l f).
Proof.
  intros Hg. apply (guards_same m); [done..|]. intros k x'. rewrite on_call_lookup.
  destruct (heap m !! k) as [x|]; [|by destruct (decide (l = k))].
  destruct (decide (l = k)); simpl; intros [= <-]; by exists x.
Qed.

(** A call leaves responsibility only by being released, and never becomes private. *)
Lemma guarded_step max c p o c' p' new ths l :
  callStep max c p o = Some (c', p', new) -> guarded ths l p -> guarded ths l p'.
Proof.
  intros Hs Hg. step_cases Hs p; simpl in *; auto; destruct reg; auto.
Qed.

Section Idle.
Context (publicIP : Addr) (maxDuration : Z).
Context (Unmarshal : string -> result SessionDescription)
        (UnmarshalCandidate : string -> option candidate)
        (uniLower uniUpper : string -> string) (sha256 : list Z -> list Z).
Abbreviation step :=
  (step publicIP maxDuration Unmarshal UnmarshalCandidate uniLower uniUpper sha256).
Abbreviation reachable :=
  (reachable publicIP maxDuration Unmarshal UnmarshalCandidate uniLower uniUpper sha256).

Lemma guards_spawn m t y m' : guards m -> spawn m t y = Some m' -> guards m'.
Proof.
  unfold spawn. intros Hg H. destruct (threads m !! t) eqn:E; [done|]. simplify_eq.
  apply guards_thread; [done|]. intros l. by rewrite E.
Qed.

Lemma guards_runCall m l x o m' :
  guards m -> heap m !! l = Some x -> runCall maxDuration m l x o = Some m' -> guards m'.
Proof.
  intros Hg Hx H. unfold runCall in H.
  destruct (callStep maxDuration (cl x) (at_pc x) o) as [[[c p] new]|] eqn:Es; [|done].
  pose proof (guarded_step _ _ _ _ _ _ _ (threads m) l Es (Hg _ _ Hx)) as Hp.
  assert (Hm : heap m' = <[l := mkCell c p (evs x ++ new)]> (heap m) /\ threads m' = threads m)
    by (destruct (at_pc x); by simplify_eq).
  destruct Hm as [Eh Et]. intros k z. rewrite Eh, Et. destruct (decide (l = k)) as [->|].
  - rewrite lookup_insert_eq. intros; by simplify_eq.
  - rewrite lookup_insert_ne by done. apply Hg.
Qed.

Lemma guards_accept m a m' :
  guards m -> acceptStep publicIP Unmarshal UnmarshalCandidate uniLower uniUpper sha256 m a = Some m' ->
  guards m'.
Proof.
  intros Hg H. destruct a; try done; simpl in H.
  - by eapply guards_spawn.
  - destruct (threads m !! t) as [[]|] eqn:Et; try done. destruct (heap m !! l) eqn:El; [done|].
    destruct (prepareAccept _ _ _ _ _ _ _ _) as [[err|c] s]; simplify_eq/=.
    + apply guards_thread; [done|]. intros k. by rewrite Et.
    + eapply (guards_move m _ t l); [done|reflexivity..| |]; simpl.
      * intros k _. by rewrite Et.
      * rewrite lookup_insert_eq. apply Nat.eqb_refl.
  - destruct (threads m !! t) as [[]|] eqn:Et; try done. destruct (heap m !! l) as [x|] eqn:El; [|done].
    destruct (decide _); [|done]. unfold registerAccept in H.
    assert (Hk : forall k, k <> l -> guards_for (threads m !! t) k = false).
    { intros k Hk. rewrite Et. simpl. by apply Nat.eqb_neq. }
    destruct (calls m !! aCallID p) as [old|].
    + destruct (heap m !! old); simplify_eq. by eapply (guards_move m _ t l).
    + simplify_eq. by eapply (guards_move m _ t l).
  - destruct (threads m !! t) as [[]|] eqn:Et; try done. destruct (heap m !! l) as [x|]; [|done].
    destruct (wait _ _ _) as [[]|]; simplify_eq; (apply guards_thread; [done|]; intros k; by rewrite Et).
  - destruct (threads m !! t) as [[]|] eqn:Et; try done. simplify_eq.
    apply guards_thread; [by apply guards_on_call|]. intros k. simpl. by rewrite Et.
Qed.

Lemma guards_dial m a m' :
  guards m -> dialStep publicIP sha256 m a = Some m' -> guards m'.
Proof.
  intros Hg H. destruct a; try done; simpl in H.
  - by eapply guards_spawn.
  - destruct (threads m !! t) as [[]|] eqn:Et; try done. destruct (heap m !! l) eqn:El; [done|].
    destruct (prepareDial _ _ _ _) as [[err|c] s]; simplify_eq/=.
    + apply guards_thread; [done|]. intros k. by rewrite Et.
    + eapply (guards_move m _ t l); [done|reflexivity..| |]; simpl.
      * intros k _. by rewrite Et.
      * rewrite lookup_insert_eq. apply Nat.eqb_refl.
  - destruct (threads m !! t) as [[]|] eqn:Et; try done. destruct (heap m !! l) as [x|] eqn:El; [|done].
    destruct (decide _); [|done]. simplify_eq. unfold registerDial.
    assert (Hk : forall k, k <> l -> guards_for (threads m !! t) k = false).
    { intros k Hk. rewrite Et. simpl. by apply Nat.eqb_neq. }
    destruct (draining m); [|by eapply (guards_move m _ t l)].
    eapply (guards_move m _ t l); [done|reflexivity..|done|].
    exists t. simpl. rewrite lookup_insert_eq. apply Nat.eqb_refl.
  - destruct (threads m !! t) as [[]|] eqn:Et; try done. destruct (heap m !! l) as [x|] eqn:El; [|done].
    destruct (decide _) as [Ed|]; [|done]. simplify_eq. intros k z Hz. simpl in *.
    destruct (decide (k = l)) as [->|Hne]; [simplify_eq; by rewrite Ed|].
    apply guarded_insert; [|by apply Hg]. rewrite Et. by apply Nat.eqb_neq.
Qed.

Lemma guards_step m a m' : guards m -> step m a = Some m' -> guards m'.
Proof.
  intros Hg H. destruct a; cbn [Manager.step] in H;
    try (by eapply guards_accept); try (by eapply guards_dial).
  - by eapply guards_spawn.
  - simpl in H. destruct (threads m !! t) as [[]|] eqn:Et; try done.
    destruct (heap m !! l) as [x|]; [|done]. destruct (connectCall _ _) as [c e]. simplify_eq.
    apply guards_thread; [by apply guards_on_call|]. intros k. simpl. by rewrite Et.
  - simpl in H. destruct (threads m !! t) as [[]|] eqn:Et; try done.
    destruct (heap m !! l) as [x|]; [|done]. destruct (wait _ _ _); simplify_eq.
    apply guards_thread; [done|]. intros k. by rewrite Et.
  - by eapply guards_spawn.
  - simpl in H. destruct (threads m !! t) as [[]|] eqn:Et; try done. simplify_eq.
    apply guards_thread; [by apply guards_on_call|]. intros k. simpl. by rewrite Et.
  - simpl in H. destruct (threads m !! t) as [[]|] eqn:Et; try done. simplify_eq.
    apply guards_thread; [by apply guards_on_call|]. intros k. simpl. by rewrite Et.
  - eapply (guards_spawn (startShutdown m)); [|exact H]. apply (guards_same m); [done..|].
    intros l x'. simpl. rewrite stopAll_lookup.
    destruct (decide _), (heap m !! l) as [x|]; simpl; intros [= <-]; by exists x.
  - simpl in H. destruct (threads m !! t) as [[]|] eqn:Et; try done.
    destruct drained; [done|]. destruct (_ =? _); simplify_eq.
    apply guards_thread; [done|]. intros k. by rewrite Et.
  - simpl in H. destruct (threads m !! t) as [[]|] eqn:Et; try done.
    destruct ctxErr; [|destruct drained; [|done]]; simplify_eq;
      (apply guards_thread; [done|]; intros k; by rewrite Et).
  - destruct (heap m !! l) as [x|] eqn:El; [|done]. by eapply guards_runCall.
  - destruct (heap m !! l) as [x|] eqn:El; [|done].
    destruct (at_pc x); simplify_eq; by apply guards_on_call.
Qed.

Lemma guards_reachable m : reachable m -> guards m.
Proof. induction 1; [by intros l x ?|by eapply guards_step]. Qed.

(** No request in progress, apart from [main]'s own. *)
Definition idle (m : manager) (own : nat -> bool) : Prop :=
  forall t y, threads m !! t = Some y -> own t = true \/ exists r, y = TReturn r.

(** When no request is in progress, a call that the wait group does not count has
    released its socket and its bridge. *)
Lemma idle_released m own l x :
  reachable m -> idle m own -> (forall t y, own t = true -> threads m !! t = Some y ->
    forall k, guards_for (Some y) k = false) ->
  heap m !! l = Some x -> active (at_pc x) = false -> socket (cl x) <> Open /\ bridge (cl x) <> Open.
Proof.
  intros Hr Hi Hown Hx Ha. pose proof (guards_reachable m Hr l x Hx) as Hg.
  assert (Hno : forall t, guards_for (threads m !! t) l = true -> False).
  { intros t Ht. destruct (threads m !! t) as [y|] eqn:E; [|done].
    destruct (Hi _ _ E) as [Ho|[r ->]]; [|done]. by rewrite (Hown t y Ho E) in Ht. }
  assert (Hrel : released (at_pc x) = true).
  { destruct (at_pc x); simpl in *; try done; try (by exfalso; eauto);
      subst reg; destruct Hg as [t Ht]; exfalso; eauto. }
  destruct (i_cells _ (inv_reachable _ _ _ _ _ _ _ _ Hr) _ _ Hx). auto.
Qed.

End Idle.
