(* ===== verification/Service.v ===== *)
(** The RPC service and its authentication (internal/connector/service.go, auth.go):
    validation of the requests, what is asked of the call manager, how its answers are
    reported, and who may ask. The Twirp and LiveKit libraries are present through the
    fields of the requests and the result of token parsing. *)
From S2P Require Import Prelude Errors GoStrings Manager.
From Stdlib Require Import Ascii.

Local Open Scope Z_scope.

(** * Requests *)

Record SessionDesc := mkSD { sdType : string; sdSdp : string }.

(** The fields of the generated request messages that the service looks at; [None] is
    a nil message or field. Durations are in nanoseconds. *)
Record AcceptRequest := mkAcceptReq {
  ar_phone : string; ar_key : string; ar_version : string; ar_callID : string;
  ar_sdp : option SessionDesc; ar_room : string; ar_identity : string; ar_wait : bool;
  ar_ringing : option Z
}.
Record DisconnectRequest := mkDisconnectReq {
  dr_callID : string; dr_userInitiated : bool; dr_key : string
}.
Record DialRequest := mkDialReq {
  di_phone : string; di_to : string; di_key : string; di_version : string; di_opaque : string;
  di_room : string; di_identity : string; di_ringing : option Z
}.
Record ConnectRequest := mkConnectReq {
  cr_callID : string; cr_sdp : option SessionDesc; cr_wait : bool
}.

(** Twirp errors, by code. *)
Inductive twirpError :=
  | InvalidArgument (arg msg : string)
  | TwirpDeadline (msg : string)
  | Internal (e : error)
  | Unimplemented (msg : string).

(** [twirp.NewError(DeadlineExceeded, ...)] for an expired wait, or the error's text. *)
Definition setupError (e : error) : twirpError :=
  if errors_Is e Canceled || errors_Is e DeadlineExceeded
  then TwirpDeadline "WhatsApp call setup timed out" else InvalidArgument "call" (Error e).

(** The ringing timeout, when it is set and positive. *)
Definition ringing (d : option Z) (dflt : Z) : Z :=
  match d with Some x => if 0 <? x then x else dflt | None => dflt end.

Section Service.
(** The call manager, as the service calls it. *)
Context (mAccept : AcceptParams -> string * option error)
        (mDial : DialParams -> error + string * string)
        (mConnect : string -> string -> bool -> option error)
        (mDisconnect : string -> bool -> string -> option error).

Definition AcceptWhatsAppCall (req : option AcceptRequest) : twirpError + string :=
  match req with
  | None => inl (InvalidArgument "sdp" "an SDP offer is required")
  | Some r =>
      match ar_sdp r with
      | None => inl (InvalidArgument "sdp" "an SDP offer is required")
      | Some sd =>
          if negb (String.eqb (sdType sd) "offer")
          then inl (InvalidArgument "sdp" "an SDP offer is required")
          else
            let timeout := ringing (ar_ringing r) (30 * Second) in
            let '(room, err) := mAccept (mkAccept (ar_phone r) (ar_key r) (ar_version r) (ar_callID r)
                                           (sdSdp sd) (ar_room r) (ar_identity r) (ar_wait r) timeout) in
            match err with Some e => inl (setupError e) | None => inr room end
      end
  end.

Definition DisconnectWhatsAppCall (req : option DisconnectRequest) : twirpError + unit :=
  match req with
  | None => inl (InvalidArgument "whatsapp_call_id" "is required")
  | Some r =>
      if empty (dr_callID r) then inl (InvalidArgument "whatsapp_call_id" "is required")
      else
        let user := dr_userInitiated r in
        if negb user && empty (dr_key r)
        then inl (InvalidArgument "whatsapp_api_key" "is required for business-initiated disconnect")
        else match mDisconnect (dr_callID r) user (dr_key r) with
        | Some e => inl (Internal e)
        | None => inr tt
        end
  end.

Definition DialWhatsAppCall (req : option DialRequest) : twirpError + string * string :=
  match req with
  | None => inl (InvalidArgument "call" "phone number id, destination, API key and API version are required")
  | Some r =>
      if empty (di_phone r) || empty (di_to r) || empty (di_key r) || empty (di_version r)
      then inl (InvalidArgument "call" "phone number id, destination, API key and API version are required")
      else
        let timeout := ringing (di_ringing r) (45 * Second) in
        match mDial (mkDial (di_phone r) (di_key r) (di_version r) (di_to r) (di_opaque r) (di_room r)
                       (di_identity r) timeout) with
        | inl e => inl (InvalidArgument "call" (Error e))
        | inr idRoom => inr idRoom
        end
  end.

Definition ConnectWhatsAppCall (req : option ConnectRequest) : twirpError + unit :=
  match req with
  | None => inl (InvalidArgument "sdp" "a call id and SDP answer are required")
  | Some r =>
      match cr_sdp r with
      | None => inl (InvalidArgument "sdp" "a call id and SDP answer are required")
      | Some sd =>
          if empty (cr_callID r) || negb (String.eqb (sdType sd) "answer") || empty (sdSdp sd)
          then inl (InvalidArgument "sdp" "a call id and SDP answer are required")
          else match mConnect (cr_callID r) (sdSdp sd) (cr_wait r) with
          | Some e => inl (setupError e)
          | None => inr tt
          end
      end
  end.

Definition ConnectTwilioCall : twirpError + unit :=
  inl (Unimplemented "Twilio calling is not implemented").
End Service.

(** ** Properties of the service *)

(** A wait that ended because the call was cancelled or its time ran out is
    reported as a deadline, any other failure as an invalid argument with the
    manager's text, and success gives the room; the request reaches the manager only
    with an SDP offer, and always with a positive ringing timeout. *)
Theorem AcceptWhatsAppCall_spec mAccept req :
  match AcceptWhatsAppCall mAccept req with
  | inr room => exists r sd p, req = Some r /\ ar_sdp r = Some sd /\ sdType sd = "offer" /\
      0 < aTimeout p /\ aCallID p = ar_callID r /\ aSDP p = sdSdp sd /\ aWait p = ar_wait r /\
      mAccept p = (room, None)
  | inl e => (forall mAccept', AcceptWhatsAppCall mAccept' req = inl e) \/
      exists p room err, 0 < aTimeout p /\ mAccept p = (room, Some err) /\
        (e = TwirpDeadline "WhatsApp call setup timed out" <->
           errors_Is err Canceled || errors_Is err DeadlineExceeded = true) /\
        (errors_Is err Canceled || errors_Is err DeadlineExceeded = false ->
           e = InvalidArgument "call" (Error err))
  end.
Proof.
  unfold AcceptWhatsAppCall. destruct req as [r|]; [|by left].
  destruct (ar_sdp r) as [sd|] eqn:Esd; [|by left].
  destruct (String.eqb_spec (sdType sd) "offer") as [Et|]; simpl; [|by left].
  assert (Hpos : 0 < ringing (ar_ringing r) (30 * Second)).
  { unfold ringing. destruct (ar_ringing r) as [x|]; [destruct (Z.ltb_spec 0 x)|];
      unfold Second; lia. }
  destruct (mAccept _) as [room [err|]] eqn:Em.
  - right. eexists _, room, err. split; [|split; [exact Em|]]; [done|]. unfold setupError.
    destruct (_ || _); split; try done.
  - exists r, sd. eexists. conjs; try done; try exact Em; done.
Qed.

(** A business-initiated disconnect always carries the API key that the terminate
    request will use: the manager is asked to disconnect only a named call, and
    without a key only when the user ended the call; every other request is refused
    before the manager is asked. *)
Theorem DisconnectWhatsAppCall_needs_key mDisconnect req :
  DisconnectWhatsAppCall mDisconnect req = inr tt <->
  exists r, req = Some r /\ dr_callID r <> "" /\ (dr_userInitiated r = true \/ dr_key r <> "") /\
    mDisconnect (dr_callID r) (dr_userInitiated r) (dr_key r) = None.
Proof.
  unfold DisconnectWhatsAppCall. destruct req as [r|]; [|split; [done|intros (? & ? & _); done]].
  unfold empty. destruct (String.eqb_spec (dr_callID r) "") as [E|E].
  { split; [done|]. intros (? & [= <-] & ? & _). done. }
  destruct (negb (dr_userInitiated r) && String.eqb (dr_key r) "") eqn:Eg.
  { split; [done|]. intros (? & [= <-] & _ & [Hu|Hk] & _); [by rewrite Hu in Eg|].
    apply andb_true_iff in Eg as [_ Eg]. by apply String.eqb_eq in Eg. }
  destruct (mDisconnect _ _ _) as [e|] eqn:Em.
  { split; [done|]. intros (? & [= <-] & _ & _ & ?). congruence. }
  split; [|done]. intros _. exists r. conjs; auto.
  apply andb_false_iff in Eg as [Eg|Eg]; [left; by apply negb_false_iff|right; by apply String.eqb_neq].
Qed.

(** * Authentication *)

(** A parsed token: its API key, and [Verify], whose result is an error or the grants
    ([None]: nil), with the optional video grant and its RoomCreate flag. *)
Record apiToken := mkToken {
  tokKey : string;
  tokVerify : string -> option (option (option bool))
}.

Inductive authResult := Next | Unauthorized (msg : string).

(** [AuthMiddleware], on the Authorization header; [parse] is LiveKit's
    [auth.ParseAPIToken]. *)
Definition AuthMiddleware (parse : string -> option apiToken) (apiKey apiSecret header : string)
  : authResult :=
  if negb (HasPrefix header "Bearer ") then Unauthorized "missing bearer token"
  else match parse (TrimSpace (TrimPrefix header "Bearer ")) with
  | None => Unauthorized "invalid bearer token"
  | Some v =>
      if negb (String.eqb (tokKey v) apiKey) then Unauthorized "invalid bearer token"
      else match tokVerify v apiSecret with
      | Some (Some (Some true)) => Next
      | _ => Unauthorized "roomCreate permission required"
      end
  end.

Lemma prefix_split p : forall s, String.prefix p s = true -> exists rest, s = p +:+ rest.
Proof.
  induction p as [|a p IH]; intros s Hs; [by exists s|]. destruct s as [|b s]; [done|].
  cbn [String.prefix] in Hs. destruct (ascii_dec a b) as [<-|]; [|done].
  apply IH in Hs as [rest ->]. by exists rest.
Qed.

(** A request passes the middleware exactly when its header is a bearer token that
    parses, that was issued for the configured API key, whose signature verifies under
    the configured secret, and that grants room creation; anything else is answered
    401 and goes no further. *)
Lemma AuthMiddleware_admits_iff parse apiKey apiSecret header :
  AuthMiddleware parse apiKey apiSecret header = Next <->
  exists rest v, header = "Bearer " +:+ rest /\ parse (TrimSpace rest) = Some v /\
    tokKey v = apiKey /\ tokVerify v apiSecret = Some (Some (Some true)).
Proof.
  assert (Hpre : forall s, HasPrefix ("Bearer " +:+ s) "Bearer " = true) by (by intros []).
  assert (Htrim : forall s, TrimPrefix ("Bearer " +:+ s) "Bearer " = s).
  { intros s. unfold TrimPrefix. rewrite Hpre. unfold dropBytes.
    rewrite bytes_app, drop_app_length'; [apply of_bytes_bytes|done]. }
  unfold AuthMiddleware. split.
  - destruct (HasPrefix header "Bearer ") eqn:Ep; simpl; [|done].
    assert (Hx : exists rest, header = "Bearer " +:+ rest).
    { by apply prefix_split. }
    destruct Hx as [rest ->]. rewrite Htrim.
    destruct (parse (TrimSpace rest)) as [v|] eqn:Ev; [|done].
    destruct (String.eqb_spec (tokKey v) apiKey) as [Ek|]; simpl; [|done].
    destruct (tokVerify v apiSecret) as [[[[]|]|]|] eqn:Eg; try done.
    intros _. exists rest, v. auto.
  - intros (rest & v & -> & Hp & <- & Hv). rewrite Hpre, Htrim, Hp. simpl.
    rewrite String.eqb_refl. simpl. by rewrite Hv.
Qed.
