(* ===== verification/Program.v ===== *)
(** The program (cmd/whatsapp-connector/main.go): from the environment to the
    configuration of the manager, the HTTP routes, and the life of the process: it
    serves until a signal, then stops the HTTP server and the manager in this order
    within one window. The manager inside is the one of [Manager]; net/http appears
    through what its documentation promises of [Server.Shutdown]. *)
From S2P Require Import Prelude Errors GoStrings Sdp Call Manager ManagerProps ManagerIdle.
From S2P Require Config Ports Service Bridge.

Local Open Scope Z_scope.

(** * Wiring *)

(** [call.Config] *)
Record callConfig := mkCallConfig {
  LiveKitURL : string; APIKey : string; APISecret : string; PublicIP : Addr;
  PortMin : Z; PortMax : Z; SetupTimeout : Z; MediaTimeout : Z; MaxCallDuration : Z;
  RTCPInterval : Z; StatsInterval : Z
}.

(** The literal passed to [call.NewManager]. *)
Definition managerConfig (c : Config.Config) : callConfig :=
  mkCallConfig (Config.LiveKitURL c) (Config.LiveKitAPIKey c) (Config.LiveKitSecret c)
    (V4 (Config.PublicIP c)) (Config.PortMin c) (Config.PortMax c) (Config.SetupTimeout c)
    (Config.MediaTimeout c) (Config.MaxCallDuration c) (Config.RTCPInterval c)
    (Config.StatsInterval c).

(** The port allocator that [NewManager] puts into the manager. *)
Definition managerPorts (c : callConfig) : Ports.PortAllocator :=
  Ports.mkPorts (PortMin c) (PortMax c) 0.

(** Accept's time limit for the set-up of the transport: the request may shorten the
    configured one, not extend it. *)
Definition acceptSetupTimeout (c : callConfig) (timeout : Z) : Z :=
  if (0 <? timeout) && (timeout <? SetupTimeout c) then timeout else SetupTimeout c.
(** runOutbound's time limit for the answer. *)
Definition answerTimeout (c : callConfig) (timeout : Z) : Z :=
  if timeout <=? 0 then SetupTimeout c else timeout.

(** [livekitbridge.Config] as [connectBridge] fills it, without the participant's name,
    metadata, attributes and agents, which are passed through to LiveKit;
    [OnDisconnected] is the call's stopBusiness, [WriteToMeta] its writeToMeta. *)
Record bridgeConfig := mkBridgeConfig {
  bURL : string; bAPIKey : string; bAPISecret : string; RoomName : string; Identity : string;
  PayloadType : Z; OnDisconnected : option (Call -> Call)
}.
Definition bridgeConfigOf (conf : callConfig) (c : Call) (payload : Z) : bridgeConfig :=
  mkBridgeConfig (LiveKitURL conf) (APIKey conf) (APISecret conf) (room c) (identity c) payload
    (Some stopBusiness).
Definition connectBridge (conf : callConfig) (c : Call) (payload : Z)
    (token join track publish : option error) : Bridge.Bridge * option error :=
  let b := bridgeConfigOf conf c payload in
  Bridge.Connect (PayloadType b) (match OnDisconnected b with Some _ => true | None => false end)
    token join track publish.

(** ** Routes *)

(** What a request reaches: the RPC service, the health and metrics pages, or a
    refusal. *)
Inductive response :=
  | Twirp                         (* the generated RPC server, with the service *)
  | Refused (status : Z) (code msg : string)   (* writeAuthError *)
  | Health (status : Z) (body : string)
  | Metrics
  | NotFound.

(** [writeAuthError] *)
Definition writeAuthError (msg : string) : response := Refused 401 "unauthenticated" msg.

(** The mux: the service's subtree behind the middleware, and the two exact paths;
    [prefix] is [livekit.ConnectorPathPrefix], which ends in a slash. *)
Definition serveHTTP (prefix : string) (parse : string -> option Service.apiToken)
    (c : Config.Config) (path header : string) : response :=
  if HasPrefix path prefix then
    match Service.AuthMiddleware parse (Config.LiveKitAPIKey c) (Config.LiveKitSecret c) header with
    | Service.Next => Twirp
    | Service.Unauthorized msg => writeAuthError msg
    end
  else if String.eqb path "/healthz" then Health 200 ("ok" +:+ String (chr 10) "")
  else if String.eqb path "/metrics" then Metrics
  else NotFound.

(** * The process *)

Inductive phase := Serving | StoppingServer | StoppingManager | Exited (code : Z).

(** [serverErr] and [managerErr] are the results of the two Shutdown calls, which
    [main] ignores. *)
Record program := mkProgram {
  ph : phase;
  man : manager;
  serverErr : option error;
  managerErr : option error
}.

(** The start of [main]. *)
Definition boot (loaded : result Config.Config) : program :=
  mkProgram (match loaded with inl _ => Exited 2 | inr _ => Serving end) NewManager None None.

(** The goroutine of [main] when it calls [manager.Shutdown]. *)
Definition mainThread : nat := 0.

Inductive pevent :=
  | Request (a : action)                 (* a handler starts an operation of the manager *)
  | Progress (a : action)                (* a handler, a call or a callback goes on *)
  | ServeFails (closed : bool)           (* ListenAndServe returns; [closed]: ErrServerClosed *)
  | Signal                               (* SIGINT or SIGTERM *)
  | ServerStopped (e : option error)     (* server.Shutdown returns *)
  | ManagerDrained                       (* the goroutine of manager.Shutdown sees no call left *)
  | ManagerStopped (ctxErr : option error) (pickCtx : bool).  (* manager.Shutdown returns *)

(** The operations a handler can start (its goroutine is not that of [main]). *)
Definition isRequest (a : action) : bool :=
  match a with
  | CallAccept t _ | CallDial t _ | CallConnect t _ _ _ | CallDisconnect t _ _ _ =>
      negb (t =? mainThread)%nat
  | _ => false
  end.
Definition isProgress (a : action) : bool :=
  match a with
  | CallAccept _ _ | CallDial _ _ | CallConnect _ _ _ _ | CallDisconnect _ _ _ _
  | CallShutdown _ | DrainShutdown _ | ReturnShutdown _ _ _ => false
  | _ => true
  end.

Definition isReturn (y : thread) : bool := match y with TReturn _ => true | _ => false end.
(** A request between two of its steps. *)
Definition busy (y : thread) : bool := match y with TReturn _ | TShutdown _ => false | _ => true end.
Definition isMain (t : nat) : bool := (t =? mainThread)%nat.

Section Program.
Context (Unmarshal : string -> result SessionDescription)
        (UnmarshalCandidate : string -> option candidate)
        (uniLower uniUpper : string -> string) (sha256 : list Z -> list Z).
Context (conf : callConfig).
Abbreviation mstep := (Manager.step (PublicIP conf) (MaxCallDuration conf)
  Unmarshal UnmarshalCandidate uniLower uniUpper sha256).
Abbreviation mreachable := (Manager.reachable (PublicIP conf) (MaxCallDuration conf)
  Unmarshal UnmarshalCandidate uniLower uniUpper sha256).

Definition with_man (p : program) (m : option manager) : option program :=
  (fun m => mkProgram (ph p) m (serverErr p) (managerErr p)) <$> m.

(** Handlers can be started while the server serves; while it stops, by connections
    that were open; and after a stop that was cut short. *)
Definition accepting (p : program) : bool :=
  match ph p with
  | Serving | StoppingServer => true
  | StoppingManager => bool_decide (serverErr p <> None)
  | Exited _ => false
  end.

(** No handler is running. *)
Definition quiet (m : manager) : bool :=
  bool_decide (map_Forall (fun _ y => isReturn y = true) (threads m)).

(** One step of the process. [server.Shutdown] returns nil only when no connection
    is active. *)
Definition pstep (p : program) (ev : pevent) : option program :=
  match ev with
  | Request a => if accepting p && isRequest a then with_man p (mstep (man p) a) else None
  | Progress a =>
      match ph p with
      | Exited _ => None
      | _ => if isProgress a then with_man p (mstep (man p) a) else None
      end
  | ServeFails closed =>
      match ph p with
      | Exited _ => None
      | _ => Some (if closed then p else mkProgram (Exited 1) (man p) (serverErr p) (managerErr p))
      end
  | Signal =>
      match ph p with
      | Serving => Some (mkProgram StoppingServer (man p) (serverErr p) (managerErr p))
      | _ => None
      end
  | ServerStopped e =>
      match ph p with
      | StoppingServer =>
          if bool_decide (e = None) && negb (quiet (man p)) then None
          else (fun m => mkProgram StoppingManager m e (managerErr p)) <$>
               mstep (man p) (CallShutdown mainThread)
      | _ => None
      end
  | ManagerDrained =>
      match ph p with
      | StoppingManager => with_man p (mstep (man p) (DrainShutdown mainThread))
      | _ => None
      end
  | ManagerStopped ctxErr pick =>
      match ph p with
      | StoppingManager =>
          match mstep (man p) (ReturnShutdown mainThread ctxErr pick) with
          | Some m =>
              Some (mkProgram (Exited 0) m (serverErr p)
                (match threads m !! mainThread with Some (TReturn (Result r)) => r | _ => None end))
          | None => None
          end
      | _ => None
      end
  end.

Inductive preachable : program -> Prop :=
  | preach_init loaded : preachable (boot loaded)
  | preach_step p ev p' : preachable p -> pstep p ev = Some p' -> preachable p'.

Fixpoint psteps (p : program) (evs : list pevent) : option program :=
  match evs with
  | [] => Some p
  | ev :: evs => match pstep p ev with Some p' => psteps p' evs | None => None end
  end.

Lemma preachable_psteps evs : forall p p', preachable p -> psteps p evs = Some p' -> preachable p'.
Proof.
  induction evs as [|ev evs IH]; intros p p' Hp H; simpl in H; [by simplify_eq|].
  destruct (pstep p ev) eqn:E; [|done]. eapply IH; [|done]. by eapply preach_step.
Qed.

(** ** Invariant *)

(** Threads other than [main]'s have returned. *)
Definition returned (m : manager) : Prop :=
  forall t y, threads m !! t = Some y -> isMain t = false -> isReturn y = true.

Record pinv (p : program) : Prop := {
  p_man : mreachable (man p);
  p_main : match ph p with
           | Serving | StoppingServer => threads (man p) !! mainThread = None
           | StoppingManager => exists drained, threads (man p) !! mainThread = Some (TShutdown drained)
           | Exited _ => True
           end;
  p_quiet : ph p = StoppingManager -> serverErr p = None -> returned (man p) /\
    (threads (man p) !! mainThread = Some (TShutdown true) -> wg (man p) = 0);
  p_exit : ph p = Exited 0 -> serverErr p = None ->
    (forall t y, threads (man p) !! t = Some y -> isReturn y = true) /\
    (managerErr p = None -> wg (man p) = 0)
}.

(** Which thread a step of a handler, a call or a callback moves. *)
Lemma step_thread m a m' :
  isRequest a || isProgress a = true -> mstep m a = Some m' ->
  threads m' = threads m \/
  exists t y, threads m' = <[t := y]> (threads m) /\
    match threads m !! t with Some y0 => busy y0 = true | None => isMain t = false end.
Proof.
  intros Ha H. destruct a; cbn [isRequest isProgress orb] in Ha; try done; cbn [Manager.step] in H; simpl in H;
    unfold spawn in H;
    repeat match type of H with
    | match ?x with _ => _ end = Some _ => destruct x eqn:?; try done
    end; simplify_eq; unfold registerAccept, registerDial, runCall in *;
    repeat match goal with
    | H : match ?x with _ => _ end = Some _ |- _ => destruct x eqn:?; try done
    end; simplify_eq; simpl; auto;
    try (right; eexists _, _; split; [reflexivity|]);
    try (match goal with E : threads _ !! _ = _ |- _ => rewrite E end; try done);
    try (by apply negb_true_iff; rewrite orb_false_r in Ha).
  - right. destruct (draining m); (eexists _, _; split; [reflexivity|]; by rewrite Heqo).
  - left. by destruct (at_pc c).
Qed.

Lemma main_kept m a m' y :
  isRequest a || isProgress a = true -> mstep m a = Some m' ->
  (forall y0, y = Some y0 -> busy y0 = false) -> threads m !! mainThread = y ->
  threads m' !! mainThread = y.
Proof.
  intros Ha Hs Hy E. destruct (step_thread m a m' Ha Hs) as [->|(t & x & -> & Ht)]; [done|].
  rewrite lookup_insert_ne; [done|]. intros ->. rewrite E in Ht. destruct y as [y0|]; [|done].
  by rewrite (Hy y0 eq_refl) in Ht.
Qed.

(** With every handler returned, only the calls move. *)
Lemma returned_kept m a m' drained :
  isProgress a = true -> mstep m a = Some m' -> returned m ->
  threads m !! mainThread = Some (TShutdown drained) ->
  threads m' = threads m /\ (mreachable m -> wg m = 0 -> wg m' = 0).
Proof.
  intros Ha Hs Hq Hm. destruct a; try done; cbn [Manager.step] in Hs; simpl in Hs;
    try (destruct (threads m !! t) as [y|] eqn:Et; [|done];
         destruct (isMain t) eqn:Emain;
         [apply Nat.eqb_eq in Emain; subst t; rewrite Hm in Et; by simplify_eq|
          pose proof (Hq _ _ Et Emain); by destruct y]).
  - destruct (heap m !! l) as [x|] eqn:El; [|done]. unfold runCall in Hs.
    destruct (callStep _ _ _ _) as [[[]]|]; [|done].
    split; [destruct (at_pc x); by simplify_eq|]. intros Hr Hw.
    destruct (drained_empty m (inv_reachable _ _ _ _ _ _ _ _ Hr) Hw) as [_ Hact].
    specialize (Hact _ _ El). destruct (at_pc x); by simplify_eq.
  - destruct (heap m !! l) as [x|]; [|done]. destruct (at_pc x); by simplify_eq.
Qed.

Lemma quiet_returned m : quiet m = true -> forall t y, threads m !! t = Some y -> isReturn y = true.
Proof. unfold quiet. rewrite bool_decide_eq_true. intros H t y Hy. by apply (H t y Hy). Qed.

Lemma pinv_request p a m :
  pinv p -> accepting p = true -> isRequest a = true -> mstep (man p) a = Some m ->
  pinv (mkProgram (ph p) m (serverErr p) (managerErr p)).
Proof.
  intros [H1 H2 H3 H4] Hacc Ha Hs. split; simpl.
  - by eapply Manager.reach_step.
  - destruct (ph p) eqn:E; auto; [| |destruct H2 as [dr H2]; exists dr];
      (eapply main_kept; [by rewrite Ha|exact Hs| |exact H2]); intros ? ?; by simplify_eq.
  - intros E1 E2. unfold accepting in Hacc. rewrite E1, E2 in Hacc. done.
  - intros E1. unfold accepting in Hacc. by rewrite E1 in Hacc.
Qed.

Lemma pinv_progress p a m :
  pinv p -> (forall c, ph p <> Exited c) -> isProgress a = true -> mstep (man p) a = Some m ->
  pinv (mkProgram (ph p) m (serverErr p) (managerErr p)).
Proof.
  intros [H1 H2 H3 H4] Hne Ha Hs. split; simpl.
  - by eapply Manager.reach_step.
  - destruct (ph p) eqn:E; auto; [| |destruct H2 as [dr H2]; exists dr];
      (eapply main_kept; [by rewrite Ha, orb_true_r|exact Hs| |exact H2]); intros ? ?; by simplify_eq.
  - intros E1 E2. rewrite E1 in H2. destruct H2 as [dr H2]. destruct (H3 E1 E2) as [Hq Hd].
    destruct (returned_kept _ _ _ _ Ha Hs Hq H2) as [Et Hw].
    unfold returned. rewrite Et. split; [done|]. intros Hm. apply Hw; auto.
  - intros E1. by destruct (Hne 0).
Qed.

Lemma shutdown_result m t ctxErr pick m' :
  shutdownStep m (ReturnShutdown t ctxErr pick) = Some m' ->
  exists r, m' = set_thread m t (TReturn (Result r)) /\
    (r = None -> threads m !! t = Some (TShutdown true)).
Proof.
  simpl. destruct (threads m !! t) as [[]|]; try done. destruct ctxErr as [e|].
  - intros; simplify_eq. eexists. split; [reflexivity|]. destruct drained; [done|]. by destruct pick.
  - destruct drained; [|done]. intros; simplify_eq. by eexists.
Qed.

Lemma drain_result m t m' :
  shutdownStep m (DrainShutdown t) = Some m' ->
  m' = set_thread m t (TShutdown true) /\ wg m = 0.
Proof.
  simpl. destruct (threads m !! t) as [[]|]; try done. destruct drained; [done|].
  destruct (Z.eqb_spec (wg m) 0); [|done]. intros; by simplify_eq.
Qed.

(** The threads of the handlers are not those of [main]. *)
Lemma returned_set_main m y : returned m -> returned (set_thread m mainThread y).
Proof.
  intros Hq t y' Hy Hm. simpl in Hy. rewrite lookup_insert_ne in Hy; [by eapply Hq|].
  intros <-. done.
Qed.

Lemma pinv_step p ev p' : pinv p -> pstep p ev = Some p' -> pinv p'.
Proof.
  intros Hp H. destruct ev as [a|a|closed| |e| |ctxErr pick]; cbn [pstep] in H.
  - destruct (accepting p) eqn:Eacc, (isRequest a) eqn:Ea; try done. cbn [andb] in H.
    unfold with_man in H. destruct (mstep (man p) a) eqn:Es; [|done]. simplify_eq/=.
    by eapply pinv_request.
  - destruct (ph p) eqn:Ep; try done; (destruct (isProgress a) eqn:Ea; [|done]); unfold with_man in H;
      (destruct (mstep (man p) a) eqn:Es; [|done]); simplify_eq/=;
      eapply pinv_progress; eauto; congruence.
  - assert (E : p' = p \/ p' = mkProgram (Exited 1) (man p) (serverErr p) (managerErr p))
      by (destruct closed, (ph p); simplify_eq; auto).
    destruct E as [->| ->]; [done|]. destruct Hp. by split.
  - destruct Hp as [H1 H2 H3 H4]. destruct (ph p); simplify_eq. by split.
  - destruct Hp as [H1 H2 H3 H4]. destruct (ph p); try done. destruct (_ && _) eqn:Eq; [done|].
    cbn [Manager.step shutdownStep] in H. destruct (spawn _ _ _) as [m|] eqn:Es; [|done]. simplify_eq/=.
    assert (Et : threads m = <[mainThread := TShutdown false]> (threads (man p))).
    { unfold spawn in Es. destruct (threads (startShutdown (man p)) !! mainThread); by simplify_eq. }
    split; simpl; [by eapply (Manager.reach_step _ _ _ _ _ _ _ _ (CallShutdown mainThread))|
      by rewrite Et, lookup_insert_eq; eauto| |done].
    intros _ ->. rewrite Et at 1. rewrite lookup_insert_eq. split; [|done]. rewrite bool_decide_eq_true_2 in Eq by done. simpl in Eq.
    apply negb_false_iff in Eq. intros t y. rewrite Et. intros Hy Hm.
    rewrite lookup_insert_ne in Hy by (intros <-; done). by eapply quiet_returned.
  - destruct Hp as [H1 H2 H3 H4]. destruct (ph p) eqn:Ep; try done. unfold with_man in H.
    destruct (mstep (man p) (DrainShutdown mainThread)) as [m|] eqn:Es; [|done].
    pose proof (Manager.reach_step _ _ _ _ _ _ _ _ _ _ H1 Es) as Hr. simplify_eq/=.
    apply drain_result in Es as [-> Hw]. split; simpl; rewrite ?Ep; [done|by rewrite lookup_insert_eq; eauto| |done].
    intros _ E2. destruct (H3 eq_refl E2) as [Hq _]. split; [by apply returned_set_main|done].
  - destruct Hp as [H1 H2 H3 H4]. destruct (ph p); try done.
    destruct (mstep (man p) (ReturnShutdown mainThread ctxErr pick)) as [m|] eqn:Es; [|done]. simplify_eq.
    destruct (shutdown_result _ _ _ _ _ Es) as (r & -> & Hr).
    split; [by eapply Manager.reach_step|done|done|].
    intros _ E2. cbn [man managerErr threads set_thread serverErr] in *.
    rewrite lookup_insert_eq. destruct (H3 eq_refl E2) as [Hq Hd].
    split; [|intros E; by apply Hd, Hr]. intros t y.
    destruct (decide (mainThread = t)) as [<-|]; [rewrite lookup_insert_eq; intros; by simplify_eq|].
    rewrite lookup_insert_ne by done. intros Hy. eapply Hq; [exact Hy|].
    apply Nat.eqb_neq. congruence.
Qed.

Lemma pinv_reachable p : preachable p -> pinv p.
Proof.
  induction 1 as [loaded|]; [|by eapply pinv_step].
  split; simpl; [constructor|by destruct loaded|by destruct loaded|by destruct loaded].
Qed.

(** C11. A graceful stop leaves nothing behind: when the process exits after both
    Shutdown calls returned nil within the window, whatever requests, calls and
    callbacks ran meanwhile, no request is in progress, no call is registered or
    running, and every call object has closed its UDP socket and its bridge. (The
    order of the two calls matters: a request that the server still runs could
    register a call behind the manager's shutdown.) *)
Theorem graceful_exit_leaves_nothing p :
  preachable p -> ph p = Exited 0 -> serverErr p = None -> managerErr p = None ->
  calls (man p) = ∅ /\
  (forall t y, threads (man p) !! t = Some y -> isReturn y = true) /\
  (forall l x, heap (man p) !! l = Some x ->
     active (at_pc x) = false /\ socket (cl x) <> Open /\ bridge (cl x) <> Open).
Proof.
  intros [H1 _ _ H4]%pinv_reachable Ep Es Em. destruct (H4 Ep Es) as [Ht Hw].
  pose proof (inv_reachable _ _ _ _ _ _ _ _ H1) as Hinv.
  destruct (drained_empty _ Hinv (Hw Em)) as [Hc Hact]. conjs; [done..|].
  intros l x Hx. split; [by eapply Hact|].
  eapply (idle_released _ _ _ _ _ _ _ (man p) (fun _ => false)); [done| |done|done|by eapply Hact].
  intros t y Hy. right. pose proof (Ht _ _ Hy) as Hy'. destruct y; try done. eauto.
Qed.
End Program.

(** * From the environment to the calls *)

(** C22. Who reaches the service: with the configuration that was loaded, a request is
    handed to the RPC server exactly when its path is under the service's prefix and
    its header is a bearer token that parses, was issued for the key of the
    environment (which is not empty), verifies under the environment's secret (not
    empty either) and grants room creation; under the prefix everything else is
    answered 401, and no path outside it ever reaches the service. *)
Theorem service_reached_iff getenv oob prefix parse c path header :
  Config.Load getenv oob = inr c ->
  getenv "LIVEKIT_API_KEY" <> "" /\ getenv "LIVEKIT_API_SECRET" <> "" /\
  (serveHTTP prefix parse c path header = Twirp <->
   HasPrefix path prefix = true /\
   exists rest v, header = "Bearer " +:+ rest /\ parse (TrimSpace rest) = Some v /\
     Service.tokKey v = getenv "LIVEKIT_API_KEY" /\
     Service.tokVerify v (getenv "LIVEKIT_API_SECRET") = Some (Some (Some true))) /\
  (HasPrefix path prefix = true -> serveHTTP prefix parse c path header = Twirp \/
     exists msg, serveHTTP prefix parse c path header = Refused 401 "unauthenticated" msg).
Proof.
  intros Hc%Config.Load_valid. destruct (Config.cok_key _ _ Hc) as [Ek Hk].
  destruct (Config.cok_secret _ _ Hc) as [Es Hs]. rewrite <- Ek, <- Es. conjs; auto.
  - rewrite <- Service.AuthMiddleware_admits_iff. unfold serveHTTP.
    destruct (HasPrefix path prefix).
    + destruct (Service.AuthMiddleware _ _ _ _); by intuition.
    + split; [|by intros []]. by destruct (String.eqb path "/healthz"), (String.eqb path "/metrics").
  - unfold serveHTTP. intros ->. destruct (Service.AuthMiddleware _ _ _ _); [by left|right; by eexists].
Qed.

(** C23. A configuration that loads can carry calls: every port the allocator hands
    out makes a valid offer (never "invalid local transport"), with the configured
    address and that port as its local endpoint. Whatever timeout a request asks for,
    the set-up of an accepted call has a positive limit that is at most the configured
    one, and exactly the requested one when that is shorter; a dialled call waits for
    its answer for the requested time when that is positive (with no upper bound) and
    for the configured, positive time otherwise; and the duration cap is armed. *)
Theorem loaded_configuration_usable {conn} getenv oob c (listen : Z -> option conn) next port s :
  Config.Load getenv oob = inr c ->
  let cc := managerConfig c in
  snd (Ports.Listen listen (Ports.mkPorts (Ports.Min (managerPorts cc)) (Ports.Max (managerPorts cc)) next))
    = inr (port, s) ->
  (forall now b1 b2 cert, exists n,
     NewOffer now (inr b1) (inr b2) (Some cert) (PublicIP cc) port = inr n /\
     Local n = AddrPortFrom (PublicIP cc) port /\ 1024 <= port <= 65535) /\
  (forall t, 0 < acceptSetupTimeout cc t <= SetupTimeout cc /\
     (0 < t <= SetupTimeout cc -> acceptSetupTimeout cc t = t) /\
     (t <= 0 \/ SetupTimeout cc <= t -> acceptSetupTimeout cc t = SetupTimeout cc)) /\
  (forall t, 0 < answerTimeout cc t /\ (0 < t -> answerTimeout cc t = t) /\
     (t <= 0 -> answerTimeout cc t = SetupTimeout cc)) /\
  0 < MaxCallDuration cc.
Proof.
  intros Hc%Config.Load_valid cc Hl. apply Ports.Listen_in_range in Hl. simpl in Hl.
  pose proof (Config.cok_ports _ _ Hc) as Hp. pose proof (Config.cok_setup _ _ Hc) as Hs.
  pose proof (Config.cok_max _ _ Hc) as Hm. unfold Config.positive_duration in *. conjs.
  - intros now b1 b2 cert. unfold NewOffer, credential. cbn [Is4 PublicIP cc managerConfig negb].
    destruct (Z.ltb_spec port 1), (Z.ltb_spec 65535 port); try lia. simpl.
    eexists. split; [reflexivity|]. simpl. split; [|lia]. by rewrite u16_small by (unfold is_u16; lia).
  - intros t. unfold acceptSetupTimeout. simpl. bool_to_prop; simpl; lia.
  - intros t. unfold answerTimeout. simpl. bool_to_prop; simpl; lia.
  - simpl. lia.
Qed.

(** * Instances *)

Definition demoGetenv (k : string) : string :=
  if String.eqb k "PUBLIC_IP" then "203.0.113.20"
  else if String.eqb k "LIVEKIT_API_KEY" then "key"
  else if String.eqb k "LIVEKIT_API_SECRET" then "secret" else "".
Definition demoConf : Config.Config :=
  match Config.Load demoGetenv (fun _ => 0) with
  | inr c => c
  | inl _ => Config.mkConfig "" "" "" "" (mkAddr4 0 0 0 0) 0 0 0 0 0 0 0 0
  end.
Definition demoToken (s : string) : option Service.apiToken :=
  if String.eqb s "tok" then
    Some (Service.mkToken "key" (fun secret => if String.eqb secret "secret" then Some (Some (Some true)) else None))
  else None.

Lemma service_reached_iff_witness :
  Config.Load demoGetenv (fun _ => 0) = inr demoConf /\
  serveHTTP "/twirp/livekit.Connector/" demoToken demoConf "/twirp/livekit.Connector/Accept" "Bearer tok" = Twirp.
Proof.
  assert (E : Config.Load demoGetenv (fun _ => 0) = inr demoConf) by (vm_compute; reflexivity).
  split; [exact E|].
  apply (service_reached_iff demoGetenv (fun _ => 0) "/twirp/livekit.Connector/" demoToken demoConf _ _ E).
  split; [reflexivity|]. eexists "tok", _. repeat (split; [reflexivity|]). reflexivity.
Defined.

Lemma loaded_configuration_usable_witness :
  0 < acceptSetupTimeout (managerConfig demoConf) 5.
Proof.
  assert (E : Config.Load demoGetenv (fun _ => 0) = inr demoConf) by (vm_compute; reflexivity).
  destruct (loaded_configuration_usable demoGetenv (fun _ => 0) demoConf (fun _ => Some tt) 7 40007 tt E)
    as (_ & H & _ & _); [vm_compute; reflexivity|]. apply H.
Defined.

(** A call is accepted and runs, a signal arrives, the request returns, the server
    and the manager stop. *)
Definition demoCallConf : callConfig := managerConfig demoConf.
Definition demoEvents : list pevent :=
  [Request (CallAccept 1 (demoAccept false)); Progress (BuildAccept 1 10 demoEnv);
   Progress (RegisterAccept 1); Progress go; Signal; ServeFails true; ServerStopped None] ++
  replicate 13 (Progress go) ++ [ManagerDrained; ManagerStopped None false].
Definition demoProgram : program :=
  default (boot (inr demoConf))
    (psteps testUnmarshal testCandidates id id demoSha demoCallConf (boot (inr demoConf)) demoEvents).

Lemma graceful_exit_leaves_nothing_witness :
  ph demoProgram = Exited 0 /\ is_Some (heap (man demoProgram) !! 10%nat) /\
  calls (man demoProgram) = ∅.
Proof.
  assert (E : psteps testUnmarshal testCandidates id id demoSha demoCallConf
    (boot (inr demoConf)) demoEvents = Some demoProgram) by (vm_compute; reflexivity).
  assert (Ep : ph demoProgram = Exited 0) by (vm_compute; reflexivity).
  split; [exact Ep|]. split; [vm_compute; eauto|].
  apply (graceful_exit_leaves_nothing testUnmarshal testCandidates id id demoSha demoCallConf demoProgram);
    [|exact Ep|vm_compute; reflexivity..].
  eapply preachable_psteps; [apply preach_init|exact E].
Defined.
